(** * vkapi: the Vulkan registry loader, embedded and verified

    A shallow embedding of [vkapi/vkapi.py]: the modifier parser, the command
    and enum constructors, the type catalog held as a store of objects with
    identity, alias resolution, the handle lineage query and the filter. *)

From Stdlib Require Import ZArith String Ascii List Lia Bool.
From stdpp Require Import base option list strings relations.

Set Warnings "-register-all".

Local Open Scope string_scope.
Local Open Scope Z_scope.

(** ** Exceptions and results

    A Python call either returns, raises, or (in a model that recurses on a
    fuel counter) is cut short.  [except ValueError] catches one constructor
    only, so the exception classes are kept apart. *)

Inductive exn :=
| KeyError | AttributeError | ValueError | TypeError | IndexError
| AssertionError
| NoObject. (* an address outside the store: no run of the program makes one *)

Inductive result (A : Type) :=
| Ok (a : A)
| Raise (e : exn)
| OutOfFuel.

Arguments Ok {A} a.
Arguments Raise {A} e.
Arguments OutOfFuel {A}.

Definition bind {A B} (r : result A) (k : A -> result B) : result B :=
  match r with
  | Ok a => k a
  | Raise e => Raise e
  | OutOfFuel => OutOfFuel
  end.

Notation "'let!' x ':=' r 'in' k" := (bind r (fun x => k))
  (at level 10, x pattern, r at level 100, k at level 200).

(** [o or_raise e]: the value of [o], or the exception [e] when it is None. *)
Definition or_raise {A} (o : option A) (e : exn) : result A :=
  match o with Some a => Ok a | None => Raise e end.

(** [bind_step H as x E]: in [H : bind r k = Ok b], name the value of [r]. *)
Tactic Notation "bind_step" hyp(H) "as" simple_intropattern(x) ident(E) :=
  match type of H with
  | bind ?r _ = Ok _ =>
      destruct r as [x| |] eqn:E; simpl in H;
      [|discriminate H|discriminate H]
  end.

(** ** Python values and built-ins *)

Module Py.

(** An enum value or a fixed array length is an [int] or the raw [str]. *)
Inductive value :=
| VInt (z : Z)
| VStr (s : string).

Definition is_int (v : value) : bool :=
  match v with VInt _ => true | VStr _ => false end.

(** *** str *)

Definition ascii_in (lo hi : nat) (c : ascii) : bool :=
  (Nat.leb lo (nat_of_ascii c) && Nat.leb (nat_of_ascii c) hi)%bool.

(** [str.isspace] on the ASCII range: tab to carriage return, the four
    separators 0x1c..0x1f and the blank. *)
Definition is_space (c : ascii) : bool :=
  (ascii_in 9 13 c || ascii_in 28 32 c)%bool.

(** A character of the regex class [\w]. *)
Definition is_word (c : ascii) : bool :=
  (ascii_in 48 57 c || ascii_in 65 90 c || ascii_in 97 122 c
   || Ascii.eqb c "_")%bool.

Definition is_digit (c : ascii) : bool := ascii_in 48 57 c.

Fixpoint lstrip (s : string) : string :=
  match s with
  | String c r => if is_space c then lstrip r else s
  | EmptyString => EmptyString
  end.

Fixpoint rstrip (s : string) : string :=
  match s with
  | EmptyString => EmptyString
  | String c r =>
      match rstrip r with
      | EmptyString => if is_space c then EmptyString else String c EmptyString
      | r' => String c r'
      end
  end.

Definition strip (s : string) : string := rstrip (lstrip s).

Fixpoint startswith (p s : string) : bool :=
  match p, s with
  | EmptyString, _ => true
  | String a p', String b s' => (Ascii.eqb a b && startswith p' s')%bool
  | String _ _, EmptyString => false
  end.

(** [s[n:]] *)
Fixpoint drop (n : nat) (s : string) : string :=
  match n, s with
  | O, _ => s
  | S n', String _ r => drop n' r
  | S _, EmptyString => EmptyString
  end.

(** [s.split(sep)] for a one-character separator: never the empty list. *)
Fixpoint split (sep : ascii) (s : string) : list string :=
  match s with
  | EmptyString => [EmptyString]
  | String c r =>
      if Ascii.eqb c sep then EmptyString :: split sep r
      else match split sep r with
           | h :: t => String c h :: t
           | [] => [String c EmptyString]
           end
  end.

Definition nonempty (s : string) : bool :=
  match s with EmptyString => false | _ => true end.

(** [[x for x in s.split(',') if x]] *)
Definition split_nonempty (s : string) : list string :=
  List.filter nonempty (split "," s).

(** The longest prefix of [s] whose characters satisfy [p], and the rest:
    what [re.match] returns for a starred character class. *)
Fixpoint span (p : ascii -> bool) (s : string) : string * string :=
  match s with
  | String c r =>
      if p c then let '(a, b) := span p r in (String c a, b)
      else (EmptyString, s)
  | EmptyString => (EmptyString, EmptyString)
  end.

(** *** int(str, base) *)

Definition digit_val (base : Z) (c : ascii) : option Z :=
  let n := Z.of_nat (nat_of_ascii c) in
  let d := if is_digit c then Some (n - 48)
           else if ascii_in 97 122 c then Some (n - 87)
           else if ascii_in 65 90 c then Some (n - 55)
           else None in
  match d with
  | Some v => if v <? base then Some v else None
  | None => None
  end.

(** Digits with single underscores between them; [sep] tells that the
    previous character was an underscore (or a base prefix, after which
    one underscore may stand) and [any] that a digit has been read. *)
Fixpoint digits (base : Z) (acc : Z) (sep any : bool) (s : string) : option Z :=
  match s with
  | EmptyString => if (any && negb sep)%bool then Some acc else None
  | String c r =>
      if Ascii.eqb c "_" then
        if (sep || negb any)%bool then None else digits base acc true any r
      else match digit_val base c with
           | Some d => digits base (acc * base + d) false true r
           | None => None
           end
  end.

Definition unsigned (base : Z) (s : string) : option Z :=
  if ((base =? 16) && (startswith "0x" s || startswith "0X" s))%bool then
    match drop 2 s with
    | String "_" r => digits base 0 true false r
    | r => digits base 0 false false r
    end
  else digits base 0 false false s.

(** [int(s, base)]: blanks stripped, an optional sign, for base 16 an
    optional [0x], then the digits (those of the ASCII range).
    [ValueError] otherwise. *)
Definition int (base : Z) (s : string) : result Z :=
  let s := strip s in
  let r := match s with
           | String "-" r => option_map Z.opp (unsigned base r)
           | String "+" r => unsigned base r
           | _ => unsigned base s
           end in
  or_raise r ValueError.

(** [int(o)] where [o] may be None: [TypeError] on None. *)
Definition int_opt (base : Z) (o : option string) : result Z :=
  match o with
  | Some s => int base s
  | None => Raise TypeError
  end.

(** *** dict

    A Python dict keeps insertion order; [d[k] = v] on a key already there
    replaces the value where it stands. *)

Definition dict (K V : Type) := list (K * V).

Section dict.
Context {K V : Type} `{EqDecision K}.

Fixpoint get (d : dict K V) (k : K) : option V :=
  match d with
  | [] => None
  | (k', v) :: r => if decide (k' = k) then Some v else get r k
  end.

Fixpoint set (d : dict K V) (k : K) (v : V) : dict K V :=
  match d with
  | [] => [(k, v)]
  | (k', v') :: r =>
      if decide (k' = k) then (k', v) :: r else (k', v') :: set r k v
  end.

(** [del d[k]]: a dict holds a key once, and in a list that should hold
    it more often every one of its entries goes. *)
Fixpoint del (d : dict K V) (k : K) : dict K V :=
  match d with
  | [] => []
  | (k', v') :: r => if decide (k' = k) then del r k else (k', v') :: del r k
  end.

Definition keys (d : dict K V) : list K := List.map fst d.
Definition values (d : dict K V) : list V := List.map snd d.

(** [d[k]], raising [KeyError]. *)
Definition getitem (d : dict K V) (k : K) : result V :=
  or_raise (get d k) KeyError.

Definition contains (d : dict K V) (k : K) : bool :=
  match get d k with Some _ => true | None => false end.
End dict.

(** The keys of the registry's maps are what [get] and [text] return: a
    [str] or None. *)
Definition key := option string.

End Py.

(** ** The XML document

    An [xml.etree.ElementTree.Element]: tag, attributes, the text before the
    first child, the children, and the text after the closing tag. *)

Module XML.

Inductive Element := mkElement {
  tag : string;
  attrib : Py.dict string string;
  text : option string;
  children : list Element;
  tail : option string
}.

(** [e.get(k)] and [e.get(k, default)] *)
Definition get (e : Element) (k : string) : option string :=
  Py.get (attrib e) k.

Definition get_default (e : Element) (k d : string) : string :=
  default d (get e k).

(** [e.findall(t)] and [e.find(t)] for a plain tag: direct children. *)
Definition findall (e : Element) (t : string) : list Element :=
  List.filter (fun c => String.eqb (tag c) t) (children e).

Definition find (e : Element) (t : string) : option Element :=
  head (findall e t).

(** A path [t1/t2/...]: children of children. *)
Fixpoint findall_path (e : Element) (path : list string) : list Element :=
  match path with
  | [] => [e]
  | t :: path' => flat_map (fun c => findall_path c path') (findall e t)
  end.

Definition find_path (e : Element) (path : list string) : option Element :=
  head (findall_path e path).

(** [e.find(t).text]: [AttributeError] when there is no such child. *)
Definition find_text (e : Element) (path : list string) : result (option string) :=
  let! c := or_raise (find_path e path) AttributeError in Ok (text c).

End XML.

(** ** Type modifiers and fields *)

(** Objects of the type catalog live in a store; an address is the identity
    of an object. *)
Abbreviation addr := nat (only parsing).

Module Field.

Import XML.

(** [DynamicArray.parent] is the struct or command under construction. *)
Inductive owner :=
| OwnerStruct (name : string)
| OwnerCommand (name : option string).

(** The type of a member or parameter: at the bottom a [TypeRef] as
    [parse_parameter_or_member] leaves it, or the catalog object that
    [__resolve_typeref] puts in its place; around it the modifiers, which
    are made afresh for each field and shared with nothing. *)
Inductive Ty :=
| TypeRef (ref : option string)
| Obj (a : addr)
| FixedArray (is_const : bool) (base_type : Ty) (length : Py.value)
| DynamicArray (is_const : bool) (base_type : Ty) (length : string) (parent : owner)
| NextPtr (is_const : bool) (base_type : Ty)
| Pointer (is_const : bool) (base_type : Ty).

(** An f-string prints None as [None]. *)
Definition fmt (o : option string) : string := default "None" o.

Definition modifier_name (is_const : bool) (cls : string) (base : option string) : option string :=
  Some ((if is_const then "Const" else "") ++ cls ++ "(" ++ fmt base ++ ")").

(** The [name] property.  The name of a catalog object is read from the
    store, here through [obj_name]. *)
Fixpoint name (obj_name : addr -> option string) (t : Ty) : option string :=
  match t with
  | TypeRef r => r
  | Obj a => obj_name a
  | FixedArray c b _ => modifier_name c "FixedArray" (name obj_name b)
  | DynamicArray c b _ _ => modifier_name c "DynamicArray" (name obj_name b)
  | NextPtr c b => modifier_name c "NextPtr" (name obj_name b)
  | Pointer c b => modifier_name c "Pointer" (name obj_name b)
  end.

Record _PointerLevel := mkLevel {
  pl_is_const : bool;
  pl_is_fixed_array : bool;
  pl_length : option string
}.

Record Field := mkField {
  f_name : option string;
  f_type : Ty;
  is_optional : bool;
  is_output : bool;
  bit_size : option Z;
  f_values : list string;
  xml_node : Element
}.

(** *** _parse_type_modifiers *)

Inductive token := TokStruct | TokConst | TokStar | TokBracket | TokColon.

(** [\b] after a word: the end of the string or a non-word character. *)
Definition boundary (rest : string) : bool :=
  match rest with
  | EmptyString => true
  | String c _ => negb (Py.is_word c)
  end.

(** [type_regex.match(type_str)]: the token at the start of the string and
    its length, the alternatives tried in the order of the pattern. *)
Definition match_token (s : string) : option (token * nat) :=
  if (Py.startswith "struct" s && boundary (Py.drop 6 s))%bool then Some (TokStruct, 6%nat)
  else if (Py.startswith "const" s && boundary (Py.drop 5 s))%bool then Some (TokConst, 5%nat)
  else if Py.startswith "*" s then Some (TokStar, 1%nat)
  else if Py.startswith "[" s then Some (TokBracket, 1%nat)
  else if Py.startswith ":" s then Some (TokColon, 1%nat)
  else None.

(** The declarator text: [me.text], then for each child its text (unless it
    is the type, the name or a comment) and its tail. *)
Definition child_text (e : Element) : string :=
  (match text e with
   | Some t =>
       if (negb (String.eqb (tag e) "type") && negb (String.eqb (tag e) "name")
           && negb (String.eqb (tag e) "comment"))%bool then t else ""
   | None => ""
   end) ++ default "" (tail e).

Definition declarator (me : Element) : string :=
  Py.strip (fold_left (fun acc e => acc ++ child_text e) (children me)
                      (default "" (text me))).

Definition not_rbracket (c : ascii) : bool := negb (Ascii.eqb c "]").

(** The [while len(type_str) > 0] loop.  Every turn consumes the token, so
    the length of the string is fuel enough. *)
Fixpoint tokens (fuel : nat) (type_str : string) (is_const : bool)
    (pointer_levels : list _PointerLevel) (bits : option Z)
  : result (list _PointerLevel * option Z) :=
  match type_str with
  | EmptyString => Ok (pointer_levels, bits)
  | _ =>
    match fuel with
    | O => OutOfFuel
    | S fuel =>
      let! (tok, n) := or_raise (match_token type_str) AttributeError in
      let type_str := Py.strip (Py.drop n type_str) in
      match tok with
      | TokStruct => tokens fuel type_str is_const pointer_levels bits
      | TokConst => tokens fuel type_str true pointer_levels bits
      | TokStar =>
          tokens fuel type_str false
                 (pointer_levels ++ [mkLevel is_const false None]) bits
      | TokBracket =>
          let length := fst (Py.span not_rbracket type_str) in
          if Py.nonempty length then
            let type_str := Py.strip (Py.drop (String.length length + 1) type_str) in
            tokens fuel type_str is_const
                   (pointer_levels ++ [mkLevel is_const true (Some length)]) bits
          else Raise TypeError
      | TokColon =>
          let b := fst (Py.span Py.is_digit type_str) in
          if Py.nonempty b then
            let type_str := Py.strip (Py.drop (String.length b) type_str) in
            let! z := Py.int 10 b in
            tokens fuel type_str is_const pointer_levels (Some z)
          else Raise TypeError
      end
    end
  end.

(** [pointer_levels[i].length = dynamic_lengths[i]] for each i. *)
Fixpoint assign_lengths (i : nat) (dynamic_lengths : list string)
    (pointer_levels : list _PointerLevel) : result (list _PointerLevel) :=
  match dynamic_lengths with
  | [] => Ok pointer_levels
  | l :: rest =>
      let! p := or_raise (pointer_levels !! i) IndexError in
      if pl_is_fixed_array p then Raise AssertionError
      else assign_lengths (S i) rest
             (<[i := mkLevel (pl_is_const p) (pl_is_fixed_array p) (Some l)]> pointer_levels)
  end.

Definition _parse_type_modifiers (me : Element)
  : result (list _PointerLevel * option Z) :=
  let type_str := declarator me in
  let! (pointer_levels, bits) := tokens (String.length type_str) type_str false [] None in
  let len_str := match get me "altlen" with
                 | Some s => Some s
                 | None => get me "len"
                 end in
  let dynamic_lengths := match len_str with
                         | Some s => Py.split "," s
                         | None => []
                         end in
  let! pointer_levels := assign_lengths 0 dynamic_lengths pointer_levels in
  Ok (pointer_levels, bits).

(** *** parse_parameter_or_member *)

(** An entry of [registry.aliases]: a [TypeAlias] (whose [name] is read) or,
    for a command alias, the target's name as a [str], which has no [name]. *)
Inductive alias_entry :=
| AliasType (name : option string)
| AliasCommand (target : option string).

Definition alias_name (a : alias_entry) : result (option string) :=
  match a with
  | AliasType n => Ok n
  | AliasCommand _ => Raise AttributeError
  end.

(** [int(length)] under [except ValueError: pass]. *)
Definition fixed_length (length : option string) : result Py.value :=
  match length with
  | None => Raise TypeError
  | Some s =>
      match Py.int 10 s with
      | Ok z => Ok (Py.VInt z)
      | Raise ValueError => Ok (Py.VStr s)
      | Raise e => Raise e
      | OutOfFuel => OutOfFuel
      end
  end.

Definition opt_eqb (o : option string) (s : string) : bool :=
  match o with Some x => String.eqb x s | None => false end.

(** One turn of [for ptr in reversed(pointer_levels)]. *)
Definition wrap (obj_name : addr -> option string) (fname : option string)
    (parent : owner) (t : Ty) (ptr : _PointerLevel) : result Ty :=
  if pl_is_fixed_array ptr then
    let! length := fixed_length (pl_length ptr) in
    Ok (FixedArray (pl_is_const ptr) t length)
  else match pl_length ptr with
       | Some l =>
           if String.eqb l "null-terminated" then Ok (TypeRef (Some "string"))
           else Ok (DynamicArray (pl_is_const ptr) t l parent)
       | None =>
           if (opt_eqb (name obj_name t) "void" && opt_eqb fname "pNext")%bool
           then Ok (NextPtr (pl_is_const ptr) t)
           else Ok (Pointer (pl_is_const ptr) t)
       end.

Fixpoint wrap_all (obj_name : addr -> option string) (fname : option string)
    (parent : owner) (t : Ty) (levels : list _PointerLevel) : result Ty :=
  match levels with
  | [] => Ok t
  | ptr :: rest =>
      let! t := wrap obj_name fname parent t ptr in
      wrap_all obj_name fname parent t rest
  end.

(** Of the registry the function reads [aliases] only; [obj_name] stands for
    the store, through which the [name] of a type is read. *)
Definition parse_parameter_or_member (obj_name : addr -> option string)
    (aliases : Py.dict Py.key alias_entry)
    (me : Element) (parent : owner) : result Field :=
  let! fname := find_text me ["name"] in
  let! base_type_name := find_text me ["type"] in
  let! base_type_name :=
    match Py.get aliases base_type_name with
    | Some a => alias_name a
    | None => Ok base_type_name
    end in
  let base_type := TypeRef base_type_name in
  let! (pointer_levels, bits) := _parse_type_modifiers me in
  let! t := wrap_all obj_name fname parent base_type (rev pointer_levels) in
  let is_pointer := match pointer_levels with
                    | p :: _ => negb (pl_is_fixed_array p)
                    | [] => false
                    end in
  let is_const := match pointer_levels with
                  | p :: _ => pl_is_const p
                  | [] => false
                  end in
  Ok {| f_name := fname;
        f_type := t;
        is_optional := String.eqb (get_default me "optional" "") "true";
        is_output := (is_pointer && negb is_const)%bool;
        bit_size := bits;
        f_values := Py.split_nonempty (get_default me "values" "");
        xml_node := me |}.

(** Elements as the registry writes them. *)
Definition leaf (t s : string) (tl : option string) : Element :=
  mkElement t [] (Some s) [] tl.

Definition member (attrs : Py.dict string string) (txt : option string)
    (kids : list Element) : Element :=
  mkElement "member" attrs txt kids None.

Definition param (attrs : Py.dict string string) (txt : option string)
    (kids : list Element) : Element :=
  mkElement "param" attrs txt kids None.

(** [<member len="null-terminated"><type>char</type>* <name>pName</name></member>] *)
Definition ex_pName : Element :=
  member [("len", "null-terminated")] None
         [leaf "type" "char" (Some "* "); leaf "name" "pName" None].

(** [<member optional="true"><type>void</type>* <name>pNext</name></member>] *)
Definition ex_pNext : Element :=
  member [("optional", "true")] None
         [leaf "type" "void" (Some "* "); leaf "name" "pNext" None].

(** [<param><type>VkImage</type>* <name>pImage</name></param>] *)
Definition ex_pImage : Element :=
  param [] None [leaf "type" "VkImage" (Some "* "); leaf "name" "pImage" None].

(** [<param len="bindingCount">const <type>VkDeviceSize</type>* <name>pOffsets</name></param>] *)
Definition ex_pOffsets : Element :=
  param [("len", "bindingCount")] (Some "const ")
        [leaf "type" "VkDeviceSize" (Some "* "); leaf "name" "pOffsets" None].

(** [<member><type>float</type> <name>matrix</name>[3][4]</member>] *)
Definition ex_matrix : Element :=
  member [] None [leaf "type" "float" (Some " "); leaf "name" "matrix" (Some "[3][4]")].

(** [<member><type>uint32_t</type> <name>mask</name>:8</member>] *)
Definition ex_mask : Element :=
  member [] None [leaf "type" "uint32_t" (Some " "); leaf "name" "mask" (Some ":8")].

(** The outermost modifier is a [Pointer] or a [DynamicArray] that is not
    const: the property as the text of the specification has it. *)
Definition nonconst_pointer_or_dynamic_array (t : Ty) : bool :=
  match t with
  | Pointer c _ => negb c
  | DynamicArray c _ _ _ => negb c
  | _ => false
  end.

(** The same with [NextPtr] counted among the pointers. *)
Definition nonconst_pointer_modifier (t : Ty) : bool :=
  match t with
  | Pointer c _ => negb c
  | NextPtr c _ => negb c
  | DynamicArray c _ _ _ => negb c
  | _ => false
  end.

(** The first declared level is a non-const pointer whose dynamic length is
    [null-terminated]: the type collapses to the string type. *)
Definition nonconst_string_level (levels : list _PointerLevel) : bool :=
  match levels with
  | p :: _ =>
      (negb (pl_is_const p) && negb (pl_is_fixed_array p)
       && opt_eqb (pl_length p) "null-terminated")%bool
  | [] => false
  end.

End Field.

(** ** The type catalog

    The classes derived from [Type], as objects in a store.  Two names may be
    bound to one object (a dict entry, a field type, a list of extended
    structs), and the parser and the filter update objects where they stand:
    a reference is an address and an update rewrites the store. *)

Module Catalog.

Import XML.

(** [TypeAlias.alias]: a catalog object, or, for the alias of an enum value
    until [__parse_features] resolves it, the bare name. *)
Inductive alias_target :=
| AliasStr (s : option string)
| AliasObj (a : addr).

(** [Struct.structextends]: names as the XML has them, then objects. *)
Inductive extends_list :=
| ByName (names : list string)
| ByObject (objs : list addr).

Inductive body :=
| TypeRef (ref : option string)
| TypeAlias (alias : alias_target)
| BaseType
| FunctionPtr
| Handle (is_dispatchable : bool) (parent : option addr)
| EnumValue (value : Py.value) (comment : option string)
| Enum (values : Py.dict Py.key addr) (is_bitmask : bool) (bitwidth : Z)
| Bitmask (type : option string) (flags : option addr)
| Struct (is_union : bool) (members : list Field.Field)
         (structextends : extends_list) (extendedby : list addr)
| Define (tail text : option string).

(** What [Type.__init__] sets, and the class with its own attributes.
    [extensions] holds [Extension] objects, by identity. *)
Record obj := mkObj {
  name : option string;
  extensions : list addr;
  xml_node : option Element;
  kind : body
}.

Definition store := list obj.

Definition read (h : store) (a : addr) : result obj :=
  or_raise (h !! a) NoObject.

Definition write (h : store) (a : addr) (o : obj) : store := <[a := o]> h.

(** A new object: its address is fresh. *)
Definition alloc (h : store) (o : obj) : store * addr :=
  ((h ++ [o])%list, List.length h).

Definition with_kind (o : obj) (k : body) : obj :=
  mkObj (name o) (extensions o) (xml_node o) k.

Definition is_TypeAlias (o : obj) : bool :=
  match kind o with TypeAlias _ => true | _ => false end.

Definition is_BaseType (o : obj) : bool :=
  match kind o with BaseType => true | _ => false end.

Definition is_Enum (o : obj) : bool :=
  match kind o with Enum _ _ _ => true | _ => false end.

Definition is_Struct (o : obj) : bool :=
  match kind o with Struct _ _ _ _ => true | _ => false end.

Definition obj_name (h : store) (a : addr) : option string :=
  match h !! a with Some o => name o | None => None end.

(** *** TypeAlias *)

(** [resolve_type]: [while isinstance(ta, TypeAlias): ta = ta.alias].  One
    unit of fuel per turn of the loop. *)
Fixpoint resolve_type (h : store) (fuel : nat) (ta : alias_target)
  : result alias_target :=
  match ta with
  | AliasStr _ => Ok ta
  | AliasObj a =>
      let! o := read h a in
      match kind o with
      | TypeAlias alias =>
          match fuel with
          | O => OutOfFuel
          | S fuel => resolve_type h fuel alias
          end
      | _ => Ok ta
      end
  end.

(** [isinstance(x, C)] for what a walk along aliases ends on. *)
Definition target_is (h : store) (p : obj -> bool) (t : alias_target) : bool :=
  match t with
  | AliasStr _ => false
  | AliasObj a => match h !! a with Some o => p o | None => false end
  end.

(** The [is_base_type_alias] property of the TypeAlias at [a]; the loop
    starts from [self.alias], one turn behind [resolve_type]. *)
Definition is_base_type_alias (h : store) (fuel : nat) (a : addr) : result bool :=
  let! o := read h a in
  match kind o with
  | TypeAlias alias =>
      let! t := resolve_type h fuel alias in Ok (target_is h is_BaseType t)
  | _ => Raise AttributeError
  end.

(** *** resolve_aliases *)

(** The condition of the comprehension; [and] reads [is_base_type_alias]
    before it looks at the flag. *)
Definition kept (h : store) (fuel : nat) (resolve_base_type_aliases : bool)
    (value : addr) : result bool :=
  let! o := read h value in
  if is_TypeAlias o then
    let! b := is_base_type_alias h fuel value in
    Ok (b && negb resolve_base_type_aliases)%bool
  else Ok true.

Fixpoint comprehension (h : store) (fuel : nat) (rb : bool)
    (items : list (Py.key * addr)) (acc : Py.dict Py.key addr)
  : result (Py.dict Py.key addr) :=
  match items with
  | [] => Ok acc
  | (_, value) :: rest =>
      let! b := kept h fuel rb value in
      if b then
        let! o := read h value in
        comprehension h fuel rb rest (Py.set acc (name o) value)
      else comprehension h fuel rb rest acc
  end.

Definition resolve_aliases (h : store) (fuel : nat)
    (aliased : Py.dict Py.key addr) (resolve_base_type_aliases : bool)
  : result (Py.dict Py.key addr) :=
  comprehension h fuel resolve_base_type_aliases aliased [].

(** *** Handle *)

Definition name_is (o : obj) (s : string) : bool :=
  match name o with Some n => String.eqb n s | None => false end.

(** The [is_instance_handle] property: a recursion along [parent], one unit
    of fuel per call.  Anything but a Handle has no such attribute. *)
Fixpoint is_instance_handle (h : store) (fuel : nat) (a : addr) : result bool :=
  match fuel with
  | O => OutOfFuel
  | S fuel =>
      let! o := read h a in
      match kind o with
      | Handle _ parent =>
          if name_is o "VkDevice" then Ok false
          else if name_is o "VkInstance" then Ok true
          else if name_is o "VkSwapchainKHR" then Ok false
          else match parent with
               | Some p => is_instance_handle h fuel p
               | None => Raise AttributeError
               end
      | _ => Raise AttributeError
      end
  end.

Definition is_device_handle (h : store) (fuel : nat) (a : addr) : result bool :=
  let! b := is_instance_handle h fuel a in Ok (negb b).

(** *** The alias graph and the handle lineage, as relations *)

(** [b] is the object that the TypeAlias at [a] points to. *)
Definition alias_edge (h : store) (a b : addr) : Prop :=
  exists o, h !! a = Some o /\ kind o = TypeAlias (AliasObj b).

(** References are to live objects. *)
Definition closed (h : store) : Prop :=
  forall a b, alias_edge h a b -> (b < List.length h)%nat.

(** No alias that can be reached from [a] lies on a cycle. *)
Definition acyclic_from (h : store) (a : addr) : Prop :=
  forall x, rtc (alias_edge h) a x -> ~ tc (alias_edge h) x x.

(** The parent chain from [a], [a] included, reaches a handle named
    VkInstance. *)
Inductive reaches_instance (h : store) : addr -> Prop :=
| reach_here a o d p :
    h !! a = Some o -> kind o = Handle d p ->
    name_is o "VkInstance" = true -> reaches_instance h a
| reach_up a o d p :
    h !! a = Some o -> kind o = Handle d (Some p) ->
    reaches_instance h p -> reaches_instance h a.

(** The three names at which [is_instance_handle] answers at once. *)
Definition stops (o : obj) : bool :=
  (name_is o "VkDevice" || name_is o "VkInstance"
   || name_is o "VkSwapchainKHR")%bool.

(** [first_stop h a s]: going up from [a], [a] included, [s] is the first
    handle with one of the three names. *)
Inductive first_stop (h : store) : addr -> obj -> Prop :=
| stop_here a o d p :
    h !! a = Some o -> kind o = Handle d p -> stops o = true ->
    first_stop h a o
| stop_up a o d p s :
    h !! a = Some o -> kind o = Handle d (Some p) -> stops o = false ->
    first_stop h p s -> first_stop h a s.

(** *** Small stores *)

Definition handle (n : string) (parent : option addr) : obj :=
  mkObj (Some n) [] None (Handle true parent).

(** VkInstance, VkPhysicalDevice, VkDevice, VkQueue, VkSurfaceKHR and
    VkSwapchainKHR with the parents that vk.xml declares. *)
Definition ex_handles : store :=
  [ handle "VkInstance" None;
    handle "VkPhysicalDevice" (Some 0%nat);
    handle "VkDevice" (Some 1%nat);
    handle "VkQueue" (Some 2%nat);
    handle "VkSurfaceKHR" (Some 0%nat);
    handle "VkSwapchainKHR" (Some 4%nat) ].

Definition base_type (n : string) : obj := mkObj (Some n) [] None BaseType.

Definition type_alias (n : string) (a : addr) : obj :=
  mkObj (Some n) [] None (TypeAlias (AliasObj a)).

Definition struct (n : string) : obj :=
  mkObj (Some n) [] None (Struct false [] (ByObject []) []).

(** uint32_t, VkBool32 -> uint32_t, VkMemoryRequirements2,
    VkMemoryRequirements2KHR -> VkMemoryRequirements2, and an alias of that
    alias. *)
Definition ex_aliases : store :=
  [ base_type "uint32_t";
    type_alias "VkBool32" 0;
    struct "VkMemoryRequirements2";
    type_alias "VkMemoryRequirements2KHR" 2;
    type_alias "VkMemoryRequirements2NV" 3 ].

Definition ex_types : Py.dict Py.key addr :=
  [ (Some "uint32_t", 0%nat); (Some "VkBool32", 1%nat);
    (Some "VkMemoryRequirements2", 2%nat);
    (Some "VkMemoryRequirements2KHR", 3%nat);
    (Some "VkMemoryRequirements2NV", 4%nat) ].

End Catalog.

(** ** Enums *)

Module Enums.

Import XML Catalog.

(** [1 << n]: [ValueError] on a negative shift count. *)
Definition shift1 (n : Z) : result Z :=
  if n <? 0 then Raise ValueError else Ok (Z.shiftl 1 n).

(** The text of a [value] attribute: hexadecimal after [0x], else decimal. *)
Definition decode_value (str_v : string) : result Z :=
  if Py.startswith "0x" str_v then Py.int 16 str_v else Py.int 10 str_v.

Definition decode_bitpos (str_v : string) : result Z :=
  let! n := decode_value str_v in shift1 n.

(** [ev = str_v; try: ev = ... except ValueError: pass] *)
Definition or_raw (str_v : string) (r : result Z) : result Py.value :=
  match r with
  | Ok z => Ok (Py.VInt z)
  | Raise ValueError => Ok (Py.VStr str_v)
  | Raise e => Raise e
  | OutOfFuel => OutOfFuel
  end.

(** The value of a child [enum] element without [alias], and whether it
    makes the enum a bitmask. *)
Definition element_value (ee : Element) : result (Py.value * bool) :=
  match get ee "bitpos" with
  | Some str_v => let! ev := or_raw str_v (decode_bitpos str_v) in Ok (ev, true)
  | None =>
      match get ee "value" with
      | Some str_v => let! ev := or_raw str_v (decode_value str_v) in Ok (ev, false)
      | None => Raise AttributeError
      end
  end.

(** The loop of [Enum.__init__] over the [enum] children. *)
Fixpoint init_values (h : store) (values : Py.dict Py.key addr)
    (is_bitmask : bool) (ees : list Element)
  : result (store * Py.dict Py.key addr * bool) :=
  match ees with
  | [] => Ok (h, values, is_bitmask)
  | ee :: rest =>
      let en := get ee "name" in
      match get ee "alias" with
      | Some al =>
          let '(h, a) := alloc h (mkObj en [] None (TypeAlias (AliasStr (Some al)))) in
          init_values h (Py.set values en a) is_bitmask rest
      | None =>
          let is_bitmask := match get ee "bitpos" with
                            | Some _ => true
                            | None => is_bitmask
                            end in
          let! (ev, _) := element_value ee in
          let '(h, a) := alloc h (mkObj en [] (Some ee)
                                        (EnumValue ev (get ee "comment"))) in
          init_values h (Py.set values en a) is_bitmask rest
      end
  end.

(** [Enum(te, name)]: the new enum and the store with it and its values. *)
Definition Enum_init (h : store) (te : option Element) (name : option string)
  : result (store * addr) :=
  match te with
  | None => Ok (alloc h (mkObj name [] None (Enum [] false 32)))
  | Some te =>
      let '(h, self) := alloc h (mkObj (get te "name") [] (Some te) (Enum [] false 32)) in
      let! bitwidth := match get te "bitwidth" with
                       | Some s => if Py.nonempty s then Py.int 10 s else Ok 32
                       | None => Ok 32
                       end in
      let is_bitmask := match get te "type" with
                        | Some t => String.eqb t "bitmask"
                        | None => false
                        end in
      let! (h, values, is_bitmask) := init_values h [] is_bitmask (findall te "enum") in
      Ok (write h self (mkObj (get te "name") [] (Some te)
                              (Enum values is_bitmask bitwidth)), self)
  end.

(** [x.value] for what [resolve_type] returned. *)
Definition value_of (h : store) (t : alias_target) : result Py.value :=
  match t with
  | AliasStr _ => Raise AttributeError
  | AliasObj a =>
      let! o := read h a in
      match kind o with
      | EnumValue v _ => Ok v
      | _ => Raise AttributeError
      end
  end.

Fixpoint integer_values (h : store) (fuel : nat) (vs : list addr)
    (iv : Py.dict Py.key Py.value) : result (Py.dict Py.key Py.value) :=
  match vs with
  | [] => Ok iv
  | v :: rest =>
      let! o := read h v in
      let! x := match kind o with
                | EnumValue x _ => Ok x
                | TypeAlias _ =>
                    let! t := resolve_type h fuel (AliasObj v) in value_of h t
                | _ => Raise AttributeError
                end in
      integer_values h fuel rest (Py.set iv (name o) x)
  end.

Definition get_integer_values (h : store) (fuel : nat) (self : addr)
  : result (Py.dict Py.key Py.value) :=
  let! o := read h self in
  match kind o with
  | Enum values _ _ => integer_values h fuel (Py.values values) []
  | _ => Raise AttributeError
  end.

(** The last loop of [__parse_features], for one enum: every alias among
    the values is pointed at the value that bears the aliased name. *)
Fixpoint resolve_value_aliases (h : store) (values : Py.dict Py.key addr)
    (items : list (Py.key * addr)) : result store :=
  match items with
  | [] => Ok h
  | (_, ev) :: rest =>
      let! o := read h ev in
      match kind o with
      | TypeAlias (AliasStr s) =>
          let! target := Py.getitem values s in
          resolve_value_aliases (write h ev (with_kind o (TypeAlias (AliasObj target))))
                                values rest
      | TypeAlias (AliasObj _) => Raise KeyError
      | _ => resolve_value_aliases h values rest
      end
  end.

Definition resolve_enum_aliases (h : store) (e : addr) : result store :=
  let! o := read h e in
  match kind o with
  | Enum values _ _ => resolve_value_aliases h values values
  | _ => Ok h
  end.

(** *** parse_enum_extend *)

Definition insert_value (h : store) (enum : addr) (eo : obj)
    (name : Py.key) (ev : addr) : result store :=
  match kind eo with
  | Enum values is_bitmask bitwidth =>
      Ok (write h enum (with_kind eo (Enum (Py.set values name ev) is_bitmask bitwidth)))
  | _ => Raise AttributeError
  end.

(** The value of an extending [enum] element that has no [alias]. *)
Definition extend_value (eo : obj) (ee : Element) (extnumber : Z) : result Z :=
  match get ee "value" with
  | Some s => Py.int 10 s
  | None =>
      match kind eo with
      | Enum _ is_bitmask _ =>
          if is_bitmask then
            let! bitpos := Py.int_opt 10 (get ee "bitpos") in shift1 bitpos
          else
            let! offset := Py.int_opt 10 (get ee "offset") in
            Ok (1000000000 + (extnumber - 1) * 1000 + offset)
      | _ => Raise AttributeError
      end
  end.

Definition parse_enum_extend (h : store) (types : Py.dict Py.key addr)
    (ee : Element) (extnumber : Z) : result (store * addr) :=
  let name := get ee "name" in
  let base_enum := get ee "extends" in
  let! enum := Py.getitem types base_enum in
  let! eo := read h enum in
  match get ee "alias" with
  | Some al =>
      let '(h, ev) := alloc h (mkObj name [] None (TypeAlias (AliasStr (Some al)))) in
      let! h := insert_value h enum eo name ev in
      Ok (h, ev)
  | None =>
      let! value := extend_value eo ee extnumber in
      let '(h, ev) := alloc h (mkObj name [] (Some ee)
                                     (EnumValue (Py.VInt value) (get ee "comment"))) in
      let! h := insert_value h enum eo name ev in
      Ok (h, ev)
  end.

(** The two callers.  An extension passes its own [number] and tags the
    value with itself; a feature block passes the [extnumber] of the
    element, 0 when there is none. *)
Definition extension_enum (h : store) (types : Py.dict Py.key addr)
    (self : addr) (number : Z) (ee : Element) : result store :=
  let! (h, ev) := parse_enum_extend h types ee number in
  let! o := read h ev in
  Ok (write h ev (mkObj (name o) (extensions o ++ [self]) (xml_node o) (kind o))).

Definition feature_enum (h : store) (types : Py.dict Py.key addr)
    (ee : Element) : result store :=
  let! extnumber := Py.int 10 (get_default ee "extnumber" "0") in
  let! (h, _) := parse_enum_extend h types ee extnumber in
  Ok h.

(** The [require/enum[@extends]] elements of the extensions and of the
    feature blocks, in the order in which the parser meets them. *)
Inductive contribution :=
| ByExtension (self : addr) (number : Z) (ee : Element)
| ByFeature (ee : Element).

Definition contribute (h : store) (types : Py.dict Py.key addr)
    (c : contribution) : result store :=
  match c with
  | ByExtension self number ee => extension_enum h types self number ee
  | ByFeature ee => feature_enum h types ee
  end.

Fixpoint contribute_all (h : store) (types : Py.dict Py.key addr)
    (cs : list contribution) : result store :=
  match cs with
  | [] => Ok h
  | c :: rest =>
      let! h := contribute h types c in contribute_all h types rest
  end.

(** The attribute that gives the value of a child element, and how it is
    decoded. *)
Definition raw_text (ee : Element) : option string :=
  match get ee "bitpos" with
  | Some str_v => Some str_v
  | None => get ee "value"
  end.

Definition decode (ee : Element) (str_v : string) : result Z :=
  match get ee "bitpos" with
  | Some _ => decode_bitpos str_v
  | None => decode_value str_v
  end.

(** [x] is the value of a child [enum] of [te]: the integer its text decodes
    to, or the text itself where decoding raised [ValueError]. *)
Definition origin (te : Element) (x : Py.value) : Prop :=
  exists ee str_v,
    In ee (findall te "enum") /\ get ee "alias" = None
    /\ raw_text ee = Some str_v
    /\ ((exists z, decode ee str_v = Ok z /\ x = Py.VInt z)
        \/ (decode ee str_v = Raise ValueError /\ x = Py.VStr str_v)).

(** [x] is the text of a child [enum] of [te] that does not decode. *)
Definition undecoded (te : Element) (x : Py.value) : Prop :=
  exists ee str_v,
    In ee (findall te "enum") /\ get ee "alias" = None
    /\ raw_text ee = Some str_v
    /\ decode ee str_v = Raise ValueError /\ x = Py.VStr str_v.

(** The values of the enum at [e] are enum values whose value satisfies [P]
    or aliases, and an alias that points to an object points to another of
    them: [V] collects them. *)
Definition enum_ok (P : Py.value -> Prop) (h : store) (e : addr) : Prop :=
  exists (V : addr -> Prop) o values is_bitmask bitwidth,
    h !! e = Some o /\ kind o = Enum values is_bitmask bitwidth
    /\ (forall k a, In (k, a) values -> V a)
    /\ (forall a, V a ->
          exists oa, h !! a = Some oa
            /\ ((exists x c, kind oa = EnumValue x c /\ P x)
                \/ (exists t, kind oa = TypeAlias t
                              /\ forall b, t = AliasObj b -> V b))).

(** [__parse_enums]: an [enums] block of type enum or bitmask becomes a type
    of the registry; the values of any other block become constants. *)
Fixpoint parse_enums (h : store) (types constants : Py.dict Py.key addr)
    (blocks : list Element)
  : result (store * Py.dict Py.key addr * Py.dict Py.key addr) :=
  match blocks with
  | [] => Ok (h, types, constants)
  | ee :: rest =>
      let enum_type := get_default ee "type" "" in
      let! (h, e) := Enum_init h (Some ee) None in
      let! o := read h e in
      if (String.eqb enum_type "enum" || String.eqb enum_type "bitmask")%bool then
        parse_enums h (Py.set types (name o) e) constants rest
      else
        match kind o with
        | Enum values _ _ =>
            parse_enums h types
              (fold_left (fun c '(n, v) => Py.set c n v) values constants) rest
        | _ => Raise AttributeError
        end
  end.

Definition __parse_enums (h : store) (types constants : Py.dict Py.key addr)
    (root : Element) :=
  parse_enums h types constants (findall root "enums").

Definition enum_elem (attrs : Py.dict string string) : Element :=
  mkElement "enum" attrs None [] None.

Definition enums_elem (attrs : Py.dict string string) (kids : list Element) : Element :=
  mkElement "enums" attrs None kids None.

(** An enum with a decimal and a hexadecimal value, an alias, and a value
    whose text is no integer. *)
Definition ex_enums : Element :=
  enums_elem [("name", "VkSampleEnum"); ("type", "enum")]
    [ enum_elem [("value", "0"); ("name", "VK_SAMPLE_A")];
      enum_elem [("value", "0x10"); ("name", "VK_SAMPLE_B")];
      enum_elem [("name", "VK_SAMPLE_C"); ("alias", "VK_SAMPLE_B")];
      enum_elem [("value", "1000.0F"); ("name", "VK_SAMPLE_D")] ].

Definition ex_registry : Element :=
  mkElement "registry" [] None [ex_enums] None.

(** The store after [__parse_enums] on [ex_registry], and after the aliases
    of the enum values have been resolved. *)
Definition ex_parsed : store :=
  Eval cbv in
    match __parse_enums [] [] [] ex_registry with
    | Ok (h, _, _) => h
    | _ => []
    end.

Definition ex_resolved : store :=
  Eval cbv in
    match resolve_enum_aliases ex_parsed 0 with
    | Ok h => h
    | _ => []
    end.

Definition ex_integer_values : Py.dict Py.key Py.value :=
  [ (Some "VK_SAMPLE_A", Py.VInt 0); (Some "VK_SAMPLE_B", Py.VInt 16);
    (Some "VK_SAMPLE_C", Py.VInt 16); (Some "VK_SAMPLE_D", Py.VStr "1000.0F") ].

End Enums.

(** ** The filter and the struct links *)

Module Registry.

Import XML Catalog.

(** [len(extension_set.intersection(exts)) > 0] *)
Definition intersects (extension_set exts : list addr) : bool :=
  existsb (fun x => existsb (Nat.eqb x) extension_set) exts.

(** The test of the filter on an entry of a list or of a value map: no
    extension at all, or one of the set. *)
Definition survives (extension_set : list addr) (o : obj) : bool :=
  match extensions o with
  | [] => true
  | exts => intersects extension_set exts
  end.

Fixpoint filter_refs (h : store) (extension_set : list addr) (l : list addr)
  : result (list addr) :=
  match l with
  | [] => Ok []
  | eb :: rest =>
      let! o := read h eb in
      let! rest' := filter_refs h extension_set rest in
      Ok (if survives extension_set o then eb :: rest' else rest')
  end.

(** [for en in list(t.values)]: the keys are listed first, the entries are
    deleted from the map as the loop goes. *)
Fixpoint filter_values (h : store) (extension_set : list addr)
    (ens : list Py.key) (values : Py.dict Py.key addr)
  : result (Py.dict Py.key addr) :=
  match ens with
  | [] => Ok values
  | en :: rest =>
      let! ev := Py.getitem values en in
      let! o := read h ev in
      filter_values h extension_set rest
        (if survives extension_set o then values else Py.del values en)
  end.

(** [__filter_type_by_extensions]: the object is changed where it stands and
    is itself returned. *)
Definition __filter_type_by_extensions (h : store) (t : addr)
    (extension_set : list addr) : result (store * addr) :=
  let! o := read h t in
  match kind o with
  | Struct is_union members structextends extendedby =>
      let! extendedby := filter_refs h extension_set extendedby in
      let! structextends :=
        match structextends with
        | ByObject objs => filter_refs h extension_set objs
        | ByName [] => Ok []
        | ByName (_ :: _) => Raise AttributeError
        end in
      Ok (write h t (with_kind o (Struct is_union members (ByObject structextends)
                                         extendedby)), t)
  | Enum values is_bitmask bitwidth =>
      let! values := filter_values h extension_set (Py.keys values) values in
      Ok (write h t (with_kind o (Enum values is_bitmask bitwidth)), t)
  | _ => Ok (h, t)
  end.

(** [__filter_type], which nothing calls: it fills the value map of a copy.
    [selected] is its test on the platform, the support and the author of an
    extension, and [core] tells that the authors are None or include the
    empty one. *)
Fixpoint copy_values (h : store) (selected : addr -> bool) (core : bool)
    (items : list (Py.key * addr)) (values : Py.dict Py.key addr)
  : result (Py.dict Py.key addr) :=
  match items with
  | [] => Ok values
  | (en, ev) :: rest =>
      let! o := read h ev in
      let keep := match extensions o with
                  | [] => core
                  | exts => existsb selected exts
                  end in
      copy_values h selected core rest (if keep then Py.set values en ev else values)
  end.

Definition __filter_type (h : store) (t : addr) (selected : addr -> bool)
    (core : bool) : result (store * addr) :=
  let! o := read h t in
  match kind o with
  | Enum values is_bitmask bitwidth =>
      let '(h, enum) := alloc h o in
      let! values' := copy_values h selected core values [] in
      Ok (write h enum (with_kind o (Enum values' is_bitmask bitwidth)), enum)
  | _ => Ok (h, t)
  end.

(** The loop of [__filter_registry] over the types; [core] as above. *)
Definition stays (extension_set : list addr) (core : bool) (o : obj) : bool :=
  match extensions o with
  | [] => core
  | exts => intersects extension_set exts
  end.

Fixpoint filter_types (h : store) (extension_set : list addr) (core : bool)
    (tnames : list Py.key) (types : Py.dict Py.key addr)
  : result (store * Py.dict Py.key addr) :=
  match tnames with
  | [] => Ok (h, types)
  | tname :: rest =>
      let! t := Py.getitem types tname in
      let! o := read h t in
      if stays extension_set core o then
        let! (h, t') := __filter_type_by_extensions h t extension_set in
        filter_types h extension_set core rest (Py.set types tname t')
      else filter_types h extension_set core rest (Py.del types tname)
  end.

Definition __filter_registry_types (h : store) (types : Py.dict Py.key addr)
    (filtered_set : list addr) (core : bool)
  : result (store * Py.dict Py.key addr) :=
  filter_types h filtered_set core (Py.keys types) types.

(** *** Struct extends, in [__parse_types] *)

(** [for se in t.structextends]: [t] is appended to the [extendedby] of each
    struct it names, unless it is there already. *)
Fixpoint link_extends (h : store) (types : Py.dict Py.key addr) (t : addr)
    (names : list string) : result store :=
  match names with
  | [] => Ok h
  | se :: rest =>
      let! et := Py.getitem types (Some se) in
      let! eo := read h et in
      match kind eo with
      | Struct is_union members structextends extendedby =>
          let h := if existsb (Nat.eqb t) extendedby then h
                   else write h et (with_kind eo (Struct is_union members structextends
                                                         (extendedby ++ [t]))) in
          link_extends h types t rest
      | _ => Raise AttributeError
      end
  end.

(** [[self.types[se] for se in t.structextends]] *)
Fixpoint lookup_all (types : Py.dict Py.key addr) (names : list string)
  : result (list addr) :=
  match names with
  | [] => Ok []
  | se :: rest =>
      let! et := Py.getitem types (Some se) in
      let! rest' := lookup_all types rest in
      Ok (et :: rest')
  end.

Definition convert_extends (h : store) (types : Py.dict Py.key addr) (t : addr)
  : result store :=
  let! o := read h t in
  match kind o with
  | Struct _ _ (ByName names) _ =>
      let! h := link_extends h types t names in
      let! objs := lookup_all types names in
      let! o := read h t in
      match kind o with
      | Struct is_union members _ extendedby =>
          Ok (write h t (with_kind o (Struct is_union members (ByObject objs) extendedby)))
      | _ => Raise NoObject
      end
  | Struct _ _ (ByObject []) _ => Ok h
  | Struct _ _ (ByObject (_ :: _)) _ => Raise KeyError
  | _ => Ok h
  end.

Fixpoint struct_extends (h : store) (types : Py.dict Py.key addr)
    (ts : list addr) : result store :=
  match ts with
  | [] => Ok h
  | t :: rest =>
      let! h := convert_extends h types t in
      struct_extends h types rest
  end.

Definition __parse_types_extends (h : store) (types : Py.dict Py.key addr)
  : result store :=
  struct_extends h types (Py.values types).

(** The two lists of a struct, as lists of objects: a list of names holds
    no object. *)
Definition extendedby_obj (o : obj) : list addr :=
  match kind o with Struct _ _ _ eb => eb | _ => [] end.

Definition structextends_obj (o : obj) : list addr :=
  match kind o with Struct _ _ (ByObject l) _ => l | _ => [] end.

(** The names that a struct still holds in place of objects. *)
Definition names_obj (o : obj) : option (list string) :=
  match kind o with Struct _ _ (ByName names) _ => Some names | _ => None end.

Definition extendedby_of (h : store) (t : addr) : list addr :=
  match h !! t with Some o => extendedby_obj o | None => [] end.

Definition structextends_of (h : store) (t : addr) : list addr :=
  match h !! t with Some o => structextends_obj o | None => [] end.

Definition names_of (h : store) (t : addr) : option (list string) :=
  match h !! t with Some o => names_obj o | None => None end.

Definition extensions_of (h : store) (t : addr) : option (list addr) :=
  match h !! t with Some o => Some (extensions o) | None => None end.

(** [Extension.__init__] tags the types it requires:
    [registry.types[t].extensions.append(self)]. *)
Fixpoint tag_types (h : store) (types : Py.dict Py.key addr) (self : addr)
    (tnames : list Py.key) : result store :=
  match tnames with
  | [] => Ok h
  | t :: rest =>
      let! a := Py.getitem types t in
      let! o := read h a in
      tag_types (write h a (mkObj (name o) (extensions o ++ [self]) (xml_node o) (kind o)))
                types self rest
  end.

(** Two stores whose structs hold the same lists. *)
Definition same_links (h g : store) : Prop :=
  forall a, extendedby_of g a = extendedby_of h a
            /\ structextends_of g a = structextends_of h a.

Definition values_of (h : store) (e : addr) : Py.dict Py.key addr :=
  match h !! e with
  | Some o => match kind o with Enum values _ _ => values | _ => [] end
  | None => []
  end.

(** [S in T.extendedby] exactly when [T in S.structextends]. *)
Definition mirror (h : store) (S T : addr) : Prop :=
  In S (extendedby_of h T) <-> In T (structextends_of h S).

(** A struct as [Struct.__init__] leaves it. *)
Definition fresh_structs (h : store) : Prop :=
  forall a o u m sx eb,
    h !! a = Some o -> kind o = Struct u m sx eb ->
    eb = [] /\ exists names, sx = ByName names.

End Registry.

(** ** Commands *)

Module Commands.

Import XML Catalog.

(** What [Command.__init__] sets; [is_instance] is set later, by
    [__parse_commands], and is no attribute until then. *)
Record Command := mkCommand {
  name : option string;
  return_type : addr;
  parameters : list Field.Field;
  successcodes : list string;
  extensions : list addr;
  feature : option string;
  xml_node : Element;
  is_instance : option bool
}.

(** The commands are objects too, in a store of their own. *)
Abbreviation cstore := (list Command).

Definition cwrite (hc : cstore) (c : addr) (cmd : Command) : cstore :=
  <[c := cmd]> hc.

Fixpoint parse_params (obj_name : addr -> option string)
    (aliases : Py.dict Py.key Field.alias_entry) (parent : Field.owner)
    (mes : list Element) : result (list Field.Field) :=
  match mes with
  | [] => Ok []
  | me :: rest =>
      let! f := Field.parse_parameter_or_member obj_name aliases me parent in
      let! fs := parse_params obj_name aliases parent rest in
      Ok (f :: fs)
  end.

(** [Command(registry, ce)] *)
Definition Command_init (h : store) (types : Py.dict Py.key addr)
    (aliases : Py.dict Py.key Field.alias_entry) (ce : Element) : result Command :=
  let! cname := find_text ce ["proto"; "name"] in
  let! rname := find_text ce ["proto"; "type"] in
  let! return_type := Py.getitem types rname in
  let! parameters := parse_params (obj_name h) aliases (Field.OwnerCommand cname)
                                  (findall ce "param") in
  let successcodes := match get ce "successcodes" with
                      | Some s => Py.split "," s
                      | None => []
                      end in
  Ok {| name := cname;
        return_type := return_type;
        parameters := parameters;
        successcodes := successcodes;
        extensions := [];
        feature := None;
        xml_node := ce;
        is_instance := None |}.

(** The value of an attribute of a command. *)
Inductive attr :=
| AStr (s : option string)
| AType (a : addr)
| AFields (l : list Field.Field)
| ACodes (l : list string)
| AExtensions (l : list addr)
| AElement (e : Element)
| ABool (b : bool).

(** [getattr(cmd, a)] for the data attributes: those that the constructor
    and [__parse_commands] assign, and no other. *)
Definition getattr (cmd : Command) (a : string) : result attr :=
  if String.eqb a "name" then Ok (AStr (name cmd))
  else if String.eqb a "return_type" then Ok (AType (return_type cmd))
  else if String.eqb a "parameters" then Ok (AFields (parameters cmd))
  else if String.eqb a "successcodes" then Ok (ACodes (successcodes cmd))
  else if String.eqb a "extensions" then Ok (AExtensions (extensions cmd))
  else if String.eqb a "feature" then Ok (AStr (feature cmd))
  else if String.eqb a "xml_node" then Ok (AElement (xml_node cmd))
  else if String.eqb a "is_instance" then
    match is_instance cmd with
    | Some b => Ok (ABool b)
    | None => Raise AttributeError
    end
  else Raise AttributeError.

(** *** __resolve_typeref *)

(** On the type of a field: a [TypeRef] gives way to the catalog entry of
    that name; the base of an array or of a pointer is resolved in its turn;
    a [NextPtr] is passed by.  [on_object] is the function on an object of
    the catalog, below. *)
Fixpoint resolve_type_of_field
    (on_object : store -> addr -> result (store * addr))
    (types : Py.dict Py.key addr) (h : store) (t : Field.Ty)
  : result (store * Field.Ty) :=
  match t with
  | Field.TypeRef ref => let! a := Py.getitem types ref in Ok (h, Field.Obj a)
  | Field.Obj a => let! (h, a') := on_object h a in Ok (h, Field.Obj a')
  | Field.FixedArray c b l =>
      let! (h, b') := resolve_type_of_field on_object types h b in
      Ok (h, Field.FixedArray c b' l)
  | Field.DynamicArray c b l p =>
      let! (h, b') := resolve_type_of_field on_object types h b in
      Ok (h, Field.DynamicArray c b' l p)
  | Field.Pointer c b =>
      let! (h, b') := resolve_type_of_field on_object types h b in
      Ok (h, Field.Pointer c b')
  | Field.NextPtr _ _ => Ok (h, t)
  end.

Definition with_type (f : Field.Field) (t : Field.Ty) : Field.Field :=
  Field.mkField (Field.f_name f) t (Field.is_optional f) (Field.is_output f)
                (Field.bit_size f) (Field.f_values f) (Field.xml_node f).

(** [for m in fields: m.type = self.__resolve_typeref(m.type)] *)
Fixpoint resolve_fields
    (on_object : store -> addr -> result (store * addr))
    (types : Py.dict Py.key addr) (h : store) (fs : list Field.Field)
  : result (store * list Field.Field) :=
  match fs with
  | [] => Ok (h, [])
  | f :: rest =>
      let! (h, t) := resolve_type_of_field on_object types h (Field.f_type f) in
      let! (h, rest') := resolve_fields on_object types h rest in
      Ok (h, with_type f t :: rest')
  end.

(** On an object of the catalog; one unit of fuel per call. *)
Fixpoint resolve_object (types : Py.dict Py.key addr) (fuel : nat)
    (h : store) (a : addr) : result (store * addr) :=
  match fuel with
  | O => OutOfFuel
  | S fuel =>
      let! o := read h a in
      match kind o with
      | TypeRef ref => let! b := Py.getitem types ref in Ok (h, b)
      | Handle d (Some p) =>
          let! po := read h p in
          match kind po with
          | TypeRef ref =>
              if Field.opt_eqb ref "" then
                Ok (write h a (with_kind o (Handle d None)), a)
              else
                let! (h, p') := resolve_object types fuel h p in
                Ok (write h a (with_kind o (Handle d (Some p'))), a)
          | _ => Ok (h, a)
          end
      | Struct _ members _ _ =>
          let! (h, members') :=
            resolve_fields (resolve_object types fuel) types h members in
          let! o := read h a in
          match kind o with
          | Struct u _ sx eb =>
              Ok (write h a (with_kind o (Struct u members' sx eb)), a)
          | _ => Raise NoObject
          end
      | TypeAlias (AliasObj b) =>
          let! (h, b') := resolve_object types fuel h b in
          let! o := read h a in
          Ok (write h a (with_kind o (TypeAlias (AliasObj b'))), a)
      | _ => Ok (h, a)
      end
  end.

Definition __resolve_typeref (types : Py.dict Py.key addr) (fuel : nat)
    (h : store) (t : Field.Ty) : result (store * Field.Ty) :=
  resolve_type_of_field (resolve_object types fuel) types h t.

(** *** __parse_commands *)

(** The first loop: an element with [alias] binds its name to the command
    that the aliased name is bound to; any other element makes a command. *)
Fixpoint bind_commands (h : store) (types : Py.dict Py.key addr)
    (hc : cstore) (commands : Py.dict Py.key addr)
    (aliases : Py.dict Py.key Field.alias_entry) (ces : list Element)
  : result (cstore * Py.dict Py.key addr * Py.dict Py.key Field.alias_entry) :=
  match ces with
  | [] => Ok (hc, commands, aliases)
  | ce :: rest =>
      match get ce "alias" with
      | Some alias =>
          let cname := get ce "name" in
          let! c := Py.getitem commands (Some alias) in
          bind_commands h types hc (Py.set commands cname c)
                        (Py.set aliases cname (Field.AliasCommand (Some alias))) rest
      | None =>
          let! cmd := Command_init h types aliases ce in
          bind_commands h types (hc ++ [cmd])%list
                        (Py.set commands (name cmd) (List.length hc)) aliases rest
      end
  end.

(** [cmd.name == 'vkCreateInstance' or (isinstance(cmd.parameters[0].type,
    Handle) and cmd.parameters[0].type.is_instance_handle)] *)
Definition instance_command (h : store) (fuel : nat) (cmd : Command) : result bool :=
  if Field.opt_eqb (name cmd) "vkCreateInstance" then Ok true
  else
    let! p := or_raise (head (parameters cmd)) IndexError in
    match Field.f_type p with
    | Field.Obj a =>
        let! o := read h a in
        match kind o with
        | Handle _ _ => is_instance_handle h fuel a
        | _ => Ok false
        end
    | _ => Ok false
    end.

(** The second loop, over [self.commands.values()]: a command bound to
    several names is visited once for each. *)
Fixpoint finish_commands (types : Py.dict Py.key addr) (fuel : nat)
    (h : store) (hc : cstore) (cs : list addr) : result (store * cstore) :=
  match cs with
  | [] => Ok (h, hc)
  | c :: rest =>
      let! cmd := or_raise (hc !! c) NoObject in
      let! (h, ps) :=
        resolve_fields (resolve_object types fuel) types h (parameters cmd) in
      let cmd := mkCommand (name cmd) (return_type cmd) ps (successcodes cmd)
                           (extensions cmd) (feature cmd) (xml_node cmd)
                           (is_instance cmd) in
      let! b := instance_command h fuel cmd in
      let cmd := mkCommand (name cmd) (return_type cmd) (parameters cmd)
                           (successcodes cmd) (extensions cmd) (feature cmd)
                           (xml_node cmd) (Some b) in
      finish_commands types fuel h (cwrite hc c cmd) rest
  end.

Record parsed := mkParsed {
  p_types : store;
  p_commands_store : cstore;
  p_commands : Py.dict Py.key addr;
  p_aliases : Py.dict Py.key Field.alias_entry
}.

Definition __parse_commands (types : Py.dict Py.key addr) (fuel : nat)
    (h : store) (aliases : Py.dict Py.key Field.alias_entry) (root : Element)
  : result parsed :=
  let! (hc, commands, aliases) :=
    bind_commands h types [] [] aliases (findall_path root ["commands"; "command"]) in
  let! (h, hc) := finish_commands types fuel h hc (Py.values commands) in
  Ok (mkParsed h hc commands aliases).

(** The key under which the first loop binds an element. *)
Definition entry_key (ce : Element) : Py.key :=
  match get ce "alias" with
  | Some _ => get ce "name"
  | None =>
      match find_text ce ["proto"; "name"] with
      | Ok n => n
      | _ => None
      end
  end.

(** Elements as the registry writes them. *)
Definition command (attrs : Py.dict string string) (ret cname : string)
    (params : list Element) : Element :=
  mkElement "command" attrs None
    (mkElement "proto" [] None
       [Field.leaf "type" ret (Some " "); Field.leaf "name" cname None] None
     :: params) None.

Definition command_alias (cname alias : string) : Element :=
  mkElement "command" [("name", cname); ("alias", alias)] None [] None.

Definition registry (commands : list Element) : Element :=
  mkElement "registry" [] None [mkElement "commands" [] None commands None] None.

End Commands.

(** ** Extensions *)

Module Extensions.

Import XML Catalog.

(** [sub in s] for two strings, and [s.endswith(suffix)]. *)
Fixpoint contains_str (sub s : string) : bool :=
  (Py.startswith sub s
   || match s with
      | String _ r => contains_str sub r
      | EmptyString => false
      end)%bool.

Fixpoint endswith (suffix s : string) : bool :=
  (String.eqb suffix s
   || match s with
      | String _ r => endswith suffix r
      | EmptyString => false
      end)%bool.

(** [x in l] for a list of strings. *)
Definition in_list (x : string) (l : list string) : bool :=
  existsb (String.eqb x) l.

(** The predicate [[@k]] of a path: the element has the attribute. *)
Definition has_attr (k : string) (e : Element) : bool :=
  match get e k with Some _ => true | None => false end.

(** What [Extension.__init__] sets.  [name_enum] and [spec_version_enum] are
    attributes only once the loop over the enums has met them. *)
Record Extension := mkExtension {
  name : option string;
  number : Z;
  type : string;
  author : string;
  supported : string;
  promotedto : string;
  deprecatedby : string;
  platform : string;
  requires : list string;
  specialuse : list string;
  name_enum : option string;
  spec_version_enum : option string;
  types : list Py.key;
  commands : list Py.key;
  xml_node : Element
}.

(** The extensions are objects, in a store of their own; the [extensions]
    of a type, of a value or of a command hold their addresses. *)
Abbreviation estore := (list Extension).

(** [for ee in [t.get('name') ...]: if ee.endswith(...)]; None has no
    [endswith]. *)
Fixpoint read_name_enums (names : list (option string))
    (name_enum spec_version_enum : option string)
  : result (option string * option string) :=
  match names with
  | [] => Ok (name_enum, spec_version_enum)
  | None :: _ => Raise AttributeError
  | Some ee :: rest =>
      if endswith "_EXTENSION_NAME" ee then
        read_name_enums rest (Some ee) spec_version_enum
      else if endswith "_SPEC_VERSION" ee then
        read_name_enums rest name_enum (Some ee)
      else read_name_enums rest name_enum spec_version_enum
  end.

Definition with_extensions (cmd : Commands.Command) (exts : list addr)
  : Commands.Command :=
  Commands.mkCommand (Commands.name cmd) (Commands.return_type cmd)
    (Commands.parameters cmd) (Commands.successcodes cmd) exts
    (Commands.feature cmd) (Commands.xml_node cmd) (Commands.is_instance cmd).

(** [for c in self.commands: registry.commands[c].extensions.append(self)] *)
Fixpoint tag_commands (hc : Commands.cstore) (commands : Py.dict Py.key addr)
    (self : addr) (cnames : list Py.key) : result Commands.cstore :=
  match cnames with
  | [] => Ok hc
  | c :: rest =>
      let! a := Py.getitem commands c in
      let! cmd := or_raise (hc !! a) NoObject in
      tag_commands
        (Commands.cwrite hc a
           (with_extensions cmd (Commands.extensions cmd ++ [self])%list))
        commands self rest
  end.

(** [for ee in en.findall('require/enum[@extends]')] *)
Fixpoint extend_enums (h : store) (types : Py.dict Py.key addr)
    (self : addr) (number : Z) (ees : list Element) : result store :=
  match ees with
  | [] => Ok h
  | ee :: rest =>
      let! h := Enums.extension_enum h types self number ee in
      extend_enums h types self number rest
  end.

Definition attr_names (es : list Element) : list Py.key :=
  map (fun t => get t "name") es.

(** [Extension(registry, en)], where [self] is the address that the new
    extension is to have. *)
Definition Extension_init (h : store) (hc : Commands.cstore)
    (types commands : Py.dict Py.key addr) (self : addr) (en : Element)
  : result (store * Commands.cstore * Extension) :=
  let! number := Py.int_opt 10 (get en "number") in
  let! (name_enum, spec_version_enum) :=
    read_name_enums
      (attr_names (List.filter (has_attr "value")
                               (findall_path en ["require"; "enum"])))
      None None in
  let tnames := attr_names (findall_path en ["require"; "type"]) in
  let cnames := attr_names (findall_path en ["require"; "command"]) in
  let! h := Registry.tag_types h types self tnames in
  let! hc := tag_commands hc commands self cnames in
  let! h := extend_enums h types self number
              (List.filter (has_attr "extends")
                           (findall_path en ["require"; "enum"])) in
  Ok (h, hc,
      {| name := get en "name";
         number := number;
         type := get_default en "type" "";
         author := get_default en "author" "";
         supported := get_default en "supported" "";
         promotedto := get_default en "promotedto" "";
         deprecatedby := get_default en "deprecatedby" "";
         platform := get_default en "platform" "";
         requires := Py.split_nonempty (get_default en "requires" "");
         specialuse := Py.split_nonempty (get_default en "specialuse" "");
         name_enum := name_enum;
         spec_version_enum := spec_version_enum;
         types := tnames;
         commands := cnames;
         xml_node := en |}).

(** The test of [__parse_extensions] on an element: reserved, or named
    after its number.  [endswith] takes no None. *)
Definition ignored (ee : Element) : result bool :=
  let name := get_default ee "name" "" in
  if contains_str "RESERVED" name then Ok true
  else match get ee "number" with
       | Some n => Ok (endswith n name)
       | None => Raise TypeError
       end.

Fixpoint parse_extensions (h : store) (hc : Commands.cstore) (he : estore)
    (types commands : Py.dict Py.key addr)
    (extensions : Py.dict Py.key addr) (ees : list Element)
  : result (store * Commands.cstore * estore * Py.dict Py.key addr) :=
  match ees with
  | [] => Ok (h, hc, he, extensions)
  | ee :: rest =>
      let! skip := ignored ee in
      if skip then parse_extensions h hc he types commands extensions rest
      else
        let! (h, hc, ext) :=
          Extension_init h hc types commands (List.length he) ee in
        parse_extensions h hc (he ++ [ext])%list types commands
                         (Py.set extensions (name ext) (List.length he)) rest
  end.

Definition __parse_extensions (h : store) (hc : Commands.cstore)
    (types commands : Py.dict Py.key addr) (root : Element) :=
  parse_extensions h hc [] types commands []
                   (findall_path root ["extensions"; "extension"]).

(** *** __select_extensions *)

(** [extension_authors] may be None, which stands for all of them. *)
Definition selected (platforms : list string) (extension_authors : option (list string))
    (supported_ : string) (x : Extension) : bool :=
  (in_list (platform x) platforms
   && contains_str (supported x) supported_
   && match extension_authors with
      | None => true
      | Some authors => in_list (author x) authors
      end)%bool.

Fixpoint select_extensions (he : estore) (xs : list addr)
    (platforms : list string) (extension_authors : option (list string))
    (supported_ : string) : result (list addr) :=
  match xs with
  | [] => Ok []
  | a :: rest =>
      let! x := or_raise (he !! a) NoObject in
      let! rest' := select_extensions he rest platforms extension_authors supported_ in
      Ok (if selected platforms extension_authors supported_ x then a :: rest'
          else rest')
  end.

Definition __select_extensions (he : estore) (extensions : Py.dict Py.key addr)
    (platforms : list string) (extension_authors : option (list string))
    (supported_ : string) : result (list addr) :=
  select_extensions he (Py.values extensions) platforms extension_authors supported_.

(** [x in s] for a set of extensions. *)
Definition mem (x : addr) (s : list addr) : bool := existsb (Nat.eqb x) s.

(** [set(filtered_ex).union(allowed).difference(blocked)]: a set is read
    through membership only, and is held as the list of its members. *)
Definition filtered_set (filtered_ex allowed blocked : list addr) : list addr :=
  List.filter (fun x => negb (mem x blocked)) (filtered_ex ++ allowed)%list.

(** [{k: v for (k, v) in d.items() if keep k v}] *)
Fixpoint comprehension {V} (keep : Py.key -> V -> bool)
    (items : list (Py.key * V)) (acc : Py.dict Py.key V) : Py.dict Py.key V :=
  match items with
  | [] => acc
  | (k, v) :: rest =>
      comprehension keep rest (if keep k v then Py.set acc k v else acc)
  end.

(** *** The loop of [__filter_registry] over the commands *)

Definition command_stays (extension_set : list addr) (core : bool)
    (cmd : Commands.Command) : bool :=
  match Commands.extensions cmd with
  | [] => core
  | exts => Registry.intersects extension_set exts
  end.

Fixpoint filter_commands (hc : Commands.cstore) (extension_set : list addr)
    (core : bool) (tnames : list Py.key) (commands : Py.dict Py.key addr)
  : result (Py.dict Py.key addr) :=
  match tnames with
  | [] => Ok commands
  | tname :: rest =>
      let! t := Py.getitem commands tname in
      let! cmd := or_raise (hc !! t) NoObject in
      if command_stays extension_set core cmd then
        filter_commands hc extension_set core rest (Py.set commands tname t)
      else filter_commands hc extension_set core rest (Py.del commands tname)
  end.

Definition __filter_registry_commands (hc : Commands.cstore)
    (commands : Py.dict Py.key addr) (extension_set : list addr) (core : bool)
  : result (Py.dict Py.key addr) :=
  filter_commands hc extension_set core (Py.keys commands) commands.

(** *** Platforms *)

Record Platform := mkPlatform {
  p_name : option string;
  macro : option string;
  p_extensions : Py.dict Py.key addr;
  p_commands : Py.dict Py.key addr;
  p_types : Py.dict Py.key addr;
  p_xml_node : option Element
}.

(** The registry: the three stores and the maps from names to objects.
    The core platform is bound to None until the filter has run. *)
Record registry := mkRegistry {
  objs : store;
  cmds : Commands.cstore;
  exts : estore;
  r_types : Py.dict Py.key addr;
  r_commands : Py.dict Py.key addr;
  r_extensions : Py.dict Py.key addr;
  r_platforms : Py.dict Py.key (option Platform)
}.

Definition platform_is (he : estore) (pname : option string) (x : addr) : bool :=
  match he !! x, pname with
  | Some ext, Some n => String.eqb n (platform ext)
  | _, _ => false
  end.

Definition type_extensions (h : store) (t : addr) : list addr :=
  match h !! t with Some o => Catalog.extensions o | None => [] end.

Definition command_extensions (hc : Commands.cstore) (c : addr) : list addr :=
  match hc !! c with Some cmd => Commands.extensions cmd | None => [] end.

(** [select_types_and_commands]: the three maps of the platform named
    [pname]. *)
Definition select_types_and_commands (r : registry) (pname : option string)
  : Py.dict Py.key addr * Py.dict Py.key addr * Py.dict Py.key addr :=
  let extensions :=
    comprehension (fun _ v => platform_is (exts r) pname v) (r_extensions r) [] in
  let set := Py.values extensions in
  let commands :=
    comprehension (fun _ v => Registry.intersects set (command_extensions (cmds r) v))
                  (r_commands r) [] in
  let types :=
    comprehension (fun _ v => Registry.intersects set (type_extensions (objs r) v))
                  (r_types r) [] in
  (extensions, commands, types).

Definition is_nil {A} (l : list A) : bool :=
  match l with [] => true | _ => false end.

(** [a | b] on two dicts. *)
Definition union {V} (a b : Py.dict Py.key V) : Py.dict Py.key V :=
  fold_left (fun d '(k, v) => Py.set d k v) b a.

(** [Platform(registry, pe)] *)
Definition Platform_init (r : registry) (pe : option Element) : Platform :=
  match pe with
  | Some e =>
      let '(extensions, commands, types) := select_types_and_commands r (get e "name") in
      mkPlatform (get e "name") (get e "protect") extensions commands types pe
  | None =>
      let '(extensions, commands, types) := select_types_and_commands r (Some "") in
      let core_commands :=
        comprehension (fun _ v => is_nil (command_extensions (cmds r) v))
                      (r_commands r) [] in
      let core_types :=
        comprehension (fun _ v => is_nil (type_extensions (objs r) v))
                      (r_types r) [] in
      mkPlatform (Some "") (Some "") extensions
                 (union commands core_commands) (union types core_types) None
  end.

(** *** __filter_registry *)

Definition key_in (k : Py.key) (l : list string) : bool :=
  match k with Some s => in_list s l | None => false end.

Definition wants_core (extension_authors : option (list string)) : bool :=
  match extension_authors with
  | None => true
  | Some authors => in_list "" authors
  end.

Definition __filter_registry (r : registry) (platforms : list string)
    (extension_authors : option (list string)) (supported_ : string)
    (allowed_extensions blocked_extensions : list addr) : result registry :=
  let! filtered_ex :=
    __select_extensions (exts r) (r_extensions r) platforms extension_authors
                        supported_ in
  let set := filtered_set filtered_ex allowed_extensions blocked_extensions in
  let extensions := comprehension (fun _ v => mem v set) (r_extensions r) [] in
  let platforms' := comprehension (fun k _ => key_in k platforms) (r_platforms r) [] in
  let core := wants_core extension_authors in
  let! (h, types) := Registry.__filter_registry_types (objs r) (r_types r) set core in
  let! commands := __filter_registry_commands (cmds r) (r_commands r) set core in
  Ok (mkRegistry h (cmds r) (exts r) types commands extensions platforms').

End Extensions.

(** ** The types of the document *)

Module Types.

Import XML Catalog.

(** [Handle(registry, te)]: the parent is a [TypeRef], an object of its own,
    until [__resolve_typeref] puts the handle of that name, or None, in its
    place. *)
Definition Handle_init (h : store) (te : Element) : result (store * addr) :=
  let! n := find_text te ["name"] in
  let! t := find_text te ["type"] in
  let pname := get_default te "parent" "" in
  let '(h, parent) := alloc h (mkObj (Some pname) [] None (TypeRef (Some pname))) in
  Ok (alloc h (mkObj n [] (Some te)
                     (Handle (Field.opt_eqb t "VK_DEFINE_HANDLE") (Some parent)))).

(** [Struct(registry, te)], and [st.is_union = True] for a union. *)
Definition Struct_init (h : store) (aliases : Py.dict Py.key Field.alias_entry)
    (is_union : bool) (te : Element) : result (store * addr) :=
  let! n := or_raise (get te "name") KeyError in
  let! members :=
    Commands.parse_params (obj_name h) aliases (Field.OwnerStruct n)
                          (findall te "member") in
  Ok (alloc h (mkObj (Some n) [] (Some te)
                     (Struct is_union members
                             (ByName (Py.split_nonempty
                                        (get_default te "structextends" "")))
                             []))).

Definition FunctionPtr_init (h : store) (te : Element) : result (store * addr) :=
  let! n := find_text te ["name"] in
  Ok (alloc h (mkObj n [] (Some te) FunctionPtr)).

Definition Bitmask_init (h : store) (types : Py.dict Py.key addr) (te : Element)
  : result (store * addr) :=
  let! n := find_text te ["name"] in
  let! t := find_text te ["type"] in
  let! flags := match get te "requires" with
                | Some r => let! f := Py.getitem types (Some r) in Ok (Some f)
                | None => Ok None
                end in
  Ok (alloc h (mkObj n [] (Some te) (Bitmask t flags))).

Definition Define_init (h : store) (te : Element) : result (store * addr) :=
  match get te "name" with
  | Some n => Ok (alloc h (mkObj (Some n) [] (Some te) (Define None (text te))))
  | None =>
      let! name := or_raise (find te "name") AttributeError in
      Ok (alloc h (mkObj (text name) [] (Some te) (Define (tail name) (text te))))
  end.

(** What the first loop of [__parse_types] holds: the store and the two
    maps. *)
Definition catalog : Type :=
  store * Py.dict Py.key addr * Py.dict Py.key Field.alias_entry.

(** A new type is bound under its own name. *)
Definition bind_type (types : Py.dict Py.key addr)
    (aliases : Py.dict Py.key Field.alias_entry) (r : result (store * addr))
  : result catalog :=
  let! (h, a) := r in
  let! o := read h a in
  Ok (h, Py.set types (name o) a, aliases).

(** One turn of the loop over [types/type[@category]]. *)
Definition parse_type (c : catalog) (te : Element) : result catalog :=
  let '(h, types, aliases) := c in
  match get te "alias" with
  | Some alias =>
      let n := get te "name" in
      let! target := Py.getitem types (Some alias) in
      let '(h, a) := alloc h (mkObj n [] None (TypeAlias (AliasObj target))) in
      Ok (h, Py.set types n a, Py.set aliases n (Field.AliasType n))
  | None =>
      let category := get_default te "category" "" in
      if String.eqb category "handle" then
        bind_type types aliases (Handle_init h te)
      else if String.eqb category "struct" then
        bind_type types aliases (Struct_init h aliases false te)
      else if String.eqb category "union" then
        bind_type types aliases (Struct_init h aliases true te)
      else if String.eqb category "funcpointer" then
        bind_type types aliases (FunctionPtr_init h te)
      else if String.eqb category "bitmask" then
        bind_type types aliases (Bitmask_init h types te)
      else if String.eqb category "define" then
        bind_type types aliases (Define_init h te)
      else Ok c
  end.

Fixpoint parse_types (c : catalog) (tes : list Element) : result catalog :=
  match tes with
  | [] => Ok c
  | te :: rest => let! c := parse_type c te in parse_types c rest
  end.

(** [for t in self.types.values(): t = self.__resolve_typeref(t)]: the
    objects are changed where they stand, and what the call returns is
    dropped. *)
Fixpoint resolve_all (types : Py.dict Py.key addr) (fuel : nat) (h : store)
    (ts : list addr) : result store :=
  match ts with
  | [] => Ok h
  | t :: rest =>
      let! (h, _) := Commands.resolve_object types fuel h t in
      resolve_all types fuel h rest
  end.

Definition __parse_types (fuel : nat) (c : catalog) (root : Element)
  : result catalog :=
  let! (h, types, aliases) :=
    parse_types c (List.filter (Extensions.has_attr "category")
                               (findall_path root ["types"; "type"])) in
  let! h := resolve_all types fuel h (Py.values types) in
  let! h := Registry.__parse_types_extends h types in
  Ok (h, types, aliases).

End Types.

(** ** The length of a dynamic array, as an expression *)

Module Length.

Import XML Catalog.

Definition is_alpha (c : ascii) : bool :=
  (Py.ascii_in 65 90 c || Py.ascii_in 97 122 c)%bool.

(** The longest prefix that [(\w|->)*] matches: the two alternatives begin
    with different characters, so the greedy match is the only one. *)
Fixpoint run (s : string) : string :=
  match s with
  | EmptyString => EmptyString
  | String c r =>
      if Py.is_word c then String c (run r)
      else if Ascii.eqb c "-" then
        match r with
        | String d r' =>
            if Ascii.eqb d ">" then String c (String d (run r'))
            else EmptyString
        | EmptyString => EmptyString
        end
      else EmptyString
  end.

(** [re.search(r'\b[a-zA-Z](\w|->)+', s)]: the match at the first position
    that has one.  [prev_word] tells that the character before is of the
    class [\w], where [\b] does not hold before a letter. *)
Fixpoint search (prev_word : bool) (s : string) : option string :=
  match s with
  | EmptyString => None
  | String c r =>
      if (negb prev_word && is_alpha c && Py.nonempty (run r))%bool
      then Some (String c (run r))
      else search (Py.is_word c) r
  end.

Definition re_search (s : string) : option string := search false s.

Definition cons_char (c : ascii) (l : list string) : list string :=
  match l with
  | x :: t => String c x :: t
  | [] => [String c EmptyString]
  end.

(** [s.split('->')] *)
Fixpoint split_arrow (s : string) : list string :=
  match s with
  | EmptyString => [EmptyString]
  | String c r =>
      if Ascii.eqb c "-" then
        match r with
        | String d r' =>
            if Ascii.eqb d ">" then EmptyString :: split_arrow r'
            else cons_char c (split_arrow r)
        | EmptyString => cons_char c (split_arrow r)
        end
      else cons_char c (split_arrow r)
  end.

(** [s.replace(old, new)] for a non-empty [old], from the left and without
    overlap; [skip] counts the characters of a replaced occurrence that are
    still to pass. *)
Fixpoint replace_from (old new : string) (skip : nat) (s : string) : string :=
  match s with
  | EmptyString => EmptyString
  | String c r =>
      match skip with
      | S k => replace_from old new k r
      | O =>
          if Py.startswith old s
          then new ++ replace_from old new (String.length old - 1) r
          else String c (replace_from old new 0 r)
      end
  end.

(** For the empty [old], [new] goes before every character and at the
    end. *)
Fixpoint interleave (new s : string) : string :=
  new ++ match s with
         | EmptyString => EmptyString
         | String c r => String c (interleave new r)
         end.

Definition str_replace (old new s : string) : string :=
  match old with
  | EmptyString => interleave new s
  | _ => replace_from old new 0 s
  end.

(** [find_member] and [find_parameter]: the first field of that name. *)
Definition find_field (fs : list Field.Field) (name : string) : option Field.Field :=
  List.find (fun f => Field.opt_eqb (Field.f_name f) name) fs.

Definition find_member (h : store) (t : addr) (name : string)
  : result (option Field.Field) :=
  let! o := read h t in
  match kind o with
  | Struct _ members _ _ => Ok (find_field members name)
  | _ => Raise AttributeError
  end.

Definition find_parameter (cmd : Commands.Command) (name : string)
  : option Field.Field :=
  find_field (Commands.parameters cmd) name.

Definition is_pointer (t : Field.Ty) : bool :=
  match t with Field.Pointer _ _ => true | _ => false end.

(** The loop over [length_field_parts[:-1]].  Of [obj_ty], the parent or a
    struct of the catalog, it reads the fields only, which stand for it
    here. *)
Fixpoint inner_fields (h : store) (fs : list Field.Field) (parts : list string)
  : result (list Field.Field) :=
  match parts with
  | [] => Ok fs
  | part :: rest =>
      let! field := or_raise (find_field fs part) AttributeError in
      match Field.f_type field with
      | Field.Pointer _ (Field.Obj a) =>
          let! o := read h a in
          match kind o with
          | Struct _ members _ _ => inner_fields h members rest
          | _ => Raise AssertionError
          end
      | _ => Raise AssertionError
      end
  end.

(** The part of the length that looks like a field, and the field that it
    names, if any. *)
Definition length_field (h : store) (parent_fields : list Field.Field)
    (length : string) : result (option (string * Field.Field)) :=
  match re_search length with
  | None => Ok None
  | Some length_field_name =>
      let length_field_parts := split_arrow length_field_name in
      let! fs := inner_fields h parent_fields (List.removelast length_field_parts) in
      match find_field fs (List.last length_field_parts EmptyString) with
      | None => Ok None
      | Some f => Ok (Some (length_field_name, f))
      end
  end.

(** [DynamicArray.length_expr]; [parent_fields] are the parameters of the
    command, or the members of the struct, that is [self.parent]. *)
Definition length_expr (h : store) (parent_fields : list Field.Field)
    (length : string) (obj_expr : option string) : result string :=
  let! r := length_field h parent_fields length in
  match r with
  | None => Ok length
  | Some (length_field_name, f) =>
      let length_field_expr :=
        match obj_expr with
        | Some e => e ++ "." ++ length_field_name
        | None => length_field_name
        end in
      let length_field_expr :=
        if is_pointer (Field.f_type f) then "*" ++ length_field_expr
        else length_field_expr in
      Ok (str_replace length_field_name length_field_expr length)
  end.

End Length.

(** ** The end of the feature pass *)

Module Features.

Import Catalog.

(** The last loop of [__parse_features], over every type of the registry:
    the aliases among the values of each Enum of [self.types] are pointed at
    the values they name.  The loop does not visit [self.constants]. *)
Fixpoint resolve_value_aliases_of (h : store) (ts : list addr) : result store :=
  match ts with
  | [] => Ok h
  | v :: rest =>
      let! h := Enums.resolve_enum_aliases h v in
      resolve_value_aliases_of h rest
  end.

End Features.

(** ** Properties of results *)

Lemma bind_Ok_inv {A B} (r : result A) (k : A -> result B) (b : B) :
  bind r k = Ok b -> exists a, r = Ok a /\ k a = Ok b.
Proof. destruct r; simpl; intros H; try discriminate. eauto. Qed.

Lemma or_raise_Ok_inv {A} (o : option A) e (a : A) :
  or_raise o e = Ok a -> o = Some a.
Proof. destruct o; simpl; congruence. Qed.

Ltac inv_ok :=
  repeat match goal with
  | H : bind _ _ = Ok _ |- _ =>
      let a := fresh "a" in let Ha := fresh "Ha" in
      apply bind_Ok_inv in H; destruct H as (a & Ha & H)
  | H : or_raise _ _ = Ok _ |- _ => apply or_raise_Ok_inv in H
  | H : Ok _ = Ok _ |- _ => injection H as H
  | H : Raise _ = Ok _ |- _ => discriminate H
  | H : OutOfFuel = Ok _ |- _ => discriminate H
  end.

Lemma or_raise_fuel {A} (o : option A) e : or_raise o e <> OutOfFuel.
Proof. destruct o; discriminate. Qed.

(** ** Properties of the modifier parser *)

Module FieldFacts.

Import XML Field.

(** A store without objects, as when the first struct is parsed. *)
Definition no_objects : addr -> option string := fun _ => None.

Example parse_pImage :
  (let! f := parse_parameter_or_member no_objects [] ex_pImage (OwnerCommand (Some "vkCreateImage")) in
   Ok (f_type f, is_output f))
  = Ok (Pointer false (TypeRef (Some "VkImage")), true).
Proof. reflexivity. Qed.

Example parse_pOffsets :
  (let! f := parse_parameter_or_member no_objects [] ex_pOffsets (OwnerCommand (Some "vkCmdBindVertexBuffers")) in
   Ok (f_type f, is_output f))
  = Ok (DynamicArray true (TypeRef (Some "VkDeviceSize")) "bindingCount"
          (OwnerCommand (Some "vkCmdBindVertexBuffers")), false).
Proof. reflexivity. Qed.

Example parse_matrix :
  (let! f := parse_parameter_or_member no_objects [] ex_matrix (OwnerStruct "VkTransformMatrixKHR") in
   Ok (f_type f, is_output f))
  = Ok (FixedArray false (FixedArray false (TypeRef (Some "float")) (Py.VInt 4)) (Py.VInt 3),
        false).
Proof. reflexivity. Qed.

Example parse_mask :
  (let! f := parse_parameter_or_member no_objects [] ex_mask (OwnerStruct "S") in
   Ok (f_type f, bit_size f))
  = Ok (TypeRef (Some "uint32_t"), Some 8).
Proof. reflexivity. Qed.

Example parse_pNext :
  (let! f := parse_parameter_or_member no_objects [] ex_pNext (OwnerStruct "S") in
   Ok (f_type f, is_output f))
  = Ok (NextPtr false (TypeRef (Some "void")), true).
Proof. reflexivity. Qed.

(** *** The loop over the declarator has fuel enough *)

Lemma length_lstrip s : (String.length (Py.lstrip s) <= String.length s)%nat.
Proof.
  induction s as [|c s IH]; simpl; [lia|].
  destruct (Py.is_space c); simpl; lia.
Qed.

Lemma length_rstrip s : (String.length (Py.rstrip s) <= String.length s)%nat.
Proof.
  induction s as [|c s IH]; simpl; [lia|].
  destruct (Py.rstrip s); simpl in *; [destruct (Py.is_space c); simpl; lia|lia].
Qed.

Lemma length_strip s : (String.length (Py.strip s) <= String.length s)%nat.
Proof.
  unfold Py.strip. pose proof (length_rstrip (Py.lstrip s)).
  pose proof (length_lstrip s). lia.
Qed.

Lemma length_drop n : forall s,
  String.length (Py.drop n s) = (String.length s - n)%nat.
Proof.
  induction n as [|n IH]; intros [|c s]; simpl; auto.
Qed.

Lemma match_token_pos s tok n : match_token s = Some (tok, n) -> (1 <= n)%nat.
Proof.
  unfold match_token.
  repeat match goal with
         | |- context [if ?b then _ else _] => destruct b
         end; intros [= <- <-] || discriminate; lia.
Qed.

Lemma int_fuel base s : Py.int base s <> OutOfFuel.
Proof. unfold Py.int. apply or_raise_fuel. Qed.

Lemma tokens_fuel fuel : forall type_str is_const pointer_levels bits,
  (String.length type_str <= fuel)%nat ->
  tokens fuel type_str is_const pointer_levels bits <> OutOfFuel.
Proof.
  induction fuel as [|fuel IH]; intros s c l b Hlen;
    destruct s as [|a s]; simpl; try discriminate; [simpl in Hlen; lia|].
  destruct (match_token (String a s)) as [[tok n]|] eqn:Hm; [|discriminate].
  apply match_token_pos in Hm.
  assert (Hrest : (String.length (Py.strip (Py.drop n (String a s))) <= fuel)%nat).
  { pose proof (length_strip (Py.drop n (String a s))) as H1.
    rewrite length_drop in H1. simpl in *. lia. }
  cbn [bind or_raise].
  destruct tok; try (apply IH; exact Hrest).
  - destruct (Py.nonempty _); [|discriminate]. apply IH.
    pose proof (length_strip
                  (Py.drop (String.length
                              (Py.span not_rbracket
                                 (Py.strip (Py.drop n (String a s)))).1 + 1)
                           (Py.strip (Py.drop n (String a s))))) as H1.
    rewrite length_drop in H1. lia.
  - destruct (Py.nonempty _); [|discriminate].
    destruct (Py.int 10 _) as [z| |] eqn:Ez; cbn [bind];
      [|discriminate|apply int_fuel in Ez; contradiction].
    apply IH.
    pose proof (length_strip
                  (Py.drop (String.length
                              (Py.span Py.is_digit
                                 (Py.strip (Py.drop n (String a s)))).1)
                           (Py.strip (Py.drop n (String a s))))) as H1.
    rewrite length_drop in H1. lia.
Qed.

Lemma assign_lengths_fuel dl : forall i levels,
  assign_lengths i dl levels <> OutOfFuel.
Proof.
  induction dl as [|d dl IH]; intros i levels; simpl; [discriminate|].
  destruct (levels !! i); simpl; [|discriminate].
  destruct (pl_is_fixed_array _); [discriminate|apply IH].
Qed.

(** The parser of the modifiers returns or raises: its loop is never cut
    short. *)
Lemma _parse_type_modifiers_fuel me : _parse_type_modifiers me <> OutOfFuel.
Proof.
  unfold _parse_type_modifiers.
  destruct (tokens _ _ _ _ _) as [[levels bits]| |] eqn:Et; simpl;
    [|discriminate|apply tokens_fuel in Et; [contradiction|lia]].
  destruct (assign_lengths _ _ _) eqn:Ea; simpl; try discriminate.
  apply assign_lengths_fuel in Ea. contradiction.
Qed.

Lemma wrap_all_app obj_name fname parent t l1 l2 :
  wrap_all obj_name fname parent t (l1 ++ l2)
  = (let! t' := wrap_all obj_name fname parent t l1 in wrap_all obj_name fname parent t' l2).
Proof.
  revert t. induction l1 as [|p l1 IH]; intros t; simpl; [reflexivity|].
  destruct (wrap obj_name fname parent t p); simpl; auto.
Qed.

(** The loop over the reversed levels ends with the first level: it is that
    level which decides the outermost constructor of the type. *)
Lemma wrap_all_rev_cons obj_name fname parent base p rest t :
  wrap_all obj_name fname parent base (rev (p :: rest)) = Ok t ->
  exists t', wrap_all obj_name fname parent base (rev rest) = Ok t'
             /\ wrap obj_name fname parent t' p = Ok t.
Proof.
  simpl. rewrite wrap_all_app. intros H. inv_ok.
  exists a. split; [assumption|].
  simpl in H. destruct (wrap obj_name fname parent a p); simpl in H; congruence.
Qed.

(** What [parse_parameter_or_member] computes, read back from its result. *)
Lemma parse_inv obj_name aliases me parent f :
  parse_parameter_or_member obj_name aliases me parent = Ok f ->
  exists levels bits base,
    _parse_type_modifiers me = Ok (levels, bits)
    /\ wrap_all obj_name (f_name f) parent base (rev levels) = Ok (f_type f)
    /\ is_output f
       = (match levels with
          | p :: _ => negb (pl_is_fixed_array p) && negb (pl_is_const p)
          | [] => false
          end)%bool
    /\ (levels = [] -> exists r, f_type f = TypeRef r).
Proof.
  unfold parse_parameter_or_member. intros H.
  bind_step H as fname E1. bind_step H as tname E2. bind_step H as tname' E3.
  bind_step H as [levels bits] E4. bind_step H as t E5.
  injection H as <-. simpl.
  exists levels, bits, (TypeRef tname'). repeat split; try assumption.
  - destruct levels; reflexivity.
  - intros ->. simpl in E5. injection E5 as <-. eauto.
Qed.

Lemma is_output_first_level obj_name aliases me parent f levels bits :
  parse_parameter_or_member obj_name aliases me parent = Ok f ->
  _parse_type_modifiers me = Ok (levels, bits) ->
  is_output f = true
  <-> exists p rest, levels = p :: rest
        /\ pl_is_fixed_array p = false /\ pl_is_const p = false.
Proof.
  intros Hp Hm. apply parse_inv in Hp as (levels' & bits' & base & Hm' & _ & Ho & _).
  rewrite Hm in Hm'. injection Hm' as <- <-. rewrite Ho.
  destruct levels as [|p rest].
  - split; [discriminate|]. intros (? & ? & ? & _). discriminate.
  - rewrite andb_true_iff, !negb_true_iff. split.
    + intros [? ?]. eauto.
    + intros (? & ? & [= <- <-] & ? & ?). auto.
Qed.

(** C8 (as amended): a parsed field is an output exactly when the outermost
    modifier of its type is a non-const [Pointer], [NextPtr] or
    [DynamicArray], or when the first declared pointer level is non-const
    with the length [null-terminated], where the type is the string type and
    carries no modifier. *)
Theorem is_output_iff_outermost obj_name aliases me parent f levels bits :
  parse_parameter_or_member obj_name aliases me parent = Ok f ->
  _parse_type_modifiers me = Ok (levels, bits) ->
  is_output f = true
  <-> nonconst_pointer_modifier (f_type f) = true
      \/ (nonconst_string_level levels = true
          /\ f_type f = TypeRef (Some "string")).
Proof.
  intros Hp Hm.
  apply parse_inv in Hp as (levels' & bits' & base & Hm' & Hw & Ho & Hnil).
  rewrite Hm in Hm'. injection Hm' as <- <-. rewrite Ho. clear Ho Hm.
  destruct levels as [|p rest].
  - destruct (Hnil eq_refl) as [r ->]. simpl.
    split; [discriminate|]. intros [?|[? _]]; discriminate.
  - apply wrap_all_rev_cons in Hw as (t' & _ & Hw). clear Hnil.
    unfold wrap in Hw. simpl.
    destruct p as [c fx len]; simpl in *.
    destruct fx; simpl.
    + bind_step Hw as v Ev. injection Hw as Hw. rewrite <- Hw. simpl.
      destruct c; simpl; intuition discriminate.
    + destruct len as [l|]; simpl.
      * destruct (String.eqb l "null-terminated") eqn:E;
          injection Hw as Hw; rewrite <- Hw; simpl;
          destruct c; simpl; intuition discriminate.
      * destruct (opt_eqb (name obj_name t') "void" && opt_eqb (f_name f) "pNext")%bool;
          injection Hw as Hw; rewrite <- Hw; simpl;
          destruct c; simpl; intuition discriminate.
Qed.

Definition ex_pNext_field : Field :=
  mkField (Some "pNext") (NextPtr false (TypeRef (Some "void")))
          true true None [] ex_pNext.

Lemma is_output_iff_outermost_witness :
  parse_parameter_or_member no_objects [] ex_pNext (OwnerStruct "VkBaseOutStructure")
    = Ok ex_pNext_field
  /\ _parse_type_modifiers ex_pNext = Ok ([mkLevel false false None], None)
  /\ (is_output ex_pNext_field = true
      <-> nonconst_pointer_modifier (f_type ex_pNext_field) = true
          \/ (nonconst_string_level [mkLevel false false None] = true
              /\ f_type ex_pNext_field = TypeRef (Some "string"))).
Proof.
  split; [reflexivity|]. split; [reflexivity|].
  apply (is_output_iff_outermost no_objects [] ex_pNext (OwnerStruct "VkBaseOutStructure")
           ex_pNext_field [mkLevel false false None] None); reflexivity.
Defined.

(** C8 (as stated) fails: a non-const [char*] with [len="null-terminated"]
    is an output although its type is the bare string type, with no modifier
    at all; a non-const [void* pNext] is an output whose outermost modifier
    is a [NextPtr]. *)
Lemma is_output_counterexample :
  exists f g,
    parse_parameter_or_member no_objects [] ex_pName (OwnerStruct "S") = Ok f
    /\ f_type f = TypeRef (Some "string")
    /\ ~ (is_output f = true
          <-> nonconst_pointer_or_dynamic_array (f_type f) = true)
    /\ parse_parameter_or_member no_objects [] ex_pNext (OwnerStruct "S") = Ok g
    /\ ~ (is_output g = true
          <-> nonconst_pointer_or_dynamic_array (f_type g) = true).
Proof.
  eexists _, _. split; [vm_compute; reflexivity|]. simpl.
  split; [reflexivity|]. split; [intros [H _]; specialize (H eq_refl); discriminate|].
  split; [vm_compute; reflexivity|]. simpl.
  intros [H _]; specialize (H eq_refl); discriminate.
Qed.

End FieldFacts.

(** ** Properties of aliases and handles *)

Module CatalogFacts.

Import Catalog.

Lemma read_Some h a o : h !! a = Some o -> read h a = Ok o.
Proof. unfold read. intros ->. reflexivity. Qed.

Lemma read_Ok h a o : read h a = Ok o -> h !! a = Some o.
Proof. unfold read. destruct (h !! a); simpl; congruence. Qed.

Lemma read_lt (h : store) a :
  (a < List.length h)%nat -> exists o, h !! a = Some o.
Proof. intros H. destruct (lookup_lt_is_Some_2 h a H) as [o Ho]. eauto. Qed.

(** *** resolve_type *)

(** Where the chain of aliases from [a] ends: [t] is the object that ends
    it, which is no TypeAlias, or the bare name that its last alias holds. *)
Definition chain_end (h : store) (a : addr) (t : alias_target) : Prop :=
  match t with
  | AliasObj b =>
      rtc (alias_edge h) a b
      /\ exists ob, h !! b = Some ob /\ is_TypeAlias ob = false
  | AliasStr s =>
      exists x ox, rtc (alias_edge h) a x /\ h !! x = Some ox
                   /\ kind ox = TypeAlias (AliasStr s)
  end.

Lemma chain_end_step h a b t :
  alias_edge h a b -> chain_end h b t -> chain_end h a t.
Proof.
  intros Hedge. destruct t as [s|c]; simpl.
  - intros (x & ox & Hr & Hx). exists x, ox. split; [eapply rtc_l; eauto|exact Hx].
  - intros (Hr & Hc). split; [eapply rtc_l; eauto|exact Hc].
Qed.

(** The walk cannot pass twice through an alias, so it is over before the
    aliases of the store are exhausted: [seen] are the aliases passed so
    far. *)
Lemma resolve_type_fuel h :
  closed h ->
  forall fuel seen a,
    (a < List.length h)%nat ->
    List.NoDup seen ->
    (forall s, In s seen -> tc (alias_edge h) s a /\ (s < List.length h)%nat) ->
    acyclic_from h a ->
    (List.length h <= fuel + List.length seen)%nat ->
    exists t, resolve_type h fuel (AliasObj a) = Ok t /\ chain_end h a t.
Proof.
  intros Hclosed fuel.
  induction fuel as [|fuel IH]; intros seen a Ha Hnd Hseen Hacyc Hlen;
    destruct (read_lt h a Ha) as [o Ho];
    (assert (Hfresh : ~ In a seen)
      by (intros Hin; apply (Hacyc a); [apply rtc_refl | apply (Hseen a Hin)]));
    (assert (Hroom : (List.length (a :: seen) <= List.length h)%nat)
      by (rewrite <- (length_seq (List.length h) 0);
          apply NoDup_incl_length; [constructor; assumption|];
          intros x [<-|Hx]; apply in_seq; [lia|];
          destruct (Hseen x Hx); lia));
    simpl in Hroom; simpl; rewrite (read_Some _ _ _ Ho); simpl;
    destruct (kind o) as [ | alias | | | | | | | | ] eqn:Hk;
    try (exists (AliasObj a); split; [reflexivity|];
         split; [apply rtc_refl|]; exists o; split; [exact Ho|];
         unfold is_TypeAlias; rewrite Hk; reflexivity).
  - exfalso. lia.
  - destruct alias as [s|b].
    + exists (AliasStr s). split; [destruct fuel; reflexivity|].
      exists a, o. split; [apply rtc_refl|]. split; assumption.
    + assert (Hedge : alias_edge h a b) by (exists o; auto).
      destruct (IH (a :: seen) b) as (t & Ht & Hend).
      * apply (Hclosed a b Hedge).
      * constructor; assumption.
      * intros s [<-|Hs].
        -- split; [apply tc_once, Hedge | assumption].
        -- destruct (Hseen s Hs). split; [eapply tc_r; eauto | assumption].
      * intros x Hx. apply Hacyc. eapply rtc_l; eauto.
      * simpl. lia.
      * exists t. split; [exact Ht|]. eapply chain_end_step; eauto.
Qed.

(** C9 (as amended): on an alias whose alias graph has no cycle,
    [resolve_type] comes to an end within as many turns as the store has
    objects, and it returns what the last alias of the chain refers to.
    That is either an object [b], reached from [a] along one alias or more,
    which is no TypeAlias, or the bare name held by an alias [x] of the chain
    which has not been pointed at an object. *)
Theorem resolve_type_terminates h a o :
  h !! a = Some o ->
  is_TypeAlias o = true ->
  closed h ->
  acyclic_from h a ->
  exists t, resolve_type h (List.length h) (AliasObj a) = Ok t
    /\ match t with
       | AliasObj b =>
           tc (alias_edge h) a b
           /\ exists ob, h !! b = Some ob /\ is_TypeAlias ob = false
       | AliasStr s =>
           exists x ox, rtc (alias_edge h) a x /\ h !! x = Some ox
                        /\ kind ox = TypeAlias (AliasStr s)
       end.
Proof.
  intros Ho Hta Hclosed Hacyc.
  destruct (resolve_type_fuel h Hclosed (List.length h) [] a) as (t & Ht & Hend).
  - eapply lookup_lt_Some; eauto.
  - constructor.
  - intros s [].
  - assumption.
  - simpl. lia.
  - exists t. split; [exact Ht|].
    destruct t as [s|b]; [exact Hend|].
    destruct Hend as (Hr & ob & Hob & Hnot).
    split; [|eauto].
    apply rtc_tc in Hr as [<-|Htc]; [|exact Htc].
    congruence.
Qed.

(** In [ex_aliases] an alias points below itself. *)
Lemma ex_aliases_edge a b : alias_edge ex_aliases a b -> (b < a)%nat /\ (a < 5)%nat.
Proof.
  intros (o & Ho & Hk).
  do 5 (destruct a as [|a]; [simpl in Ho; injection Ho as <-; simpl in Hk;
                             try discriminate Hk; injection Hk as <-; lia|]).
  discriminate Ho.
Qed.

Lemma ex_aliases_tc a b : tc (alias_edge ex_aliases) a b -> (b < a)%nat.
Proof.
  induction 1 as [a b H|a b c H _ IH].
  - apply ex_aliases_edge in H. lia.
  - apply ex_aliases_edge in H. lia.
Qed.

Lemma resolve_type_terminates_witness :
  resolve_type ex_aliases (List.length ex_aliases) (AliasObj 4%nat)
    = Ok (AliasObj 2%nat)
  /\ exists t, resolve_type ex_aliases (List.length ex_aliases) (AliasObj 4%nat) = Ok t
    /\ match t with
       | AliasObj b =>
           tc (alias_edge ex_aliases) 4%nat b
           /\ exists ob, ex_aliases !! b = Some ob /\ is_TypeAlias ob = false
       | AliasStr s =>
           exists x ox, rtc (alias_edge ex_aliases) 4%nat x
                        /\ ex_aliases !! x = Some ox
                        /\ kind ox = TypeAlias (AliasStr s)
       end.
Proof.
  split; [reflexivity|].
  apply (resolve_type_terminates ex_aliases 4%nat
           (type_alias "VkMemoryRequirements2NV" 3)).
  - reflexivity.
  - reflexivity.
  - intros a b H. apply ex_aliases_edge in H. simpl. lia.
  - intros x _ H. apply ex_aliases_tc in H. lia.
Defined.

Example resolve_type_chain :
  resolve_type ex_aliases 5 (AliasObj 4%nat) = Ok (AliasObj 2%nat).
Proof. reflexivity. Qed.

(** The API constants VK_LUID_SIZE and its alias VK_LUID_SIZE_KHR, and the
    enum VkSampleEnum with its own alias. *)
Definition ex_constants : XML.Element :=
  Enums.enums_elem [("name", "API Constants")]
    [ Enums.enum_elem [("value", "8"); ("name", "VK_LUID_SIZE")];
      Enums.enum_elem [("name", "VK_LUID_SIZE_KHR"); ("alias", "VK_LUID_SIZE")] ].

Definition ex_constants_registry : XML.Element :=
  XML.mkElement "registry" [] None [ex_constants; Enums.ex_enums] None.

Definition ex_constants_types : Py.dict Py.key addr :=
  [(Some "VkSampleEnum", 3%nat)].

Definition ex_constants_table : Py.dict Py.key addr :=
  [(Some "VK_LUID_SIZE", 1%nat); (Some "VK_LUID_SIZE_KHR", 2%nat)].

(** The store when the registry has been parsed: after [__parse_enums] and
    after the last loop of [__parse_features]. *)
Definition ex_constants_parsed : store :=
  Eval cbv in
    match Enums.__parse_enums [] [] [] ex_constants_registry with
    | Ok (h, _, _) => h
    | _ => []
    end.

Definition ex_constants_resolved : store :=
  Eval cbv in
    match Features.resolve_value_aliases_of ex_constants_parsed
            (Py.values ex_constants_types) with
    | Ok h => h
    | _ => []
    end.

Lemma ex_constants_edge a b :
  alias_edge ex_constants_resolved a b -> a = 6%nat /\ b = 5%nat.
Proof.
  intros (o & Ho & Hk).
  do 8 (destruct a as [|a]; [simpl in Ho; injection Ho as <-; simpl in Hk;
                             try discriminate Hk; injection Hk as <-; auto|]).
  discriminate Ho.
Qed.

Lemma ex_constants_tc a b :
  tc (alias_edge ex_constants_resolved) a b -> a = 6%nat /\ b = 5%nat.
Proof.
  induction 1 as [a b H|a b c H _ IH].
  - apply ex_constants_edge, H.
  - apply ex_constants_edge in H. lia.
Qed.

(** C9 (as stated) fails: VK_LUID_SIZE_KHR is a TypeAlias of the parsed
    registry, among its constants, and its alias graph has no cycle.  No pass
    points it at an object, so [resolve_type] returns the name VK_LUID_SIZE,
    a string and no type, where the alias VK_SAMPLE_C of the enum, which the
    last loop of [__parse_features] has resolved, gives the value
    VK_SAMPLE_B. *)
Lemma resolve_type_counterexample :
  Enums.__parse_enums [] [] [] ex_constants_registry
    = Ok (ex_constants_parsed, ex_constants_types, ex_constants_table)
  /\ Features.resolve_value_aliases_of ex_constants_parsed
       (Py.values ex_constants_types) = Ok ex_constants_resolved
  /\ Py.get ex_constants_table (Some "VK_LUID_SIZE_KHR") = Some 2%nat
  /\ ex_constants_resolved !! 2%nat
     = Some (mkObj (Some "VK_LUID_SIZE_KHR") [] None
                   (TypeAlias (AliasStr (Some "VK_LUID_SIZE"))))
  /\ closed ex_constants_resolved
  /\ acyclic_from ex_constants_resolved 2%nat
  /\ resolve_type ex_constants_resolved (List.length ex_constants_resolved)
       (AliasObj 2%nat) = Ok (AliasStr (Some "VK_LUID_SIZE"))
  /\ resolve_type ex_constants_resolved (List.length ex_constants_resolved)
       (AliasObj 6%nat) = Ok (AliasObj 5%nat)
  /\ ~ (exists b, resolve_type ex_constants_resolved
                    (List.length ex_constants_resolved) (AliasObj 2%nat)
                  = Ok (AliasObj b)).
Proof.
  split; [reflexivity|]. split; [reflexivity|]. split; [reflexivity|].
  split; [reflexivity|]. split; [|split; [|split; [|split]]].
  - intros a b H. apply ex_constants_edge in H as [-> ->]. simpl. lia.
  - intros x _ H. apply ex_constants_tc in H. lia.
  - reflexivity.
  - reflexivity.
  - intros [b H]. discriminate H.
Qed.

(** *** is_instance_handle *)

Lemma name_is_eq o s : name_is o s = true <-> name o = Some s.
Proof.
  unfold name_is. destruct (name o) as [n|]; [|split; discriminate].
  rewrite String.eqb_eq. split; congruence.
Qed.

(** One call, with the three tests folded into [stops]. *)
Lemma is_instance_handle_S h fuel a o d parent :
  h !! a = Some o ->
  kind o = Handle d parent ->
  is_instance_handle h (S fuel) a
  = if stops o then Ok (name_is o "VkInstance")
    else match parent with
         | Some p => is_instance_handle h fuel p
         | None => Raise AttributeError
         end.
Proof.
  intros Ho Hk. simpl. rewrite (read_Some _ _ _ Ho). simpl. rewrite Hk.
  unfold stops. destruct (name_is o "VkDevice") eqn:Hd; simpl.
  - apply name_is_eq in Hd. unfold name_is. rewrite Hd. reflexivity.
  - destruct (name_is o "VkInstance"); simpl; [reflexivity|].
    destruct (name_is o "VkSwapchainKHR"); reflexivity.
Qed.

(** C2 (as amended): [is_instance_handle] returns [b] exactly when, going up
    the parent chain from the handle, the first handle named VkDevice,
    VkInstance or VkSwapchainKHR exists and [b] tells whether it is
    VkInstance.  So the answer is true iff the chain reaches VkInstance
    before it passes VkDevice or VkSwapchainKHR. *)
Theorem is_instance_handle_first_stop h a b :
  (exists fuel, is_instance_handle h fuel a = Ok b)
  <-> exists s, first_stop h a s /\ b = name_is s "VkInstance".
Proof.
  split.
  - intros [fuel H]. revert a H.
    induction fuel as [|fuel IH]; intros a H; [discriminate|].
    destruct (read h a) as [o| |] eqn:Ho;
      [|simpl in H; rewrite Ho in H; discriminate..].
    apply read_Ok in Ho.
    destruct (kind o) as [ | | | | d parent | | | | | ] eqn:Hk;
      try (simpl in H; rewrite (read_Some _ _ _ Ho) in H; simpl in H;
           rewrite Hk in H; discriminate).
    rewrite (is_instance_handle_S h fuel a o d parent Ho Hk) in H.
    destruct (stops o) eqn:Hs.
    + injection H as <-. exists o. split; [eapply stop_here; eauto|reflexivity].
    + destruct parent as [p|]; [|discriminate].
      destruct (IH p H) as (s & Hfs & ->).
      exists s. split; [eapply stop_up; eauto|reflexivity].
  - intros (s & Hfs & ->).
    induction Hfs as [a o d p Ho Hk Hs | a o d p s Ho Hk Hs _ [fuel IH]].
    + exists 1%nat. rewrite (is_instance_handle_S h 0 a o d p Ho Hk), Hs.
      reflexivity.
    + exists (S fuel).
      rewrite (is_instance_handle_S h fuel a o d (Some p) Ho Hk), Hs.
      exact IH.
Qed.

Example VkSurfaceKHR_is_instance_handle :
  is_instance_handle ex_handles 2 4%nat = Ok true.
Proof. reflexivity. Qed.

Example VkQueue_is_device_handle :
  is_device_handle ex_handles 2 3%nat = Ok true.
Proof. reflexivity. Qed.

(** C2 (as stated) fails: the parent chain of VkDevice reaches VkInstance
    through VkPhysicalDevice, VkDevice is not VkSwapchainKHR, and
    [is_instance_handle] is false, whatever the fuel. *)
Lemma is_instance_handle_counterexample :
  reaches_instance ex_handles 2%nat
  /\ obj_name ex_handles 2%nat = Some "VkDevice"
  /\ is_instance_handle ex_handles 1 2%nat = Ok false
  /\ ~ ((exists fuel, is_instance_handle ex_handles fuel 2%nat = Ok true)
        <-> (obj_name ex_handles 2%nat <> Some "VkSwapchainKHR"
             /\ reaches_instance ex_handles 2%nat)).
Proof.
  assert (Hr : reaches_instance ex_handles 2%nat).
  { eapply reach_up; [reflexivity|reflexivity|].
    eapply reach_up; [reflexivity|reflexivity|].
    eapply reach_here; reflexivity. }
  split; [exact Hr|]. split; [reflexivity|]. split; [reflexivity|].
  intros [_ H]. destruct H as [fuel H].
  - split; [discriminate|exact Hr].
  - destruct fuel; discriminate H.
Qed.

End CatalogFacts.

(** ** Properties of dicts and of [resolve_aliases] *)

Module DictFacts.

Section dict.
Context {K V : Type} `{EqDecision K}.
Implicit Types (d : Py.dict K V) (k : K) (v : V).

Lemma get_set d k v k' :
  Py.get (Py.set d k v) k' = if decide (k = k') then Some v else Py.get d k'.
Proof.
  induction d as [|[k0 v0] d IH]; simpl.
  - destruct (decide (k = k')); reflexivity.
  - destruct (decide (k0 = k)) as [->|Hne]; simpl.
    + destruct (decide (k = k')); reflexivity.
    + destruct (decide (k0 = k')) as [->|Hne'].
      * destruct (decide (k = k')); congruence.
      * exact IH.
Qed.

Lemma get_In d k v : Py.get d k = Some v -> In (k, v) d.
Proof.
  induction d as [|[k0 v0] d IH]; simpl; [discriminate|].
  destruct (decide (k0 = k)) as [->|Hne]; intros H.
  - injection H as <-. left. reflexivity.
  - right. auto.
Qed.

Lemma In_get d k v :
  List.NoDup (Py.keys d) -> In (k, v) d -> Py.get d k = Some v.
Proof.
  induction d as [|[k0 v0] d IH]; simpl; [intros _ []|].
  intros Hnd [Heq|Hin].
  - injection Heq as -> ->. destruct (decide (k = k)); congruence.
  - inversion Hnd as [|? ? Hnotin Hnd']; subst.
    destruct (decide (k0 = k)) as [->|Hne]; [|auto].
    exfalso. apply Hnotin. apply (in_map fst) in Hin. exact Hin.
Qed.

Lemma get_None_keys d k : Py.get d k = None <-> ~ In k (Py.keys d).
Proof.
  induction d as [|[k0 v0] d IH]; simpl; [tauto|].
  destruct (decide (k0 = k)) as [->|Hne].
  - split; [discriminate|]. intros H. exfalso. auto.
  - rewrite IH. tauto.
Qed.

(** [d[k] = v] on a new key puts the entry last. *)
Lemma set_fresh d k v :
  ~ In k (Py.keys d) -> Py.set d k v = (d ++ [(k, v)])%list.
Proof.
  induction d as [|[k0 v0] d IH]; simpl; [reflexivity|].
  intros Hn. destruct (decide (k0 = k)) as [->|Hne]; [tauto|].
  rewrite IH; [reflexivity|tauto].
Qed.

Lemma keys_set d k v :
  Py.keys (Py.set d k v)
  = if Py.contains d k then Py.keys d else (Py.keys d ++ [k])%list.
Proof.
  unfold Py.contains.
  induction d as [|[k0 v0] d IH]; simpl; [reflexivity|].
  destruct (decide (k0 = k)) as [->|Hne]; simpl; [reflexivity|].
  rewrite IH. destruct (Py.get d k); reflexivity.
Qed.

Lemma NoDup_set d k v :
  List.NoDup (Py.keys d) -> List.NoDup (Py.keys (Py.set d k v)).
Proof.
  intros Hnd. rewrite keys_set. unfold Py.contains.
  destruct (Py.get d k) eqn:Hg; [assumption|].
  apply get_None_keys in Hg.
  apply NoDup_app_remove_l with (l := []). simpl.
  apply Permutation.Permutation_NoDup with (l := k :: Py.keys d).
  - apply Permutation.Permutation_cons_append.
  - constructor; assumption.
Qed.

Lemma In_set d k v k' v' :
  In (k', v') (Py.set d k v) -> (k' = k /\ v' = v) \/ In (k', v') d.
Proof.
  induction d as [|[k0 v0] d IH]; simpl.
  - intros [[= <- <-]|[]]. auto.
  - destruct (decide (k0 = k)) as [->|Hne]; simpl.
    + intros [[= <- <-]|Hin]; auto.
    + intros [Heq|Hin]; [auto|]. apply IH in Hin. tauto.
Qed.

Lemma get_del_ne d k k' : k <> k' -> Py.get (Py.del d k) k' = Py.get d k'.
Proof.
  intros Hne. induction d as [|[k0 v0] d IH]; simpl; [reflexivity|].
  destruct (decide (k0 = k)) as [->|Hne0]; simpl.
  - destruct (decide (k = k')); [contradiction|exact IH].
  - destruct (decide (k0 = k')); [reflexivity|exact IH].
Qed.

Lemma get_del_eq d k : Py.get (Py.del d k) k = None.
Proof.
  induction d as [|[k0 v0] d IH]; simpl; [reflexivity|].
  destruct (decide (k0 = k)) as [->|Hne0]; simpl; [exact IH|].
  destruct (decide (k0 = k)); [contradiction|exact IH].
Qed.

Lemma get_del d k k' :
  Py.get (Py.del d k) k' = if decide (k = k') then None else Py.get d k'.
Proof.
  case_decide as E; [subst; apply get_del_eq|apply get_del_ne, E].
Qed.

Lemma get_keys d k v : Py.get d k = Some v -> In k (Py.keys d).
Proof. intros H. apply get_In in H. apply (in_map fst) in H. exact H. Qed.

(** Writing back the value that is there changes nothing. *)
Lemma get_set_same d k v k' :
  Py.get d k = Some v -> Py.get (Py.set d k v) k' = Py.get d k'.
Proof.
  intros H. rewrite get_set. case_decide as E; [subst; auto|reflexivity].
Qed.
End dict.

End DictFacts.

Module AliasFacts.

Import Catalog CatalogFacts DictFacts.

Section resolve_aliases.
Variables (h : store) (fuel : nat) (rb : bool).

(** What holds of every entry the comprehension writes: the key is the
    name of the value, and the value passes the condition. *)
Definition entry_ok (e : Py.key * addr) : Prop :=
  exists o, read h (snd e) = Ok o /\ name o = fst e
            /\ kept h fuel rb (snd e) = Ok true.

Lemma comprehension_entries items : forall acc R,
  comprehension h fuel rb items acc = Ok R ->
  List.NoDup (Py.keys acc) -> Forall entry_ok acc ->
  List.NoDup (Py.keys R) /\ Forall entry_ok R.
Proof.
  induction items as [|[k v] items IH]; intros acc R H Hnd Hok; simpl in H.
  - injection H as <-. auto.
  - bind_step H as b Eb. destruct b; [|eauto].
    bind_step H as o Eo. apply (IH _ _ H).
    + apply NoDup_set, Hnd.
    + apply List.Forall_forall. intros [k' v'] Hin.
      apply In_set in Hin as [[-> ->]|Hin].
      * exists o. auto.
      * rewrite List.Forall_forall in Hok. auto.
Qed.

(** Run on its own result, the comprehension writes the entries back one
    by one, each at the end. *)
Lemma comprehension_replay rest : forall acc,
  List.NoDup (Py.keys (acc ++ rest)%list) -> Forall entry_ok rest ->
  comprehension h fuel rb rest acc = Ok (acc ++ rest)%list.
Proof.
  induction rest as [|[k v] rest IH]; intros acc Hnd Hok; simpl.
  - rewrite app_nil_r. reflexivity.
  - inversion Hok as [|? ? (o & Ho & Hn & Hk) Hok']; subst. simpl in *.
    rewrite Hk. simpl. rewrite Ho. simpl. subst k.
    assert (Hfresh : ~ In (name o) (Py.keys acc)).
    { unfold Py.keys in *. rewrite map_app in Hnd. simpl in Hnd.
      apply NoDup_remove_2 in Hnd. intros Hin. apply Hnd.
      apply in_or_app. auto. }
    rewrite (set_fresh acc (name o) v Hfresh).
    specialize (IH (acc ++ [(name o, v)])%list).
    rewrite <- app_assoc in IH. apply IH; assumption.
Qed.

Lemma comprehension_get items n v : forall acc R,
  comprehension h fuel rb items acc = Ok R ->
  (forall k' v' o', In (k', v') items -> h !! v' = Some o' ->
                    name o' = n -> v' = v) ->
  Py.get acc n = Some v
  \/ (exists k o, In (k, v) items /\ h !! v = Some o /\ name o = n
                  /\ kept h fuel rb v = Ok true) ->
  Py.get R n = Some v.
Proof.
  induction items as [|[k1 v1] items IH]; intros acc R H Huniq Hcase;
    simpl in H.
  - injection H as <-. destruct Hcase as [?|(? & ? & [] & _)]. assumption.
  - bind_step H as b Eb.
    assert (Huniq' : forall k' v' o', In (k', v') items -> h !! v' = Some o' ->
                                      name o' = n -> v' = v)
      by (intros; eapply Huniq; eauto; right; eassumption).
    destruct b.
    + bind_step H as o1 Eo1. apply (IH _ _ H Huniq').
      rewrite get_set. case_decide as Hn.
      * left. f_equal. apply (Huniq k1 v1 o1); [left; reflexivity| |assumption].
        apply read_Ok, Eo1.
      * destruct Hcase as [?|(k & o & [[= -> ->]|Hin] & Ho & Hno & Hk)]; auto.
        -- apply read_Ok in Eo1. congruence.
        -- right. eauto 10.
    + apply (IH _ _ H Huniq').
      destruct Hcase as [?|(k & o & [[= -> ->]|Hin] & Ho & Hno & Hk)]; auto.
      * congruence.
      * right. eauto 10.
Qed.
End resolve_aliases.

(** The condition, spelled out: not an alias, or a base-type alias while
    base-type aliases are not to be resolved. *)
Lemma kept_true h fuel rb v o :
  read h v = Ok o ->
  kept h fuel rb v = Ok true
  <-> is_TypeAlias o = false
      \/ (is_TypeAlias o = true /\ is_base_type_alias h fuel v = Ok true
          /\ rb = false).
Proof.
  intros Ho. unfold kept. rewrite Ho. simpl.
  destruct (is_TypeAlias o); [|intuition congruence].
  destruct (is_base_type_alias h fuel v) as [b| |]; simpl;
    [|intuition congruence..].
  destruct b, rb; simpl; intuition congruence.
Qed.

Lemma resolve_aliases_idempotent h fuel rb M R :
  resolve_aliases h fuel M rb = Ok R ->
  resolve_aliases h fuel R rb = Ok R.
Proof.
  unfold resolve_aliases. intros H.
  apply comprehension_entries in H as [Hnd Hok]; [|constructor..].
  apply (comprehension_replay h fuel rb R []); assumption.
Qed.

(** C6: with [resolve_base_type_aliases] left false, [resolve_aliases] run on
    its own result returns that result; every entry of the result is keyed
    by the name of its value, which is no alias unless it is a base-type
    alias; and a value of the map that is no alias, or is a base-type alias,
    is found in the result under its name (when no other value of the map
    bears that name). *)
Theorem resolve_aliases_projection h fuel M R :
  resolve_aliases h fuel M false = Ok R ->
  resolve_aliases h fuel R false = Ok R
  /\ (forall k v, In (k, v) R ->
        exists o, h !! v = Some o /\ name o = k
                  /\ (is_TypeAlias o = false
                      \/ is_base_type_alias h fuel v = Ok true))
  /\ (forall k v o, In (k, v) M -> h !! v = Some o ->
        is_TypeAlias o = false \/ is_base_type_alias h fuel v = Ok true ->
        (forall k' v' o', In (k', v') M -> h !! v' = Some o' ->
                          name o' = name o -> v' = v) ->
        Py.get R (name o) = Some v).
Proof.
  intros H. split; [eapply resolve_aliases_idempotent; eauto|]. split.
  - unfold resolve_aliases in H.
    apply comprehension_entries in H as [_ Hok]; [|constructor..].
    intros k v Hin. rewrite List.Forall_forall in Hok.
    destruct (Hok _ Hin) as (o & Ho & Hn & Hk). simpl in *.
    exists o. split; [apply read_Ok, Ho|]. split; [assumption|].
    apply (kept_true h fuel false v o Ho) in Hk. tauto.
  - intros k v o Hin Ho Hkeep Huniq. unfold resolve_aliases in H.
    apply (comprehension_get h fuel false M (name o) v [] R H Huniq).
    right. exists k, o. repeat split; try assumption.
    apply (kept_true h fuel false v o (read_Some _ _ _ Ho)).
    destruct (is_TypeAlias o); [right|left]; intuition congruence.
Qed.

(** On a store without alias cycles the comprehension returns: the store
    has fuel enough in its length. *)
Lemma kept_total h rb v :
  closed h -> (v < List.length h)%nat -> acyclic_from h v ->
  exists b, kept h (List.length h) rb v = Ok b.
Proof.
  intros Hclosed Hv Hacyc. destruct (read_lt h v Hv) as [o Ho].
  unfold kept, is_base_type_alias. rewrite (read_Some _ _ _ Ho). simpl.
  unfold is_TypeAlias. destruct (kind o) as [ |[s|b]| | | | | | | | ] eqn:Hk;
    simpl; eauto.
  - destruct (List.length h); simpl; eauto.
  - assert (Hedge : alias_edge h v b) by (exists o; auto).
    destruct (resolve_type_fuel h Hclosed (List.length h) [] b) as (t & Ht & _).
    + apply (Hclosed v b Hedge).
    + constructor.
    + intros x [].
    + intros x Hx. apply Hacyc. eapply rtc_l; eauto.
    + simpl. lia.
    + rewrite Ht. simpl. eauto.
Qed.

Lemma resolve_aliases_total h M rb :
  closed h ->
  (forall k v, In (k, v) M -> (v < List.length h)%nat /\ acyclic_from h v) ->
  exists R, resolve_aliases h (List.length h) M rb = Ok R.
Proof.
  intros Hclosed. unfold resolve_aliases. generalize (@nil (Py.key * addr)).
  induction M as [|[k v] M IH]; intros acc HM; simpl; [eauto|].
  destruct (HM k v (or_introl eq_refl)) as [Hv Hacyc].
  destruct (kept_total h rb v Hclosed Hv Hacyc) as [b ->]. simpl.
  destruct (read_lt h v Hv) as [o Ho].
  destruct b; [rewrite (read_Some _ _ _ Ho); simpl|];
    apply IH; intros k' v' Hin; apply (HM k' v'); right; exact Hin.
Qed.

Definition ex_unaliased : Py.dict Py.key addr :=
  [ (Some "uint32_t", 0%nat); (Some "VkBool32", 1%nat);
    (Some "VkMemoryRequirements2", 2%nat) ].

Lemma resolve_aliases_projection_witness :
  resolve_aliases ex_aliases 5 ex_types false = Ok ex_unaliased
  /\ resolve_aliases ex_aliases 5 ex_unaliased false = Ok ex_unaliased
  /\ Py.get ex_unaliased (Some "VkBool32") = Some 1%nat
  /\ Py.get ex_unaliased (Some "VkMemoryRequirements2KHR") = None.
Proof.
  split; [reflexivity|].
  destruct (resolve_aliases_projection ex_aliases 5 ex_types ex_unaliased eq_refl)
    as (Hid & _ & Hkeep).
  split; [exact Hid|]. split; [|reflexivity].
  apply (Hkeep (Some "VkBool32") 1%nat (type_alias "VkBool32" 0)).
  - simpl. auto.
  - reflexivity.
  - right. reflexivity.
  - intros k' v' o' Hin Ho' Hn. simpl in Hin.
    repeat (destruct Hin as [[= <- <-]|Hin];
            [simpl in Ho'; injection Ho' as <-; simpl in Hn;
             try discriminate Hn; try reflexivity|]).
    destruct Hin.
Defined.

Example resolve_base_type_aliases_too :
  resolve_aliases ex_aliases 5 ex_types true
  = Ok [ (Some "uint32_t", 0%nat); (Some "VkMemoryRequirements2", 2%nat) ].
Proof. reflexivity. Qed.

End AliasFacts.

(** ** Properties of the store *)

Module StoreFacts.

Import Catalog CatalogFacts.

Lemma read_alloc_old h o a o' :
  h !! a = Some o' -> (fst (alloc h o)) !! a = Some o'.
Proof. intros H. simpl. apply lookup_app_l_Some. exact H. Qed.

Lemma read_alloc_new h o : (fst (alloc h o)) !! (snd (alloc h o)) = Some o.
Proof. simpl. apply list_lookup_middle. reflexivity. Qed.

Lemma read_write_eq h a o :
  (a < List.length h)%nat -> (write h a o) !! a = Some o.
Proof. intros H. apply list_lookup_insert_eq. exact H. Qed.

Lemma read_write_ne h a b o : a <> b -> (write h a o) !! b = h !! b.
Proof. intros H. apply list_lookup_insert_ne. exact H. Qed.

Lemma length_write h a o : List.length (write h a o) = List.length h.
Proof. apply length_insert. Qed.

Lemma lookup_lt (h : store) a o : h !! a = Some o -> (a < List.length h)%nat.
Proof. apply lookup_lt_Some. Qed.

(** The store after a write, read anywhere. *)
Lemma read_write h a b o :
  (a < List.length h)%nat ->
  (write h a o) !! b = if decide (a = b) then Some o else h !! b.
Proof.
  intros H. case_decide as E.
  - subst. apply read_write_eq, H.
  - apply read_write_ne, E.
Qed.

End StoreFacts.

(** ** Properties of enums *)

Module EnumFacts.

Import XML Catalog CatalogFacts StoreFacts Enums Registry.

(** *** parse_enum_extend *)

Lemma parse_enum_extend_inv h types ee extnumber h' ev :
  parse_enum_extend h types ee extnumber = Ok (h', ev) ->
  get ee "alias" = None ->
  exists enum eo values is_bitmask bitwidth value,
    Py.get types (get ee "extends") = Some enum
    /\ h !! enum = Some eo
    /\ kind eo = Enum values is_bitmask bitwidth
    /\ extend_value eo ee extnumber = Ok value
    /\ h' !! ev = Some (mkObj (get ee "name") [] (Some ee)
                              (EnumValue (Py.VInt value) (get ee "comment")))
    /\ values_of h' enum = Py.set values (get ee "name") ev.
Proof.
  unfold parse_enum_extend. intros H Halias. rewrite Halias in H.
  bind_step H as enum E1. bind_step H as eo E2. bind_step H as value E3.
  unfold alloc in H. bind_step H as h1 E4. injection H as <- <-.
  unfold insert_value in E4.
  destruct (kind eo) as [ | | | | | | values bm bw | | | ] eqn:Hk; try discriminate.
  injection E4 as <-.
  apply or_raise_Ok_inv in E1. apply read_Ok in E2.
  assert (Hlt : (enum < List.length h)%nat) by (eapply lookup_lt; eauto).
  exists enum, eo, values, bm, bw, value.
  repeat split; try assumption.
  - rewrite read_write_ne by lia. apply list_lookup_middle. reflexivity.
  - unfold values_of. rewrite read_write_eq by (rewrite length_app; simpl; lia).
    reflexivity.
Qed.

(** C7: an extending [enum] element with neither [alias] nor [value] puts,
    under its name, a value that is 1 shifted left by [bitpos] when the
    target enum is a bitmask, and otherwise
    1000000000 + (extnumber - 1) * 1000 + offset, [extnumber] being what the
    caller passes: the number of the extension, or the [extnumber] of the
    element in a feature block. *)
Theorem parse_enum_extend_value h types ee extnumber h' ev :
  parse_enum_extend h types ee extnumber = Ok (h', ev) ->
  get ee "alias" = None ->
  get ee "value" = None ->
  exists enum eo values is_bitmask bitwidth value,
    Py.get types (get ee "extends") = Some enum
    /\ h !! enum = Some eo
    /\ kind eo = Enum values is_bitmask bitwidth
    /\ h' !! ev = Some (mkObj (get ee "name") [] (Some ee)
                              (EnumValue (Py.VInt value) (get ee "comment")))
    /\ Py.get (values_of h' enum) (get ee "name") = Some ev
    /\ if is_bitmask
       then exists bitpos, Py.int_opt 10 (get ee "bitpos") = Ok bitpos
                           /\ 0 <= bitpos /\ value = Z.shiftl 1 bitpos
       else exists offset, Py.int_opt 10 (get ee "offset") = Ok offset
                           /\ value = 1000000000 + (extnumber - 1) * 1000 + offset.
Proof.
  intros H Halias Hvalue.
  apply parse_enum_extend_inv in H
    as (enum & eo & values & bm & bw & value & Ht & Ho & Hk & Hv & Hev & Hvals);
    [|assumption].
  exists enum, eo, values, bm, bw, value. repeat split; try assumption.
  - rewrite Hvals, DictFacts.get_set. case_decide; congruence.
  - unfold extend_value in Hv. rewrite Hvalue, Hk in Hv. destruct bm.
    + bind_step Hv as bitpos Eb. exists bitpos. unfold shift1 in Hv.
      destruct (bitpos <? 0) eqn:Hneg; [discriminate|].
      injection Hv as <-. apply Z.ltb_ge in Hneg. auto.
    + bind_step Hv as offset Eo. exists offset. injection Hv as <-. auto.
Qed.

(** And it does return when the target is an enum of the registry and the
    attribute that is read decodes. *)
Lemma parse_enum_extend_returns h types ee extnumber enum eo values bm bw :
  Py.get types (get ee "extends") = Some enum ->
  h !! enum = Some eo ->
  kind eo = Enum values bm bw ->
  get ee "alias" = None ->
  get ee "value" = None ->
  (if bm then exists bitpos, Py.int_opt 10 (get ee "bitpos") = Ok bitpos
                             /\ 0 <= bitpos
   else exists offset, Py.int_opt 10 (get ee "offset") = Ok offset) ->
  exists h' ev, parse_enum_extend h types ee extnumber = Ok (h', ev).
Proof.
  intros Ht Ho Hk Hal Hv Hattr.
  assert (Hins : forall onew ev,
            insert_value (h ++ [onew])%list enum eo (get ee "name") ev
            = Ok (write (h ++ [onew])%list enum
                        (with_kind eo (Enum (Py.set values (get ee "name") ev) bm bw))))
    by (intros; unfold insert_value; rewrite Hk; reflexivity).
  assert (Hstart : forall value,
            extend_value eo ee extnumber = Ok value ->
            exists h' ev, parse_enum_extend h types ee extnumber = Ok (h', ev)).
  { intros value Hvalue. do 2 eexists.
    unfold parse_enum_extend, Py.getitem, alloc. cbv zeta.
    match goal with
    | |- context [or_raise ?x KeyError] =>
        replace x with (Some enum) by (symmetry; exact Ht)
    end.
    simpl. rewrite (read_Some _ _ _ Ho). simpl. rewrite Hal, Hvalue. simpl.
    rewrite Hins. reflexivity. }
  unfold extend_value in Hstart. rewrite Hv, Hk in Hstart.
  destruct bm.
  - destruct Hattr as (bitpos & Hb & Hpos). eapply Hstart.
    rewrite Hb. simpl. unfold shift1.
    destruct (bitpos <? 0) eqn:E; [apply Z.ltb_lt in E; lia|reflexivity].
  - destruct Hattr as (offset & Hoff). eapply Hstart.
    rewrite Hoff. reflexivity.
Qed.

(** VkResult with one value, and the debug report extension (number 12)
    adding VK_ERROR_VALIDATION_FAILED_EXT at offset 1. *)
Definition ex_VkResult : store :=
  [ mkObj (Some "VK_SUCCESS") [] None (EnumValue (Py.VInt 0) None);
    mkObj (Some "VkResult") [] None (Enum [(Some "VK_SUCCESS", 0%nat)] false 32) ].

Definition ex_result_types : Py.dict Py.key addr := [(Some "VkResult", 1%nat)].

Definition ex_extend : Element :=
  enum_elem [("offset", "1"); ("extends", "VkResult");
             ("name", "VK_ERROR_VALIDATION_FAILED_EXT")].

Definition ex_VkResult_extended : store :=
  [ mkObj (Some "VK_SUCCESS") [] None (EnumValue (Py.VInt 0) None);
    mkObj (Some "VkResult") [] None
          (Enum [(Some "VK_SUCCESS", 0%nat);
                 (Some "VK_ERROR_VALIDATION_FAILED_EXT", 2%nat)] false 32);
    mkObj (Some "VK_ERROR_VALIDATION_FAILED_EXT") [] (Some ex_extend)
          (EnumValue (Py.VInt 1000011001) None) ].

Lemma parse_enum_extend_value_witness :
  parse_enum_extend ex_VkResult ex_result_types ex_extend 12
    = Ok (ex_VkResult_extended, 2%nat)
  /\ exists enum eo values is_bitmask bitwidth value,
    Py.get ex_result_types (get ex_extend "extends") = Some enum
    /\ ex_VkResult !! enum = Some eo
    /\ kind eo = Enum values is_bitmask bitwidth
    /\ ex_VkResult_extended !! 2%nat
       = Some (mkObj (get ex_extend "name") [] (Some ex_extend)
                     (EnumValue (Py.VInt value) (get ex_extend "comment")))
    /\ Py.get (values_of ex_VkResult_extended enum) (get ex_extend "name") = Some 2%nat
    /\ if is_bitmask
       then exists bitpos, Py.int_opt 10 (get ex_extend "bitpos") = Ok bitpos
                           /\ 0 <= bitpos /\ value = Z.shiftl 1 bitpos
       else exists offset, Py.int_opt 10 (get ex_extend "offset") = Ok offset
                           /\ value = 1000000000 + (12 - 1) * 1000 + offset.
Proof.
  split; [reflexivity|].
  apply (parse_enum_extend_value ex_VkResult ex_result_types ex_extend 12);
    reflexivity.
Defined.

(** The extension passes its own number, the feature block the [extnumber]
    of the element. *)
Lemma extension_enum_number h types self number ee h' :
  extension_enum h types self number ee = Ok h' ->
  exists h1 ev, parse_enum_extend h types ee number = Ok (h1, ev).
Proof.
  unfold extension_enum. intros H. bind_step H as [h1 ev] E. eauto.
Qed.

Lemma feature_enum_number h types ee h' :
  feature_enum h types ee = Ok h' ->
  exists n ev, Py.int 10 (get_default ee "extnumber" "0") = Ok n
               /\ parse_enum_extend h types ee n = Ok (h', ev).
Proof.
  unfold feature_enum. intros H. bind_step H as n En.
  bind_step H as [h1 ev] E. injection H as <-. eauto.
Qed.

Example extend_bitmask :
  extend_value (mkObj (Some "VkAccessFlagBits") [] None (Enum [] true 32))
               (enum_elem [("bitpos", "17"); ("extends", "VkAccessFlagBits");
                           ("name", "VK_ACCESS_X_BIT")]) 3
  = Ok 131072.
Proof. reflexivity. Qed.

End EnumFacts.

(** ** Properties of [get_integer_values] *)

Module IntegerValues.

Import XML Catalog CatalogFacts StoreFacts Enums Registry.

Lemma element_value_origin ee x b :
  element_value ee = Ok (x, b) ->
  exists str_v, raw_text ee = Some str_v
    /\ ((exists z, decode ee str_v = Ok z /\ x = Py.VInt z)
        \/ (decode ee str_v = Raise ValueError /\ x = Py.VStr str_v)).
Proof.
  unfold element_value, raw_text, decode.
  destruct (get ee "bitpos") as [s|]; [|destruct (get ee "value") as [s|]];
    intros H; try discriminate; bind_step H as ev E; injection H as <- <-;
    exists s; (split; [reflexivity|]); unfold or_raw in E.
  - destruct (decode_bitpos s) as [z|[]|]; try discriminate;
      injection E as <-; eauto.
  - destruct (decode_value s) as [z|[]|]; try discriminate;
      injection E as <-; eauto.
Qed.

(** What the loop of [Enum.__init__] leaves in the store for an entry of
    the value map. *)
Definition made_from (ees : list Element) (o : obj) : Prop :=
  (exists ee x b c, In ee ees /\ get ee "alias" = None
                    /\ element_value ee = Ok (x, b) /\ kind o = EnumValue x c)
  \/ (exists s, kind o = TypeAlias (AliasStr s)).

Lemma made_from_cons ee ees o : made_from ees o -> made_from (ee :: ees) o.
Proof.
  intros [(ee' & x & b & c & Hin & H)|H]; [left|right; exact H].
  exists ee', x, b, c. split; [right; exact Hin|exact H].
Qed.

Lemma init_values_inv ees : forall h values bm h' values' bm',
  init_values h values bm ees = Ok (h', values', bm') ->
  (forall a o, h !! a = Some o -> h' !! a = Some o)
  /\ (forall k a, In (k, a) values' ->
        In (k, a) values
        \/ ((List.length h <= a)%nat
            /\ exists o, h' !! a = Some o /\ name o = k /\ made_from ees o)).
Proof.
  induction ees as [|ee ees IH]; intros h values bm h' values' bm' H; simpl in H.
  - injection H as <- <- <-. auto.
  - assert (Hstep : forall o1 bm1,
              init_values (h ++ [o1])%list
                          (Py.set values (get ee "name") (List.length h)) bm1 ees
              = Ok (h', values', bm') ->
              name o1 = get ee "name" -> made_from (ee :: ees) o1 ->
              (forall a o, h !! a = Some o -> h' !! a = Some o)
              /\ (forall k a, In (k, a) values' ->
                    In (k, a) values
                    \/ ((List.length h <= a)%nat
                        /\ exists o, h' !! a = Some o /\ name o = k
                                      /\ made_from (ee :: ees) o))).
    { intros o1 bm1 H1 Hn Hm. apply IH in H1 as [Hold Hnew]. split.
      - intros a o Ha. apply Hold. apply lookup_app_l_Some. exact Ha.
      - intros k a Hin. apply Hnew in Hin as [Hin|(Hge & o & Ho & Hno & Hmo)].
        + apply DictFacts.In_set in Hin as [[-> ->]|Hin]; [|auto].
          right. split; [lia|]. exists o1. split; [|auto].
          apply Hold. apply list_lookup_middle. reflexivity.
        + right. rewrite length_app in Hge. simpl in Hge. split; [lia|].
          exists o. split; [assumption|]. split; [assumption|].
          apply made_from_cons, Hmo. }
    destruct (get ee "alias") as [al|] eqn:Hal.
    + unfold alloc in H. eapply Hstep; [exact H|reflexivity|].
      right. eexists. reflexivity.
    + bind_step H as [ev b] Ev. unfold alloc in H.
      eapply Hstep; [exact H|reflexivity|].
      left. exists ee, ev, b, (get ee "comment").
      split; [left; reflexivity|]. auto.
Qed.

Lemma made_from_origin te o x c :
  made_from (findall te "enum") o -> kind o = EnumValue x c -> origin te x.
Proof.
  intros [(ee & x' & b & c' & Hin & Hal & Hev & Hk)|[s Hk]] Hk';
    rewrite Hk in Hk'; [|discriminate].
  injection Hk' as -> _.
  apply element_value_origin in Hev as (str_v & Hraw & Hcases).
  exists ee, str_v. auto.
Qed.

(** The enum as the constructor leaves it. *)
Lemma Enum_init_inv h te n h1 e :
  Enum_init h (Some te) n = Ok (h1, e) ->
  exists values bm bw o,
    h1 !! e = Some o /\ kind o = Enum values bm bw
    /\ forall k a, In (k, a) values ->
          exists oa, h1 !! a = Some oa /\ name oa = k
                     /\ made_from (findall te "enum") oa.
Proof.
  unfold Enum_init, alloc. intros H.
  bind_step H as bw Ebw. bind_step H as [[h' values] bm] Ei.
  injection H as <- <-.
  apply init_values_inv in Ei as [Hold Hnew].
  assert (Hlt : (List.length h < List.length h')%nat).
  { eapply lookup_lt. apply Hold. apply list_lookup_middle. reflexivity. }
  eexists values, bm, bw, _. split; [apply read_write_eq, Hlt|].
  split; [reflexivity|].
  intros k a Hin. apply Hnew in Hin as [[]|(Hge & o & Ho & Hno & Hm)].
  rewrite length_app in Hge. simpl in Hge.
  exists o. rewrite read_write_ne by lia. auto.
Qed.

(** Resolution turns names into objects of the value map and touches
    nothing else. *)
Lemma resolve_value_aliases_inv values items : forall h h2,
  resolve_value_aliases h values items = Ok h2 ->
  forall a o, h !! a = Some o ->
    exists o2, h2 !! a = Some o2 /\ name o2 = name o
      /\ (o2 = o
          \/ exists s b k, kind o = TypeAlias (AliasStr s)
                           /\ kind o2 = TypeAlias (AliasObj b)
                           /\ In (k, b) values).
Proof.
  induction items as [|[k ev] items IH]; intros h h2 H a o Ha; simpl in H.
  - injection H as <-. eauto.
  - bind_step H as oe Eo. apply read_Ok in Eo.
    destruct (kind oe) as [ | [s|b] | | | | | | | | ] eqn:Hk;
      try (eapply IH; eauto; fail).
    + bind_step H as target Et. apply or_raise_Ok_inv, DictFacts.get_In in Et.
      destruct (decide (ev = a)) as [->|Hne].
      * assert (o = oe) by congruence. subst o.
        destruct (IH _ _ H a (with_kind oe (TypeAlias (AliasObj target))))
          as (o2 & Ho2 & Hn2 & Hc).
        { apply read_write_eq. eapply lookup_lt; eauto. }
        exists o2. split; [assumption|]. split; [exact Hn2|]. right.
        destruct Hc as [->|(s' & b' & k' & Hk' & _)]; [|discriminate Hk'].
        exists s, target, s. auto.
      * apply (IH _ _ H). rewrite read_write_ne by assumption. exact Ha.
    + discriminate.
Qed.

Lemma enum_ok_mono (P Q : Py.value -> Prop) h e :
  (forall x, P x -> Q x) -> enum_ok P h e -> enum_ok Q h e.
Proof.
  intros HPQ (V & o & values & bm & bw & Ho & Hk & Hvals & HV).
  exists V, o, values, bm, bw. repeat split; try assumption.
  intros a Ha. destruct (HV a Ha) as (oa & Hoa & [(x & c & Hx & HP)|Halias]).
  - exists oa. split; [assumption|]. left. eauto.
  - exists oa. auto.
Qed.

(** The constructor leaves an enum that satisfies [enum_ok]. *)
Lemma Enum_init_ok h te n h1 e :
  Enum_init h (Some te) n = Ok (h1, e) -> enum_ok (origin te) h1 e.
Proof.
  intros Hi. apply Enum_init_inv in Hi as (values & bm & bw & o & Ho & Hk & Hvals).
  exists (fun a => exists k, In (k, a) values), o, values, bm, bw.
  repeat split; try assumption; [eauto|].
  intros a [k Hin]. destruct (Hvals k a Hin) as (oa & Hoa & _ & Hm).
  exists oa. split; [assumption|].
  destruct Hm as [(ee & x & b & c & Hin' & Hal & Hev & Hkv)|[s Hs]].
  - left. exists x, c. split; [exact Hkv|].
    apply (made_from_origin te oa x c); [|exact Hkv].
    left. exists ee, x, b, c. auto.
  - right. exists (AliasStr s). split; [assumption|discriminate].
Qed.

(** Resolution of the aliases keeps it. *)
Lemma resolve_enum_aliases_ok P h e h2 :
  enum_ok P h e -> resolve_enum_aliases h e = Ok h2 -> enum_ok P h2 e.
Proof.
  intros (V & o & values & bm & bw & Ho & Hk & Hvals & HV) Hr.
  unfold resolve_enum_aliases in Hr. rewrite (read_Some _ _ _ Ho) in Hr.
  simpl in Hr. rewrite Hk in Hr.
  pose proof (resolve_value_aliases_inv values values h h2 Hr) as Hres.
  exists V, o, values, bm, bw.
  split; [|split; [exact Hk|split; [exact Hvals|]]].
  - destruct (Hres e o Ho) as (o2 & Ho2 & _ & [->|(s & b & k & Hk' & _)]);
      [assumption|congruence].
  - intros a Ha. destruct (HV a Ha) as (oa & Hoa & Hcase).
    destruct (Hres a oa Hoa) as (o2 & Ho2 & _ & [->|(s & b & k' & Hk1 & Hk2 & Hb)]).
    + exists oa. auto.
    + exists o2. split; [assumption|]. right.
      exists (AliasObj b). split; [assumption|].
      intros b' [= <-]. eauto.
Qed.

(** A write that keeps the class and its attributes keeps it. *)
Lemma write_same_kind_ok P h e a oa oa' :
  enum_ok P h e -> h !! a = Some oa -> kind oa' = kind oa ->
  enum_ok P (write h a oa') e.
Proof.
  intros (V & o & values & bm & bw & Ho & Hk & Hvals & HV) Ha Hkind.
  assert (Hlt : (a < List.length h)%nat) by (eapply lookup_lt; eauto).
  assert (Hread : forall b ob, h !! b = Some ob ->
                    exists ob', write h a oa' !! b = Some ob' /\ kind ob' = kind ob).
  { intros b ob Hb. rewrite read_write by exact Hlt. case_decide.
    - subst b. exists oa'. split; [reflexivity|congruence].
    - eauto. }
  destruct (Hread e o Ho) as (o' & Ho' & Hk').
  exists V, o', values, bm, bw. split; [exact Ho'|].
  split; [congruence|]. split; [exact Hvals|].
  intros b Hb. destruct (HV b Hb) as (ob & Hob & Hcase).
  destruct (Hread b ob Hob) as (ob' & Hob' & Hkb).
  exists ob'. split; [exact Hob'|]. rewrite Hkb. exact Hcase.
Qed.

(** A value contributed by an extension or by a feature block is an integer
    or an alias: the enum keeps satisfying [enum_ok]. *)
Lemma parse_enum_extend_ok P h e types ee extnumber h' ev :
  (forall z, P (Py.VInt z)) ->
  enum_ok P h e ->
  parse_enum_extend h types ee extnumber = Ok (h', ev) ->
  enum_ok P h' e
  /\ exists o, h' !! ev = Some o.
Proof.
  intros HP (V & o & values & bm & bw & Ho & Hk & Hvals & HV) H.
  unfold parse_enum_extend in H.
  bind_step H as t Et. bind_step H as eo Eeo. apply read_Ok in Eeo.
  assert (Hlt : (t < List.length h)%nat) by (eapply lookup_lt; eauto).
  assert (Hgen : forall onew h1,
            insert_value (h ++ [onew])%list t eo (get ee "name") (List.length h)
              = Ok h1 ->
            ((exists z c, kind onew = EnumValue (Py.VInt z) c)
             \/ exists s, kind onew = TypeAlias (AliasStr s)) ->
            enum_ok P h1 e /\ exists o1, h1 !! List.length h = Some o1).
  { intros onew h1 Hins Hnew. unfold insert_value in Hins.
    destruct (kind eo) as [ | | | | | |tvalues tbm tbw| | | ] eqn:Hkt;
      try discriminate.
    injection Hins as <-.
    assert (Hnewread : write (h ++ [onew])%list t
                         (with_kind eo (Enum (Py.set tvalues (get ee "name")
                                                     (List.length h)) tbm tbw))
                       !! List.length h = Some onew).
    { rewrite read_write_ne by lia. apply list_lookup_middle. reflexivity. }
    split; [|eauto].
    assert (Hold : forall a oa, h !! a = Some oa -> a <> t ->
              write (h ++ [onew])%list t
                (with_kind eo (Enum (Py.set tvalues (get ee "name")
                                            (List.length h)) tbm tbw))
              !! a = Some oa).
    { intros a oa Ha Hne. rewrite read_write_ne by congruence.
      apply lookup_app_l_Some. exact Ha. }
    exists (fun a => V a \/ a = List.length h).
    destruct (decide (t = e)) as [->|Hne].
    - assert (eo = o) by congruence. subst eo.
      rewrite Hk in Hkt. injection Hkt as <- <- <-.
      eexists _, _, bm, bw.
      split; [apply read_write_eq; rewrite length_app; simpl; lia|].
      split; [reflexivity|]. split.
      + intros k a Hin. apply DictFacts.In_set in Hin as [[_ ->]|Hin]; eauto.
      + intros a [Ha| ->].
        * destruct (HV a Ha) as (oa & Hoa & Hcase). exists oa. split.
          -- apply Hold; [exact Hoa|]. intros ->.
             assert (oa = o) by congruence. subst oa.
             destruct Hcase as [(? & ? & Hc & _)|(? & Hc & _)]; congruence.
          -- destruct Hcase as [?|(tt & Htt & Htgt)]; [auto|].
             right. exists tt. split; [exact Htt|]. intros b Hb. left. eauto.
        * exists onew. split; [exact Hnewread|].
          destruct Hnew as [(z & c & Hz)|[s Hs]].
          -- left. exists (Py.VInt z), c. auto.
          -- right. exists (AliasStr s). split; [exact Hs|discriminate].
    - exists o, values, bm, bw.
      split; [apply Hold; [exact Ho|congruence]|].
      split; [exact Hk|]. split; [eauto|].
      intros a [Ha| ->].
      + destruct (HV a Ha) as (oa & Hoa & Hcase). exists oa. split.
        * apply Hold; [exact Hoa|]. intros ->.
          assert (oa = eo) by congruence. subst oa.
          destruct Hcase as [(? & ? & Hc & _)|(? & Hc & _)]; congruence.
        * destruct Hcase as [?|(tt & Htt & Htgt)]; [auto|].
          right. exists tt. split; [exact Htt|]. intros b Hb. left. eauto.
      + exists onew. split; [exact Hnewread|].
        destruct Hnew as [(z & c & Hz)|[s Hs]].
        * left. exists (Py.VInt z), c. auto.
        * right. exists (AliasStr s). split; [exact Hs|discriminate]. }
  unfold alloc in H.
  destruct (get ee "alias") as [al|].
  - bind_step H as h1 E1. injection H as <- <-.
    apply (Hgen _ _ E1). right. eexists. reflexivity.
  - bind_step H as value Ev. bind_step H as h1 E1. injection H as <- <-.
    apply (Hgen _ _ E1). left. eexists _, _. reflexivity.
Qed.

Lemma contribute_ok P h e types c h' :
  (forall z, P (Py.VInt z)) ->
  enum_ok P h e -> contribute h types c = Ok h' -> enum_ok P h' e.
Proof.
  intros HP Hok H. destruct c as [self number ee|ee]; simpl in H.
  - unfold extension_enum in H. bind_step H as [h1 ev] E1.
    bind_step H as o Eo. injection H as <-. apply read_Ok in Eo.
    apply (parse_enum_extend_ok P h e) in E1 as [Hok1 _]; try assumption.
    eapply write_same_kind_ok; eauto.
  - unfold feature_enum in H. bind_step H as n En.
    bind_step H as [h1 ev] E1. injection H as <-.
    apply (parse_enum_extend_ok P h e) in E1 as [Hok1 _]; assumption.
Qed.

Lemma contribute_all_ok P e types cs : forall h h',
  (forall z, P (Py.VInt z)) ->
  enum_ok P h e -> contribute_all h types cs = Ok h' -> enum_ok P h' e.
Proof.
  induction cs as [|c cs IH]; intros h h' HP Hok H; simpl in H.
  - injection H as <-. exact Hok.
  - bind_step H as h1 E1. eapply IH; [exact HP| |exact H].
    eapply contribute_ok; eauto.
Qed.

Lemma origin_cases te x :
  origin te x -> Py.is_int x = true \/ undecoded te x.
Proof.
  intros (ee & str_v & Hin & Hal & Hraw & [(z & Hz & ->)|[Hd ->]]).
  - left. reflexivity.
  - right. exists ee, str_v. auto.
Qed.

Section enum_ok.
Variables (P : Py.value -> Prop) (h : store) (V : addr -> Prop).
Hypothesis HV : forall a, V a ->
  exists oa, h !! a = Some oa
    /\ ((exists x c, kind oa = EnumValue x c /\ P x)
        \/ (exists t, kind oa = TypeAlias t
                      /\ forall b, t = AliasObj b -> V b)).

(** The walk along aliases stays among the values. *)
Lemma resolve_type_stays fuel : forall a b,
  V a -> resolve_type h fuel (AliasObj a) = Ok (AliasObj b) -> V b.
Proof.
  induction fuel as [|fuel IH]; intros a b Ha H; simpl in H;
    destruct (HV a Ha) as (oa & Hoa & Hcase);
    rewrite (read_Some _ _ _ Hoa) in H; simpl in H;
    destruct Hcase as [(x & c & Hk & _)|(t & Hk & Ht)]; rewrite Hk in H;
    try (injection H as <-; assumption); try discriminate.
  destruct t as [s|b'].
  - destruct fuel; discriminate.
  - apply (IH b' b); [apply Ht; reflexivity|exact H].
Qed.

Lemma integer_values_ok fuel vs : forall iv0 iv,
  (forall v, In v vs -> V v) ->
  integer_values h fuel vs iv0 = Ok iv ->
  (forall k x, In (k, x) iv0 -> P x) ->
  forall k x, In (k, x) iv -> P x.
Proof.
  induction vs as [|v vs IH]; intros iv0 iv Hvs H Hiv0; simpl in H.
  - injection H as <-. exact Hiv0.
  - bind_step H as o Eo. bind_step H as x0 Ex.
    apply (IH _ _ (fun v' Hv' => Hvs v' (or_intror Hv')) H).
    intros k x Hin. apply DictFacts.In_set in Hin as [[_ ->]|Hin]; [|eauto].
    apply read_Ok in Eo.
    destruct (HV v (Hvs v (or_introl eq_refl))) as (oa & Hoa & Hcase).
    assert (oa = o) by congruence. subst oa.
    destruct Hcase as [(x & c & Hk & HP)|(t & Hk & Ht)]; rewrite Hk in Ex.
    + injection Ex as <-. exact HP.
    + bind_step Ex as t' Et. destruct t' as [s|b]; [discriminate|].
      apply resolve_type_stays in Et; [|apply Hvs; left; reflexivity].
      simpl in Ex. bind_step Ex as ob Eob. apply read_Ok in Eob.
      destruct (HV b Et) as (ob' & Hob' & Hcase).
      assert (ob' = ob) by congruence. subst ob'.
      destruct Hcase as [(x & c & Hkb & HP)|(tb & Hkb & _)]; rewrite Hkb in Ex.
      * injection Ex as <-. exact HP.
      * discriminate.
Qed.
End enum_ok.

(** Every entry that [get_integer_values] returns is the value of one of the
    enum values of the map, aliases followed. *)
Lemma get_integer_values_ok P h e fuel iv :
  enum_ok P h e ->
  get_integer_values h fuel e = Ok iv ->
  forall k x, In (k, x) iv -> P x.
Proof.
  intros (V & o & values & bm & bw & Ho & Hk & Hvals & HV) H.
  unfold get_integer_values in H. rewrite (read_Some _ _ _ Ho) in H.
  simpl in H. rewrite Hk in H.
  apply (integer_values_ok P h V HV fuel (Py.values values) [] iv); [|exact H|].
  - intros v Hv. unfold Py.values in Hv. apply in_map_iff in Hv as ([k a] & <- & Hin).
    eauto.
  - intros k x [].
Qed.

(** Where the strings come from: take an enum built from its [enums]
    element, with the values that extensions and feature blocks contributed
    and with the aliases among its values resolved.  Every entry that
    [get_integer_values] returns is an integer, or else it is the text of
    the [value] or [bitpos] attribute of a child [enum] element of the enum,
    kept as a string because it does not decode as an integer. *)
Lemma get_integer_values_typed h te n h1 e types cs h2 h3 fuel iv :
  Enum_init h (Some te) n = Ok (h1, e) ->
  contribute_all h1 types cs = Ok h2 ->
  resolve_enum_aliases h2 e = Ok h3 ->
  get_integer_values h3 fuel e = Ok iv ->
  forall k x, In (k, x) iv -> Py.is_int x = true \/ undecoded te x.
Proof.
  intros Hi Hc Hr. apply get_integer_values_ok.
  eapply resolve_enum_aliases_ok; [|exact Hr].
  eapply contribute_all_ok; [intros z; left; reflexivity| |exact Hc].
  eapply enum_ok_mono; [apply origin_cases|].
  eapply Enum_init_ok; eauto.
Qed.

(** Without contributions, each entry is the value of a child element. *)
Lemma get_integer_values_origin h te n h1 e h2 fuel iv :
  Enum_init h (Some te) n = Ok (h1, e) ->
  resolve_enum_aliases h1 e = Ok h2 ->
  get_integer_values h2 fuel e = Ok iv ->
  forall k x, In (k, x) iv -> origin te x.
Proof.
  intros Hi Hr. apply get_integer_values_ok.
  eapply resolve_enum_aliases_ok; [|exact Hr].
  eapply Enum_init_ok; eauto.
Qed.

(** The feature block adds VK_SAMPLE_E at offset 2 of the extension 3. *)
Definition ex_contributions : list contribution :=
  [ ByFeature (enum_elem [("extends", "VkSampleEnum"); ("extnumber", "3");
                          ("offset", "2"); ("name", "VK_SAMPLE_E")]) ].

Definition ex_contributed : store :=
  Eval cbv in
    match contribute_all ex_parsed [(Some "VkSampleEnum", 0%nat)] ex_contributions with
    | Ok h => h
    | _ => []
    end.

Definition ex_contributed_resolved : store :=
  Eval cbv in
    match resolve_enum_aliases ex_contributed 0 with
    | Ok h => h
    | _ => []
    end.

Definition ex_all_values : Py.dict Py.key Py.value :=
  [ (Some "VK_SAMPLE_A", Py.VInt 0); (Some "VK_SAMPLE_B", Py.VInt 16);
    (Some "VK_SAMPLE_C", Py.VInt 16); (Some "VK_SAMPLE_D", Py.VStr "1000.0F");
    (Some "VK_SAMPLE_E", Py.VInt 1000002002) ].

Example get_integer_values_typed_example :
  Enum_init [] (Some ex_enums) None = Ok (ex_parsed, 0%nat)
  /\ contribute_all ex_parsed [(Some "VkSampleEnum", 0%nat)] ex_contributions
     = Ok ex_contributed
  /\ resolve_enum_aliases ex_contributed 0 = Ok ex_contributed_resolved
  /\ get_integer_values ex_contributed_resolved 2 0 = Ok ex_all_values
  /\ (Py.is_int (Py.VInt 1000002002) = true
      \/ undecoded ex_enums (Py.VInt 1000002002))
  /\ (Py.is_int (Py.VStr "1000.0F") = true
      \/ undecoded ex_enums (Py.VStr "1000.0F")).
Proof.
  split; [reflexivity|]. split; [reflexivity|]. split; [reflexivity|].
  split; [reflexivity|].
  pose proof (get_integer_values_typed [] ex_enums None ex_parsed 0%nat
                [(Some "VkSampleEnum", 0%nat)] ex_contributions
                ex_contributed ex_contributed_resolved 2 ex_all_values
                eq_refl eq_refl eq_refl eq_refl) as H.
  split.
  - apply (H (Some "VK_SAMPLE_E")). simpl. auto 10.
  - apply (H (Some "VK_SAMPLE_D")). simpl. auto 10.
Defined.

(** C5 fails on the code: the enum [VkSampleEnum] is a type of the parsed
    registry and one of its values has the text [1000.0F].  [Enum.__init__]
    keeps that text as the value, and [get_integer_values], which is to
    return a dictionary from names to integers, returns it unchanged: the
    entry of VK_SAMPLE_D is a string.  The other entries are integers, the
    alias VK_SAMPLE_C giving the value of VK_SAMPLE_B. *)
Theorem get_integer_values_returns_text :
  __parse_enums [] [] [] ex_registry
    = Ok (ex_parsed, [(Some "VkSampleEnum", 0%nat)], [])
  /\ resolve_enum_aliases ex_parsed 0 = Ok ex_resolved
  /\ get_integer_values ex_resolved 2 0
     = Ok [ (Some "VK_SAMPLE_A", Py.VInt 0); (Some "VK_SAMPLE_B", Py.VInt 16);
            (Some "VK_SAMPLE_C", Py.VInt 16);
            (Some "VK_SAMPLE_D", Py.VStr "1000.0F") ]
  /\ (exists a c, Py.get (values_of ex_resolved 0) (Some "VK_SAMPLE_D") = Some a
                  /\ ex_resolved !! a
                     = Some (mkObj (Some "VK_SAMPLE_D") []
                               (Some (enum_elem [("value", "1000.0F");
                                                 ("name", "VK_SAMPLE_D")]))
                               (EnumValue (Py.VStr "1000.0F") c)))
  /\ Py.is_int (Py.VStr "1000.0F") = false
  /\ ~ (forall k x, In (k, x) ex_integer_values -> Py.is_int x = true).
Proof.
  split; [reflexivity|]. split; [reflexivity|]. split; [reflexivity|].
  split; [exists 4%nat, None; split; reflexivity|].
  split; [reflexivity|].
  intros H. specialize (H (Some "VK_SAMPLE_D") (Py.VStr "1000.0F")).
  simpl in H. discriminate H. auto.
Qed.

Example integer_values_of_integers :
  forall k x, In (k, x) (firstn 3 ex_integer_values) -> Py.is_int x = true.
Proof.
  intros k x H. simpl in H.
  destruct H as [[= _ <-]|[[= _ <-]|[[= _ <-]|[]]]]; reflexivity.
Qed.

End IntegerValues.

(** ** Properties of the filter on enums *)

Module FilterFacts.

Import Catalog CatalogFacts StoreFacts DictFacts Registry.

(** The object at [v] passes the test of the filter. *)
Definition survives_at (h : store) (extension_set : list addr) (v : addr) : Prop :=
  exists o, h !! v = Some o /\ survives extension_set o = true.

Lemma filter_values_spec h extension_set ens : forall values values',
  filter_values h extension_set ens values = Ok values' ->
  forall k v,
    Py.get values' k = Some v
    <-> Py.get values k = Some v
        /\ (In k ens -> survives_at h extension_set v).
Proof.
  induction ens as [|en ens IH]; intros values values' H k v; simpl in H.
  - injection H as <-. simpl. tauto.
  - bind_step H as ev Eev. bind_step H as o Eo.
    apply or_raise_Ok_inv in Eev. apply read_Ok in Eo.
    rewrite (IH _ _ H k v). clear IH H. unfold survives_at.
    destruct (survives extension_set o) eqn:Hs.
    + split; intros [Hg Hin]; (split; [exact Hg|]).
      * intros [<-|Hk]; [|auto]. exists o. split; congruence.
      * intros Hk. apply Hin. right. exact Hk.
    + rewrite get_del. case_decide as E.
      * subst k. split; [intros [? _]; discriminate|].
        intros [Hg Hin]. destruct Hin as (o' & Ho' & Hs'); [left; reflexivity|].
        congruence.
      * split; intros [Hg Hin]; (split; [exact Hg|]).
        -- intros [?|Hk]; [contradiction|auto].
        -- intros Hk. apply Hin. right. exact Hk.
Qed.

(** C1 (as amended): on an enum [__filter_type_by_extensions] returns the
    enum itself, not a copy; the store changes at that one object, whose
    value map loses the entries contributed by extensions outside the set
    and keeps the others, bound to the same value objects. *)
Theorem filter_enum_in_place h t extension_set o values bm bw h' t' :
  h !! t = Some o ->
  kind o = Enum values bm bw ->
  __filter_type_by_extensions h t extension_set = Ok (h', t') ->
  t' = t
  /\ (forall a, a <> t -> h' !! a = h !! a)
  /\ exists values',
       h' !! t = Some (with_kind o (Enum values' bm bw))
       /\ forall k v,
            Py.get values' k = Some v
            <-> Py.get values k = Some v /\ survives_at h extension_set v.
Proof.
  intros Ho Hk H. unfold __filter_type_by_extensions in H.
  rewrite (read_Some _ _ _ Ho) in H. simpl in H. rewrite Hk in H.
  bind_step H as values' Ev. injection H as <- <-.
  split; [reflexivity|]. split.
  - intros a Ha. apply read_write_ne. congruence.
  - exists values'. split; [apply read_write_eq; eapply lookup_lt; eauto|].
    intros k v. rewrite (filter_values_spec _ _ _ _ _ Ev k v).
    split; intros [Hg Hs]; (split; [exact Hg|]); [|auto].
    apply Hs. eapply get_keys; eauto.
Qed.

(** VkResult with VK_SUCCESS and with VK_ERROR_VALIDATION_FAILED_EXT, which
    the extension object 7 (VK_EXT_debug_report) contributed. *)
Definition ex_tagged : store :=
  [ mkObj (Some "VK_SUCCESS") [] None (EnumValue (Py.VInt 0) None);
    mkObj (Some "VkResult") [] None
          (Enum [(Some "VK_SUCCESS", 0%nat);
                 (Some "VK_ERROR_VALIDATION_FAILED_EXT", 2%nat)] false 32);
    mkObj (Some "VK_ERROR_VALIDATION_FAILED_EXT") [7%nat] None
          (EnumValue (Py.VInt 1000011001) None) ].

(** The same store once filtered by a set without that extension. *)
Definition ex_pruned : store :=
  [ mkObj (Some "VK_SUCCESS") [] None (EnumValue (Py.VInt 0) None);
    mkObj (Some "VkResult") [] None
          (Enum [(Some "VK_SUCCESS", 0%nat)] false 32);
    mkObj (Some "VK_ERROR_VALIDATION_FAILED_EXT") [7%nat] None
          (EnumValue (Py.VInt 1000011001) None) ].

Lemma filter_enum_in_place_witness :
  __filter_type_by_extensions ex_tagged 1 [9%nat] = Ok (ex_pruned, 1%nat)
  /\ (forall a, a <> 1%nat -> ex_pruned !! a = ex_tagged !! a)
  /\ exists values',
       ex_pruned !! 1%nat
       = Some (mkObj (Some "VkResult") [] None (Enum values' false 32))
       /\ forall k v,
            Py.get values' k = Some v
            <-> Py.get [(Some "VK_SUCCESS", 0%nat);
                        (Some "VK_ERROR_VALIDATION_FAILED_EXT", 2%nat)] k = Some v
                /\ survives_at ex_tagged [9%nat] v.
Proof.
  split; [reflexivity|].
  apply (filter_enum_in_place ex_tagged 1%nat [9%nat]
           (mkObj (Some "VkResult") [] None
                  (Enum [(Some "VK_SUCCESS", 0%nat);
                         (Some "VK_ERROR_VALIDATION_FAILED_EXT", 2%nat)] false 32))
           _ false 32 ex_pruned 1%nat); reflexivity.
Defined.

(** C1 (as stated) fails: the filter hands back the enum it was given, and
    the value map of that enum has lost an entry.  Filtered again, now by a
    set that holds the extension, the enum does not get the value back,
    though the enum as loaded would have kept it. *)
Lemma filter_enum_counterexample :
  __filter_type_by_extensions ex_tagged 1 [9%nat] = Ok (ex_pruned, 1%nat)
  /\ values_of ex_pruned 1 <> values_of ex_tagged 1
  /\ Py.get (values_of ex_pruned 1) (Some "VK_ERROR_VALIDATION_FAILED_EXT") = None
  /\ __filter_type_by_extensions ex_pruned 1 [7%nat] = Ok (ex_pruned, 1%nat)
  /\ __filter_type_by_extensions ex_tagged 1 [7%nat] = Ok (ex_tagged, 1%nat).
Proof.
  split; [reflexivity|]. split; [discriminate|].
  split; [reflexivity|]. split; reflexivity.
Qed.

(** [__filter_type], which nothing calls, does work on a copy: the object it
    returns is new and every object of the store is as it was. *)
Lemma filter_type_copies h t selected core h' t' o values bm bw :
  h !! t = Some o ->
  kind o = Enum values bm bw ->
  __filter_type h t selected core = Ok (h', t') ->
  t' = List.length h /\ forall a o', h !! a = Some o' -> h' !! a = Some o'.
Proof.
  intros Ho Hk H. unfold __filter_type, alloc in H.
  rewrite (read_Some _ _ _ Ho) in H. simpl in H. rewrite Hk in H.
  bind_step H as values' Ev. injection H as <- <-.
  split; [reflexivity|]. intros a o' Ha.
  rewrite read_write_ne by (apply lookup_lt in Ha; lia).
  apply lookup_app_l_Some. exact Ha.
Qed.

End FilterFacts.

(** ** The mirror of [structextends] and [extendedby] *)

Module MirrorFacts.

Import Catalog CatalogFacts StoreFacts DictFacts Registry.

(** *** Reading the lists after a write *)

Section write.
Variables (h : store) (a : addr) (o : obj).
Hypothesis Ha : (a < List.length h)%nat.

Lemma extendedby_of_write b :
  extendedby_of (write h a o) b
  = if decide (a = b) then extendedby_obj o else extendedby_of h b.
Proof. unfold extendedby_of. rewrite read_write by exact Ha. case_decide; reflexivity. Qed.

Lemma structextends_of_write b :
  structextends_of (write h a o) b
  = if decide (a = b) then structextends_obj o else structextends_of h b.
Proof. unfold structextends_of. rewrite read_write by exact Ha. case_decide; reflexivity. Qed.

Lemma names_of_write b :
  names_of (write h a o) b
  = if decide (a = b) then names_obj o else names_of h b.
Proof. unfold names_of. rewrite read_write by exact Ha. case_decide; reflexivity. Qed.

Lemma extensions_of_write b :
  extensions_of (write h a o) b
  = if decide (a = b) then Some (extensions o) else extensions_of h b.
Proof. unfold extensions_of. rewrite read_write by exact Ha. case_decide; reflexivity. Qed.
End write.

Lemma existsb_eqb_In t l : existsb (Nat.eqb t) l = true <-> In t l.
Proof.
  rewrite existsb_exists. split.
  - intros (x & Hx & E). apply Nat.eqb_eq in E. congruence.
  - intros H. exists t. split; [exact H|apply Nat.eqb_refl].
Qed.

(** *** The links made by the parser *)

Definition Inv (h : store) : Prop := forall S T, mirror h S T.

Lemma link_extends_spec types t names : forall h h',
  link_extends h types t names = Ok h' ->
  (forall a, structextends_of h' a = structextends_of h a)
  /\ (forall a, names_of h' a = names_of h a)
  /\ exists targets,
       lookup_all types names = Ok targets
       /\ forall S T, In S (extendedby_of h' T)
                      <-> In S (extendedby_of h T) \/ (S = t /\ In T targets).
Proof.
  induction names as [|se names IH]; intros h h' H; simpl in H.
  - injection H as <-. split; [auto|]. split; [auto|].
    exists []. split; [reflexivity|]. simpl. tauto.
  - bind_step H as et Eet. bind_step H as eo Eeo. apply read_Ok in Eeo.
    destruct (kind eo) as [ | | | | | | | | u m sx eb | ] eqn:Hk; try discriminate.
    assert (Hlt : (et < List.length h)%nat) by (eapply lookup_lt; eauto).
    assert (Heb : extendedby_of h et = eb)
      by (unfold extendedby_of, extendedby_obj; rewrite Eeo, Hk; reflexivity).
    simpl. rewrite Eet. simpl.
    destruct (existsb (Nat.eqb t) eb) eqn:Hin;
      apply IH in H as (HX & HN & targets & Hl & HE); clear IH;
      rewrite Hl; simpl.
    + split; [exact HX|]. split; [exact HN|].
      exists (et :: targets). split; [reflexivity|].
      intros S T. rewrite HE. simpl. apply existsb_eqb_In in Hin.
      split; [tauto|]. intros [?|[-> [<-|?]]]; auto.
      left. rewrite Heb. exact Hin.
    + split; [|split].
      * intros a. rewrite HX, structextends_of_write by exact Hlt.
        case_decide; [subst a|reflexivity].
        unfold structextends_of, structextends_obj. rewrite Eeo. simpl.
        rewrite Hk. reflexivity.
      * intros a. rewrite HN, names_of_write by exact Hlt.
        case_decide; [subst a|reflexivity].
        unfold names_of, names_obj. rewrite Eeo. simpl. rewrite Hk. reflexivity.
      * exists (et :: targets). split; [reflexivity|].
        intros S T. rewrite HE, extendedby_of_write by exact Hlt. simpl.
        case_decide as E.
        -- subst T. unfold extendedby_obj. simpl. rewrite in_app_iff, Heb.
           simpl. intuition congruence.
        -- intuition congruence.
Qed.

Lemma convert_extends_spec h types t h' :
  convert_extends h types t = Ok h' ->
  Inv h ->
  Inv h' /\ names_of h' t = None
  /\ forall a, names_of h a = None -> names_of h' a = None.
Proof.
  unfold convert_extends. intros H HI.
  bind_step H as o Eo. apply read_Ok in Eo.
  assert (Hsame : names_of h t = None -> h' = h ->
                  Inv h' /\ names_of h' t = None
                  /\ forall a, names_of h a = None -> names_of h' a = None)
    by (intros Hn ->; auto).
  destruct (kind o) as [ | | | | | | | | u m sx eb | ] eqn:Hk;
    try (injection H as <-; apply Hsame; [|reflexivity];
         unfold names_of, names_obj; rewrite Eo, Hk; reflexivity).
  destruct sx as [names|[|? ?]]; [| |discriminate].
  - clear Hsame. bind_step H as h1 El. bind_step H as objs Eobjs.
    bind_step H as o1 Eo1. apply read_Ok in Eo1.
    destruct (kind o1) as [ | | | | | | | | u1 m1 sx1 eb1 | ] eqn:Hk1; try discriminate.
    injection H as <-.
    apply link_extends_spec in El as (HX & HN & targets & Hl & HE).
    rewrite Eobjs in Hl. injection Hl as <-.
    assert (Hlt : (t < List.length h1)%nat) by (eapply lookup_lt; eauto).
    assert (HXt : structextends_of h t = [])
      by (unfold structextends_of, structextends_obj; rewrite Eo, Hk; reflexivity).
    split; [|split].
    + intros S T. unfold mirror.
      rewrite extendedby_of_write, structextends_of_write by exact Hlt.
      assert (HE' : In S (if decide (t = T) then
                            extendedby_obj (with_kind o1 (Struct u1 m1 (ByObject objs) eb1))
                          else extendedby_of h1 T)
                    <-> In S (extendedby_of h1 T)).
      { case_decide; [subst T|tauto].
        unfold extendedby_of, extendedby_obj. rewrite Eo1. simpl. rewrite Hk1. tauto. }
      rewrite HE', HE. clear HE'. pose proof (HI S T) as HM. unfold mirror in HM.
      case_decide as E.
      * subst S. unfold structextends_obj. simpl.
        rewrite HM, HXt. simpl. tauto.
      * rewrite HX, HM. intuition congruence.
    + rewrite names_of_write by exact Hlt. case_decide; [reflexivity|congruence].
    + intros a Hn. rewrite names_of_write by exact Hlt.
      case_decide; [reflexivity|]. rewrite HN. exact Hn.
  - injection H as <-. apply Hsame; [|reflexivity].
    unfold names_of, names_obj. rewrite Eo, Hk. reflexivity.
Qed.

Lemma struct_extends_spec types ts : forall h h',
  struct_extends h types ts = Ok h' ->
  Inv h ->
  Inv h'
  /\ (forall a, names_of h a = None -> names_of h' a = None)
  /\ forall t, In t ts -> names_of h' t = None.
Proof.
  induction ts as [|t ts IH]; intros h h' H HI; simpl in H.
  - injection H as <-. split; [exact HI|]. split; [auto|]. intros t [].
  - bind_step H as h1 E1.
    apply convert_extends_spec in E1 as (HI1 & Ht & Hmono); [|exact HI].
    apply IH in H as (HI' & Hmono' & Hts); [|exact HI1].
    split; [exact HI'|]. split; [auto|].
    intros t' [<-|Hin]; auto.
Qed.

Lemma fresh_Inv h : fresh_structs h -> Inv h.
Proof.
  intros Hf S T. unfold mirror, extendedby_of, structextends_of,
                  extendedby_obj, structextends_obj.
  assert (HE : forall a, match h !! a with
                         | Some o => match kind o with Struct _ _ _ eb => eb | _ => [] end
                         | None => []
                         end = []).
  { intros a. destruct (h !! a) as [o|] eqn:Ho; [|reflexivity].
    destruct (kind o) eqn:Hk; try reflexivity.
    destruct (Hf _ _ _ _ _ _ Ho Hk) as [-> _]. reflexivity. }
  assert (HX : forall a, match h !! a with
                         | Some o => match kind o with
                                     | Struct _ _ (ByObject l) _ => l | _ => [] end
                         | None => []
                         end = []).
  { intros a. destruct (h !! a) as [o|] eqn:Ho; [|reflexivity].
    destruct (kind o) eqn:Hk; try reflexivity.
    destruct (Hf _ _ _ _ _ _ Ho Hk) as [_ [names ->]]. reflexivity. }
  rewrite HE, HX. tauto.
Qed.

(** *** The filter *)

(** The test of the filter, on an address. *)
Definition sv (h : store) (extension_set : list addr) (a : addr) : bool :=
  match extensions_of h a with
  | Some [] => true
  | Some exts => intersects extension_set exts
  | None => false
  end.

(** The test that keeps a type in the registry. *)
Definition keeps (h : store) (extension_set : list addr) (core : bool)
    (a : addr) : bool :=
  match extensions_of h a with
  | Some [] => core
  | Some exts => intersects extension_set exts
  | None => false
  end.

Lemma sv_read h extension_set a o :
  h !! a = Some o -> sv h extension_set a = survives extension_set o.
Proof.
  unfold sv, extensions_of, survives. intros ->.
  destruct (extensions o); reflexivity.
Qed.

Lemma keeps_read h extension_set core a o :
  h !! a = Some o -> keeps h extension_set core a = stays extension_set core o.
Proof.
  unfold keeps, extensions_of, stays. intros ->.
  destruct (extensions o); reflexivity.
Qed.

Lemma keeps_sv h extension_set core a :
  keeps h extension_set core a = true -> sv h extension_set a = true.
Proof.
  unfold keeps, sv. destruct (extensions_of h a) as [[|x exts]|]; auto.
Qed.

Lemma filter_refs_spec h extension_set l : forall l',
  filter_refs h extension_set l = Ok l' ->
  l' = List.filter (sv h extension_set) l.
Proof.
  induction l as [|eb l IH]; intros l' H; simpl in H.
  - injection H as <-. reflexivity.
  - bind_step H as o Eo. bind_step H as r Er. injection H as <-.
    apply read_Ok in Eo. simpl. rewrite (sv_read _ _ _ _ Eo), (IH r eq_refl).
    reflexivity.
Qed.

Lemma filter_twice {A} (f : A -> bool) l :
  List.filter f (List.filter f l) = List.filter f l.
Proof.
  induction l as [|x l IH]; simpl; [reflexivity|].
  destruct (f x) eqn:E; simpl; [rewrite E, IH|]; auto.
Qed.

(** One call of the filter, read through the two lists: the object is
    returned as it came, no extension list changes, and the lists of the
    object, and of no other, are filtered. *)
Lemma filter_type_spec h t extension_set h' t' :
  __filter_type_by_extensions h t extension_set = Ok (h', t') ->
  t' = t
  /\ (forall a, extensions_of h' a = extensions_of h a)
  /\ (forall a, extendedby_of h' a
                = if decide (t = a)
                  then List.filter (sv h extension_set) (extendedby_of h a)
                  else extendedby_of h a)
  /\ (forall a, structextends_of h' a
                = if decide (t = a)
                  then List.filter (sv h extension_set) (structextends_of h a)
                  else structextends_of h a).
Proof.
  unfold __filter_type_by_extensions. intros H.
  bind_step H as o Eo. apply read_Ok in Eo.
  assert (Hlt : (t < List.length h)%nat) by (eapply lookup_lt; eauto).
  assert (Hother : extendedby_obj o = [] -> structextends_obj o = [] ->
            forall o', extensions o' = extensions o ->
                       extendedby_obj o' = [] -> structextends_obj o' = [] ->
            (h' = h \/ h' = write h t o') -> t' = t ->
            t' = t
            /\ (forall a, extensions_of h' a = extensions_of h a)
            /\ (forall a, extendedby_of h' a
                          = if decide (t = a)
                            then List.filter (sv h extension_set) (extendedby_of h a)
                            else extendedby_of h a)
            /\ (forall a, structextends_of h' a
                          = if decide (t = a)
                            then List.filter (sv h extension_set) (structextends_of h a)
                            else structextends_of h a)).
  { intros HE HX o' Hext HE' HX' Hh' ->. split; [reflexivity|].
    split; [|split]; intros a.
    - destruct Hh' as [->| ->]; [reflexivity|].
      rewrite extensions_of_write by exact Hlt. case_decide; [subst a|reflexivity].
      unfold extensions_of. rewrite Eo, Hext. reflexivity.
    - destruct Hh' as [->| ->]; [|rewrite extendedby_of_write by exact Hlt];
        case_decide; try reflexivity; subst a;
        unfold extendedby_of; rewrite Eo, HE; [reflexivity|exact HE'].
    - destruct Hh' as [->| ->]; [|rewrite structextends_of_write by exact Hlt];
        case_decide; try reflexivity; subst a;
        unfold structextends_of; rewrite Eo, HX; [reflexivity|exact HX']. }
  destruct (kind o) as [ | | | | | |values bm bw| | u m sx eb | ] eqn:Hk;
    try (injection H as <- <-;
         apply (Hother ltac:(unfold extendedby_obj; rewrite Hk; reflexivity)
                       ltac:(unfold structextends_obj; rewrite Hk; reflexivity)
                       o eq_refl
                       ltac:(unfold extendedby_obj; rewrite Hk; reflexivity)
                       ltac:(unfold structextends_obj; rewrite Hk; reflexivity));
         [left; reflexivity|reflexivity]).
  - bind_step H as values' Ev. injection H as <- <-.
    apply (Hother ltac:(unfold extendedby_obj; rewrite Hk; reflexivity)
                  ltac:(unfold structextends_obj; rewrite Hk; reflexivity)
                  (with_kind o (Enum values' bm bw)) eq_refl eq_refl eq_refl);
      [right; reflexivity|reflexivity].
  - clear Hother. bind_step H as eb' Eeb. bind_step H as sx' Esx.
    injection H as <- <-. apply filter_refs_spec in Eeb.
    assert (Hsx : sx' = List.filter (sv h extension_set) (structextends_obj o)).
    { unfold structextends_obj. rewrite Hk.
      destruct sx as [[|? ?]|objs]; [injection Esx as <-; reflexivity|discriminate|].
      apply filter_refs_spec, Esx. }
    split; [reflexivity|]. split; [|split]; intros a.
    + rewrite extensions_of_write by exact Hlt. case_decide; [subst a|reflexivity].
      unfold extensions_of. rewrite Eo. reflexivity.
    + rewrite extendedby_of_write by exact Hlt. case_decide; [subst a|reflexivity].
      unfold extendedby_of, extendedby_obj. rewrite Eo, Hk. simpl. exact Eeb.
    + rewrite structextends_of_write by exact Hlt. case_decide; [subst a|reflexivity].
      unfold structextends_of. rewrite Eo. unfold structextends_obj at 1. simpl.
      exact Hsx.
Qed.

Section filter_types.
Variables (h0 : store) (extension_set : list addr) (core : bool).

(** The lists of [a] are those of the start, filtered. *)
Definition filtered (h : store) (a : addr) : Prop :=
  extendedby_of h a = List.filter (sv h0 extension_set) (extendedby_of h0 a)
  /\ structextends_of h a
     = List.filter (sv h0 extension_set) (structextends_of h0 a).

Definition untouched (h : store) (a : addr) : Prop :=
  extendedby_of h a = extendedby_of h0 a
  /\ structextends_of h a = structextends_of h0 a.

(** Along the loop: no extension list has changed, and each object has
    its lists as at the start, or filtered. *)
Definition along (h : store) : Prop :=
  (forall a, extensions_of h a = extensions_of h0 a)
  /\ forall a, untouched h a \/ filtered h a.

Lemma sv_along h : along h -> forall a, sv h extension_set a = sv h0 extension_set a.
Proof. intros [He _] a. unfold sv. rewrite He. reflexivity. Qed.

Lemma keeps_along h :
  along h -> forall a, keeps h extension_set core a = keeps h0 extension_set core a.
Proof. intros [He _] a. unfold keeps. rewrite He. reflexivity. Qed.

Lemma filter_type_along h t h' t' :
  along h ->
  __filter_type_by_extensions h t extension_set = Ok (h', t') ->
  t' = t /\ along h' /\ filtered h' t
  /\ forall a, filtered h a -> filtered h' a.
Proof.
  intros Hal H. pose proof (sv_along h Hal) as Hsv.
  apply filter_type_spec in H as (-> & He & HE & HX).
  destruct Hal as [He0 Hst].
  assert (Hf : forall l, List.filter (sv h extension_set) l
                         = List.filter (sv h0 extension_set) l)
    by (intros l; apply filter_ext; exact Hsv).
  assert (Ht : filtered h' t).
  { unfold filtered. rewrite HE, HX. case_decide; [|congruence].
    rewrite !Hf. destruct (Hst t) as [[-> ->]|[-> ->]];
      [|rewrite !filter_twice]; auto. }
  split; [reflexivity|]. split; [split|split]; [| |exact Ht|].
  - intros a. rewrite He. apply He0.
  - intros a. destruct (decide (t = a)) as [<-|Hne]; [right; exact Ht|].
    unfold untouched, filtered. rewrite HE, HX.
    case_decide; [congruence|]. apply Hst.
  - intros a Ha. destruct (decide (t = a)) as [<-|Hne]; [exact Ht|].
    unfold filtered. rewrite HE, HX. case_decide; [congruence|]. exact Ha.
Qed.

Lemma filter_types_spec tnames : forall h types h' types',
  along h ->
  filter_types h extension_set core tnames types = Ok (h', types') ->
  along h'
  /\ (forall a, filtered h a -> filtered h' a)
  /\ forall k v, Py.get types' k = Some v ->
        Py.get types k = Some v
        /\ (In k tnames ->
            filtered h' v /\ keeps h0 extension_set core v = true).
Proof.
  induction tnames as [|tname tnames IH]; intros h types h' types' Hal H;
    simpl in H.
  - injection H as <- <-. split; [exact Hal|]. split; [auto|].
    intros k v Hg. split; [exact Hg|]. intros [].
  - bind_step H as t Et. bind_step H as o Eo.
    apply or_raise_Ok_inv in Et. apply read_Ok in Eo.
    pose proof (keeps_read _ extension_set core _ _ Eo) as Hkeep.
    rewrite (keeps_along h Hal) in Hkeep.
    destruct (stays extension_set core o) eqn:Hstay.
    + bind_step H as [h1 t1] Ef.
      apply (filter_type_along h t h1 t1 Hal) in Ef as (-> & Hal1 & Ht & Hmono).
      apply (IH _ _ _ _ Hal1) in H as (Hal' & Hmono' & Hget). clear IH.
      split; [exact Hal'|]. split; [auto|].
      intros k v Hg. apply Hget in Hg as [Hg Hin].
      rewrite (get_set_same _ _ _ _ Et) in Hg.
      split; [exact Hg|]. intros [<-|Hk]; [|auto].
      assert (v = t) by congruence. subst v. auto.
    + apply (IH _ _ _ _ Hal) in H as (Hal' & Hmono' & Hget). clear IH.
      split; [exact Hal'|]. split; [exact Hmono'|].
      intros k v Hg. apply Hget in Hg as [Hg Hin].
      rewrite get_del in Hg. case_decide as E; [discriminate|].
      split; [exact Hg|]. intros [?|Hk]; [contradiction|auto].
Qed.
End filter_types.

Lemma along_start h extension_set : along h extension_set h.
Proof. split; [reflexivity|]. intros a. left. split; reflexivity. Qed.

(** The filter keeps the mirror between the types it leaves in the
    registry. *)
Lemma filter_keeps_mirror h types filtered_set core h' types' :
  Inv h ->
  __filter_registry_types h types filtered_set core = Ok (h', types') ->
  forall kS kT S T,
    Py.get types' kS = Some S -> Py.get types' kT = Some T -> mirror h' S T.
Proof.
  unfold __filter_registry_types. intros HI H kS kT S T HS HT.
  apply (filter_types_spec h filtered_set core _ _ _ _ _ (along_start _ _)) in H
    as (_ & _ & Hget).
  destruct (Hget _ _ HS) as [HS0 HSf]. destruct (Hget _ _ HT) as [HT0 HTf].
  destruct (HSf (get_keys _ _ _ HS0)) as [[_ HXS] HkS].
  destruct (HTf (get_keys _ _ _ HT0)) as [[HET _] HkT].
  apply keeps_sv in HkS, HkT.
  unfold mirror. rewrite HET, HXS, !filter_In, HkS, HkT.
  pose proof (HI S T) as HM. unfold mirror in HM. tauto.
Qed.

Lemma same_links_Inv h g : same_links h g -> Inv h -> Inv g.
Proof.
  intros Hs HI S T. unfold mirror.
  destruct (Hs S) as [_ ->]. destruct (Hs T) as [-> _]. apply HI.
Qed.

(** Tagging types with an extension leaves the lists alone. *)
Lemma tag_types_links types self tnames : forall h h',
  tag_types h types self tnames = Ok h' -> same_links h h'.
Proof.
  induction tnames as [|t tnames IH]; intros h h' H; simpl in H.
  - injection H as <-. intros a. auto.
  - bind_step H as a Ea. bind_step H as o Eo. apply read_Ok in Eo.
    apply IH in H. intros b. destruct (H b) as [-> ->].
    rewrite extendedby_of_write, structextends_of_write
      by (eapply lookup_lt; eauto).
    case_decide; [subst b|auto].
    unfold extendedby_of, structextends_of. rewrite Eo. auto.
Qed.

(** C3: the parser, which starts from structs whose [extendedby] is empty
    and whose [structextends] holds names, leaves the two lists as mirrors
    of one another, with every struct of the registry holding objects in
    place of the names; and after the filter the same holds between the
    types that are still in the registry.  Between the two the extensions
    are attached to the types, which changes neither list. *)
Theorem structextends_mirror h types h1 g gtypes filtered_set core g' gtypes' :
  fresh_structs h ->
  __parse_types_extends h types = Ok h1 ->
  same_links h1 g ->
  __filter_registry_types g gtypes filtered_set core = Ok (g', gtypes') ->
  (forall S T, mirror h1 S T)
  /\ (forall k S, In (k, S) types -> names_of h1 S = None)
  /\ (forall kS kT S T,
        Py.get gtypes' kS = Some S -> Py.get gtypes' kT = Some T ->
        mirror g' S T).
Proof.
  intros Hf Hp Hl Hfl. unfold __parse_types_extends in Hp.
  apply struct_extends_spec in Hp as (HI & _ & Hconv); [|apply fresh_Inv, Hf].
  split; [exact HI|]. split.
  - intros k S Hin. apply Hconv. unfold Py.values.
    apply (in_map snd) in Hin. exact Hin.
  - eapply filter_keeps_mirror; [|exact Hfl].
    eapply same_links_Inv; eauto.
Qed.

(** Three structs as the constructor leaves them: the rasterization state,
    and two structs, one from AMD and one from EXT, that extend it. *)
Definition new_struct (n : string) (exts : list addr) (names : list string) : obj :=
  mkObj (Some n) exts None (Struct false [] (ByName names) []).

Definition linked_struct (n : string) (exts : list addr)
    (structextends extendedby : list addr) : obj :=
  mkObj (Some n) exts None (Struct false [] (ByObject structextends) extendedby).

Definition ex_structs : store :=
  [ new_struct "VkPipelineRasterizationStateCreateInfo" [] [];
    new_struct "VkPipelineRasterizationStateRasterizationOrderAMD" []
               ["VkPipelineRasterizationStateCreateInfo"];
    new_struct "VkPipelineRasterizationConservativeStateCreateInfoEXT" []
               ["VkPipelineRasterizationStateCreateInfo"] ].

Definition ex_struct_types : Py.dict Py.key addr :=
  [ (Some "VkPipelineRasterizationStateCreateInfo", 0%nat);
    (Some "VkPipelineRasterizationStateRasterizationOrderAMD", 1%nat);
    (Some "VkPipelineRasterizationConservativeStateCreateInfoEXT", 2%nat) ].

Definition ex_linked : store :=
  [ linked_struct "VkPipelineRasterizationStateCreateInfo" [] [] [1%nat; 2%nat];
    linked_struct "VkPipelineRasterizationStateRasterizationOrderAMD" [] [0%nat] [];
    linked_struct "VkPipelineRasterizationConservativeStateCreateInfoEXT" [] [0%nat] [] ].

(** The extension objects 5 (AMD) and 6 (EXT) attached. *)
Definition ex_tagged_structs : store :=
  [ linked_struct "VkPipelineRasterizationStateCreateInfo" [] [] [1%nat; 2%nat];
    linked_struct "VkPipelineRasterizationStateRasterizationOrderAMD" [5%nat] [0%nat] [];
    linked_struct "VkPipelineRasterizationConservativeStateCreateInfoEXT" [6%nat] [0%nat] [] ].

(** Filtered by the set that holds the extension 6 only. *)
Definition ex_filtered_structs : store :=
  [ linked_struct "VkPipelineRasterizationStateCreateInfo" [] [] [2%nat];
    linked_struct "VkPipelineRasterizationStateRasterizationOrderAMD" [5%nat] [0%nat] [];
    linked_struct "VkPipelineRasterizationConservativeStateCreateInfoEXT" [6%nat] [0%nat] [] ].

Definition ex_filtered_types : Py.dict Py.key addr :=
  [ (Some "VkPipelineRasterizationStateCreateInfo", 0%nat);
    (Some "VkPipelineRasterizationConservativeStateCreateInfoEXT", 2%nat) ].

Lemma ex_structs_fresh : fresh_structs ex_structs.
Proof.
  intros a o u m sx eb Ho Hk.
  do 3 (destruct a as [|a];
        [injection Ho as <-; injection Hk as _ _ <- <-; eauto|]).
  discriminate Ho.
Qed.

Lemma ex_same_links : same_links ex_linked ex_tagged_structs.
Proof. intros a. do 3 (destruct a as [|a]; [split; reflexivity|]). split; reflexivity. Qed.

Lemma structextends_mirror_witness :
  __parse_types_extends ex_structs ex_struct_types = Ok ex_linked
  /\ __filter_registry_types ex_tagged_structs ex_struct_types [6%nat] true
     = Ok (ex_filtered_structs, ex_filtered_types)
  /\ (forall S T, mirror ex_linked S T)
  /\ (forall k S, In (k, S) ex_struct_types -> names_of ex_linked S = None)
  /\ (forall kS kT S T,
        Py.get ex_filtered_types kS = Some S ->
        Py.get ex_filtered_types kT = Some T ->
        mirror ex_filtered_structs S T).
Proof.
  split; [reflexivity|]. split; [reflexivity|].
  apply (structextends_mirror ex_structs ex_struct_types ex_linked
           ex_tagged_structs ex_struct_types [6%nat] true
           ex_filtered_structs ex_filtered_types).
  - exact ex_structs_fresh.
  - reflexivity.
  - exact ex_same_links.
  - reflexivity.
Defined.

Example tag_types_example :
  (let! h := tag_types ex_linked ex_struct_types 5
               [Some "VkPipelineRasterizationStateRasterizationOrderAMD"] in
   tag_types h ex_struct_types 6
     [Some "VkPipelineRasterizationConservativeStateCreateInfoEXT"])
  = Ok ex_tagged_structs.
Proof. reflexivity. Qed.

End MirrorFacts.

(** ** Properties of commands *)

Module CommandFacts.

Import XML Catalog CatalogFacts DictFacts Commands.

Lemma Command_init_inv h types aliases ce cmd :
  Command_init h types aliases ce = Ok cmd ->
  find_text ce ["proto"; "name"] = Ok (name cmd)
  /\ xml_node cmd = ce
  /\ successcodes cmd = match get ce "successcodes" with
                        | Some s => Py.split "," s
                        | None => []
                        end
  /\ is_instance cmd = None.
Proof.
  unfold Command_init. intros H.
  bind_step H as cname E1. bind_step H as rname E2.
  bind_step H as rt E3. bind_step H as ps E4.
  injection H as <-. simpl. auto.
Qed.

(** A parsed command carries its success codes, split at the commas, and
    has no attribute [errorcodes]. *)
Lemma Command_init_codes h types aliases ce cmd :
  Command_init h types aliases ce = Ok cmd ->
  getattr cmd "successcodes"
  = Ok (ACodes (match get ce "successcodes" with
                | Some s => Py.split "," s
                | None => []
                end))
  /\ getattr cmd "errorcodes" = Raise AttributeError.
Proof.
  intros H. apply Command_init_inv in H as (_ & _ & Hs & _).
  unfold getattr. simpl. rewrite Hs. auto.
Qed.

(** VkResult and VkPhysicalDevice, and vkEnumerateDeviceLayerProperties with
    its success codes and its error codes. *)
Definition ex_catalog : store :=
  [ mkObj (Some "VkResult") [] None (Enum [] false 32);
    handle "VkInstance" None;
    handle "VkPhysicalDevice" (Some 1%nat);
    handle "VkDevice" (Some 2%nat);
    base_type "void";
    base_type "uint32_t" ].

Definition ex_catalog_types : Py.dict Py.key addr :=
  [ (Some "VkResult", 0%nat); (Some "VkInstance", 1%nat);
    (Some "VkPhysicalDevice", 2%nat); (Some "VkDevice", 3%nat);
    (Some "void", 4%nat); (Some "uint32_t", 5%nat) ].

Definition ex_layer_properties : Element :=
  command [("successcodes", "VK_SUCCESS,VK_INCOMPLETE");
           ("errorcodes", "VK_ERROR_OUT_OF_HOST_MEMORY,VK_ERROR_OUT_OF_DEVICE_MEMORY")]
          "VkResult" "vkEnumerateDeviceLayerProperties"
          [ Field.param [] None
              [Field.leaf "type" "VkPhysicalDevice" (Some " ");
               Field.leaf "name" "physicalDevice" None] ].

(** C4 fails on the code: the command element of
    vkEnumerateDeviceLayerProperties has both attributes; the command parsed
    from it has the success codes and no error codes at all. *)
Theorem errorcodes_missing :
  get ex_layer_properties "errorcodes"
    = Some "VK_ERROR_OUT_OF_HOST_MEMORY,VK_ERROR_OUT_OF_DEVICE_MEMORY"
  /\ exists cmd,
       Command_init ex_catalog ex_catalog_types [] ex_layer_properties = Ok cmd
       /\ getattr cmd "successcodes" = Ok (ACodes ["VK_SUCCESS"; "VK_INCOMPLETE"])
       /\ getattr cmd "errorcodes" = Raise AttributeError.
Proof.
  split; [reflexivity|]. eexists. split; [reflexivity|]. split; reflexivity.
Qed.

(** *** Aliases of commands *)

(** The command at [c] was made from an element of [ces] that is no alias,
    bears the name that this element gives, and is bound under that name. *)
Definition created (hc : cstore) (commands : Py.dict Py.key addr)
    (ces : list Element) (c : addr) : Prop :=
  exists cmd ce0,
    hc !! c = Some cmd /\ In ce0 ces /\ get ce0 "alias" = None
    /\ xml_node cmd = ce0
    /\ find_text ce0 ["proto"; "name"] = Ok (name cmd)
    /\ entry_key ce0 = name cmd
    /\ Py.get commands (name cmd) = Some c.

Lemma bind_commands_spec h types ces :
  forall hc commands aliases hc' commands' aliases',
  bind_commands h types hc commands aliases ces = Ok (hc', commands', aliases') ->
  List.NoDup (map entry_key ces) ->
  (forall k v, Py.get commands k = Some v -> ~ In k (map entry_key ces)) ->
  (forall c cmd, hc !! c = Some cmd -> hc' !! c = Some cmd)
  /\ (forall k, ~ In k (map entry_key ces) -> Py.get commands' k = Py.get commands k)
  /\ (forall ce al, In ce ces -> get ce "alias" = Some al ->
        exists c, Py.get commands' (get ce "name") = Some c
                  /\ Py.get commands' (Some al) = Some c)
  /\ (forall k c, Py.get commands' k = Some c ->
        (exists k0, Py.get commands k0 = Some c) \/ created hc' commands' ces c).
Proof.
  induction ces as [|ce ces IH];
    intros hc commands aliases hc' commands' aliases' H Hnd Hdisj; simpl in H.
  - injection H as <- <- <-. repeat split; auto.
    + intros ce al [].
    + intros k c Hg. left. eauto.
  - simpl in Hnd. inversion Hnd as [|? ? Hfresh Hnd']; subst.
    assert (Hdisj1 : forall k0 c0 k v,
              entry_key ce = k0 ->
              Py.get (Py.set commands k0 c0) k = Some v ->
              ~ In k (map entry_key ces)).
    { intros k0 c0 k v Hk0 Hg. rewrite get_set in Hg. case_decide as E.
      - subst. exact Hfresh.
      - intros Hin. apply (Hdisj _ _ Hg). right. exact Hin. }
    destruct (get ce "alias") as [al0|] eqn:Hal.
    + bind_step H as c0 Ec0. apply or_raise_Ok_inv in Ec0.
      assert (Hkey : entry_key ce = get ce "name")
        by (unfold entry_key; rewrite Hal; reflexivity).
      apply IH in H as (Ha & Hb & Hc & Hd); [|exact Hnd'|intros k v Hg; exact (Hdisj1 _ _ k v Hkey Hg)].
      clear IH. split; [exact Ha|]. split; [|split].
      * intros k Hk. simpl in Hk. rewrite Hb by tauto.
        rewrite get_set. case_decide; [|reflexivity].
        exfalso. apply Hk. left. congruence.
      * intros ce' al [<-|Hin] Hal'; [|eauto].
        assert (al = al0) by congruence. subst al.
        exists c0. split.
        -- rewrite Hb by congruence. rewrite get_set.
           case_decide; [reflexivity|contradiction].
        -- pose proof (Hdisj _ _ Ec0) as Hnot. simpl in Hnot.
           rewrite Hb by tauto. rewrite get_set. case_decide; auto.
      * intros k c Hg. destruct (Hd k c Hg) as [[k0 Hk0]|Hcr].
        -- left. rewrite get_set in Hk0. case_decide.
           ++ exists (Some al0). congruence.
           ++ eauto.
        -- right. destruct Hcr as (cmd & ce0 & ? & ? & ?).
           exists cmd, ce0. split; [assumption|]. split; [right; assumption|assumption].
    + bind_step H as cmd Ecmd.
      apply Command_init_inv in Ecmd as (Hname & Hxml & _ & _).
      assert (Hkey : entry_key ce = name cmd)
        by (unfold entry_key; rewrite Hal, Hname; reflexivity).
      apply IH in H as (Ha & Hb & Hc & Hd); [|exact Hnd'|intros k v Hg; exact (Hdisj1 _ _ k v Hkey Hg)].
      clear IH.
      assert (Hnew : hc' !! List.length hc = Some cmd)
        by (apply Ha, list_lookup_middle; reflexivity).
      split; [|split; [|split]].
      * intros c cmd' Hc'. apply Ha. apply lookup_app_l_Some. exact Hc'.
      * intros k Hk. simpl in Hk. rewrite Hb by tauto.
        rewrite get_set. case_decide; [|reflexivity].
        exfalso. apply Hk. left. congruence.
      * intros ce' al [<-|Hin] Hal'; [congruence|eauto].
      * intros k c Hg. destruct (Hd k c Hg) as [[k0 Hk0]|Hcr].
        -- rewrite get_set in Hk0. case_decide; [|eauto].
           injection Hk0 as <-. right. exists cmd, ce.
           split; [exact Hnew|]. split; [left; reflexivity|].
           split; [exact Hal|]. split; [exact Hxml|]. split; [exact Hname|].
           split; [exact Hkey|].
           rewrite Hb by congruence. rewrite get_set.
           case_decide; [reflexivity|contradiction].
        -- right. destruct Hcr as (cmd' & ce0 & ? & ? & ?).
           exists cmd', ce0. split; [assumption|]. split; [right; assumption|assumption].
Qed.

(** The second loop changes neither the name nor the element of a
    command. *)
Lemma finish_commands_spec types fuel cs : forall h hc h' hc',
  finish_commands types fuel h hc cs = Ok (h', hc') ->
  forall c cmd, hc !! c = Some cmd ->
    exists cmd', hc' !! c = Some cmd' /\ name cmd' = name cmd
                 /\ xml_node cmd' = xml_node cmd.
Proof.
  induction cs as [|c0 cs IH]; intros h hc h' hc' H c cmd Hc; simpl in H.
  - injection H as <- <-. eauto.
  - bind_step H as cmd0 E0. apply or_raise_Ok_inv in E0.
    bind_step H as [h1 ps] E1. bind_step H as b Eb.
    destruct (decide (c0 = c)) as [->|Hne].
    + assert (cmd0 = cmd) by congruence. subst cmd0.
      edestruct (IH _ _ _ _ H c) as (cmd' & Hc' & Hn & Hx).
      { apply list_lookup_insert_eq. eapply lookup_lt_Some; eauto. }
      exists cmd'. auto.
    + apply (IH _ _ _ _ H). unfold cwrite.
      rewrite list_lookup_insert_ne by exact Hne. exact Hc.
Qed.

Lemma NoDup_map_eq {A B} (f : A -> B) l x y :
  List.NoDup (map f l) -> In x l -> In y l -> f x = f y -> x = y.
Proof.
  induction l as [|z l IH]; simpl; [intros _ []|].
  intros Hnd Hx Hy Hf. inversion Hnd as [|? ? Hfresh Hnd']; subst.
  destruct Hx as [<-|Hx], Hy as [<-|Hy]; auto.
  - exfalso. apply Hfresh. rewrite Hf. apply in_map, Hy.
  - exfalso. apply Hfresh. rewrite <- Hf. apply in_map, Hx.
Qed.

(** C10 (as amended): in a registry whose command elements bear distinct names, an
    element with an [alias] attribute binds its name to the very command
    that the aliased name is bound to.  That command was made from an element
    without [alias]; it bears the name which that element gives, under which
    it is bound as well, and this name is not the name of the alias. *)
Theorem command_alias_shares types fuel h aliases root r ce al :
  __parse_commands types fuel h aliases root = Ok r ->
  List.NoDup (map entry_key (findall_path root ["commands"; "command"])) ->
  In ce (findall_path root ["commands"; "command"]) ->
  get ce "alias" = Some al ->
  exists c cmd ce0,
    Py.get (p_commands r) (get ce "name") = Some c
    /\ Py.get (p_commands r) (Some al) = Some c
    /\ p_commands_store r !! c = Some cmd
    /\ name cmd <> get ce "name"
    /\ Py.get (p_commands r) (name cmd) = Some c
    /\ In ce0 (findall_path root ["commands"; "command"])
    /\ get ce0 "alias" = None
    /\ xml_node cmd = ce0
    /\ find_text ce0 ["proto"; "name"] = Ok (name cmd).
Proof.
  unfold __parse_commands. intros H Hnd Hin Hal.
  bind_step H as [[hc commands] aliases'] Eb.
  bind_step H as [h' hc'] Ef. injection H as <-. simpl.
  apply bind_commands_spec in Eb as (_ & _ & Hc & Hd);
    [|exact Hnd|intros k v Hg; discriminate Hg].
  destruct (Hc ce al Hin Hal) as (c & Hk & Ha).
  destruct (Hd _ _ Hk) as [[k0 Hk0]|(cmd & ce0 & Hcmd & Hin0 & Hal0 & Hxml & Hname & Hkey & Hown)];
    [discriminate Hk0|].
  destruct (finish_commands_spec _ _ _ _ _ _ _ Ef c cmd Hcmd) as (cmd' & Hc' & Hn' & Hx').
  exists c, cmd', ce0. rewrite Hn', Hx'.
  repeat split; try assumption.
  intros Heq.
  assert (ce0 = ce).
  { apply (NoDup_map_eq entry_key _ ce0 ce Hnd Hin0 Hin).
    rewrite Hkey, Heq. unfold entry_key. rewrite Hal. reflexivity. }
  subst ce0. congruence.
Qed.

(** vkResetQueryPool and its alias vkResetQueryPoolEXT. *)
Definition ex_vkResetQueryPool : Element :=
  command [] "void" "vkResetQueryPool"
          [ Field.param [] None
              [Field.leaf "type" "VkDevice" (Some " ");
               Field.leaf "name" "device" None];
            Field.param [] None
              [Field.leaf "type" "uint32_t" (Some " ");
               Field.leaf "name" "firstQuery" None] ].

Definition ex_vkResetQueryPoolEXT : Element :=
  command_alias "vkResetQueryPoolEXT" "vkResetQueryPool".

Definition ex_commands : Element :=
  registry [ex_vkResetQueryPool; ex_vkResetQueryPoolEXT].

Definition ex_parsed_commands : parsed :=
  Eval cbv in
    match __parse_commands ex_catalog_types 2 ex_catalog [] ex_commands with
    | Ok r => r
    | _ => mkParsed [] [] [] []
    end.

Lemma command_alias_shares_witness :
  __parse_commands ex_catalog_types 2 ex_catalog [] ex_commands
    = Ok ex_parsed_commands
  /\ p_commands ex_parsed_commands
     = [(Some "vkResetQueryPool", 0%nat); (Some "vkResetQueryPoolEXT", 0%nat)]
  /\ exists c cmd ce0,
    Py.get (p_commands ex_parsed_commands) (get ex_vkResetQueryPoolEXT "name") = Some c
    /\ Py.get (p_commands ex_parsed_commands) (Some "vkResetQueryPool") = Some c
    /\ p_commands_store ex_parsed_commands !! c = Some cmd
    /\ name cmd <> get ex_vkResetQueryPoolEXT "name"
    /\ Py.get (p_commands ex_parsed_commands) (name cmd) = Some c
    /\ In ce0 (findall_path ex_commands ["commands"; "command"])
    /\ get ce0 "alias" = None
    /\ xml_node cmd = ce0
    /\ find_text ce0 ["proto"; "name"] = Ok (name cmd).
Proof.
  split; [reflexivity|]. split; [reflexivity|].
  apply (command_alias_shares ex_catalog_types 2 ex_catalog [] ex_commands
           ex_parsed_commands ex_vkResetQueryPoolEXT "vkResetQueryPool").
  - reflexivity.
  - simpl. repeat constructor; simpl; intuition discriminate.
  - simpl. auto.
  - reflexivity.
Defined.

(** The same registry with one more element, a command of its own that
    bears the name of the alias. *)
Definition ex_vkResetQueryPoolEXT_again : Element :=
  command [] "void" "vkResetQueryPoolEXT"
          [ Field.param [] None
              [Field.leaf "type" "VkDevice" (Some " ");
               Field.leaf "name" "device" None] ].

Definition ex_commands_again : Element :=
  registry [ex_vkResetQueryPool; ex_vkResetQueryPoolEXT;
            ex_vkResetQueryPoolEXT_again].

Definition ex_parsed_again : parsed :=
  Eval cbv in
    match __parse_commands ex_catalog_types 2 ex_catalog [] ex_commands_again with
    | Ok r => r
    | _ => mkParsed [] [] [] []
    end.

(** C10 (as stated) fails: the second element carries an [alias]
    attribute, and the third binds the name of the alias anew.  In the
    commands of the parsed registry the alias name is bound to the command
    made from the third element, another object than the one bound to the
    aliased name, and the name of that command is the key itself. *)
Lemma command_alias_counterexample :
  __parse_commands ex_catalog_types 2 ex_catalog [] ex_commands_again
    = Ok ex_parsed_again
  /\ In ex_vkResetQueryPoolEXT
        (findall_path ex_commands_again ["commands"; "command"])
  /\ get ex_vkResetQueryPoolEXT "name" = Some "vkResetQueryPoolEXT"
  /\ get ex_vkResetQueryPoolEXT "alias" = Some "vkResetQueryPool"
  /\ Py.get (p_commands ex_parsed_again) (Some "vkResetQueryPool") = Some 0%nat
  /\ Py.get (p_commands ex_parsed_again) (Some "vkResetQueryPoolEXT") = Some 1%nat
  /\ (exists cmd, p_commands_store ex_parsed_again !! 1%nat = Some cmd
                  /\ name cmd = Some "vkResetQueryPoolEXT"
                  /\ xml_node cmd = ex_vkResetQueryPoolEXT_again)
  /\ ~ (exists c cmd,
          Py.get (p_commands ex_parsed_again) (get ex_vkResetQueryPoolEXT "name")
            = Some c
          /\ Py.get (p_commands ex_parsed_again) (Some "vkResetQueryPool") = Some c
          /\ p_commands_store ex_parsed_again !! c = Some cmd
          /\ name cmd <> get ex_vkResetQueryPoolEXT "name").
Proof.
  split; [reflexivity|]. split; [simpl; auto|].
  split; [reflexivity|]. split; [reflexivity|].
  split; [reflexivity|]. split; [reflexivity|].
  split; [eexists; split; [reflexivity|split; reflexivity]|].
  intros (c & cmd & Hk & Ha & _). cbv in Hk, Ha. congruence.
Qed.

End CommandFacts.

(** ** The modifier parser: its end, the lengths, the next pointer *)

Module ParserFacts.

Import XML Field.

Lemma bind_fuel_inv {A B} (r : result A) (k : A -> result B) :
  bind r k = OutOfFuel -> r = OutOfFuel \/ exists a, r = Ok a /\ k a = OutOfFuel.
Proof.
  destruct r; simpl; intros H; [right; eauto|discriminate|left; reflexivity].
Qed.

Lemma fixed_length_fuel l : fixed_length l <> OutOfFuel.
Proof.
  destruct l as [s|]; simpl; [|discriminate].
  destruct (Py.int 10 s) as [z|e|] eqn:E;
    [discriminate|destruct e; discriminate|].
  apply FieldFacts.int_fuel in E. contradiction.
Qed.

Lemma wrap_fuel obj_name fname parent t p :
  wrap obj_name fname parent t p <> OutOfFuel.
Proof.
  unfold wrap. destruct (pl_is_fixed_array p).
  - destruct (fixed_length (pl_length p)) eqn:E; simpl; try discriminate.
    apply fixed_length_fuel in E. contradiction.
  - destruct (pl_length p) as [l|]; [destruct (String.eqb l _); discriminate|].
    destruct (_ && _)%bool; discriminate.
Qed.

Lemma wrap_all_fuel obj_name fname parent levels : forall t,
  wrap_all obj_name fname parent t levels <> OutOfFuel.
Proof.
  induction levels as [|p levels IH]; intros t; simpl; [discriminate|].
  destruct (wrap obj_name fname parent t p) eqn:E; simpl;
    [apply IH|discriminate|].
  apply wrap_fuel in E. contradiction.
Qed.

Lemma find_text_fuel e path : find_text e path <> OutOfFuel.
Proof. unfold find_text. destruct (find_path e path); discriminate. Qed.

(** X1: [parse_parameter_or_member] returns a field or raises, whatever the
    element: the loop over the declarator consumes a token at every turn and
    ends within as many turns as the declarator has characters. *)
Theorem parse_parameter_or_member_ends obj_name aliases me parent :
  (exists f, parse_parameter_or_member obj_name aliases me parent = Ok f)
  \/ (exists e, parse_parameter_or_member obj_name aliases me parent = Raise e).
Proof.
  destruct (parse_parameter_or_member obj_name aliases me parent)
    as [f|e|] eqn:E; eauto.
  exfalso. unfold parse_parameter_or_member in E.
  apply bind_fuel_inv in E as [E|(fname & _ & E)];
    [exact (find_text_fuel _ _ E)|].
  apply bind_fuel_inv in E as [E|(tname & _ & E)];
    [exact (find_text_fuel _ _ E)|].
  apply bind_fuel_inv in E as [E|(tname' & _ & E)].
  { destruct (Py.get aliases tname) as [[n|t]|]; discriminate E. }
  apply bind_fuel_inv in E as [E|([levels bits] & _ & E)];
    [exact (FieldFacts._parse_type_modifiers_fuel _ E)|].
  apply bind_fuel_inv in E as [E|(t & _ & E)];
    [exact (wrap_all_fuel _ _ _ _ _ E)|].
  discriminate E.
Qed.

(** *** The lengths of [len] and [altlen] *)

(** [len_str]: [altlen] where the element has it, else [len]. *)
Definition len_attribute (me : Element) : option string :=
  match get me "altlen" with
  | Some s => Some s
  | None => get me "len"
  end.

(** Every entry of the attribute falls on a level that is no fixed array. *)
Definition lengths_fit (s : string) (levels : list _PointerLevel) : Prop :=
  forall j l, Py.split "," s !! j = Some l ->
    exists p, levels !! j = Some p /\ pl_is_fixed_array p = false.

Lemma _parse_type_modifiers_eq me :
  _parse_type_modifiers me
  = (let! (levels, bits) :=
       tokens (String.length (declarator me)) (declarator me) false [] None in
     let! levels' :=
       assign_lengths 0 (match len_attribute me with
                         | Some s => Py.split "," s
                         | None => []
                         end) levels in
     Ok (levels', bits)).
Proof.
  unfold _parse_type_modifiers, len_attribute.
  destruct (get me "altlen"); reflexivity.
Qed.

Lemma assign_lengths_spec dl : forall i levels levels',
  assign_lengths i dl levels = Ok levels' ->
  (forall j l, dl !! j = Some l ->
     exists p, levels !! (i + j)%nat = Some p /\ pl_is_fixed_array p = false
               /\ levels' !! (i + j)%nat
                  = Some (mkLevel (pl_is_const p) false (Some l)))
  /\ (forall k, (k < i)%nat -> levels' !! k = levels !! k).
Proof.
  induction dl as [|d dl IH]; intros i levels levels' H; simpl in H.
  - injection H as <-. split; [|auto].
    intros j l Hj. rewrite lookup_nil in Hj. discriminate.
  - bind_step H as p Ep. apply or_raise_Ok_inv in Ep.
    destruct (pl_is_fixed_array p) eqn:Efx; [discriminate|].
    apply IH in H as [Hin Hout]. split.
    + intros [|j] l Hj; simpl in Hj.
      * injection Hj as <-. exists p. rewrite Nat.add_0_r.
        split; [exact Ep|]. split; [exact Efx|].
        rewrite Hout by lia. apply list_lookup_insert_eq.
        eapply lookup_lt_Some. exact Ep.
      * destruct (Hin j l Hj) as (q & Hq & Hfx & Hq').
        rewrite list_lookup_insert_ne in Hq by lia.
        exists q. replace (i + S j)%nat with (S i + j)%nat by lia. auto.
    + intros k Hk. rewrite Hout by lia. apply list_lookup_insert_ne. lia.
Qed.

Lemma assign_lengths_returns dl : forall i levels,
  (forall j l, dl !! j = Some l ->
     exists p, levels !! (i + j)%nat = Some p /\ pl_is_fixed_array p = false) ->
  exists levels', assign_lengths i dl levels = Ok levels'.
Proof.
  induction dl as [|d dl IH]; intros i levels Hall; simpl; [eauto|].
  destruct (Hall 0%nat d eq_refl) as (p & Hp & Hfx).
  rewrite Nat.add_0_r in Hp. rewrite Hp. simpl. rewrite Hfx. apply IH.
  intros j l Hj. destruct (Hall (S j) l Hj) as (q & Hq & Hqf).
  exists q. replace (S i + j)%nat with (i + S j)%nat by lia.
  rewrite list_lookup_insert_ne by lia. auto.
Qed.

Lemma assign_lengths_raises dl : forall i levels,
  (exists levels', assign_lengths i dl levels = Ok levels')
  \/ assign_lengths i dl levels = Raise IndexError
  \/ assign_lengths i dl levels = Raise AssertionError.
Proof.
  induction dl as [|d dl IH]; intros i levels; simpl; [eauto|].
  destruct (levels !! i) as [p|]; simpl; [|auto].
  destruct (pl_is_fixed_array p); [auto|apply IH].
Qed.

(** X2: on a parsed declarator the entries of [len] (of [altlen] where the
    element has one) belong to the pointer levels in their order, the first
    entry to the outermost level; none falls on a fixed array. *)
Theorem lengths_assigned_in_order me levels bits s j l :
  _parse_type_modifiers me = Ok (levels, bits) ->
  len_attribute me = Some s ->
  Py.split "," s !! j = Some l ->
  exists p, levels !! j = Some p
            /\ pl_is_fixed_array p = false /\ pl_length p = Some l.
Proof.
  rewrite _parse_type_modifiers_eq. intros H Hs Hj. rewrite Hs in H.
  bind_step H as [levels0 bits0] E1. bind_step H as levels1 E2.
  injection H as <- <-.
  apply assign_lengths_spec in E2 as [Hin _].
  destruct (Hin j l Hj) as (p & _ & _ & Hp). simpl in Hp.
  eexists. split; [exact Hp|]. auto.
Qed.

Lemma lengths_assigned_in_order_witness :
  exists p, [mkLevel true false (Some "bindingCount")] !! 0%nat = Some p
            /\ pl_is_fixed_array p = false
            /\ pl_length p = Some "bindingCount".
Proof.
  apply (lengths_assigned_in_order ex_pOffsets
           [mkLevel true false (Some "bindingCount")] None "bindingCount"
           0%nat "bindingCount"); reflexivity.
Defined.

(** X3: where the element has a [len] or an [altlen], the modifiers are
    parsed exactly when every entry of it falls on a pointer level that is
    no fixed array; otherwise the parser raises [IndexError] (no such level)
    or [AssertionError] (a fixed array). *)
Theorem len_needs_pointer_levels me levels bits s :
  tokens (String.length (declarator me)) (declarator me) false [] None
    = Ok (levels, bits) ->
  len_attribute me = Some s ->
  (lengths_fit s levels ->
   exists levels', _parse_type_modifiers me = Ok (levels', bits))
  /\ (~ lengths_fit s levels ->
      _parse_type_modifiers me = Raise IndexError
      \/ _parse_type_modifiers me = Raise AssertionError).
Proof.
  intros Ht Hs. rewrite _parse_type_modifiers_eq, Ht, Hs. cbn [bind]. split.
  - intros Hfit.
    destruct (assign_lengths_returns (Py.split "," s) 0 levels Hfit)
      as [levels' ->].
    simpl. eauto.
  - intros Hno.
    destruct (assign_lengths_raises (Py.split "," s) 0 levels)
      as [[levels' E]|[E|E]]; rewrite E; simpl; auto.
    exfalso. apply Hno. intros j l Hj.
    apply assign_lengths_spec in E as [Hin _].
    destruct (Hin j l Hj) as (p & Hp & Hfx & _). eauto.
Qed.

(** [<member len="null-terminated"><type>char</type>
    <name>deviceName</name>[<enum>VK_MAX_PHYSICAL_DEVICE_NAME_SIZE</enum>]</member>] *)
Definition ex_deviceName : Element :=
  member [("len", "null-terminated")] None
         [ leaf "type" "char" (Some " "); leaf "name" "deviceName" (Some "[");
           leaf "enum" "VK_MAX_PHYSICAL_DEVICE_NAME_SIZE" (Some "]") ].

Lemma len_needs_pointer_levels_witness :
  _parse_type_modifiers ex_deviceName = Raise IndexError
  \/ _parse_type_modifiers ex_deviceName = Raise AssertionError.
Proof.
  apply (len_needs_pointer_levels ex_deviceName
           [mkLevel false true (Some "VK_MAX_PHYSICAL_DEVICE_NAME_SIZE")] None
           "null-terminated" eq_refl eq_refl).
  intros Hfit. destruct (Hfit 0%nat "null-terminated" eq_refl) as (p & Hp & Hfx).
  injection Hp as <-. discriminate Hfx.
Defined.

(** *** The next pointer *)

Fixpoint no_obj (t : Ty) : bool :=
  match t with
  | TypeRef _ => true
  | Obj _ => false
  | FixedArray _ b _ | DynamicArray _ b _ _ | NextPtr _ b | Pointer _ b => no_obj b
  end.

(** Every [NextPtr] of the type stands right over the reference to [void]. *)
Fixpoint next_ptr_over_void (t : Ty) : Prop :=
  match t with
  | TypeRef _ | Obj _ => True
  | NextPtr _ b => b = TypeRef (Some "void")
  | FixedArray _ b _ | DynamicArray _ b _ _ | Pointer _ b => next_ptr_over_void b
  end.

Fixpoint has_next_ptr (t : Ty) : bool :=
  match t with
  | TypeRef _ | Obj _ => false
  | NextPtr _ _ => true
  | FixedArray _ b _ | DynamicArray _ b _ _ | Pointer _ b => has_next_ptr b
  end.

Lemma opt_eqb_eq o s : opt_eqb o s = true <-> o = Some s.
Proof.
  destruct o as [x|]; simpl; [|split; discriminate].
  rewrite String.eqb_eq. split; congruence.
Qed.

(** The name of a type that holds no catalog object is [void] for the
    reference to [void] alone: the name of a modifier ends in a bracket. *)
Lemma name_void obj_name t :
  no_obj t = true -> opt_eqb (name obj_name t) "void" = true ->
  t = TypeRef (Some "void").
Proof.
  destruct t as [r|a|c b l|c b l p|c b|c b]; simpl; intros Hno Hn;
    try discriminate Hno; try (destruct c; discriminate Hn).
  apply opt_eqb_eq in Hn. congruence.
Qed.

Definition well_made (fname : option string) (t : Ty) : Prop :=
  no_obj t = true /\ next_ptr_over_void t
  /\ (has_next_ptr t = true -> fname = Some "pNext").

Lemma wrap_well_made obj_name fname parent t p t' :
  wrap obj_name fname parent t p = Ok t' ->
  well_made fname t -> well_made fname t'.
Proof.
  unfold wrap, well_made. intros H (Hno & Hv & Hp).
  destruct (pl_is_fixed_array p).
  - bind_step H as v Ev. injection H as <-. simpl. auto.
  - destruct (pl_length p) as [l|].
    + destruct (String.eqb l "null-terminated"); injection H as <-; simpl; auto.
      repeat split; auto. discriminate.
    + destruct (opt_eqb (name obj_name t) "void") eqn:En; simpl in H.
      * destruct (opt_eqb fname "pNext") eqn:Ef; injection H as <-; simpl; auto.
        apply opt_eqb_eq in Ef. apply name_void in En; auto.
      * injection H as <-. simpl. auto.
Qed.

Lemma wrap_all_well_made obj_name fname parent levels : forall t t',
  wrap_all obj_name fname parent t levels = Ok t' ->
  well_made fname t -> well_made fname t'.
Proof.
  induction levels as [|p levels IH]; intros t t' H Ht; simpl in H.
  - injection H as <-. exact Ht.
  - bind_step H as t1 E. eapply IH; [exact H|].
    eapply wrap_well_made; eauto.
Qed.

(** X4: in the type of a parsed field a [NextPtr] stands only right over the
    reference to [void], never over another modifier, and only a field named
    [pNext] has one. *)
Theorem next_ptr_innermost obj_name aliases me parent f :
  parse_parameter_or_member obj_name aliases me parent = Ok f ->
  next_ptr_over_void (f_type f)
  /\ (has_next_ptr (f_type f) = true -> f_name f = Some "pNext").
Proof.
  intros H. unfold parse_parameter_or_member in H.
  bind_step H as fname E1. bind_step H as tname E2. bind_step H as tname' E3.
  bind_step H as [levels bits] E4. bind_step H as t E5.
  injection H as <-. simpl.
  apply wrap_all_well_made in E5 as (_ & Hv & Hp); [auto|].
  repeat split; simpl; auto. discriminate.
Qed.

Lemma next_ptr_innermost_witness :
  next_ptr_over_void (NextPtr false (TypeRef (Some "void")))
  /\ (has_next_ptr (NextPtr false (TypeRef (Some "void"))) = true ->
      Some "pNext" = Some "pNext").
Proof.
  apply (next_ptr_innermost FieldFacts.no_objects [] ex_pNext
           (OwnerStruct "VkBaseOutStructure")
           (mkField (Some "pNext") (NextPtr false (TypeRef (Some "void")))
                    true true None [] ex_pNext)).
  reflexivity.
Defined.

End ParserFacts.

(** ** The enum constructor and the values that extend an enum *)

Module EnumInitFacts.

Import XML Catalog Enums Registry DictFacts StoreFacts.

Lemma contains_keys {K V} `{EqDecision K} (d : Py.dict K V) k :
  Py.contains d k = true <-> In k (Py.keys d).
Proof.
  unfold Py.contains. pose proof (get_None_keys d k) as Hn.
  destruct (Py.get d k) eqn:E.
  - split; [|reflexivity]. intros _. eapply get_keys. exact E.
  - split; [discriminate|]. intros Hin. exfalso. apply Hn; auto.
Qed.

Lemma In_keys_set {K V} `{EqDecision K} (d : Py.dict K V) k v k' :
  In k' (Py.keys (Py.set d k v)) <-> In k' (Py.keys d) \/ k' = k.
Proof.
  rewrite keys_set. destruct (Py.contains d k) eqn:E.
  - apply contains_keys in E. split; [auto|]. intros [?| ->]; assumption.
  - rewrite in_app_iff. simpl. intuition.
Qed.

(** A child element without [alias] that has a [bitpos]. *)
Definition marks_bitmask (ee : Element) : bool :=
  match get ee "alias", get ee "bitpos" with
  | None, Some _ => true
  | _, _ => false
  end.

Definition child_names (ees : list Element) : list Py.key :=
  map (fun ee => get ee "name") ees.

Lemma init_values_spec ees : forall h values bm h' values' bm',
  init_values h values bm ees = Ok (h', values', bm') ->
  bm' = (bm || existsb marks_bitmask ees)%bool
  /\ (forall k, In k (Py.keys values')
                <-> In k (Py.keys values) \/ In k (child_names ees))
  /\ (List.NoDup (Py.keys values) -> List.NoDup (Py.keys values')).
Proof.
  induction ees as [|ee ees IH]; intros h values bm h' values' bm' H; simpl in H.
  - injection H as <- <- <-. rewrite orb_false_r. simpl. intuition.
  - assert (Hstep : forall o1 bm1,
              init_values (h ++ [o1])%list
                          (Py.set values (get ee "name") (List.length h)) bm1 ees
              = Ok (h', values', bm') ->
              bm' = (bm1 || existsb marks_bitmask ees)%bool
              /\ (forall k, In k (Py.keys values')
                            <-> In k (Py.keys values)
                                \/ In k (child_names (ee :: ees)))
              /\ (List.NoDup (Py.keys values) -> List.NoDup (Py.keys values'))).
    { intros o1 bm1 H1. apply IH in H1 as (Hbm & Hk & Hnd).
      split; [exact Hbm|]. split.
      - intros k. rewrite Hk, In_keys_set. simpl. intuition.
      - intros Hn. apply Hnd, NoDup_set, Hn. }
    unfold marks_bitmask at 1. simpl.
    destruct (get ee "alias") as [al|] eqn:Hal.
    + unfold alloc in H. apply Hstep in H as (-> & Hk & Hnd). auto.
    + bind_step H as [ev b] Ev. unfold alloc in H.
      apply Hstep in H as (-> & Hk & Hnd).
      split; [|auto].
      destruct (get ee "bitpos"); simpl; [rewrite orb_true_r|]; reflexivity.
Qed.

Lemma Enum_init_eq h te n h1 e :
  Enum_init h (Some te) n = Ok (h1, e) ->
  exists h' values bm bw,
    init_values (h ++ [mkObj (get te "name") [] (Some te) (Enum [] false 32)])%list []
                (Field.opt_eqb (get te "type") "bitmask") (findall te "enum")
      = Ok (h', values, bm)
    /\ e = List.length h
    /\ h1 !! e = Some (mkObj (get te "name") [] (Some te) (Enum values bm bw)).
Proof.
  unfold Enum_init, alloc. intros H.
  bind_step H as bw Ebw. bind_step H as [[h' values] bm] Ei.
  injection H as <- <-.
  exists h', values, bm, bw. split; [exact Ei|]. split; [reflexivity|].
  apply read_write_eq.
  apply IntegerValues.init_values_inv in Ei as [Hold _].
  eapply lookup_lt. apply Hold. apply list_lookup_middle. reflexivity.
Qed.

(** X5: an enum made from an element is a bitmask exactly when the element
    has the type [bitmask] or one of its children that is no alias has a
    [bitpos]. *)
Theorem Enum_init_is_bitmask h te n h1 e :
  Enum_init h (Some te) n = Ok (h1, e) ->
  exists o values bw,
    h1 !! e = Some o
    /\ kind o = Enum values
                  (Field.opt_eqb (get te "type") "bitmask"
                   || existsb marks_bitmask (findall te "enum")) bw.
Proof.
  intros H. apply Enum_init_eq in H as (h' & values & bm & bw & Hi & _ & He).
  apply init_values_spec in Hi as (-> & _ & _).
  eexists _, values, bw. split; [exact He|reflexivity].
Qed.

Lemma Enum_init_is_bitmask_witness :
  exists o values bw,
    ex_parsed !! 0%nat = Some o
    /\ kind o = Enum values
                  (Field.opt_eqb (get ex_enums "type") "bitmask"
                   || existsb marks_bitmask (findall ex_enums "enum")) bw.
Proof.
  apply (Enum_init_is_bitmask [] ex_enums None ex_parsed 0%nat). reflexivity.
Defined.

(** X6: the value map of an enum made from an element has the names of the
    [enum] children for keys, each of them once. *)
Theorem Enum_init_names h te n h1 e :
  Enum_init h (Some te) n = Ok (h1, e) ->
  List.NoDup (Py.keys (values_of h1 e))
  /\ forall k, In k (Py.keys (values_of h1 e))
               <-> In k (child_names (findall te "enum")).
Proof.
  intros H. apply Enum_init_eq in H as (h' & values & bm & bw & Hi & _ & He).
  unfold values_of. rewrite He. simpl.
  apply init_values_spec in Hi as (_ & Hk & Hnd). split.
  - apply Hnd. constructor.
  - intros k. rewrite Hk. simpl. intuition.
Qed.

Lemma Enum_init_names_witness :
  List.NoDup (Py.keys (values_of ex_parsed 0%nat))
  /\ forall k, In k (Py.keys (values_of ex_parsed 0%nat))
               <-> In k (child_names (findall ex_enums "enum")).
Proof.
  apply (Enum_init_names [] ex_enums None ex_parsed 0%nat). reflexivity.
Defined.

(** The value that the [try] block computes for a child with a [bitpos]
    whose text decodes to [n]. *)
Lemma element_value_bitpos ee s n :
  get ee "bitpos" = Some s ->
  decode_value s = Ok n ->
  element_value ee = Ok (if n <? 0 then Py.VStr s else Py.VInt (2 ^ n), true).
Proof.
  intros Hb Hd. unfold element_value, decode_bitpos, shift1.
  rewrite Hb, Hd. cbn [bind].
  destruct (n <? 0) eqn:E; simpl; [reflexivity|].
  rewrite Z.shiftl_1_l. reflexivity.
Qed.

(** The loop over the children, cut in two. *)
Lemma init_values_app l1 : forall l2 h values bm r,
  init_values h values bm (l1 ++ l2) = Ok r ->
  exists h' values' bm',
    init_values h values bm l1 = Ok (h', values', bm')
    /\ init_values h' values' bm' l2 = Ok r
    /\ List.length h' = (List.length h + List.length l1)%nat.
Proof.
  induction l1 as [|ee l1 IH]; intros l2 h values bm r H; simpl in H.
  - exists h, values, bm. simpl. split; [reflexivity|]. split; [exact H|lia].
  - simpl. destruct (get ee "alias") as [al|].
    + unfold alloc in *. apply IH in H as (h' & values' & bm' & H1 & H2 & Hl).
      exists h', values', bm'. split; [exact H1|]. split; [exact H2|].
      rewrite Hl, length_app. simpl. lia.
    + bind_step H as [ev b] Ev. unfold alloc in *.
      apply IH in H as (h' & values' & bm' & H1 & H2 & Hl).
      exists h', values', bm'. split; [exact H1|]. split; [exact H2|].
      rewrite Hl, length_app. simpl. lia.
Qed.

(** A name that no child bears keeps its binding. *)
Lemma init_values_keeps ees : forall h values bm h' values' bm' k,
  init_values h values bm ees = Ok (h', values', bm') ->
  ~ In k (child_names ees) ->
  Py.get values' k = Py.get values k.
Proof.
  induction ees as [|ee ees IH]; intros h values bm h' values' bm' k H Hk;
    simpl in H.
  - injection H as <- <- <-. reflexivity.
  - simpl in Hk.
    assert (Hset : forall a, Py.get (Py.set values (get ee "name") a) k
                             = Py.get values k).
    { intros a. rewrite get_set. case_decide as E; [|reflexivity].
      exfalso. apply Hk. left. exact E. }
    assert (Hk' : ~ In k (child_names ees)) by (intros Hin; apply Hk; right; exact Hin).
    destruct (get ee "alias") as [al|].
    + unfold alloc in H. rewrite (IH _ _ _ _ _ _ k H Hk'). apply Hset.
    + bind_step H as [ev b] Ev. unfold alloc in H.
      rewrite (IH _ _ _ _ _ _ k H Hk'). apply Hset.
Qed.

(** The store that the constructor returns: the one which the loop over the
    children leaves, with the enum written where it was made. *)
Lemma Enum_init_store h te n h1 e :
  Enum_init h (Some te) n = Ok (h1, e) ->
  exists h' values bm bw,
    init_values (h ++ [mkObj (get te "name") [] (Some te) (Enum [] false 32)])%list []
                (Field.opt_eqb (get te "type") "bitmask") (findall te "enum")
      = Ok (h', values, bm)
    /\ e = List.length h
    /\ h1 = write h' e (mkObj (get te "name") [] (Some te) (Enum values bm bw)).
Proof.
  unfold Enum_init, alloc. intros H.
  bind_step H as bw Ebw. bind_step H as [[h' values] bm] Ei.
  injection H as <- <-.
  exists h', values, bm, bw. split; [exact Ei|]. split; reflexivity.
Qed.

(** X7: take a child [ee] of the element of an enum that has no [alias] and
    whose [bitpos] decodes to [n], and which is the last child of its name.
    The constructor makes the enum a bitmask and binds the name of [ee] to a
    new enum value, made from [ee] with its comment, whose value is two to
    the power [n]; a negative [n] makes the shift raise the [ValueError]
    that the constructor catches, and the value is the text of [bitpos]. *)
Theorem bitpos_value h te n0 h1 e pre ee post s n :
  Enum_init h (Some te) n0 = Ok (h1, e) ->
  findall te "enum" = (pre ++ ee :: post)%list ->
  ~ In (get ee "name") (child_names post) ->
  get ee "alias" = None ->
  get ee "bitpos" = Some s ->
  decode_value s = Ok n ->
  exists values bw,
    h1 !! e = Some (mkObj (get te "name") [] (Some te) (Enum values true bw))
    /\ Py.get values (get ee "name") = Some (S (List.length h + List.length pre))
    /\ h1 !! S (List.length h + List.length pre)
       = Some (mkObj (get ee "name") [] (Some ee)
                 (EnumValue (if n <? 0 then Py.VStr s else Py.VInt (2 ^ n))
                            (get ee "comment"))).
Proof.
  intros H Hsplit Hlast Hal Hb Hd.
  apply Enum_init_store in H as (h' & values & bm & bw & Hi & -> & ->).
  rewrite Hsplit in Hi.
  apply init_values_app in Hi as (h2 & v2 & bm2 & _ & Hi & Hl).
  rewrite length_app in Hl. simpl in Hl.
  simpl in Hi. rewrite Hal, Hb in Hi.
  rewrite (element_value_bitpos ee s n Hb Hd) in Hi. simpl in Hi.
  unfold alloc in Hi.
  pose proof (init_values_spec _ _ _ _ _ _ _ Hi) as (Hbm & _ & _).
  pose proof (init_values_keeps _ _ _ _ _ _ _ _ Hi Hlast) as Hget.
  apply IntegerValues.init_values_inv in Hi as [Hold _].
  simpl in Hbm. subst bm.
  assert (Ha : List.length h2 = S (List.length h + List.length pre)) by lia.
  assert (Hnew : h' !! List.length h2
                 = Some (mkObj (get ee "name") [] (Some ee)
                           (EnumValue (if n <? 0 then Py.VStr s else Py.VInt (2 ^ n))
                                      (get ee "comment"))))
    by (apply Hold, list_lookup_middle; reflexivity).
  assert (Hself : (List.length h < List.length h')%nat).
  { apply lookup_lt in Hnew. lia. }
  exists values, bw. split; [apply read_write_eq, Hself|]. split.
  - rewrite Hget, get_set, <- Ha. case_decide; [reflexivity|contradiction].
  - rewrite read_write_ne by lia. rewrite <- Ha. exact Hnew.
Qed.

(** Two flag bits, the second with a negative position. *)
Definition ex_flag_bits : Element :=
  enums_elem [("name", "VkSampleFlagBits")]
    [ enum_elem [("bitpos", "3"); ("name", "VK_SAMPLE_BIT");
                 ("comment", "the fourth bit")];
      enum_elem [("bitpos", "-1"); ("name", "VK_SAMPLE_NO_BIT")] ].

Definition ex_flag_bits_made : store :=
  Eval cbv in
    match Enum_init [] (Some ex_flag_bits) None with
    | Ok (h, _) => h
    | _ => []
    end.

Lemma bitpos_value_witness :
  (exists values bw,
     ex_flag_bits_made !! 0%nat
       = Some (mkObj (Some "VkSampleFlagBits") [] (Some ex_flag_bits)
                     (Enum values true bw))
     /\ Py.get values (Some "VK_SAMPLE_BIT") = Some 1%nat
     /\ ex_flag_bits_made !! 1%nat
        = Some (mkObj (Some "VK_SAMPLE_BIT") []
                  (Some (enum_elem [("bitpos", "3"); ("name", "VK_SAMPLE_BIT");
                                    ("comment", "the fourth bit")]))
                  (EnumValue (Py.VInt 8) (Some "the fourth bit"))))
  /\ (exists values bw,
        ex_flag_bits_made !! 0%nat
          = Some (mkObj (Some "VkSampleFlagBits") [] (Some ex_flag_bits)
                        (Enum values true bw))
        /\ Py.get values (Some "VK_SAMPLE_NO_BIT") = Some 2%nat
        /\ ex_flag_bits_made !! 2%nat
           = Some (mkObj (Some "VK_SAMPLE_NO_BIT") []
                     (Some (enum_elem [("bitpos", "-1"); ("name", "VK_SAMPLE_NO_BIT")]))
                     (EnumValue (Py.VStr "-1") None))).
Proof.
  split.
  - apply (bitpos_value [] ex_flag_bits None ex_flag_bits_made 0%nat []
             (enum_elem [("bitpos", "3"); ("name", "VK_SAMPLE_BIT");
                         ("comment", "the fourth bit")])
             [enum_elem [("bitpos", "-1"); ("name", "VK_SAMPLE_NO_BIT")]]
             "3" 3); try reflexivity.
    simpl. intros [H|[]]. discriminate H.
  - apply (bitpos_value [] ex_flag_bits None ex_flag_bits_made 0%nat
             [enum_elem [("bitpos", "3"); ("name", "VK_SAMPLE_BIT");
                         ("comment", "the fourth bit")]]
             (enum_elem [("bitpos", "-1"); ("name", "VK_SAMPLE_NO_BIT")])
             [] "-1" (-1)); try reflexivity.
    simpl. intros [].
Defined.

(** A child with an [alias] becomes a TypeAlias whatever its [bitpos], and
    does not make the enum a bitmask. *)
Example alias_with_bitpos :
  Enum_init [] (Some (enums_elem [("name", "VkSampleFlagBits")]
                        [enum_elem [("bitpos", "3"); ("name", "VK_SAMPLE_BIT");
                                    ("alias", "VK_OTHER_BIT")]])) None
  = Ok ([ mkObj (Some "VkSampleFlagBits") []
            (Some (enums_elem [("name", "VkSampleFlagBits")]
                     [enum_elem [("bitpos", "3"); ("name", "VK_SAMPLE_BIT");
                                 ("alias", "VK_OTHER_BIT")]]))
            (Enum [(Some "VK_SAMPLE_BIT", 1%nat)] false 32);
          mkObj (Some "VK_SAMPLE_BIT") [] None
                (TypeAlias (AliasStr (Some "VK_OTHER_BIT"))) ], 0%nat).
Proof. reflexivity. Qed.

(** *** parse_enum_extend *)

Lemma insert_value_eq h enum eo name ev h' :
  insert_value h enum eo name ev = Ok h' ->
  exists values bm bw,
    kind eo = Enum values bm bw
    /\ h' = write h enum (with_kind eo (Enum (Py.set values name ev) bm bw)).
Proof.
  unfold insert_value. destruct (kind eo); try discriminate.
  intros [= <-]. eauto.
Qed.

(** What [parse_enum_extend] does to the store, with or without [alias]. *)
Lemma parse_enum_extend_store h types ee extnumber h' ev :
  parse_enum_extend h types ee extnumber = Ok (h', ev) ->
  exists enum eo values bm bw o,
    Py.get types (get ee "extends") = Some enum
    /\ h !! enum = Some eo
    /\ kind eo = Enum values bm bw
    /\ ev = List.length h
    /\ name o = get ee "name" /\ extensions o = []
    /\ h' = write (h ++ [o])%list enum
                  (with_kind eo (Enum (Py.set values (get ee "name") ev) bm bw)).
Proof.
  unfold parse_enum_extend, alloc. intros H.
  bind_step H as enum E1. apply or_raise_Ok_inv in E1.
  bind_step H as eo E2. apply CatalogFacts.read_Ok in E2.
  destruct (get ee "alias") as [al|].
  - bind_step H as h1 E3. injection H as <- <-.
    apply insert_value_eq in E3 as (values & bm & bw & Hk & ->).
    eexists enum, eo, values, bm, bw, _. repeat split; eauto.
  - bind_step H as value E3. bind_step H as h1 E4. injection H as <- <-.
    apply insert_value_eq in E4 as (values & bm & bw & Hk & ->).
    eexists enum, eo, values, bm, bw, _. repeat split; eauto.
Qed.

(** X8: extending an enum makes one new object, at a fresh address, and
    rebinds one name in the value map of that enum; the other names keep
    their values and no other object of the catalog changes. *)
Theorem parse_enum_extend_frame h types ee extnumber h' ev :
  parse_enum_extend h types ee extnumber = Ok (h', ev) ->
  exists enum,
    Py.get types (get ee "extends") = Some enum
    /\ ev = List.length h
    /\ List.length h' = S (List.length h)
    /\ (forall a, a <> enum -> a <> ev -> h' !! a = h !! a)
    /\ Py.get (values_of h' enum) (get ee "name") = Some ev
    /\ (forall k, k <> get ee "name" ->
          Py.get (values_of h' enum) k = Py.get (values_of h enum) k).
Proof.
  intros H.
  apply parse_enum_extend_store in H
    as (enum & eo & values & bm & bw & o & Ht & He & Hk & -> & _ & _ & ->).
  pose proof (lookup_lt _ _ _ He) as Hlt.
  assert (Hlt' : (enum < List.length (h ++ [o])%list)%nat)
    by (rewrite length_app; simpl; lia).
  exists enum. split; [exact Ht|]. split; [reflexivity|].
  split; [rewrite length_write, length_app; simpl; lia|].
  split; [|split].
  - intros a Ha Hev. rewrite read_write_ne by congruence.
    destruct (decide (a < List.length h)%nat) as [Hl|Hl].
    + apply lookup_app_l. exact Hl.
    + transitivity (@None obj).
      * apply lookup_ge_None_2. rewrite length_app. simpl. lia.
      * symmetry. apply lookup_ge_None_2. lia.
  - unfold values_of. rewrite read_write_eq by exact Hlt'. simpl.
    rewrite get_set. case_decide; [reflexivity|contradiction].
  - intros k Hne. unfold values_of.
    rewrite read_write_eq by exact Hlt'. rewrite He, Hk. simpl.
    rewrite get_set. case_decide; [congruence|reflexivity].
Qed.

Lemma parse_enum_extend_frame_witness :
  exists enum,
    Py.get EnumFacts.ex_result_types (get EnumFacts.ex_extend "extends") = Some enum
    /\ 2%nat = List.length EnumFacts.ex_VkResult
    /\ List.length EnumFacts.ex_VkResult_extended
       = S (List.length EnumFacts.ex_VkResult)
    /\ (forall a, a <> enum -> a <> 2%nat ->
          EnumFacts.ex_VkResult_extended !! a = EnumFacts.ex_VkResult !! a)
    /\ Py.get (values_of EnumFacts.ex_VkResult_extended enum)
              (get EnumFacts.ex_extend "name") = Some 2%nat
    /\ (forall k, k <> get EnumFacts.ex_extend "name" ->
          Py.get (values_of EnumFacts.ex_VkResult_extended enum) k
          = Py.get (values_of EnumFacts.ex_VkResult enum) k).
Proof.
  apply (parse_enum_extend_frame EnumFacts.ex_VkResult EnumFacts.ex_result_types
           EnumFacts.ex_extend 12 EnumFacts.ex_VkResult_extended 2%nat).
  reflexivity.
Defined.

End EnumInitFacts.

(** ** Contributed values under the filter *)

Module ContributionFacts.

Import XML Catalog Enums Registry DictFacts StoreFacts.

Lemma filter_enum_values h e extension_set h' e' o values bm bw :
  h !! e = Some o ->
  kind o = Enum values bm bw ->
  __filter_type_by_extensions h e extension_set = Ok (h', e') ->
  filter_values h extension_set (Py.keys values) values = Ok (values_of h' e).
Proof.
  unfold __filter_type_by_extensions. intros Ho Hk H.
  rewrite (CatalogFacts.read_Some _ _ _ Ho) in H. simpl in H. rewrite Hk in H.
  bind_step H as values' Ev. injection H as <- <-.
  unfold values_of. rewrite read_write_eq by (eapply lookup_lt; eauto).
  reflexivity.
Qed.

(** The value that an extending element adds, looked up after the enum has
    been filtered: it is there when the object made for it survives. *)
Lemma extended_value_filtered h types ee extnumber h1 ev g e extension_set g' e' :
  parse_enum_extend h types ee extnumber = Ok (h1, ev) ->
  Py.get types (get ee "extends") = Some e ->
  g !! e = h1 !! e ->
  __filter_type_by_extensions g e extension_set = Ok (g', e') ->
  forall o, g !! ev = Some o ->
    Py.get (values_of g' e) (get ee "name")
    = if survives extension_set o then Some ev else None.
Proof.
  intros Hp Ht Hge Hf o Ho.
  apply EnumInitFacts.parse_enum_extend_store in Hp
    as (enum & eo & values & bm & bw & o1 & Ht' & He & Hk & -> & _ & _ & ->).
  assert (enum = e) by congruence. subst enum.
  pose proof (lookup_lt _ _ _ He) as Hlt.
  rewrite read_write_eq in Hge by (rewrite length_app; simpl; lia).
  eapply filter_enum_values in Hf; [|exact Hge|reflexivity].
  pose proof (FilterFacts.filter_values_spec _ _ _ _ _ Hf (get ee "name")) as Hspec.
  assert (Hget : Py.get (Py.set values (get ee "name") (List.length h)) (get ee "name")
                 = Some (List.length h))
    by (rewrite get_set; case_decide; [reflexivity|contradiction]).
  destruct (survives extension_set o) eqn:Es.
  - apply Hspec. split; [exact Hget|]. intros _. exists o. auto.
  - destruct (Py.get (values_of g' e) (get ee "name")) as [v|] eqn:Ev; [|reflexivity].
    exfalso. destruct (proj1 (Hspec v) eq_refl) as [Hv Hs].
    assert (v = List.length h) by congruence. subst v.
    destruct Hs as (o' & Ho' & Hs'); [eapply get_keys; exact Hget|].
    congruence.
Qed.

(** The element of a contribution, and whether the value made for it passes
    the filter: a feature block leaves no tag, an extension its own. *)
Definition elem_of (c : contribution) : Element :=
  match c with
  | ByExtension _ _ ee => ee
  | ByFeature ee => ee
  end.

Definition tags_of (c : contribution) : list addr :=
  match c with
  | ByExtension self _ _ => [self]
  | ByFeature _ => []
  end.

Definition kept_by (extension_set : list addr) (c : contribution) : bool :=
  match c with
  | ByExtension self _ _ => existsb (Nat.eqb self) extension_set
  | ByFeature _ => true
  end.

(** [c] gives the enum [e] a value of the name [n]. *)
Definition contributes (types : Py.dict Py.key addr) (e : addr) (n : Py.key)
    (c : contribution) : Prop :=
  Py.get types (get (elem_of c) "extends") = Some e
  /\ get (elem_of c) "name" = n.

(** The object that [parse_enum_extend] makes is no enum. *)
Lemma parse_enum_extend_new h types ee extnumber h' ev :
  parse_enum_extend h types ee extnumber = Ok (h', ev) ->
  exists enum eo values bm bw o,
    Py.get types (get ee "extends") = Some enum
    /\ h !! enum = Some eo
    /\ kind eo = Enum values bm bw
    /\ ev = List.length h
    /\ is_Enum o = false /\ extensions o = []
    /\ h' = write (h ++ [o])%list enum
                  (with_kind eo (Enum (Py.set values (get ee "name") ev) bm bw)).
Proof.
  unfold parse_enum_extend, alloc. intros H.
  bind_step H as enum E1. apply or_raise_Ok_inv in E1.
  bind_step H as eo E2. apply CatalogFacts.read_Ok in E2.
  destruct (get ee "alias") as [al|].
  - bind_step H as h1 E3. injection H as <- <-.
    apply EnumInitFacts.insert_value_eq in E3 as (values & bm & bw & Hk & ->).
    eexists enum, eo, values, bm, bw, _. repeat split; eauto.
  - bind_step H as value E3. bind_step H as h1 E4. injection H as <- <-.
    apply EnumInitFacts.insert_value_eq in E4 as (values & bm & bw & Hk & ->).
    eexists enum, eo, values, bm, bw, _. repeat split; eauto.
Qed.

(** What a contribution does to the store: one new object, which bears the
    tags of the contribution, and the name bound to it in the extended
    enum. *)
Lemma contribute_store h types c h1 :
  contribute h types c = Ok h1 ->
  exists enum eo values bm bw o,
    Py.get types (get (elem_of c) "extends") = Some enum
    /\ h !! enum = Some eo
    /\ kind eo = Enum values bm bw
    /\ is_Enum o = false /\ extensions o = tags_of c
    /\ h1 = write (h ++ [o])%list enum
                  (with_kind eo (Enum (Py.set values (get (elem_of c) "name")
                                             (List.length h)) bm bw)).
Proof.
  destruct c as [self number ee|ee]; simpl.
  - unfold extension_enum. intros H.
    bind_step H as [h' ev] Ep. bind_step H as o Eo. injection H as <-.
    apply CatalogFacts.read_Ok in Eo.
    apply parse_enum_extend_new in Ep
      as (enum & eo & values & bm & bw & o1 & Ht & He & Hk & -> & Hne & Hx & ->).
    pose proof (lookup_lt _ _ _ He) as Hlt.
    assert (Ho1 : o = o1).
    { rewrite read_write_ne in Eo by lia.
      assert (Hm : (h ++ [o1])%list !! List.length h = Some o1)
        by (apply list_lookup_middle; reflexivity).
      assert (Hs : Some o = Some o1) by exact (eq_trans (eq_sym Eo) Hm).
      injection Hs. auto. }
    subst o1.
    exists enum, eo, values, bm, bw,
      (mkObj (name o) (extensions o ++ [self]) (xml_node o) (kind o)).
    split; [exact Ht|]. split; [exact He|]. split; [exact Hk|].
    split; [exact Hne|]. split; [simpl; rewrite Hx; reflexivity|].
    unfold write.
    transitivity (<[enum := with_kind eo (Enum (Py.set values (get ee "name")
                                                 (List.length h)) bm bw)]>
                    (<[List.length h := mkObj (name o) (extensions o ++ [self])
                                              (xml_node o) (kind o)]>
                       (h ++ [o])%list)).
    { apply list_insert_insert_ne. lia. }
    f_equal.
    pose proof (insert_app_r h [o] 0%nat
                  (mkObj (name o) (extensions o ++ [self]) (xml_node o) (kind o)))
      as Hi.
    rewrite Nat.add_0_r in Hi. exact Hi.
  - unfold feature_enum. intros H.
    bind_step H as n En. bind_step H as [h' ev] Ep. injection H as <-.
    apply parse_enum_extend_new in Ep
      as (enum & eo & values & bm & bw & o1 & Ht & He & Hk & -> & Hne & Hx & ->).
    exists enum, eo, values, bm, bw, o1. auto 10.
Qed.

(** The name [n] is bound in the enum [e] to the value [ev], which is the
    object [o]. *)
Definition bound (h : store) (e : addr) (n : Py.key) (ev : addr) (o : obj) : Prop :=
  Py.get (values_of h e) n = Some ev /\ h !! ev = Some o.

(** A contribution of another name, or to another enum, leaves the binding
    and the value alone. *)
Lemma contribute_keeps h types c h1 e n ev o :
  contribute h types c = Ok h1 ->
  ~ contributes types e n c ->
  is_Enum o = false ->
  bound h e n ev o -> bound h1 e n ev o.
Proof.
  intros H Hother Hno [Hget Hev].
  apply contribute_store in H
    as (enum & eo & values & bm & bw & o1 & Ht & He & Hk & _ & _ & ->).
  pose proof (lookup_lt _ _ _ He) as Hlt.
  pose proof (lookup_lt _ _ _ Hev) as Hlt'.
  assert (Hne : ev <> enum).
  { intros ->. assert (o = eo) by congruence. subst o.
    unfold is_Enum in Hno. rewrite Hk in Hno. discriminate Hno. }
  assert (Hwide : (enum < List.length (h ++ [o1])%list)%nat)
    by (rewrite length_app; simpl; lia).
  split.
  - unfold values_of in *. destruct (decide (e = enum)) as [->|Hee].
    + rewrite read_write_eq by exact Hwide. simpl.
      rewrite He, Hk in Hget. rewrite get_set. case_decide as E; [|exact Hget].
      exfalso. apply Hother. split; assumption.
    + rewrite read_write_ne by congruence.
      destruct (h !! e) as [oe|] eqn:Hoe; [|discriminate Hget].
      rewrite (lookup_app_l_Some _ _ _ _ Hoe). exact Hget.
  - rewrite read_write_ne by congruence. apply lookup_app_l_Some. exact Hev.
Qed.

Lemma contribute_all_keeps types e n ev o cs : forall h h2,
  contribute_all h types cs = Ok h2 ->
  (forall c, In c cs -> ~ contributes types e n c) ->
  is_Enum o = false ->
  bound h e n ev o -> bound h2 e n ev o.
Proof.
  induction cs as [|c cs IH]; intros h h2 H Hother Hno Hb; simpl in H.
  - injection H as <-. exact Hb.
  - bind_step H as h1 E1.
    apply (IH h1 h2 H); [intros c' Hin; apply Hother; right; exact Hin|exact Hno|].
    eapply contribute_keeps; eauto. apply Hother. left. reflexivity.
Qed.

(** The filter keeps a bound name exactly when its value passes the test. *)
Lemma bound_value_filtered h e n ev o extension_set h' e' :
  bound h e n ev o ->
  __filter_type_by_extensions h e extension_set = Ok (h', e') ->
  Py.get (values_of h' e) n = if survives extension_set o then Some ev else None.
Proof.
  intros [Hget Hev] Hf. unfold values_of in Hget.
  destruct (h !! e) as [oe|] eqn:He; [|discriminate Hget].
  destruct (kind oe) as [| | | | | |values bm bw| | |] eqn:Hk; try discriminate Hget.
  eapply filter_enum_values in Hf; [|exact He|exact Hk].
  pose proof (FilterFacts.filter_values_spec _ _ _ _ _ Hf n) as Hspec.
  destruct (survives extension_set o) eqn:Es.
  - apply Hspec. split; [exact Hget|]. intros _. exists o. auto.
  - destruct (Py.get (values_of h' e) n) as [v|] eqn:Ev; [|reflexivity].
    exfalso. destruct (proj1 (Hspec v) eq_refl) as [Hv Hs].
    assert (v = ev) by congruence. subst v.
    destruct Hs as (o' & Ho' & Hs'); [eapply get_keys; exact Hget|].
    congruence.
Qed.

(** X9: the last contribution of a name to an enum decides whether the
    filter keeps the name.  Let [c] give the enum [e] a value, and let no
    contribution of [cs], which come after it, give [e] a value of the same
    name.  After the filter the name is bound, to the value that [c] made,
    exactly when [c] is the contribution of an extension of the set or of a
    feature block. *)
Theorem last_contribution_decides h types c h1 cs h2 e extension_set h3 e' :
  contribute h types c = Ok h1 ->
  contribute_all h1 types cs = Ok h2 ->
  (forall c', In c' cs -> ~ contributes types e (get (elem_of c) "name") c') ->
  Py.get types (get (elem_of c) "extends") = Some e ->
  __filter_type_by_extensions h2 e extension_set = Ok (h3, e') ->
  Py.get (values_of h3 e) (get (elem_of c) "name")
  = if kept_by extension_set c then Some (List.length h) else None.
Proof.
  intros Hc Hcs Hlast Ht Hf.
  apply contribute_store in Hc
    as (enum & eo & values & bm & bw & o & Ht' & He & Hk & Hno & Hx & ->).
  assert (enum = e) by congruence. subst enum.
  pose proof (lookup_lt _ _ _ He) as Hlt.
  assert (Hb : bound (write (h ++ [o])%list e
                        (with_kind eo (Enum (Py.set values (get (elem_of c) "name")
                                                   (List.length h)) bm bw)))
                     e (get (elem_of c) "name") (List.length h) o).
  { split.
    - unfold values_of.
      rewrite read_write_eq by (rewrite length_app; simpl; lia). simpl.
      rewrite get_set. case_decide; [reflexivity|contradiction].
    - rewrite read_write_ne by lia. apply list_lookup_middle. reflexivity. }
  pose proof (contribute_all_keeps _ _ _ _ _ _ _ _ Hcs Hlast Hno Hb) as Hb2.
  rewrite (bound_value_filtered _ _ _ _ _ _ _ _ Hb2 Hf).
  unfold survives, intersects. rewrite Hx.
  destruct c as [self number ee|ee]; simpl; [|reflexivity].
  rewrite orb_false_r. reflexivity.
Qed.

(** The extension 7 adds VK_ERROR_VALIDATION_FAILED_EXT to VkResult, the
    extension 8 adds VK_ERROR_OTHER_EXT, and then the extension 9 adds
    VK_ERROR_VALIDATION_FAILED_EXT once more. *)
Definition ex_other : Element :=
  enum_elem [("offset", "2"); ("extends", "VkResult");
             ("name", "VK_ERROR_OTHER_EXT")].

Definition ex_first_contribution : store :=
  Eval cbv in
    match contribute EnumFacts.ex_VkResult EnumFacts.ex_result_types
                     (ByExtension 7 12 EnumFacts.ex_extend) with
    | Ok h => h
    | _ => []
    end.

Definition ex_second_contribution : store :=
  Eval cbv in
    match contribute ex_first_contribution EnumFacts.ex_result_types
                     (ByExtension 8 13 ex_other) with
    | Ok h => h
    | _ => []
    end.

Definition ex_third_contribution : store :=
  Eval cbv in
    match contribute ex_second_contribution EnumFacts.ex_result_types
                     (ByExtension 9 14 EnumFacts.ex_extend) with
    | Ok h => h
    | _ => []
    end.

Definition ex_contributions_filtered : store :=
  Eval cbv in
    match __filter_type_by_extensions ex_third_contribution 1 [7%nat; 8%nat] with
    | Ok (h, _) => h
    | _ => []
    end.

Lemma last_contribution_decides_witness :
  contribute_all EnumFacts.ex_VkResult EnumFacts.ex_result_types
    [ByExtension 7 12 EnumFacts.ex_extend; ByExtension 8 13 ex_other;
     ByExtension 9 14 EnumFacts.ex_extend] = Ok ex_third_contribution
  /\ Py.get (values_of ex_contributions_filtered 1%nat) (get ex_other "name")
     = (if kept_by [7%nat; 8%nat] (ByExtension 8 13 ex_other)
        then Some (List.length ex_first_contribution) else None)
  /\ Py.get (values_of ex_contributions_filtered 1%nat)
            (get EnumFacts.ex_extend "name")
     = (if kept_by [7%nat; 8%nat] (ByExtension 9 14 EnumFacts.ex_extend)
        then Some (List.length ex_second_contribution) else None).
Proof.
  split; [reflexivity|]. split.
  - apply (last_contribution_decides ex_first_contribution
             EnumFacts.ex_result_types (ByExtension 8 13 ex_other)
             ex_second_contribution [ByExtension 9 14 EnumFacts.ex_extend]
             ex_third_contribution 1%nat [7%nat; 8%nat]
             ex_contributions_filtered 1%nat); try reflexivity.
    intros c' [<-|[]] [_ Hn]. discriminate Hn.
  - apply (last_contribution_decides ex_second_contribution
             EnumFacts.ex_result_types (ByExtension 9 14 EnumFacts.ex_extend)
             ex_third_contribution []
             ex_third_contribution 1%nat [7%nat; 8%nat]
             ex_contributions_filtered 1%nat); try reflexivity.
    intros c' [].
Defined.

(** The name that the extension 7 contributed first is gone although 7 is in
    the set: the extension 9, which is not, contributed it last. *)
Example recontributed_value_dropped :
  Py.get (values_of ex_contributions_filtered 1%nat)
         (Some "VK_ERROR_VALIDATION_FAILED_EXT") = None
  /\ Py.get (values_of ex_contributions_filtered 1%nat)
            (Some "VK_ERROR_OTHER_EXT") = Some 3%nat.
Proof. split; reflexivity. Qed.

(** X10: a value that a feature block adds to an enum bears no extension and
    stays in the value map of the filtered enum, whatever the set. *)
Theorem feature_value_kept h types ee h1 e extension_set h2 e' :
  feature_enum h types ee = Ok h1 ->
  Py.get types (get ee "extends") = Some e ->
  __filter_type_by_extensions h1 e extension_set = Ok (h2, e') ->
  Py.get (values_of h2 e) (get ee "name") = Some (List.length h).
Proof.
  unfold feature_enum. intros H Ht Hf.
  bind_step H as n En. bind_step H as [h' ev] Ep. injection H as <-.
  pose proof (EnumInitFacts.parse_enum_extend_store _ _ _ _ _ _ Ep)
    as (enum & eo & values & bm & bw & o1 & Ht' & He & Hk & Hev & _ & Hx & Hh').
  assert (enum = e) by congruence. subst enum.
  pose proof (lookup_lt _ _ _ He) as Hlt.
  assert (Ho : h' !! ev = Some o1).
  { rewrite Hh', read_write_ne by lia. subst ev.
    apply list_lookup_middle. reflexivity. }
  rewrite (extended_value_filtered _ _ _ _ _ _ _ _ _ _ _ Ep Ht eq_refl Hf _ Ho).
  unfold survives. rewrite Hx, Hev. reflexivity.
Qed.

Definition ex_feature_value : store :=
  Eval cbv in
    match feature_enum EnumFacts.ex_VkResult EnumFacts.ex_result_types
                       EnumFacts.ex_extend with
    | Ok h => h
    | _ => []
    end.

Definition ex_feature_value_filtered : store :=
  Eval cbv in
    match __filter_type_by_extensions ex_feature_value 1 [9%nat] with
    | Ok (h, _) => h
    | _ => []
    end.

Lemma feature_value_kept_witness :
  Py.get (values_of ex_feature_value_filtered 1%nat) (get EnumFacts.ex_extend "name")
  = Some (List.length EnumFacts.ex_VkResult).
Proof.
  apply (feature_value_kept EnumFacts.ex_VkResult EnumFacts.ex_result_types
           EnumFacts.ex_extend ex_feature_value 1%nat [9%nat]
           ex_feature_value_filtered 1%nat); reflexivity.
Defined.

End ContributionFacts.

(** ** Laws of the filter over the types *)

Module FilterLaws.

Import XML Catalog Registry DictFacts StoreFacts MirrorFacts.

Lemma sv_ext h h' extension_set :
  (forall a, extensions_of h' a = extensions_of h a) ->
  forall a, sv h' extension_set a = sv h extension_set a.
Proof. intros H a. unfold sv. rewrite H. reflexivity. Qed.

Lemma keeps_ext h h' extension_set core :
  (forall a, extensions_of h' a = extensions_of h a) ->
  forall a, keeps h' extension_set core a = keeps h extension_set core a.
Proof. intros H a. unfold keeps. rewrite H. reflexivity. Qed.

Lemma sv_true h extension_set a :
  sv h extension_set a = true ->
  exists o, h !! a = Some o /\ survives extension_set o = true.
Proof.
  unfold sv, extensions_of, survives.
  destruct (h !! a) as [o|]; simpl; [|discriminate].
  intros Hs. exists o. split; [reflexivity|].
  destruct (extensions o); exact Hs.
Qed.

Lemma keys_get {K V} `{EqDecision K} (d : Py.dict K V) k :
  In k (Py.keys d) -> exists v, Py.get d k = Some v.
Proof.
  intros Hin. destruct (Py.get d k) eqn:E; [eauto|].
  apply get_None_keys in E. contradiction.
Qed.

Lemma set_same {K V} `{EqDecision K} (d : Py.dict K V) k v :
  Py.get d k = Some v -> Py.set d k v = d.
Proof.
  induction d as [|[k' v'] d IH]; simpl; [discriminate|].
  case_decide; [congruence|]. intros Hg. rewrite IH by exact Hg. reflexivity.
Qed.

(** The filter of one type writes at that type alone. *)
Lemma filter_type_frame h t extension_set h' t' :
  __filter_type_by_extensions h t extension_set = Ok (h', t') ->
  forall a, a <> t -> h' !! a = h !! a.
Proof.
  unfold __filter_type_by_extensions. intros H a Ha.
  bind_step H as o Eo. destruct (kind o);
    repeat match type of H with
           | bind _ _ = Ok _ =>
               let x := fresh "x" in let E := fresh "E" in bind_step H as x E
           end;
    injection H as <- <-; try reflexivity; apply read_write_ne; congruence.
Qed.

(** *** What the loop keeps *)

Lemma filter_types_keeps extension_set core tnames : forall h types h' types',
  filter_types h extension_set core tnames types = Ok (h', types') ->
  forall k v, Py.get types k = Some v ->
    (In k tnames -> keeps h extension_set core v = true) ->
    Py.get types' k = Some v.
Proof.
  induction tnames as [|tname rest IH]; intros h types h' types' H k v Hg Hk;
    simpl in H.
  - injection H as <- <-. exact Hg.
  - bind_step H as t Et. apply or_raise_Ok_inv in Et.
    bind_step H as o Eo. apply CatalogFacts.read_Ok in Eo.
    destruct (stays extension_set core o) eqn:Es.
    + bind_step H as [h1 t'] Ef.
      pose proof (filter_type_spec _ _ _ _ _ Ef) as (-> & Hext & _ & _).
      eapply IH; [exact H| |].
      * rewrite get_set_same; assumption.
      * intros Hin. rewrite (keeps_ext _ _ _ _ Hext). apply Hk. right. exact Hin.
    + eapply IH; [exact H| |].
      * rewrite get_del. case_decide as E; [|exact Hg]. subst tname.
        exfalso. assert (v = t) by congruence. subst v.
        rewrite (keeps_read _ _ _ _ _ Eo) in Hk.
        rewrite Hk in Es; [discriminate|left; reflexivity].
      * intros Hin. apply Hk. right. exact Hin.
Qed.

(** *** Types on which the filter has nothing left to do *)

Definition settled_obj (h : store) (extension_set : list addr) (o : obj) : Prop :=
  match kind o with
  | Struct _ _ sx eb =>
      (exists l, sx = ByObject l
                 /\ Forall (fun a => sv h extension_set a = true) l)
      /\ Forall (fun a => sv h extension_set a = true) eb
  | Enum values _ _ =>
      forall en, In en (Py.keys values) ->
        exists v, Py.get values en = Some v /\ sv h extension_set v = true
  | _ => True
  end.

Definition settled (h : store) (extension_set : list addr) (t : addr) : Prop :=
  exists o, h !! t = Some o /\ settled_obj h extension_set o.

Lemma settled_obj_ext h h' extension_set o :
  (forall a, extensions_of h' a = extensions_of h a) ->
  settled_obj h extension_set o -> settled_obj h' extension_set o.
Proof.
  intros Hext. unfold settled_obj.
  destruct (kind o); auto.
  - intros Hv en Hin. destruct (Hv en Hin) as (v & Hg & Hs).
    exists v. rewrite (sv_ext _ _ _ Hext). auto.
  - intros [(l & -> & Hl) Heb]. split.
    + exists l. split; [reflexivity|].
      eapply Forall_impl; [exact Hl|]. intros a Ha.
      rewrite (sv_ext _ _ _ Hext). exact Ha.
    + eapply Forall_impl; [exact Heb|]. intros a Ha.
      rewrite (sv_ext _ _ _ Hext). exact Ha.
Qed.

Lemma filter_refs_fix h extension_set l :
  Forall (fun a => sv h extension_set a = true) l ->
  filter_refs h extension_set l = Ok l.
Proof.
  induction 1 as [|a l Ha _ IH]; simpl; [reflexivity|].
  apply sv_true in Ha as (o & Ho & Hs).
  rewrite (CatalogFacts.read_Some _ _ _ Ho). simpl. rewrite IH. simpl.
  rewrite Hs. reflexivity.
Qed.

Lemma filter_values_fix h extension_set values ens :
  (forall en, In en ens ->
     exists v, Py.get values en = Some v /\ sv h extension_set v = true) ->
  filter_values h extension_set ens values = Ok values.
Proof.
  induction ens as [|en ens IH]; intros Hall; simpl; [reflexivity|].
  destruct (Hall en (or_introl eq_refl)) as (v & Hg & Hs).
  apply sv_true in Hs as (o & Ho & Hs).
  unfold Py.getitem. rewrite Hg. simpl.
  rewrite (CatalogFacts.read_Some _ _ _ Ho). simpl. rewrite Hs.
  apply IH. intros en' Hin. apply Hall. right. exact Hin.
Qed.

Lemma with_kind_same o : with_kind o (kind o) = o.
Proof. destruct o. reflexivity. Qed.

Lemma settled_fix h extension_set t :
  settled h extension_set t ->
  __filter_type_by_extensions h t extension_set = Ok (h, t).
Proof.
  intros (o & Ho & Hs). unfold __filter_type_by_extensions.
  rewrite (CatalogFacts.read_Some _ _ _ Ho). simpl.
  unfold settled_obj in Hs.
  destruct (kind o) as [| | | | | |values bm bw| |u m sx eb|] eqn:Hk;
    try reflexivity.
  - rewrite filter_values_fix by exact Hs. simpl.
    rewrite <- Hk, with_kind_same. unfold write.
    replace (<[t:=o]> h) with h
      by (symmetry; apply list_insert_id; exact Ho).
    reflexivity.
  - destruct Hs as [(l & -> & Hl) Heb].
    rewrite (filter_refs_fix _ _ _ Heb). simpl.
    rewrite (filter_refs_fix _ _ _ Hl). simpl.
    rewrite <- Hk, with_kind_same. unfold write.
    replace (<[t:=o]> h) with h
      by (symmetry; apply list_insert_id; exact Ho).
    reflexivity.
Qed.

Lemma Forall_filter_sv h h' extension_set l :
  (forall a, extensions_of h' a = extensions_of h a) ->
  Forall (fun a => sv h' extension_set a = true)
         (List.filter (sv h extension_set) l).
Proof.
  intros Hext. apply List.Forall_forall. intros a Ha.
  apply filter_In in Ha as [_ Ha]. rewrite (sv_ext _ _ _ Hext). exact Ha.
Qed.

(** One call settles its type and unsettles no other. *)
Lemma filter_type_settles h t extension_set h' t' :
  __filter_type_by_extensions h t extension_set = Ok (h', t') ->
  settled h' extension_set t
  /\ forall u, settled h extension_set u -> settled h' extension_set u.
Proof.
  intros H.
  pose proof (filter_type_spec _ _ _ _ _ H) as (_ & Hext & _ & _).
  pose proof (filter_type_frame _ _ _ _ _ H) as Hframe.
  assert (Ht : settled h' extension_set t).
  { unfold __filter_type_by_extensions in H.
    bind_step H as o Eo. apply CatalogFacts.read_Ok in Eo.
    pose proof (lookup_lt _ _ _ Eo) as Hlt.
    destruct (kind o) as [| | | | | |values bm bw| |u m sx eb|] eqn:Hk.
    all: try (injection H as <- <-; exists o; split; [exact Eo|];
              unfold settled_obj; rewrite Hk; exact I).
    - bind_step H as values' Ev. injection H as <- <-.
      eexists. split; [apply read_write_eq, Hlt|].
      unfold settled_obj. simpl. intros en Hin.
      apply keys_get in Hin as [v Hv]. exists v. split; [exact Hv|].
      apply (FilterFacts.filter_values_spec _ _ _ _ _ Ev) in Hv as [Hv Hs].
      destruct Hs as (ov & Hov & Hsv); [eapply get_keys; exact Hv|].
      rewrite (sv_ext _ _ _ Hext). rewrite (sv_read _ _ _ _ Hov). exact Hsv.
    - bind_step H as eb' Eeb. bind_step H as sx' Esx. injection H as <- <-.
      eexists. split; [apply read_write_eq, Hlt|].
      unfold settled_obj. simpl.
      apply filter_refs_spec in Eeb. subst eb'. split.
      + exists sx'. split; [reflexivity|].
        destruct sx as [[|? ?]|objs]; try discriminate.
        * injection Esx as <-. constructor.
        * apply filter_refs_spec in Esx. subst sx'.
          apply Forall_filter_sv, Hext.
      + apply Forall_filter_sv, Hext. }
  split; [exact Ht|].
  intros u (o & Ho & Hs). destruct (decide (u = t)) as [->|Hne]; [exact Ht|].
  exists o. rewrite Hframe by exact Hne. split; [exact Ho|].
  eapply settled_obj_ext; eauto.
Qed.

Lemma filter_types_settles extension_set core tnames : forall h types h' types',
  filter_types h extension_set core tnames types = Ok (h', types') ->
  (forall a, extensions_of h' a = extensions_of h a)
  /\ (forall u, settled h extension_set u -> settled h' extension_set u)
  /\ forall k v, Py.get types' k = Some v ->
       Py.get types k = Some v
       /\ (In k tnames ->
           settled h' extension_set v /\ keeps h extension_set core v = true).
Proof.
  induction tnames as [|tname rest IH]; intros h types h' types' H; simpl in H.
  - injection H as <- <-. repeat split; auto; contradiction.
  - bind_step H as t Et. apply or_raise_Ok_inv in Et.
    bind_step H as o Eo. apply CatalogFacts.read_Ok in Eo.
    destruct (stays extension_set core o) eqn:Es.
    + bind_step H as [h1 t'] Ef.
      pose proof (filter_type_spec _ _ _ _ _ Ef) as (-> & Hext & _ & _).
      pose proof (filter_type_settles _ _ _ _ _ Ef) as [Hst Hpres].
      apply IH in H as (Hext' & Hpres' & Hget).
      split; [intros a; rewrite Hext'; apply Hext|].
      split; [auto|].
      intros k v Hg. destruct (Hget k v Hg) as [Hg1 Hin1].
      rewrite get_set in Hg1. case_decide as E.
      * subst k. injection Hg1 as <-. split; [exact Et|]. intros _.
        split; [apply Hpres', Hst|].
        rewrite (keeps_read _ _ _ _ _ Eo). exact Es.
      * split; [exact Hg1|]. intros [Heq|Hin]; [contradiction|].
        destruct (Hin1 Hin) as [Hs Hk]. split; [exact Hs|].
        rewrite <- (keeps_ext _ _ _ _ Hext). exact Hk.
    + apply IH in H as (Hext' & Hpres' & Hget).
      split; [exact Hext'|]. split; [exact Hpres'|].
      intros k v Hg. destruct (Hget k v Hg) as [Hg1 Hin1].
      rewrite get_del in Hg1. case_decide as E; [discriminate|].
      split; [exact Hg1|]. intros [Heq|Hin]; [contradiction|auto].
Qed.

Lemma filter_types_fix extension_set core tnames : forall h types,
  (forall k, In k tnames ->
     exists v, Py.get types k = Some v /\ settled h extension_set v
               /\ keeps h extension_set core v = true) ->
  filter_types h extension_set core tnames types = Ok (h, types).
Proof.
  induction tnames as [|tname rest IH]; intros h types Hall; simpl;
    [reflexivity|].
  destruct (Hall tname (or_introl eq_refl)) as (v & Hg & Hs & Hk).
  unfold Py.getitem. rewrite Hg. simpl.
  pose proof Hs as (o & Ho & _).
  rewrite (CatalogFacts.read_Some _ _ _ Ho). simpl.
  rewrite <- (keeps_read _ _ _ _ _ Ho), Hk.
  rewrite (settled_fix _ _ _ Hs). simpl.
  rewrite (set_same _ _ _ Hg). apply IH.
  intros k Hin. apply Hall. right. exact Hin.
Qed.

(** X11: after the loop of [__filter_registry] over the types a name is
    bound exactly when it was bound before to a type that the filter keeps,
    and it is bound to that same type: a type with extensions is kept when
    one of them is in the set, a type without when the core is wanted. *)
Theorem filter_registry_lookup h types filtered_set core h' types' :
  __filter_registry_types h types filtered_set core = Ok (h', types') ->
  forall k v,
    Py.get types' k = Some v
    <-> Py.get types k = Some v /\ keeps h filtered_set core v = true.
Proof.
  unfold __filter_registry_types. intros H k v. split.
  - intros Hg. apply filter_types_settles in H as (_ & _ & Hget).
    destruct (Hget k v Hg) as [Hg0 Hin]. split; [exact Hg0|].
    apply Hin. eapply get_keys. exact Hg0.
  - intros [Hg Hk]. eapply filter_types_keeps; eauto.
Qed.

Lemma filter_registry_lookup_witness :
  __filter_registry_types ex_tagged_structs ex_struct_types [6%nat] true
    = Ok (ex_filtered_structs, ex_filtered_types)
  /\ forall k v,
       Py.get ex_filtered_types k = Some v
       <-> Py.get ex_struct_types k = Some v
           /\ keeps ex_tagged_structs [6%nat] true v = true.
Proof.
  split; [reflexivity|].
  apply (filter_registry_lookup ex_tagged_structs ex_struct_types [6%nat] true
           ex_filtered_structs ex_filtered_types).
  reflexivity.
Defined.

(** X12: the filter over the types is idempotent: run again with the same
    set on what it left, it changes neither a type nor the names. *)
Theorem filter_registry_idempotent h types filtered_set core h' types' :
  __filter_registry_types h types filtered_set core = Ok (h', types') ->
  __filter_registry_types h' types' filtered_set core = Ok (h', types').
Proof.
  unfold __filter_registry_types. intros H.
  apply filter_types_settles in H as (Hext & _ & Hget).
  apply filter_types_fix. intros k Hin.
  apply keys_get in Hin as [v Hv]. exists v. split; [exact Hv|].
  destruct (Hget k v Hv) as [Hg0 Hk].
  destruct Hk as [Hs Hk]; [eapply get_keys; exact Hg0|].
  split; [exact Hs|]. rewrite (keeps_ext _ _ _ _ Hext). exact Hk.
Qed.

Lemma filter_registry_idempotent_witness :
  __filter_registry_types ex_filtered_structs ex_filtered_types [6%nat] true
  = Ok (ex_filtered_structs, ex_filtered_types).
Proof.
  apply (filter_registry_idempotent ex_tagged_structs ex_struct_types [6%nat] true).
  reflexivity.
Defined.

(** *** No struct twice in [extendedby] *)

Definition distinct_links (h : store) : Prop :=
  forall T, List.NoDup (extendedby_of h T).

Lemma link_extends_distinct types t names : forall h h',
  link_extends h types t names = Ok h' ->
  distinct_links h -> distinct_links h'.
Proof.
  induction names as [|se names IH]; intros h h' H Hd; simpl in H.
  - injection H as <-. exact Hd.
  - bind_step H as et Eet. bind_step H as eo Eeo.
    apply CatalogFacts.read_Ok in Eeo.
    destruct (kind eo) as [| | | | | | | |u m sx eb|] eqn:Hk; try discriminate.
    eapply IH; [exact H|].
    destruct (existsb (Nat.eqb t) eb) eqn:Ex; [exact Hd|].
    intros T. rewrite extendedby_of_write by (eapply lookup_lt; eauto).
    case_decide as E; [|apply Hd]. unfold extendedby_obj. simpl.
    pose proof (Hd et) as Hnd. unfold extendedby_of in Hnd.
    rewrite Eeo in Hnd. unfold extendedby_obj in Hnd. rewrite Hk in Hnd.
    apply List.NoDup_app; [exact Hnd|repeat constructor; simpl; tauto|].
    intros x Hx [<-|[]]. apply existsb_eqb_In in Hx. congruence.
Qed.

Lemma convert_extends_distinct h types t h' :
  convert_extends h types t = Ok h' ->
  distinct_links h -> distinct_links h'.
Proof.
  unfold convert_extends. intros H Hd.
  bind_step H as o Eo.
  destruct (kind o) as [| | | | | | | |u m sx eb|]; try (injection H as <-; exact Hd).
  destruct sx as [names|[|? ?]]; [|injection H as <-; exact Hd|discriminate].
  bind_step H as h1 El. bind_step H as objs Eobjs. bind_step H as o1 Eo1.
  apply CatalogFacts.read_Ok in Eo1.
  destruct (kind o1) as [| | | | | | | |u1 m1 sx1 eb1|] eqn:Hk1; try discriminate.
  injection H as <-.
  apply link_extends_distinct in El; [|exact Hd].
  intros T. rewrite extendedby_of_write by (eapply lookup_lt; eauto).
  case_decide as E; [|apply El]. subst T.
  pose proof (El t) as Hnd. unfold extendedby_of in Hnd.
  rewrite Eo1 in Hnd. unfold extendedby_obj in *. rewrite Hk1 in Hnd.
  exact Hnd.
Qed.

(** X13: after the struct extends have been converted no struct is twice in
    the [extendedby] of another, however often its [structextends] names
    that struct, directly or through names bound to the same object. *)
Theorem extendedby_distinct h types h1 :
  fresh_structs h ->
  __parse_types_extends h types = Ok h1 ->
  forall T, List.NoDup (extendedby_of h1 T).
Proof.
  unfold __parse_types_extends. intros Hfresh H.
  assert (Hd : distinct_links h).
  { intros T. unfold extendedby_of, extendedby_obj.
    destruct (h !! T) as [o|] eqn:Ho; [|constructor].
    destruct (kind o) eqn:Hk; try constructor.
    destruct (Hfresh _ _ _ _ _ _ Ho Hk) as [-> _]. constructor. }
  clear Hfresh. revert h H Hd.
  induction (Py.values types) as [|t ts IH]; intros h H Hd; simpl in H.
  - injection H as <-. exact Hd.
  - bind_step H as h2 Ec. apply convert_extends_distinct in Ec; [|exact Hd].
    eapply IH; eauto.
Qed.

(** A struct that names the struct it extends twice. *)
Definition ex_twice : store :=
  [ new_struct "VkDeviceCreateInfo" [] [];
    new_struct "VkPhysicalDeviceFeatures2" []
               ["VkDeviceCreateInfo"; "VkDeviceCreateInfo"] ].

Definition ex_twice_types : Py.dict Py.key addr :=
  [ (Some "VkDeviceCreateInfo", 0%nat); (Some "VkPhysicalDeviceFeatures2", 1%nat) ].

Definition ex_twice_linked : store :=
  [ linked_struct "VkDeviceCreateInfo" [] [] [1%nat];
    linked_struct "VkPhysicalDeviceFeatures2" [] [0%nat; 0%nat] [] ].

Lemma extendedby_distinct_witness :
  List.NoDup (extendedby_of ex_twice_linked 0%nat).
Proof.
  apply (extendedby_distinct ex_twice ex_twice_types ex_twice_linked).
  - intros a o u m sx eb Ho Hk.
    destruct a as [|[|a]]; simpl in Ho; try discriminate;
      injection Ho as <-; injection Hk as <- <- <- <-; eauto.
  - reflexivity.
Defined.

End FilterLaws.

(** ** The filter over the commands and the extensions *)

Module SelectionFacts.

Import XML Catalog Registry DictFacts StoreFacts Extensions.

(** *** Comprehensions over a map *)

Lemma comprehension_get_acc {V} (keep : Py.key -> V -> bool) items : forall acc k,
  List.NoDup (Py.keys items) ->
  (forall k', In k' (Py.keys items) -> Py.get acc k' = None) ->
  Py.get (comprehension keep items acc) k
  = match Py.get acc k with
    | Some v => Some v
    | None =>
        match Py.get items k with
        | Some v => if keep k v then Some v else None
        | None => None
        end
    end.
Proof.
  induction items as [|[k0 v0] items IH]; intros acc k Hnd Hacc; simpl.
  - destruct (Py.get acc k); reflexivity.
  - simpl in Hnd. inversion Hnd as [|? ? Hfresh Hnd']; subst.
    rewrite IH; [|exact Hnd'|].
    + pose proof (Hacc k0 (or_introl eq_refl)) as Hk0.
      destruct (keep k0 v0) eqn:Ek.
      * rewrite get_set. case_decide as E.
        -- subst k0. rewrite Hk0, Ek. reflexivity.
        -- destruct (Py.get acc k); reflexivity.
      * case_decide as E; [|reflexivity]. subst k0. rewrite Hk0, Ek.
        destruct (Py.get items k) eqn:Eg; [|reflexivity].
        apply get_keys in Eg. contradiction.
    + intros k' Hin. destruct (keep k0 v0).
      * rewrite get_set. case_decide as E; [subst; contradiction|].
        apply Hacc. right. exact Hin.
      * apply Hacc. right. exact Hin.
Qed.

Lemma comprehension_lookup {V} (keep : Py.key -> V -> bool) d k :
  List.NoDup (Py.keys d) ->
  Py.get (comprehension keep d []) k
  = match Py.get d k with
    | Some v => if keep k v then Some v else None
    | None => None
    end.
Proof. intros Hnd. rewrite comprehension_get_acc; auto. Qed.

Lemma mem_In x s : mem x s = true <-> In x s.
Proof.
  unfold mem. rewrite existsb_exists. split.
  - intros (y & Hy & E). apply Nat.eqb_eq in E. congruence.
  - intros Hin. exists x. split; [exact Hin|apply Nat.eqb_refl].
Qed.

Lemma intersects_spec s l :
  intersects s l = true <-> exists x, In x l /\ In x s.
Proof.
  unfold intersects. rewrite existsb_exists. split.
  - intros (x & Hx & E). exists x. split; [exact Hx|].
    apply mem_In. exact E.
  - intros (x & Hx & Hs). exists x. split; [exact Hx|].
    apply (proj2 (mem_In x s)). exact Hs.
Qed.

Lemma filtered_set_In x filtered_ex allowed blocked :
  In x (filtered_set filtered_ex allowed blocked)
  <-> (In x filtered_ex \/ In x allowed) /\ ~ In x blocked.
Proof.
  unfold filtered_set. rewrite filter_In, in_app_iff, negb_true_iff.
  pose proof (mem_In x blocked) as Hb.
  destruct (mem x blocked).
  - split; [intros [_ ?]; discriminate|].
    intros [_ Hn]. exfalso. apply Hn, Hb. reflexivity.
  - split; [|intros [H _]; auto].
    intros [H _]. split; [exact H|]. intros Hin. apply Hb in Hin. discriminate.
Qed.

Lemma select_extensions_spec he platforms authors supported_ xs : forall l,
  select_extensions he xs platforms authors supported_ = Ok l ->
  forall x, In x l
            <-> In x xs
                /\ exists ext, he !! x = Some ext
                               /\ selected platforms authors supported_ ext = true.
Proof.
  induction xs as [|a xs IH]; intros l H x; simpl in H.
  - injection H as <-. simpl. tauto.
  - bind_step H as ext Ea. apply or_raise_Ok_inv in Ea.
    bind_step H as l' El. injection H as <-.
    specialize (IH _ eq_refl x).
    destruct (selected platforms authors supported_ ext) eqn:Es; simpl;
      rewrite IH; split.
    + intros [<-|[Hin Hx]]; [eauto|auto].
    + intros [[<-|Hin] Hx]; auto.
    + intros [Hin Hx]. auto.
    + intros [[<-|Hin] (ext' & He & Hs)]; [congruence|eauto].
Qed.

(** *** The commands *)

Definition command_kept (hc : Commands.cstore) (extension_set : list addr)
    (core : bool) (c : addr) : Prop :=
  exists cmd, hc !! c = Some cmd /\ command_stays extension_set core cmd = true.

Lemma filter_commands_spec hc extension_set core tnames : forall commands commands',
  filter_commands hc extension_set core tnames commands = Ok commands' ->
  forall k c,
    Py.get commands' k = Some c
    <-> Py.get commands k = Some c
        /\ (In k tnames -> command_kept hc extension_set core c).
Proof.
  induction tnames as [|tname rest IH]; intros commands commands' H k c;
    simpl in H.
  - injection H as <-.
    split; [intros Hg; split; [exact Hg|intros []]|intros [Hg _]; exact Hg].
  - bind_step H as t Et. apply or_raise_Ok_inv in Et.
    bind_step H as cmd Ec. apply or_raise_Ok_inv in Ec.
    destruct (command_stays extension_set core cmd) eqn:Es;
      rewrite (IH _ _ H k c); clear IH H.
    + rewrite (get_set_same _ _ _ _ Et). split.
      * intros [Hg Hin]. split; [exact Hg|]. intros [<-|Hr]; [|auto].
        assert (c = t) by congruence. subst c. exists cmd. auto.
      * intros [Hg Hin]. split; [exact Hg|].
        intros Hr. apply Hin. right. exact Hr.
    + rewrite get_del. case_decide as E.
      * subst tname. split; [intros [Hg _]; discriminate|].
        intros [Hg Hin]. exfalso.
        destruct (Hin (or_introl eq_refl)) as (cmd' & Hc' & Hs').
        assert (c = t) by congruence. subst c. congruence.
      * split.
        -- intros [Hg Hin]. split; [exact Hg|]. intros [Heq|Hr]; [contradiction|auto].
        -- intros [Hg Hin]. split; [exact Hg|].
           intros Hr. apply Hin. right. exact Hr.
Qed.

(** X14: after the loop of [__filter_registry] over the commands a name is
    bound exactly when it was bound before to a command that the filter
    keeps, and to that same command; so two names of one command, an alias
    and the name it aliases, stay or go together. *)
Theorem commands_filtered_together hc commands extension_set core commands' :
  __filter_registry_commands hc commands extension_set core = Ok commands' ->
  (forall k c,
     Py.get commands' k = Some c
     <-> Py.get commands k = Some c /\ command_kept hc extension_set core c)
  /\ (forall k1 k2 c,
        Py.get commands k1 = Some c -> Py.get commands k2 = Some c ->
        (Py.get commands' k1 = Some c <-> Py.get commands' k2 = Some c)).
Proof.
  unfold __filter_registry_commands. intros H.
  assert (Hl : forall k c,
             Py.get commands' k = Some c
             <-> Py.get commands k = Some c
                 /\ command_kept hc extension_set core c).
  { intros k c. rewrite (filter_commands_spec _ _ _ _ _ _ H k c). split.
    - intros [Hg Hin]. split; [exact Hg|]. apply Hin. eapply get_keys. exact Hg.
    - intros [Hg Hk]. auto. }
  split; [exact Hl|].
  intros k1 k2 c H1 H2. rewrite !Hl. tauto.
Qed.

(** vkResetQueryPool, of the extension at 3, under its name and under the
    name of its alias. *)
Definition ex_tagged_command : Commands.Command :=
  Commands.mkCommand (Some "vkResetQueryPool") 0%nat [] [] [3%nat] None
    CommandFacts.ex_vkResetQueryPool (Some false).

Definition ex_command_names : Py.dict Py.key addr :=
  [(Some "vkResetQueryPool", 0%nat); (Some "vkResetQueryPoolEXT", 0%nat)].

Lemma commands_filtered_together_witness :
  (forall k c,
     Py.get [] k = Some c
     <-> Py.get ex_command_names k = Some c
         /\ command_kept [ex_tagged_command] [5%nat] true c)
  /\ (forall k1 k2 c,
        Py.get ex_command_names k1 = Some c ->
        Py.get ex_command_names k2 = Some c ->
        (Py.get (V := addr) [] k1 = Some c <-> Py.get (V := addr) [] k2 = Some c)).
Proof.
  apply (commands_filtered_together [ex_tagged_command] ex_command_names
           [5%nat] true []).
  reflexivity.
Defined.

(** *** The extensions *)

Lemma filter_registry_inv r platforms authors supported_ allowed blocked r' :
  __filter_registry r platforms authors supported_ allowed blocked = Ok r' ->
  exists filtered_ex,
    __select_extensions (exts r) (r_extensions r) platforms authors supported_
      = Ok filtered_ex
    /\ r_extensions r'
       = comprehension (fun _ v => mem v (filtered_set filtered_ex allowed blocked))
                       (r_extensions r) []
    /\ __filter_registry_types (objs r) (r_types r)
         (filtered_set filtered_ex allowed blocked) (wants_core authors)
       = Ok (objs r', r_types r')
    /\ __filter_registry_commands (cmds r) (r_commands r)
         (filtered_set filtered_ex allowed blocked) (wants_core authors)
       = Ok (r_commands r')
    /\ cmds r' = cmds r /\ exts r' = exts r.
Proof.
  unfold __filter_registry. intros H.
  bind_step H as filtered_ex Es. bind_step H as [h types] Et.
  bind_step H as commands Ec. injection H as <-. simpl.
  exists filtered_ex. auto 10.
Qed.

(** X15: after [__filter_registry] a name is bound to an extension exactly
    when it was bound to it before, the extension is not blocked, and it is
    allowed or passes the test on the platform, the support and the
    author.  A blocked extension goes even when it is allowed. *)
Theorem extensions_filtered r platforms authors supported_ allowed blocked r' k x :
  __filter_registry r platforms authors supported_ allowed blocked = Ok r' ->
  List.NoDup (Py.keys (r_extensions r)) ->
  Py.get (r_extensions r') k = Some x
  <-> Py.get (r_extensions r) k = Some x
      /\ ~ In x blocked
      /\ (In x allowed
          \/ exists ext, exts r !! x = Some ext
                         /\ selected platforms authors supported_ ext = true).
Proof.
  intros H Hnd.
  apply filter_registry_inv in H as (fx & Hs & -> & _).
  rewrite comprehension_lookup by exact Hnd.
  pose proof (select_extensions_spec _ _ _ _ _ _ Hs x) as Hsel.
  pose proof (filtered_set_In x fx allowed blocked) as Hset.
  rewrite <- mem_In in Hset.
  destruct (Py.get (r_extensions r) k) as [v|] eqn:Eg.
  - destruct (mem v (filtered_set fx allowed blocked)) eqn:Em; split.
    + intros [= ->]. split; [reflexivity|].
      destruct (proj1 Hset Em) as [[Hin|Hin] Hb]; split; auto.
      right. apply Hsel in Hin as [_ Hx]. exact Hx.
    + intros [Hv _]. exact Hv.
    + discriminate.
    + intros ([= ->] & Hb & Ha). exfalso.
      assert (Hm : mem x (filtered_set fx allowed blocked) = true); [|congruence].
      apply Hset. split; [|exact Hb].
      destruct Ha as [Ha|Hx]; [right; exact Ha|left].
      apply Hsel. split; [|exact Hx].
      unfold Py.values. apply in_map_iff. exists (k, x).
      split; [reflexivity|]. apply get_In. exact Eg.
  - split; [discriminate|]. intros [Hv _]. discriminate.
Qed.

(** A registry of two extensions, VK_KHR_swapchain and
    VK_KHR_win32_surface, with a struct and a command of each, a type and a
    command of the core, and the platform win32. *)
Definition extension_elem (n num : string) (attrs : Py.dict string string) : Element :=
  mkElement "extension" (("name", n) :: ("number", num) :: attrs) None [] None.

Definition extension (n : string) (num : Z) (a p : string)
    (ts cs : list Py.key) (e : Element) : Extension :=
  mkExtension (Some n) num "device" a "vulkan" "" "" p [] [] None None ts cs e.

Definition ex_swapchain : Extension :=
  extension "VK_KHR_swapchain" 2 "KHR" ""
    [Some "VkSwapchainCreateInfoKHR"] [Some "vkCreateSwapchainKHR"]
    (extension_elem "VK_KHR_swapchain" "2" [("author", "KHR"); ("supported", "vulkan")]).

Definition ex_win32_surface : Extension :=
  extension "VK_KHR_win32_surface" 10 "KHR" "win32"
    [Some "VkWin32SurfaceCreateInfoKHR"] [Some "vkCreateWin32SurfaceKHR"]
    (extension_elem "VK_KHR_win32_surface" "10"
       [("author", "KHR"); ("platform", "win32"); ("supported", "vulkan")]).

Definition ex_command (n : string) (exts : list addr) : Commands.Command :=
  Commands.mkCommand (Some n) 1%nat [] [] exts None
    (Commands.command [] "VkResult" n []) (Some false).

Definition ex_reg : registry :=
  {| objs := [ mkObj (Some "VkSwapchainCreateInfoKHR") [0%nat] None
                     (Struct false [] (ByObject []) []);
               mkObj (Some "VkResult") [] None (Enum [] false 32);
               mkObj (Some "VkWin32SurfaceCreateInfoKHR") [1%nat] None
                     (Struct false [] (ByObject []) []) ];
     cmds := [ ex_command "vkCreateSwapchainKHR" [0%nat];
               ex_command "vkCreateInstance" [];
               ex_command "vkCreateWin32SurfaceKHR" [1%nat] ];
     exts := [ex_swapchain; ex_win32_surface];
     r_types := [ (Some "VkSwapchainCreateInfoKHR", 0%nat);
                  (Some "VkResult", 1%nat);
                  (Some "VkWin32SurfaceCreateInfoKHR", 2%nat) ];
     r_commands := [ (Some "vkCreateSwapchainKHR", 0%nat);
                     (Some "vkCreateInstance", 1%nat);
                     (Some "vkCreateWin32SurfaceKHR", 2%nat) ];
     r_extensions := [ (Some "VK_KHR_swapchain", 0%nat);
                       (Some "VK_KHR_win32_surface", 1%nat) ];
     r_platforms := [(Some "", None)] |}.

Definition ex_authors : option (list string) := Some [""; "KHR"; "EXT"].

(** [ex_reg] filtered for the platform without name. *)
Definition ex_reg_filtered : registry :=
  Eval cbv in
    match __filter_registry ex_reg [""] ex_authors "vulkan" [] [] with
    | Ok r => r
    | _ => ex_reg
    end.

Lemma extensions_filtered_witness :
  Py.get (r_extensions ex_reg_filtered) (Some "VK_KHR_swapchain") = Some 0%nat
  <-> Py.get (r_extensions ex_reg) (Some "VK_KHR_swapchain") = Some 0%nat
      /\ ~ In 0%nat []
      /\ (In 0%nat []
          \/ exists ext, exts ex_reg !! 0%nat = Some ext
                         /\ selected [""] ex_authors "vulkan" ext = true).
Proof.
  apply (extensions_filtered ex_reg [""] ex_authors "vulkan" [] [] ex_reg_filtered
           (Some "VK_KHR_swapchain") 0%nat).
  - reflexivity.
  - simpl. repeat constructor; simpl; intuition discriminate.
Defined.

(** *** The types and the commands, by the choice of the extensions *)

(** The extension at [x] is in the set of the filter. *)
Definition chosen (r : registry) (platforms : list string)
    (authors : option (list string)) (supported_ : string)
    (allowed blocked : list addr) (x : addr) : Prop :=
  ~ In x blocked
  /\ (In x allowed
      \/ (In x (Py.values (r_extensions r))
          /\ exists ext, exts r !! x = Some ext
                         /\ selected platforms authors supported_ ext = true)).

(** What bears the extensions [l] passes the filter. *)
Definition passes (r : registry) (platforms : list string)
    (authors : option (list string)) (supported_ : string)
    (allowed blocked : list addr) (l : list addr) : Prop :=
  match l with
  | [] => wants_core authors = true
  | _ => exists x, In x l /\ chosen r platforms authors supported_ allowed blocked x
  end.

Lemma chosen_set r platforms authors supported_ allowed blocked fx x :
  __select_extensions (exts r) (r_extensions r) platforms authors supported_ = Ok fx ->
  In x (filtered_set fx allowed blocked)
  <-> chosen r platforms authors supported_ allowed blocked x.
Proof.
  intros Hs. rewrite filtered_set_In. unfold chosen.
  rewrite (select_extensions_spec _ _ _ _ _ _ Hs x). tauto.
Qed.

Lemma passes_set r platforms authors supported_ allowed blocked fx l :
  __select_extensions (exts r) (r_extensions r) platforms authors supported_ = Ok fx ->
  match l with
  | [] => wants_core authors
  | _ => intersects (filtered_set fx allowed blocked) l
  end = true
  <-> passes r platforms authors supported_ allowed blocked l.
Proof.
  intros Hs. unfold passes. destruct l as [|y l]; [reflexivity|].
  rewrite intersects_spec. split; intros (x & Hx & Hc); exists x;
    (split; [exact Hx|]); apply (chosen_set _ _ _ _ _ _ _ _ Hs); exact Hc.
Qed.

(** X16: after [__filter_registry] a name is bound to a type (to a command)
    exactly when it was bound to it before and the type passes: it bears no
    extension and the authors are None or include the empty one, or it
    bears an extension that is not blocked and is allowed or is registered
    and passes the test on the platform, the support and the author. *)
Theorem registry_filtered r platforms authors supported_ allowed blocked r' :
  __filter_registry r platforms authors supported_ allowed blocked = Ok r' ->
  (forall k t,
     Py.get (r_types r') k = Some t
     <-> Py.get (r_types r) k = Some t
         /\ exists o, objs r !! t = Some o
              /\ passes r platforms authors supported_ allowed blocked
                        (Catalog.extensions o))
  /\ (forall k c,
        Py.get (r_commands r') k = Some c
        <-> Py.get (r_commands r) k = Some c
            /\ exists cmd, cmds r !! c = Some cmd
                 /\ passes r platforms authors supported_ allowed blocked
                           (Commands.extensions cmd)).
Proof.
  intros H. apply filter_registry_inv in H as (fx & Hs & _ & Ht & Hc & _ & _).
  split.
  - intros k t. unfold __filter_registry_types in Ht. split.
    + intros Hg. apply FilterLaws.filter_types_settles in Ht as (_ & _ & Hget).
      destruct (Hget k t Hg) as [Hg0 Hin]. split; [exact Hg0|].
      destruct Hin as [_ Hk]; [eapply get_keys; exact Hg0|].
      unfold MirrorFacts.keeps, extensions_of in Hk.
      destruct (objs r !! t) as [o|]; [|discriminate].
      exists o. split; [reflexivity|].
      apply (passes_set _ _ _ _ _ _ _ _ Hs). exact Hk.
    + intros (Hg & o & Ho & Hp).
      eapply FilterLaws.filter_types_keeps; [exact Ht|exact Hg|].
      intros _. unfold MirrorFacts.keeps, extensions_of. rewrite Ho.
      apply (passes_set _ _ _ _ _ _ _ _ Hs). exact Hp.
  - intros k c. unfold __filter_registry_commands in Hc.
    rewrite (filter_commands_spec _ _ _ _ _ _ Hc k c). split.
    + intros [Hg Hin]. split; [exact Hg|].
      destruct Hin as (cmd & Hcmd & Hst); [eapply get_keys; exact Hg|].
      exists cmd. split; [exact Hcmd|].
      apply (passes_set _ _ _ _ _ _ _ _ Hs).
      unfold command_stays in Hst.
      destruct (Commands.extensions cmd); exact Hst.
    + intros (Hg & cmd & Hcmd & Hp). split; [exact Hg|]. intros _.
      exists cmd. split; [exact Hcmd|].
      apply (passes_set _ _ _ _ _ _ _ _ Hs) in Hp.
      unfold command_stays.
      destruct (Commands.extensions cmd); exact Hp.
Qed.

Lemma registry_filtered_witness :
  (forall k t,
     Py.get (r_types ex_reg_filtered) k = Some t
     <-> Py.get (r_types ex_reg) k = Some t
         /\ exists o, objs ex_reg !! t = Some o
              /\ passes ex_reg [""] ex_authors "vulkan" [] [] (Catalog.extensions o))
  /\ (forall k c,
        Py.get (r_commands ex_reg_filtered) k = Some c
        <-> Py.get (r_commands ex_reg) k = Some c
            /\ exists cmd, cmds ex_reg !! c = Some cmd
                 /\ passes ex_reg [""] ex_authors "vulkan" [] []
                           (Commands.extensions cmd)).
Proof.
  apply (registry_filtered ex_reg [""] ex_authors "vulkan" [] [] ex_reg_filtered).
  reflexivity.
Defined.

Example ex_reg_filtered_names :
  Py.keys (r_types ex_reg_filtered)
    = [Some "VkSwapchainCreateInfoKHR"; Some "VkResult"]
  /\ Py.keys (r_commands ex_reg_filtered)
     = [Some "vkCreateSwapchainKHR"; Some "vkCreateInstance"]
  /\ Py.keys (r_extensions ex_reg_filtered) = [Some "VK_KHR_swapchain"].
Proof. repeat split. Qed.

End SelectionFacts.

(** ** The extensions and what they tag *)

Module ExtensionFacts.

Import XML Catalog Enums Registry DictFacts StoreFacts Extensions.

(** From [h] to [h'] the objects keep their names, and their lists of
    extensions grow at the end, by addresses below [n]. *)
Definition grows (n : nat) (h h' : store) : Prop :=
  forall a o, h !! a = Some o ->
    exists o', h' !! a = Some o' /\ Catalog.name o' = Catalog.name o
      /\ exists l, Catalog.extensions o' = (Catalog.extensions o ++ l)%list
                   /\ Forall (fun x => (x < n)%nat) l.

Lemma grows_refl n h : grows n h h.
Proof.
  intros a o Ho. exists o. split; [exact Ho|]. split; [reflexivity|].
  exists []. rewrite app_nil_r. split; [reflexivity|constructor].
Qed.

Lemma grows_trans n h1 h2 h3 : grows n h1 h2 -> grows n h2 h3 -> grows n h1 h3.
Proof.
  intros H12 H23 a o Ho.
  destruct (H12 a o Ho) as (o2 & Ho2 & Hn2 & l2 & Hl2 & Hf2).
  destruct (H23 a o2 Ho2) as (o3 & Ho3 & Hn3 & l3 & Hl3 & Hf3).
  exists o3. split; [exact Ho3|]. split; [congruence|].
  exists (l2 ++ l3)%list. split.
  - rewrite Hl3, Hl2, app_assoc. reflexivity.
  - apply Forall_app. auto.
Qed.

Lemma grows_le n m h h' : (n <= m)%nat -> grows n h h' -> grows m h h'.
Proof.
  intros Hle Hg a o Ho. destruct (Hg a o Ho) as (o' & Ho' & Hn & l & Hl & Hf).
  exists o'. split; [exact Ho'|]. split; [exact Hn|]. exists l.
  split; [exact Hl|]. eapply Forall_impl; [exact Hf|]. simpl. intros x Hx. lia.
Qed.

(** One object rewritten with the same name and some more extensions. *)
Lemma grows_write n h a o o' l :
  h !! a = Some o ->
  Catalog.name o' = Catalog.name o ->
  Catalog.extensions o' = (Catalog.extensions o ++ l)%list ->
  Forall (fun x => (x < n)%nat) l ->
  grows n h (write h a o').
Proof.
  intros Ho Hn Hl Hf b ob Hb.
  rewrite read_write by (eapply lookup_lt; eauto). case_decide as E.
  - subst b. assert (ob = o) by congruence. subst ob.
    exists o'. split; [reflexivity|]. split; [exact Hn|]. eauto.
  - apply (grows_refl n h b ob Hb).
Qed.

Lemma grows_alloc n h o : grows n h (h ++ [o])%list.
Proof.
  intros a oa Ha. exists oa. split; [apply lookup_app_l_Some; exact Ha|].
  split; [reflexivity|]. exists []. rewrite app_nil_r.
  split; [reflexivity|constructor].
Qed.

Lemma tag_types_spec types self tnames : forall h h',
  tag_types h types self tnames = Ok h' ->
  grows (S self) h h'
  /\ forall t, In t tnames ->
       exists a o, Py.get types t = Some a /\ h' !! a = Some o
                   /\ In self (Catalog.extensions o).
Proof.
  induction tnames as [|t tnames IH]; intros h h' H; simpl in H.
  - injection H as <-. split; [apply grows_refl|intros t []].
  - bind_step H as a Ea. apply or_raise_Ok_inv in Ea.
    bind_step H as o Eo. apply CatalogFacts.read_Ok in Eo.
    apply IH in H as [Hg Htags].
    assert (Hstep : grows (S self) h
                      (write h a (mkObj (Catalog.name o)
                                        (Catalog.extensions o ++ [self])
                                        (Catalog.xml_node o) (kind o)))).
    { eapply grows_write; [exact Eo|reflexivity|reflexivity|].
      repeat constructor. }
    split; [eapply grows_trans; eauto|].
    intros t' [<-|Hin]; [|auto].
    destruct (Hg a _ (read_write_eq _ _ _ (lookup_lt _ _ _ Eo)))
      as (o' & Ho' & _ & l & Hl & _).
    exists a, o'. split; [exact Ea|]. split; [exact Ho'|].
    rewrite Hl. simpl. rewrite !in_app_iff. simpl. auto.
Qed.

Lemma extension_enum_grows h types self number ee h' :
  extension_enum h types self number ee = Ok h' -> grows (S self) h h'.
Proof.
  unfold extension_enum. intros H.
  bind_step H as [h1 ev] Ep. bind_step H as o Eo. injection H as <-.
  apply CatalogFacts.read_Ok in Eo.
  apply EnumInitFacts.parse_enum_extend_store in Ep
    as (enum & eo & values & bm & bw & o1 & _ & He & _ & _ & _ & _ & ->).
  eapply grows_trans; [apply (grows_alloc _ h o1)|].
  eapply grows_trans;
    [|eapply grows_write; [exact Eo|reflexivity|reflexivity|repeat constructor]].
  eapply (grows_write _ _ enum eo _ []);
    [apply lookup_app_l_Some; exact He|reflexivity| |constructor].
  simpl. rewrite app_nil_r. reflexivity.
Qed.

Lemma extend_enums_grows types self number ees : forall h h',
  extend_enums h types self number ees = Ok h' -> grows (S self) h h'.
Proof.
  induction ees as [|ee ees IH]; intros h h' H; simpl in H.
  - injection H as <-. apply grows_refl.
  - bind_step H as h1 E1. apply extension_enum_grows in E1.
    eapply grows_trans; eauto.
Qed.

(** The same for the commands. *)
Definition cgrows (n : nat) (hc hc' : Commands.cstore) : Prop :=
  forall c cmd, hc !! c = Some cmd ->
    exists cmd', hc' !! c = Some cmd'
      /\ Commands.name cmd' = Commands.name cmd
      /\ exists l, Commands.extensions cmd'
                   = (Commands.extensions cmd ++ l)%list
                   /\ Forall (fun x => (x < n)%nat) l.

Lemma cgrows_refl n hc : cgrows n hc hc.
Proof.
  intros c cmd Hc. exists cmd. split; [exact Hc|]. split; [reflexivity|].
  exists []. rewrite app_nil_r. split; [reflexivity|constructor].
Qed.

Lemma cgrows_trans n h1 h2 h3 : cgrows n h1 h2 -> cgrows n h2 h3 -> cgrows n h1 h3.
Proof.
  intros H12 H23 a o Ho.
  destruct (H12 a o Ho) as (o2 & Ho2 & Hn2 & l2 & Hl2 & Hf2).
  destruct (H23 a o2 Ho2) as (o3 & Ho3 & Hn3 & l3 & Hl3 & Hf3).
  exists o3. split; [exact Ho3|]. split; [congruence|].
  exists (l2 ++ l3)%list. split.
  - rewrite Hl3, Hl2, app_assoc. reflexivity.
  - apply Forall_app. auto.
Qed.

Lemma cgrows_le n m hc hc' : (n <= m)%nat -> cgrows n hc hc' -> cgrows m hc hc'.
Proof.
  intros Hle Hg a o Ho. destruct (Hg a o Ho) as (o' & Ho' & Hn & l & Hl & Hf).
  exists o'. split; [exact Ho'|]. split; [exact Hn|]. exists l.
  split; [exact Hl|]. eapply Forall_impl; [exact Hf|]. simpl. intros x Hx. lia.
Qed.

Lemma tag_commands_spec commands self cnames : forall hc hc',
  tag_commands hc commands self cnames = Ok hc' ->
  cgrows (S self) hc hc'
  /\ forall c, In c cnames ->
       exists a cmd, Py.get commands c = Some a /\ hc' !! a = Some cmd
                     /\ In self (Commands.extensions cmd).
Proof.
  induction cnames as [|c cnames IH]; intros hc hc' H; simpl in H.
  - injection H as <-. split; [apply cgrows_refl|intros c []].
  - bind_step H as a Ea. apply or_raise_Ok_inv in Ea.
    bind_step H as cmd Ec. apply or_raise_Ok_inv in Ec.
    apply IH in H as [Hg Htags].
    pose proof (lookup_lt_Some _ _ _ Ec) as Hlt.
    assert (Hstep : cgrows (S self) hc
                      (Commands.cwrite hc a
                         (with_extensions cmd (Commands.extensions cmd ++ [self])))).
    { intros b cb Hb. unfold Commands.cwrite.
      destruct (decide (a = b)) as [<-|Hne].
      - rewrite list_lookup_insert_eq by exact Hlt.
        assert (cb = cmd) by congruence. subst cb.
        eexists. split; [reflexivity|]. split; [reflexivity|].
        exists [self]. split; [reflexivity|]. repeat constructor.
      - rewrite list_lookup_insert_ne by exact Hne.
        apply (cgrows_refl _ hc b cb Hb). }
    split; [eapply cgrows_trans; eauto|].
    intros c' [<-|Hin]; [|auto].
    assert (Hnew : Commands.cwrite hc a
                     (with_extensions cmd (Commands.extensions cmd ++ [self])) !! a
                   = Some (with_extensions cmd (Commands.extensions cmd ++ [self])))
      by (apply list_lookup_insert_eq; exact Hlt).
    destruct (Hg a _ Hnew) as (cmd' & Hc' & _ & l & Hl & _).
    exists a, cmd'. split; [exact Ea|]. split; [exact Hc'|].
    rewrite Hl. simpl. rewrite !in_app_iff. simpl. auto.
Qed.

Lemma Extension_init_inv h hc types commands self en h' hc' ext :
  Extension_init h hc types commands self en = Ok (h', hc', ext) ->
  exists h1,
    tag_types h types self (Extensions.types ext) = Ok h1
    /\ tag_commands hc commands self (Extensions.commands ext) = Ok hc'
    /\ grows (S self) h1 h'
    /\ Extensions.types ext = attr_names (findall_path en ["require"; "type"])
    /\ Extensions.commands ext = attr_names (findall_path en ["require"; "command"])
    /\ Extensions.name ext = get en "name"
    /\ Extensions.xml_node ext = en
    /\ Py.int_opt 10 (get en "number") = Ok (Extensions.number ext)
    /\ Extensions.platform ext = get_default en "platform" ""
    /\ Extensions.author ext = get_default en "author" ""
    /\ Extensions.supported ext = get_default en "supported" "".
Proof.
  unfold Extension_init. intros H.
  bind_step H as number En. bind_step H as [ne sv] Ee.
  bind_step H as h1 Et. bind_step H as hc1 Ec. bind_step H as h2 Ex.
  injection H as <- <- <-. simpl.
  exists h1. split; [exact Et|]. split; [exact Ec|].
  split; [eapply extend_enums_grows; exact Ex|]. auto 10.
Qed.

(** X17: an extension made from an element tags every type and every
    command that the element requires: each is bound in the registry, and
    the extension is in its list of extensions when the constructor
    returns. *)
Theorem Extension_init_tags h hc types commands self en h' hc' ext :
  Extension_init h hc types commands self en = Ok (h', hc', ext) ->
  (forall t, In t (attr_names (findall_path en ["require"; "type"])) ->
     exists a o, Py.get types t = Some a /\ h' !! a = Some o
                 /\ In self (Catalog.extensions o))
  /\ (forall c, In c (attr_names (findall_path en ["require"; "command"])) ->
        exists a cmd, Py.get commands c = Some a /\ hc' !! a = Some cmd
                      /\ In self (Commands.extensions cmd)).
Proof.
  intros H.
  apply Extension_init_inv in H
    as (h1 & Ht & Hc & Hg & <- & <- & _).
  apply tag_types_spec in Ht as [_ Ht].
  apply tag_commands_spec in Hc as [_ Hc].
  split; [|exact Hc].
  intros t Hin. destruct (Ht t Hin) as (a & o & Ha & Ho & Hs).
  destruct (Hg a o Ho) as (o' & Ho' & _ & l & Hl & _).
  exists a, o'. split; [exact Ha|]. split; [exact Ho'|].
  rewrite Hl, in_app_iff. auto.
Qed.

(** VK_KHR_swapchain, which requires a struct and a command and extends
    VkResult; an extension named after its number, and a reserved one. *)
Definition require_elem (t n : string) : Element :=
  mkElement t [("name", n)] None [] None.

Definition ex_swapchain_elem : Element :=
  mkElement "extension"
    [("name", "VK_KHR_swapchain"); ("number", "2"); ("author", "KHR");
     ("supported", "vulkan")] None
    [ mkElement "require" [] None
        [ mkElement "enum" [("value", "70"); ("name", "VK_KHR_SWAPCHAIN_SPEC_VERSION")]
                    None [] None;
          require_elem "type" "VkSwapchainCreateInfoKHR";
          require_elem "command" "vkCreateSwapchainKHR";
          mkElement "enum" [("offset", "3"); ("extends", "VkResult");
                            ("name", "VK_SUBOPTIMAL_KHR")] None [] None ]
        None ] None.

Definition ex_numbered_elem : Element :=
  mkElement "extension"
    [("name", "VK_AMD_extension_24"); ("number", "24"); ("supported", "disabled")]
    None [] None.

Definition ex_reserved_elem : Element :=
  mkElement "extension"
    [("name", "VK_RESERVED_do_not_use_94"); ("number", "94");
     ("supported", "disabled")] None [] None.

Definition ex_extensions_root : Element :=
  mkElement "registry" [] None
    [ mkElement "extensions" [] None
        [ex_numbered_elem; ex_swapchain_elem; ex_reserved_elem] None ] None.

Definition ex_objs : store :=
  [ mkObj (Some "VkSwapchainCreateInfoKHR") [] None (Struct false [] (ByObject []) []);
    mkObj (Some "VkResult") [] None (Enum [] false 32) ].

Definition ex_type_names : Py.dict Py.key addr :=
  [ (Some "VkSwapchainCreateInfoKHR", 0%nat); (Some "VkResult", 1%nat) ].

Definition ex_cmds : Commands.cstore :=
  [ Commands.mkCommand (Some "vkCreateSwapchainKHR") 1%nat [] [] [] None
      (Commands.command [] "VkResult" "vkCreateSwapchainKHR" []) (Some false) ].

Definition ex_cmd_names : Py.dict Py.key addr :=
  [ (Some "vkCreateSwapchainKHR", 0%nat) ].

(** The stores, the extensions and their names after [__parse_extensions]. *)
Definition ex_extensions_parsed
  : store * Commands.cstore * estore * Py.dict Py.key addr :=
  Eval cbv in
    match __parse_extensions ex_objs ex_cmds ex_type_names ex_cmd_names
                             ex_extensions_root with
    | Ok r => r
    | _ => ([], [], [], [])
    end.

Definition ex_swapchain_init : store * Commands.cstore * Extension :=
  Eval cbv in
    match Extension_init ex_objs ex_cmds ex_type_names ex_cmd_names 0
                         ex_swapchain_elem with
    | Ok r => r
    | _ => ([], [], SelectionFacts.ex_swapchain)
    end.

Lemma Extension_init_tags_witness :
  (forall t, In t (attr_names (findall_path ex_swapchain_elem ["require"; "type"])) ->
     exists a o, Py.get ex_type_names t = Some a
                 /\ ex_swapchain_init.1.1 !! a = Some o
                 /\ In 0%nat (Catalog.extensions o))
  /\ (forall c, In c (attr_names (findall_path ex_swapchain_elem ["require"; "command"])) ->
        exists a cmd, Py.get ex_cmd_names c = Some a
                      /\ ex_swapchain_init.1.2 !! a = Some cmd
                      /\ In 0%nat (Commands.extensions cmd)).
Proof.
  apply (Extension_init_tags ex_objs ex_cmds ex_type_names ex_cmd_names 0%nat
           ex_swapchain_elem ex_swapchain_init.1.1 ex_swapchain_init.1.2
           ex_swapchain_init.2).
  reflexivity.
Defined.

(** *** The loop over the extensions *)

Lemma Extension_init_grows h hc types commands self en h' hc' ext :
  Extension_init h hc types commands self en = Ok (h', hc', ext) ->
  grows (S self) h h' /\ cgrows (S self) hc hc'.
Proof.
  intros H. apply Extension_init_inv in H as (h1 & Ht & Hc & Hg & _).
  apply tag_types_spec in Ht as [Ht _].
  apply tag_commands_spec in Hc as [Hc _].
  split; [eapply grows_trans; eauto|exact Hc].
Qed.

(** The extension at [a] is registered under [k]: it was made from an
    element of [ees] that is not ignored, and bears the name [k]. *)
Definition registered (he : estore) (ees : list Element) (k : Py.key) (a : addr) : Prop :=
  exists x, he !! a = Some x /\ Extensions.name x = k
            /\ In (Extensions.xml_node x) ees
            /\ ignored (Extensions.xml_node x) = Ok false.

Lemma parse_extensions_spec types commands ees :
  forall h hc he extensions h' hc' he' extensions',
  parse_extensions h hc he types commands extensions ees
    = Ok (h', hc', he', extensions') ->
  grows (List.length he') h h' /\ cgrows (List.length he') hc hc'
  /\ (forall a x, he !! a = Some x -> he' !! a = Some x)
  /\ (forall k a, Py.get extensions' k = Some a ->
        Py.get extensions k = Some a \/ registered he' ees k a).
Proof.
  induction ees as [|ee ees IH];
    intros h hc he extensions h' hc' he' extensions' H; simpl in H.
  - injection H as <- <- <- <-.
    split; [apply grows_refl|]. split; [apply cgrows_refl|]. auto.
  - bind_step H as skip Es. destruct skip.
    + apply IH in H as (Hg & Hc & Hold & Hreg).
      split; [exact Hg|]. split; [exact Hc|]. split; [exact Hold|].
      intros k a Hk. destruct (Hreg k a Hk) as [?|(x & Hx & Hn & Hin & Hi)]; [auto|].
      right. exists x. split; [exact Hx|]. split; [exact Hn|].
      split; [right; exact Hin|exact Hi].
    + bind_step H as [[h1 hc1] ext] Ei.
      pose proof (Extension_init_grows _ _ _ _ _ _ _ _ _ Ei) as [Hg1 Hc1].
      apply Extension_init_inv in Ei as (_ & _ & _ & _ & _ & _ & Hn & Hx & _).
      apply IH in H as (Hg & Hc & Hold & Hreg).
      assert (Hnew : he' !! List.length he = Some ext)
        by (apply Hold, list_lookup_middle; reflexivity).
      pose proof (lookup_lt_Some _ _ _ Hnew) as Hlt.
      split; [eapply grows_trans; [eapply grows_le; [|exact Hg1]; lia|exact Hg]|].
      split; [eapply cgrows_trans; [eapply cgrows_le; [|exact Hc1]; lia|exact Hc]|].
      split; [intros a x Ha; apply Hold, lookup_app_l_Some; exact Ha|].
      intros k a Hk. destruct (Hreg k a Hk) as [Hs|(x & Hx' & Hn' & Hin & Hi)].
      * rewrite get_set in Hs. case_decide as E; [|auto].
        injection Hs as <-. right. exists ext.
        split; [exact Hnew|]. split; [exact E|].
        rewrite Hx. split; [left; reflexivity|exact Es].
      * right. exists x. split; [exact Hx'|]. split; [exact Hn'|].
        split; [right; exact Hin|exact Hi].
Qed.

(** X18: [__parse_extensions] only ever appends to the lists of extensions
    of the types and of the commands, and what it appends are extensions
    that it has made; names are left as they were. *)
Theorem extension_tags_appended h hc types commands root h' hc' he' extensions' :
  __parse_extensions h hc types commands root = Ok (h', hc', he', extensions') ->
  (forall a o, h !! a = Some o ->
     exists o' l, h' !! a = Some o' /\ Catalog.name o' = Catalog.name o
       /\ Catalog.extensions o' = (Catalog.extensions o ++ l)%list
       /\ forall x, In x l -> exists ext, he' !! x = Some ext)
  /\ (forall c cmd, hc !! c = Some cmd ->
        exists cmd' l, hc' !! c = Some cmd'
          /\ Commands.name cmd' = Commands.name cmd
          /\ Commands.extensions cmd' = (Commands.extensions cmd ++ l)%list
          /\ forall x, In x l -> exists ext, he' !! x = Some ext).
Proof.
  unfold __parse_extensions. intros H.
  apply parse_extensions_spec in H as (Hg & Hc & _ & _).
  assert (Hlive : forall l, Forall (fun x => (x < List.length he')%nat) l ->
                    forall x, In x l -> exists ext, he' !! x = Some ext).
  { intros l Hf x Hin. apply lookup_lt_is_Some.
    rewrite List.Forall_forall in Hf. apply Hf, Hin. }
  split.
  - intros a o Ho. destruct (Hg a o Ho) as (o' & Ho' & Hn & l & Hl & Hf).
    exists o', l. eauto.
  - intros c cmd Hcmd. destruct (Hc c cmd Hcmd) as (cmd' & Hc' & Hn & l & Hl & Hf).
    exists cmd', l. eauto.
Qed.

Lemma extension_tags_appended_witness :
  (forall a o, ex_objs !! a = Some o ->
     exists o' l, ex_extensions_parsed.1.1.1 !! a = Some o'
       /\ Catalog.name o' = Catalog.name o
       /\ Catalog.extensions o' = (Catalog.extensions o ++ l)%list
       /\ forall x, In x l -> exists ext, ex_extensions_parsed.1.2 !! x = Some ext)
  /\ (forall c cmd, ex_cmds !! c = Some cmd ->
        exists cmd' l, ex_extensions_parsed.1.1.2 !! c = Some cmd'
          /\ Commands.name cmd' = Commands.name cmd
          /\ Commands.extensions cmd' = (Commands.extensions cmd ++ l)%list
          /\ forall x, In x l -> exists ext, ex_extensions_parsed.1.2 !! x = Some ext).
Proof.
  apply (extension_tags_appended ex_objs ex_cmds ex_type_names ex_cmd_names
           ex_extensions_root ex_extensions_parsed.1.1.1
           ex_extensions_parsed.1.1.2 ex_extensions_parsed.1.2
           ex_extensions_parsed.2).
  reflexivity.
Defined.

(** X19: after [__parse_extensions] every name of the map of extensions is
    bound to an extension that bears this name and was made from an
    [extension] element of the document which is neither reserved nor named
    after its number. *)
Theorem extensions_by_name h hc types commands root h' hc' he' extensions' k a :
  __parse_extensions h hc types commands root = Ok (h', hc', he', extensions') ->
  Py.get extensions' k = Some a ->
  exists x, he' !! a = Some x /\ Extensions.name x = k
            /\ In (Extensions.xml_node x)
                  (findall_path root ["extensions"; "extension"])
            /\ ignored (Extensions.xml_node x) = Ok false.
Proof.
  unfold __parse_extensions. intros H Hk.
  apply parse_extensions_spec in H as (_ & _ & _ & Hreg).
  destruct (Hreg k a Hk) as [Hnil|Hr]; [discriminate Hnil|exact Hr].
Qed.

Lemma extensions_by_name_witness :
  exists x, ex_extensions_parsed.1.2 !! 0%nat = Some x
            /\ Extensions.name x = Some "VK_KHR_swapchain"
            /\ In (Extensions.xml_node x)
                  (findall_path ex_extensions_root ["extensions"; "extension"])
            /\ ignored (Extensions.xml_node x) = Ok false.
Proof.
  apply (extensions_by_name ex_objs ex_cmds ex_type_names ex_cmd_names
           ex_extensions_root ex_extensions_parsed.1.1.1
           ex_extensions_parsed.1.1.2 ex_extensions_parsed.1.2
           ex_extensions_parsed.2 (Some "VK_KHR_swapchain") 0%nat);
    reflexivity.
Defined.

Example ex_extensions_registered :
  Py.keys ex_extensions_parsed.2 = [Some "VK_KHR_swapchain"]
  /\ Py.keys (values_of ex_extensions_parsed.1.1.1 1%nat) = [Some "VK_SUBOPTIMAL_KHR"].
Proof. split; reflexivity. Qed.

End ExtensionFacts.

(** ** The views of the platforms *)

Module PlatformFacts.

Import XML Catalog Registry DictFacts StoreFacts Extensions SelectionFacts.

Lemma NoDup_comprehension {V} (keep : Py.key -> V -> bool) items : forall acc,
  List.NoDup (Py.keys acc) -> List.NoDup (Py.keys (comprehension keep items acc)).
Proof.
  induction items as [|[k v] items IH]; intros acc Hnd; simpl; [exact Hnd|].
  apply IH. destruct (keep k v); [apply NoDup_set|]; exact Hnd.
Qed.

Lemma union_get {V} (b : Py.dict Py.key V) : forall a k,
  List.NoDup (Py.keys b) ->
  Py.get (union a b) k
  = match Py.get b k with Some v => Some v | None => Py.get a k end.
Proof.
  unfold union. induction b as [|[k0 v0] b IH]; intros a k Hnd; simpl;
    [reflexivity|].
  simpl in Hnd. inversion Hnd as [|? ? Hfresh Hnd']; subst.
  rewrite IH by exact Hnd'. case_decide as E.
  - subst k0. destruct (Py.get b k) eqn:Eg.
    + apply get_keys in Eg. contradiction.
    + rewrite get_set. case_decide; [reflexivity|contradiction].
  - destruct (Py.get b k); [reflexivity|].
    rewrite get_set. case_decide; [contradiction|reflexivity].
Qed.

(** The extension at [x] is registered and belongs to the platform
    [pname]. *)
Definition on_platform (r : registry) (pname : option string) (x : addr) : Prop :=
  exists kx ext n,
    Py.get (r_extensions r) kx = Some x /\ exts r !! x = Some ext
    /\ pname = Some n /\ platform ext = n.

Lemma platform_is_spec he pname x :
  platform_is he pname x = true
  <-> exists ext n, he !! x = Some ext /\ pname = Some n /\ platform ext = n.
Proof.
  unfold platform_is. destruct (he !! x) as [ext|], pname as [n|].
  - rewrite String.eqb_eq. split.
    + intros ->. eauto.
    + intros (ext' & n' & He & Hn & Hp). congruence.
  - split; [discriminate|]. intros (? & ? & _ & ? & _). discriminate.
  - split; [discriminate|]. intros (? & ? & ? & _). discriminate.
  - split; [discriminate|]. intros (? & ? & ? & _). discriminate.
Qed.

Lemma platform_extensions r pname x :
  List.NoDup (Py.keys (r_extensions r)) ->
  In x (Py.values (comprehension (fun _ v => platform_is (exts r) pname v)
                                 (r_extensions r) []))
  <-> on_platform r pname x.
Proof.
  intros Hnd. unfold Py.values, on_platform. rewrite in_map_iff. split.
  - intros ([k v] & Hv & Hin). simpl in Hv. subst v.
    apply In_get in Hin; [|apply NoDup_comprehension; constructor].
    rewrite comprehension_lookup in Hin by exact Hnd.
    destruct (Py.get (r_extensions r) k) as [v|] eqn:Eg; [|discriminate].
    destruct (platform_is (exts r) pname v) eqn:Ep; [|discriminate].
    injection Hin as ->.
    apply platform_is_spec in Ep as (ext & n & He & Hp & Hn).
    exists k, ext, n. auto.
  - intros (kx & ext & n & Hg & He & Hp & Hn).
    exists (kx, x). split; [reflexivity|]. apply get_In.
    rewrite comprehension_lookup by exact Hnd. rewrite Hg.
    replace (platform_is (exts r) pname x) with true; [reflexivity|].
    symmetry. apply platform_is_spec. eauto.
Qed.

(** The name of the platform made from [pe]. *)
Definition platform_name (pe : option Element) : option string :=
  match pe with
  | Some e => get e "name"
  | None => Some ""
  end.

(** What bears the extensions [l] is in the view of the platform: one of
    the extensions is registered for the platform, or the platform is the
    one without name and there is no extension at all. *)
Definition in_view (r : registry) (pe : option Element) (l : list addr) : Prop :=
  (exists x, In x l /\ on_platform r (platform_name pe) x)
  \/ (pe = None /\ l = []).

Lemma view_get (r : registry) pe (d : Py.dict Py.key addr) (f : addr -> list addr) k v :
  List.NoDup (Py.keys (r_extensions r)) ->
  List.NoDup (Py.keys d) ->
  let set := Py.values (comprehension
                          (fun _ x => platform_is (exts r) (platform_name pe) x)
                          (r_extensions r) []) in
  let chosen := comprehension (fun _ x => intersects set (f x)) d [] in
  Py.get (match pe with
          | Some _ => chosen
          | None => union chosen (comprehension (fun _ x => is_nil (f x)) d [])
          end) k = Some v
  <-> Py.get d k = Some v /\ in_view r pe (f v).
Proof.
  intros Hx Hd set chosen.
  assert (Hc : Py.get chosen k = Some v
               <-> Py.get d k = Some v
                   /\ exists x, In x (f v) /\ on_platform r (platform_name pe) x).
  { unfold chosen. rewrite comprehension_lookup by exact Hd.
    destruct (Py.get d k) as [w|]; [|split; [discriminate|intros [? _]; discriminate]].
    destruct (intersects set (f w)) eqn:Ei.
    - apply intersects_spec in Ei as (x & Hin & Hs).
      apply platform_extensions in Hs; [|exact Hx].
      split; [intros [= ->]; eauto|intros [? _]; assumption].
    - split; [discriminate|]. intros ([= ->] & x & Hin & Hp). exfalso.
      assert (intersects set (f v) = true); [|congruence].
      apply intersects_spec. exists x. split; [exact Hin|].
      apply platform_extensions; assumption. }
  unfold in_view. destruct pe as [e|].
  - rewrite Hc. split; [intros [? ?]; auto|].
    intros [Hg [Hv|[? _]]]; [auto|discriminate].
  - rewrite union_get by (apply NoDup_comprehension; constructor).
    rewrite comprehension_lookup by exact Hd.
    destruct (Py.get d k) as [w|] eqn:Eg.
    + destruct (is_nil (f w)) eqn:En.
      * destruct (f w) eqn:Ef; [|discriminate].
        split; [intros [= ->]; rewrite Ef; auto|intros [? _]; assumption].
      * rewrite Hc. split; [intros [? ?]; auto|].
        intros [Hg [Hv|[_ Hnil]]]; [auto|].
        injection Hg as ->. rewrite Hnil in En. discriminate.
    + rewrite Hc. split; [intros [? _]; discriminate|intros [? _]; discriminate].
Qed.

(** X20: the view of a platform.  A name is bound in the types (in the
    commands) of the platform made from [pe] exactly when the registry binds
    it, to the same object, and one of the extensions of that object is
    registered for the platform; the platform without name holds what bears
    no extension as well. *)
Theorem platform_view r pe :
  List.NoDup (Py.keys (r_extensions r)) ->
  List.NoDup (Py.keys (r_types r)) ->
  List.NoDup (Py.keys (r_commands r)) ->
  (forall k t,
     Py.get (p_types (Platform_init r pe)) k = Some t
     <-> Py.get (r_types r) k = Some t
         /\ in_view r pe (type_extensions (objs r) t))
  /\ (forall k c,
        Py.get (p_commands (Platform_init r pe)) k = Some c
        <-> Py.get (r_commands r) k = Some c
            /\ in_view r pe (command_extensions (cmds r) c)).
Proof.
  intros Hx Ht Hc. split.
  - intros k t.
    rewrite <- (view_get r pe (r_types r) (type_extensions (objs r)) k t Hx Ht).
    destruct pe; reflexivity.
  - intros k c.
    rewrite <- (view_get r pe (r_commands r) (command_extensions (cmds r)) k c Hx Hc).
    destruct pe; reflexivity.
Qed.

Lemma platform_view_witness :
  (forall k t,
     Py.get (p_types (Platform_init ex_reg None)) k = Some t
     <-> Py.get (r_types ex_reg) k = Some t
         /\ in_view ex_reg None (type_extensions (objs ex_reg) t))
  /\ (forall k c,
        Py.get (p_commands (Platform_init ex_reg None)) k = Some c
        <-> Py.get (r_commands ex_reg) k = Some c
            /\ in_view ex_reg None (command_extensions (cmds ex_reg) c)).
Proof.
  apply (platform_view ex_reg None);
    simpl; repeat constructor; simpl; intuition discriminate.
Defined.

Example core_platform_of_ex_reg :
  Py.keys (p_types (Platform_init ex_reg None))
    = [Some "VkSwapchainCreateInfoKHR"; Some "VkResult"]
  /\ Py.keys (p_types (Platform_init ex_reg
                         (Some (mkElement "platform" [("name", "win32")] None [] None))))
     = [Some "VkWin32SurfaceCreateInfoKHR"].
Proof. split; reflexivity. Qed.

End PlatformFacts.

(** ** The lineage of a handle: where the query raises *)

Module HandleFacts.

Import Catalog CatalogFacts.

(** Going up from [a], the lineage ends before it meets one of the three
    names: at a handle without parent, or at an object that is no handle
    (a parent that was never resolved). *)
Inductive breaks (h : store) : addr -> Prop :=
| breaks_root a o d :
    h !! a = Some o -> kind o = Handle d None -> stops o = false ->
    breaks h a
| breaks_other a o :
    h !! a = Some o -> (forall d p, kind o <> Handle d p) -> breaks h a
| breaks_up a o d p :
    h !! a = Some o -> kind o = Handle d (Some p) -> stops o = false ->
    breaks h p -> breaks h a.

Lemma is_instance_handle_other h fuel a o :
  h !! a = Some o -> (forall d p, kind o <> Handle d p) ->
  is_instance_handle h (S fuel) a = Raise AttributeError.
Proof.
  intros Ho Hk. simpl. rewrite (read_Some _ _ _ Ho). simpl.
  destruct (kind o) eqn:E; try reflexivity. exfalso. eapply Hk. reflexivity.
Qed.

(** X21: [is_instance_handle] raises [AttributeError] exactly when the
    lineage of the handle breaks before VkDevice, VkInstance or
    VkSwapchainKHR is met. *)
Theorem is_instance_handle_raises h a :
  (exists fuel, is_instance_handle h fuel a = Raise AttributeError)
  <-> breaks h a.
Proof.
  split.
  - intros [fuel H]. revert a H.
    induction fuel as [|fuel IH]; intros a H; [discriminate H|].
    destruct (h !! a) as [o|] eqn:Ho;
      [|simpl in H; unfold read in H; rewrite Ho in H; discriminate H].
    destruct (kind o) as [| | | |d parent| | | | |] eqn:Hk;
      try (apply (breaks_other h a o Ho); intros d p; congruence).
    rewrite (is_instance_handle_S _ _ _ _ _ _ Ho Hk) in H.
    destruct (stops o) eqn:Hs; [discriminate H|].
    destruct parent as [p|].
    + eapply breaks_up; eauto.
    + eapply breaks_root; eauto.
  - induction 1 as [a o d Ho Hk Hs|a o Ho Hk|a o d p Ho Hk Hs _ [fuel IH]].
    + exists 1%nat. rewrite (is_instance_handle_S _ _ _ _ _ _ Ho Hk), Hs.
      reflexivity.
    + exists 1%nat. apply (is_instance_handle_other _ _ _ _ Ho Hk).
    + exists (S fuel). rewrite (is_instance_handle_S _ _ _ _ _ _ Ho Hk), Hs.
      exact IH.
Qed.

End HandleFacts.

(** ** The resolution of the references *)

Module ResolveFacts.

Import XML Catalog CatalogFacts StoreFacts Commands.

(** No reference is left in the type, unless below a [NextPtr], which the
    resolution passes by. *)
Fixpoint resolved (t : Field.Ty) : Prop :=
  match t with
  | Field.TypeRef _ => False
  | Field.Obj _ | Field.NextPtr _ _ => True
  | Field.FixedArray _ b _ | Field.DynamicArray _ b _ _ | Field.Pointer _ b =>
      resolved b
  end.

Definition all_resolved (fs : list Field.Field) : Prop :=
  Forall (fun f => resolved (Field.f_type f)) fs.

Lemma resolve_type_of_field_resolved on_object types : forall t h h' t',
  resolve_type_of_field on_object types h t = Ok (h', t') -> resolved t'.
Proof.
  induction t as [r|a|c b IH l|c b IH l p|c b IH|c b IH]; intros h h' t' H;
    simpl in H.
  - bind_step H as a Ea. injection H as <- <-. exact I.
  - bind_step H as [h1 a'] Ea. injection H as <- <-. exact I.
  - bind_step H as [h1 b'] Eb. injection H as <- <-. simpl. eauto.
  - bind_step H as [h1 b'] Eb. injection H as <- <-. simpl. eauto.
  - injection H as <- <-. exact I.
  - bind_step H as [h1 b'] Eb. injection H as <- <-. simpl. eauto.
Qed.

Lemma resolve_fields_resolved on_object types : forall fs h h' fs',
  resolve_fields on_object types h fs = Ok (h', fs') -> all_resolved fs'.
Proof.
  induction fs as [|f fs IH]; intros h h' fs' H; simpl in H.
  - injection H as <- <-. constructor.
  - bind_step H as [h1 t] Et. bind_step H as [h2 rest] Er.
    injection H as <- <-. constructor.
    + simpl. eapply resolve_type_of_field_resolved. exact Et.
    + eapply IH. exact Er.
Qed.

Lemma finish_commands_keeps types fuel cs : forall h hc h' hc',
  finish_commands types fuel h hc cs = Ok (h', hc') ->
  forall c cmd, hc !! c = Some cmd -> all_resolved (parameters cmd) ->
    exists cmd', hc' !! c = Some cmd' /\ all_resolved (parameters cmd').
Proof.
  induction cs as [|c0 cs IH]; intros h hc h' hc' H c cmd Hc Hr; simpl in H.
  - injection H as <- <-. eauto.
  - bind_step H as cmd0 E0. apply or_raise_Ok_inv in E0.
    bind_step H as [h1 ps] E1. bind_step H as b Eb.
    destruct (decide (c0 = c)) as [->|Hne].
    + eapply (IH _ _ _ _ H c).
      * apply list_lookup_insert_eq. eapply lookup_lt_Some. exact E0.
      * simpl. eapply resolve_fields_resolved. exact E1.
    + apply (IH _ _ _ _ H c cmd); [|exact Hr]. unfold cwrite.
      rewrite list_lookup_insert_ne by exact Hne. exact Hc.
Qed.

Lemma finish_commands_resolved types fuel cs : forall h hc h' hc',
  finish_commands types fuel h hc cs = Ok (h', hc') ->
  forall c, In c cs ->
    exists cmd', hc' !! c = Some cmd' /\ all_resolved (parameters cmd').
Proof.
  induction cs as [|c0 cs IH]; intros h hc h' hc' H c Hin; simpl in H;
    [destruct Hin|].
  bind_step H as cmd0 E0. apply or_raise_Ok_inv in E0.
  bind_step H as [h1 ps] E1. bind_step H as b Eb.
  destruct Hin as [->|Hin]; [|eapply IH; eauto].
  eapply (finish_commands_keeps _ _ _ _ _ _ _ H c).
  - apply list_lookup_insert_eq. eapply lookup_lt_Some. exact E0.
  - simpl. eapply resolve_fields_resolved. exact E1.
Qed.

(** *** The object that takes the place of a reference *)

Definition is_TypeRef (o : obj) : bool :=
  match kind o with TypeRef _ => true | _ => false end.

(** [t] is [t0] with each reference replaced by the object that the catalog
    binds to the name of the reference.  The modifiers are the same, and
    what lies below a [NextPtr] is as it was. *)
Fixpoint replaced (types : Py.dict Py.key addr) (t0 t : Field.Ty) : Prop :=
  match t0, t with
  | Field.TypeRef r, Field.Obj a => Py.get types r = Some a
  | Field.FixedArray c0 b0 l0, Field.FixedArray c b l =>
      c0 = c /\ l0 = l /\ replaced types b0 b
  | Field.DynamicArray c0 b0 l0 p0, Field.DynamicArray c b l p =>
      c0 = c /\ l0 = l /\ p0 = p /\ replaced types b0 b
  | Field.NextPtr c0 b0, Field.NextPtr c b => c0 = c /\ b0 = b
  | Field.Pointer c0 b0, Field.Pointer c b => c0 = c /\ replaced types b0 b
  | _, _ => False
  end.

(** The field [f] is [f0] but for its type, which is that of [f0] with the
    references replaced. *)
Definition field_replaced (types : Py.dict Py.key addr) (f0 f : Field.Field) : Prop :=
  f = with_type f0 (Field.f_type f)
  /\ replaced types (Field.f_type f0) (Field.f_type f).

(** Fields as the parser leaves them: their types hold no object yet. *)
Definition fresh (fs : list Field.Field) : Prop :=
  Forall (fun f => ParserFacts.no_obj (Field.f_type f) = true) fs.

(** The catalog binds no name to a reference. *)
Definition no_ref_bound (types : Py.dict Py.key addr) (h : store) : Prop :=
  forall k a o, Py.get types k = Some a -> h !! a = Some o -> is_TypeRef o = false.

Lemma replaced_resolved types : forall t0 t, replaced types t0 t -> resolved t.
Proof.
  induction t0 as [r|a|c b IH l|c b IH l p|c b IH|c b IH];
    intros [r'|a'|c' b' l'|c' b' l' p'|c' b'|c' b'] H; simpl in H;
    try contradiction; simpl; auto.
  - destruct H as (_ & _ & H). eauto.
  - destruct H as (_ & _ & _ & H). eauto.
  - destruct H as (_ & H). eauto.
Qed.

Lemma parse_fresh obj_name aliases me parent f :
  Field.parse_parameter_or_member obj_name aliases me parent = Ok f ->
  ParserFacts.no_obj (Field.f_type f) = true.
Proof.
  intros H. unfold Field.parse_parameter_or_member in H.
  bind_step H as fname E1. bind_step H as tname E2. bind_step H as tname' E3.
  bind_step H as [levels bits] E4. bind_step H as t E5.
  injection H as <-. simpl.
  apply ParserFacts.wrap_all_well_made in E5 as (Hno & _ & _); [exact Hno|].
  repeat split; simpl; auto. discriminate.
Qed.

Lemma parse_params_fresh obj_name aliases parent : forall mes fs,
  parse_params obj_name aliases parent mes = Ok fs -> fresh fs.
Proof.
  induction mes as [|me mes IH]; intros fs H; simpl in H.
  - injection H as <-. constructor.
  - bind_step H as f Ef. bind_step H as rest Er. injection H as <-.
    constructor; [eapply parse_fresh; exact Ef|apply IH; reflexivity].
Qed.

Lemma Command_init_fresh h types aliases ce cmd :
  Command_init h types aliases ce = Ok cmd -> fresh (parameters cmd).
Proof.
  unfold Command_init. intros H.
  bind_step H as cname E1. bind_step H as rname E2.
  bind_step H as rt E3. bind_step H as ps E4.
  injection H as <-. simpl. eapply parse_params_fresh. exact E4.
Qed.

Lemma bind_commands_fresh h types ces :
  forall hc commands aliases hc' commands' aliases',
  bind_commands h types hc commands aliases ces = Ok (hc', commands', aliases') ->
  (forall c cmd, hc !! c = Some cmd -> fresh (parameters cmd)) ->
  forall c cmd, hc' !! c = Some cmd -> fresh (parameters cmd).
Proof.
  induction ces as [|ce ces IH];
    intros hc commands aliases hc' commands' aliases' H Hf; simpl in H.
  - injection H as <- <- <-. exact Hf.
  - destruct (get ce "alias") as [al|].
    + bind_step H as c0 Ec0. eapply IH; [exact H|exact Hf].
    + bind_step H as cmd0 Ecmd. eapply IH; [exact H|].
      intros c cmd Hc. apply lookup_app_Some in Hc as [Hc|[_ Hc]]; [eauto|].
      destruct (c - List.length hc)%nat; [|discriminate Hc].
      injection Hc as <-. eapply Command_init_fresh. exact Ecmd.
Qed.

(** The first resolution of a field: no object of the catalog is visited,
    so the catalog stays as it is. *)
Lemma resolve_fresh on_object types : forall t h h' t',
  ParserFacts.no_obj t = true ->
  resolve_type_of_field on_object types h t = Ok (h', t') ->
  h' = h /\ replaced types t t'.
Proof.
  induction t as [r|a|c b IH l|c b IH l p|c b IH|c b IH];
    intros h h' t' Hno H; simpl in H, Hno.
  - bind_step H as a Ea. apply or_raise_Ok_inv in Ea.
    injection H as <- <-. simpl. auto.
  - discriminate Hno.
  - bind_step H as [h1 b'] Eb. injection H as <- <-.
    destruct (IH _ _ _ Hno Eb) as [-> Hr]. simpl. auto.
  - bind_step H as [h1 b'] Eb. injection H as <- <-.
    destruct (IH _ _ _ Hno Eb) as [-> Hr]. simpl. auto.
  - injection H as <- <-. simpl. auto.
  - bind_step H as [h1 b'] Eb. injection H as <- <-.
    destruct (IH _ _ _ Hno Eb) as [-> Hr]. simpl. auto.
Qed.

Lemma resolve_fields_fresh on_object types : forall fs h h' fs',
  fresh fs ->
  resolve_fields on_object types h fs = Ok (h', fs') ->
  h' = h /\ Forall2 (field_replaced types) fs fs'.
Proof.
  induction fs as [|f fs IH]; intros h h' fs' Hf H; simpl in H.
  - injection H as <- <-. auto.
  - inversion Hf as [|? ? Hno Hrest]; subst.
    bind_step H as [h1 t] Et. bind_step H as [h2 rest] Er.
    injection H as <- <-.
    destruct (resolve_fresh _ _ _ _ _ _ Hno Et) as [-> Hr].
    destruct (IH _ _ _ Hrest Er) as [-> Hrs].
    split; [reflexivity|]. constructor; [|exact Hrs].
    split; [reflexivity|exact Hr].
Qed.

(** From [h] to [h'] every object is what it was, a reference or not. *)
Definition same_refs (h h' : store) : Prop :=
  List.length h' = List.length h
  /\ forall b o, h !! b = Some o ->
       exists o', h' !! b = Some o' /\ is_TypeRef o' = is_TypeRef o.

Lemma same_refs_refl h : same_refs h h.
Proof. split; [reflexivity|]. intros b o Ho. exists o. auto. Qed.

Lemma same_refs_trans h1 h2 h3 :
  same_refs h1 h2 -> same_refs h2 h3 -> same_refs h1 h3.
Proof.
  intros [Hl12 H12] [Hl23 H23]. split; [congruence|].
  intros b o Ho. destruct (H12 b o Ho) as (o2 & Ho2 & Hs2).
  destruct (H23 b o2 Ho2) as (o3 & Ho3 & Hs3).
  exists o3. split; [exact Ho3|congruence].
Qed.

Lemma same_refs_write h a o o' :
  h !! a = Some o -> is_TypeRef o' = is_TypeRef o -> same_refs h (write h a o').
Proof.
  intros Ho Hs. split; [apply length_write|].
  intros b ob Hb. rewrite read_write by (eapply lookup_lt; eauto).
  case_decide as E; [|exists ob; auto].
  subst b. assert (ob = o) by congruence. subst ob. exists o'. auto.
Qed.

Lemma no_ref_bound_later types h h' :
  same_refs h h' -> no_ref_bound types h -> no_ref_bound types h'.
Proof.
  intros [Hl Hs] Hn k a o' Hk Ho'.
  pose proof (lookup_lt _ _ _ Ho') as Hlt. rewrite Hl in Hlt.
  destruct (read_lt h a Hlt) as [o Ho].
  destruct (Hs a o Ho) as (o2 & Ho2 & Hr).
  assert (o2 = o') by congruence. subst o2.
  rewrite Hr. eapply Hn; eauto.
Qed.

Section refs.
Variables (types : Py.dict Py.key addr) (fuel : nat).

Hypothesis below : forall h x h' x',
  resolve_object types fuel h x = Ok (h', x') -> same_refs h h'.

Lemma field_refs : forall t h h' t',
  resolve_type_of_field (resolve_object types fuel) types h t = Ok (h', t') ->
  same_refs h h'.
Proof.
  induction t as [r|b|c b IH l|c b IH l p|c b IH|c b IH]; intros h h' t' H;
    simpl in H.
  - bind_step H as x Ex. injection H as <- <-. apply same_refs_refl.
  - bind_step H as [h1 b'] Eb. injection H as <- <-. eapply below; eauto.
  - bind_step H as [h1 b'] Eb. injection H as <- <-. eapply IH; eauto.
  - bind_step H as [h1 b'] Eb. injection H as <- <-. eapply IH; eauto.
  - injection H as <- <-. apply same_refs_refl.
  - bind_step H as [h1 b'] Eb. injection H as <- <-. eapply IH; eauto.
Qed.

Lemma fields_refs : forall fs h h' fs',
  resolve_fields (resolve_object types fuel) types h fs = Ok (h', fs') ->
  same_refs h h'.
Proof.
  induction fs as [|f fs IH]; intros h h' fs' H; simpl in H.
  - injection H as <- <-. apply same_refs_refl.
  - bind_step H as [h1 t] Et. bind_step H as [h2 rest] Er.
    injection H as <- <-.
    eapply same_refs_trans; [eapply field_refs; eauto|eapply IH; eauto].
Qed.

Lemma object_refs h x h' x' :
  resolve_object types (S fuel) h x = Ok (h', x') -> same_refs h h'.
Proof.
  intros H. simpl in H. bind_step H as o Eo. apply read_Ok in Eo.
  destruct (kind o) as [r|[s|b0]| | |d [p|]| | | |u m sx eb|] eqn:Hk.
  - bind_step H as y Ey. injection H as <- <-. apply same_refs_refl.
  - injection H as <- <-. apply same_refs_refl.
  - bind_step H as [h1 b1] E1. bind_step H as o1 Eo1. injection H as <- <-.
    apply read_Ok in Eo1.
    pose proof (below _ _ _ _ E1) as Hs1.
    eapply same_refs_trans; [exact Hs1|].
    destruct Hs1 as [_ Hs1]. destruct (Hs1 x o Eo) as (o1' & Ho1' & Hc).
    assert (o1' = o1) by congruence. subst o1'.
    apply (same_refs_write _ _ o1); [exact Eo1|].
    unfold is_TypeRef in *. rewrite Hk in Hc. simpl. exact (eq_sym Hc).
  - injection H as <- <-. apply same_refs_refl.
  - injection H as <- <-. apply same_refs_refl.
  - bind_step H as po Ep. destruct (kind po) as [r| | | | | | | | |];
      try (injection H as <- <-; apply same_refs_refl).
    destruct (Field.opt_eqb r "").
    + injection H as <- <-.
      apply (same_refs_write _ _ o); [exact Eo|].
      unfold is_TypeRef. rewrite Hk. reflexivity.
    + bind_step H as [h1 p1] E1. injection H as <- <-.
      pose proof (below _ _ _ _ E1) as Hs1.
      eapply same_refs_trans; [exact Hs1|].
      destruct Hs1 as [_ Hs1]. destruct (Hs1 x o Eo) as (o1 & Ho1 & Hc).
      apply (same_refs_write _ _ o1); [exact Ho1|].
      unfold is_TypeRef in *. rewrite Hk in Hc. simpl. exact (eq_sym Hc).
  - injection H as <- <-. apply same_refs_refl.
  - injection H as <- <-. apply same_refs_refl.
  - injection H as <- <-. apply same_refs_refl.
  - injection H as <- <-. apply same_refs_refl.
  - bind_step H as [h1 ms] E1. bind_step H as o1 Eo1. apply read_Ok in Eo1.
    destruct (kind o1) as [| | | | | | | |u1 m1 sx1 eb1|] eqn:Hk1;
      try discriminate H.
    injection H as <- <-.
    eapply same_refs_trans; [eapply fields_refs; exact E1|].
    apply (same_refs_write _ _ o1); [exact Eo1|].
    unfold is_TypeRef. rewrite Hk1. reflexivity.
  - injection H as <- <-. apply same_refs_refl.
Qed.

End refs.

Lemma resolve_object_refs types fuel : forall h x h' x',
  resolve_object types fuel h x = Ok (h', x') -> same_refs h h'.
Proof.
  induction fuel as [|fuel IH]; intros h x h' x' H; [discriminate H|].
  eapply object_refs; eauto.
Qed.

(** On an object that is no reference, [__resolve_typeref] returns the
    object itself. *)
Lemma resolve_object_same types fuel h a h' a' :
  resolve_object types fuel h a = Ok (h', a') ->
  (forall o, h !! a = Some o -> is_TypeRef o = false) ->
  a' = a.
Proof.
  destruct fuel as [|fuel]; intros H Hn; [discriminate H|].
  simpl in H. bind_step H as o Eo. apply read_Ok in Eo.
  specialize (Hn o Eo). unfold is_TypeRef in Hn.
  destruct (kind o) as [r|[s|b0]| | |d [p|]| | | |u m sx eb|] eqn:Hk;
    try discriminate Hn;
    try (injection H as <- <-; reflexivity).
  - bind_step H as [h1 b1] E1. bind_step H as o1 Eo1.
    injection H as <- <-. reflexivity.
  - bind_step H as po Ep. destruct (kind po) as [r| | | | | | | | |];
      try (injection H as <- <-; reflexivity).
    destruct (Field.opt_eqb r "").
    + injection H as <- <-. reflexivity.
    + bind_step H as [h1 p1] E1. injection H as <- <-. reflexivity.
  - bind_step H as [h1 ms] E1. bind_step H as o1 Eo1.
    destruct (kind o1) as [| | | | | | | |u1 m1 sx1 eb1|]; try discriminate H.
    injection H as <- <-. reflexivity.
Qed.

(** A later resolution of a field, for a command that is bound to several
    names: the objects stay in their places. *)
Lemma resolve_again types fuel : forall t0 t h h' t',
  replaced types t0 t ->
  no_ref_bound types h ->
  resolve_type_of_field (resolve_object types fuel) types h t = Ok (h', t') ->
  t' = t /\ same_refs h h'.
Proof.
  induction t0 as [r|a|c b IH l|c b IH l p|c b IH|c b IH];
    intros [r'|a'|c' b' l'|c' b' l' p'|c' b'|c' b'] h h' t' Hr Hn H;
    simpl in Hr; try contradiction; simpl in H.
  - bind_step H as [h1 a1] E1. injection H as <- <-.
    pose proof (resolve_object_refs _ _ _ _ _ _ E1) as Hs.
    apply resolve_object_same in E1; [|intros o Ho; eapply Hn; eauto].
    subst a1. auto.
  - destruct Hr as (_ & _ & Hr).
    bind_step H as [h1 b1] Eb. injection H as <- <-.
    destruct (IH _ _ _ _ Hr Hn Eb) as [-> Hs]. auto.
  - destruct Hr as (_ & _ & _ & Hr).
    bind_step H as [h1 b1] Eb. injection H as <- <-.
    destruct (IH _ _ _ _ Hr Hn Eb) as [-> Hs]. auto.
  - injection H as <- <-. split; [reflexivity|apply same_refs_refl].
  - destruct Hr as (_ & Hr).
    bind_step H as [h1 b1] Eb. injection H as <- <-.
    destruct (IH _ _ _ _ Hr Hn Eb) as [-> Hs]. auto.
Qed.

Lemma with_type_same f : with_type f (Field.f_type f) = f.
Proof. destruct f. reflexivity. Qed.

Lemma resolve_fields_again types fuel : forall fs0 fs h h' fs',
  Forall2 (field_replaced types) fs0 fs ->
  no_ref_bound types h ->
  resolve_fields (resolve_object types fuel) types h fs = Ok (h', fs') ->
  fs' = fs /\ same_refs h h'.
Proof.
  intros fs0 fs h h' fs' HF. revert h h' fs'.
  induction HF as [|f0 f fs0 fs [_ Hr] _ IH]; intros h h' fs' Hn H; simpl in H.
  - injection H as <- <-. split; [reflexivity|apply same_refs_refl].
  - bind_step H as [h1 t] Et. bind_step H as [h2 rest] Er.
    injection H as <- <-.
    destruct (resolve_again _ _ _ _ _ _ _ Hr Hn Et) as [-> Hs1].
    destruct (IH _ _ _ (no_ref_bound_later _ _ _ Hs1 Hn) Er) as [-> Hs2].
    split; [rewrite with_type_same; reflexivity|].
    eapply same_refs_trans; eauto.
Qed.

(** The parameters of [cmd] are those of [cmd0] with the references
    replaced. *)
Definition related (types : Py.dict Py.key addr) (cmd0 cmd : Command) : Prop :=
  Forall2 (field_replaced types) (parameters cmd0) (parameters cmd).

(** A command in the course of the second loop: not visited yet, or
    resolved. *)
Definition state (types : Py.dict Py.key addr) (cmd0 cmd : Command) : Prop :=
  (cmd = cmd0 /\ fresh (parameters cmd0)) \/ related types cmd0 cmd.

Lemma finish_commands_replaced types fuel (hc0 : cstore) cs : forall h hc h' hc',
  finish_commands types fuel h hc cs = Ok (h', hc') ->
  no_ref_bound types h ->
  (forall c cmd, hc !! c = Some cmd ->
     exists cmd0, hc0 !! c = Some cmd0 /\ state types cmd0 cmd) ->
  forall c,
    In c cs \/ (exists cmd0 cmd, hc0 !! c = Some cmd0 /\ hc !! c = Some cmd
                                 /\ related types cmd0 cmd) ->
    exists cmd0 cmd', hc0 !! c = Some cmd0 /\ hc' !! c = Some cmd'
                      /\ related types cmd0 cmd'.
Proof.
  induction cs as [|c1 cs IH]; intros h hc h' hc' H Hn HP c Hc; simpl in H.
  - injection H as <- <-. destruct Hc as [[]|Hc]. exact Hc.
  - bind_step H as cmd1 E1. apply or_raise_Ok_inv in E1.
    bind_step H as [h1 ps] Ef. bind_step H as b Eb.
    destruct (HP _ _ E1) as (cmd01 & H01 & Hst).
    assert (Hnew : Forall2 (field_replaced types) (parameters cmd01) ps
                   /\ no_ref_bound types h1).
    { destruct Hst as [[-> Hfr]|Hrel].
      - destruct (resolve_fields_fresh _ _ _ _ _ _ Hfr Ef) as [-> HF]. auto.
      - destruct (resolve_fields_again _ _ _ _ _ _ _ Hrel Hn Ef) as [-> Hs].
        split; [exact Hrel|]. eapply no_ref_bound_later; eauto. }
    destruct Hnew as [HF Hn1].
    pose proof (lookup_lt_Some _ _ _ E1) as Hlt.
    apply (IH _ _ _ _ H Hn1).
    + intros c2 cmd2 Hc2. unfold cwrite in Hc2.
      destruct (decide (c1 = c2)) as [<-|Hne].
      * rewrite list_lookup_insert_eq in Hc2 by exact Hlt.
        injection Hc2 as <-. exists cmd01. split; [exact H01|].
        right. exact HF.
      * rewrite list_lookup_insert_ne in Hc2 by exact Hne. eauto.
    + destruct (decide (c1 = c)) as [<-|Hne].
      * right. eexists cmd01, _. split; [exact H01|].
        split; [unfold cwrite; apply list_lookup_insert_eq; exact Hlt|exact HF].
      * destruct Hc as [[Heq|Hin]|(cmd0 & cmd & H0 & Hcc & Hrel)];
          [contradiction|left; exact Hin|].
        right. exists cmd0, cmd. split; [exact H0|]. split; [|exact Hrel].
        unfold cwrite. rewrite list_lookup_insert_ne by exact Hne. exact Hcc.
Qed.

(** X22: let the catalog bind no name to a reference.  After
    [__parse_commands] the parameters of every command that the registry
    binds are the parameters of the command as the first loop made it, the
    parser having left references only, with each reference replaced by the
    object that the catalog binds to its name: the modifiers around it and
    the other attributes of the parameter are the same, and what lies below
    a [NextPtr] is as the parser left it.  So it is for a command that is
    bound to several names, which the second loop visits once for each. *)
Theorem commands_resolved types fuel h aliases root r :
  __parse_commands types fuel h aliases root = Ok r ->
  no_ref_bound types h ->
  exists hc aliases',
    bind_commands h types [] [] aliases
                  (findall_path root ["commands"; "command"])
      = Ok (hc, p_commands r, aliases')
    /\ forall k c, Py.get (p_commands r) k = Some c ->
         exists cmd0 cmd,
           hc !! c = Some cmd0
           /\ fresh (parameters cmd0)
           /\ p_commands_store r !! c = Some cmd
           /\ Forall2 (field_replaced types) (parameters cmd0) (parameters cmd)
           /\ all_resolved (parameters cmd).
Proof.
  unfold __parse_commands. intros H Hn.
  bind_step H as [[hc commands] aliases'] Eb.
  bind_step H as [h' hc'] Ef. injection H as <-. simpl.
  exists hc, aliases'. split; [reflexivity|].
  intros k c Hk.
  assert (Hfresh : forall c cmd, hc !! c = Some cmd -> fresh (parameters cmd)).
  { eapply bind_commands_fresh; [exact Eb|]. intros c0 cmd0 Hc0. discriminate Hc0. }
  destruct (finish_commands_replaced types fuel hc _ _ _ _ _ Ef Hn) with (c := c)
    as (cmd0 & cmd & H0 & Hc & Hrel).
  - intros c0 cmd0 Hc0. exists cmd0. split; [exact Hc0|]. left. eauto.
  - left. unfold Py.values. apply in_map_iff. exists (k, c).
    split; [reflexivity|]. apply DictFacts.get_In. exact Hk.
  - exists cmd0, cmd. split; [exact H0|]. split; [eauto|]. split; [exact Hc|].
    split; [exact Hrel|].
    unfold all_resolved. clear -Hrel. unfold related in Hrel.
    induction Hrel as [|f0 f l0 l [_ Hr] _ IH]; constructor; [|exact IH].
    eapply replaced_resolved. exact Hr.
Qed.

Lemma ex_catalog_no_ref :
  no_ref_bound CommandFacts.ex_catalog_types CommandFacts.ex_catalog.
Proof.
  intros k a o _ Ho.
  do 6 (destruct a as [|a]; [injection Ho as <-; reflexivity|]).
  discriminate Ho.
Qed.

Lemma commands_resolved_witness :
  exists hc aliases',
    bind_commands CommandFacts.ex_catalog CommandFacts.ex_catalog_types [] [] []
                  (findall_path CommandFacts.ex_commands ["commands"; "command"])
      = Ok (hc, p_commands CommandFacts.ex_parsed_commands, aliases')
    /\ forall k c, Py.get (p_commands CommandFacts.ex_parsed_commands) k = Some c ->
         exists cmd0 cmd,
           hc !! c = Some cmd0
           /\ fresh (parameters cmd0)
           /\ p_commands_store CommandFacts.ex_parsed_commands !! c = Some cmd
           /\ Forall2 (field_replaced CommandFacts.ex_catalog_types)
                      (parameters cmd0) (parameters cmd)
           /\ all_resolved (parameters cmd).
Proof.
  apply (commands_resolved CommandFacts.ex_catalog_types 2
           CommandFacts.ex_catalog [] CommandFacts.ex_commands
           CommandFacts.ex_parsed_commands).
  - reflexivity.
  - exact ex_catalog_no_ref.
Defined.

(** The parameters of vkResetQueryPool, which is bound to two names and is
    visited twice: the device and the number. *)
Example vkResetQueryPool_parameters :
  exists cmd,
    p_commands_store CommandFacts.ex_parsed_commands !! 0%nat = Some cmd
    /\ map Field.f_type (parameters cmd) = [Field.Obj 3%nat; Field.Obj 5%nat]
    /\ Py.get CommandFacts.ex_catalog_types (Some "VkDevice") = Some 3%nat
    /\ Py.get CommandFacts.ex_catalog_types (Some "uint32_t") = Some 5%nat.
Proof. eexists. split; [reflexivity|]. repeat split. Qed.

(** *** A struct that is reached through its own members *)

(** The object of the catalog that the resolution comes to when it goes
    down the type. *)
Fixpoint leaf_obj (t : Field.Ty) : option addr :=
  match t with
  | Field.Obj a => Some a
  | Field.TypeRef _ | Field.NextPtr _ _ => None
  | Field.FixedArray _ b _ | Field.DynamicArray _ b _ _ | Field.Pointer _ b =>
      leaf_obj b
  end.

(** The struct at [a] has a member whose type, already resolved, goes down
    to the struct itself. *)
Definition self_referent (h : store) (a : addr) : Prop :=
  exists o u m sx eb f,
    h !! a = Some o /\ kind o = Struct u m sx eb
    /\ In f m /\ leaf_obj (Field.f_type f) = Some a.

Definition returns {A} (r : result A) : Prop := exists x, r = Ok x.

Lemma bind_returns {A B} (r : result A) (k : A -> result B) :
  returns (bind r k) -> exists x, r = Ok x /\ returns (k x).
Proof.
  destruct r as [x| |]; simpl; intros [y Hy]; try discriminate.
  exists x. split; [reflexivity|]. exists y. exact Hy.
Qed.

Lemma self_referent_write h a b o' :
  self_referent h a -> b <> a -> self_referent (write h b o') a.
Proof.
  intros (o & u & m & sx & eb & f & Ho & Hk & Hin & Hl) Hne.
  exists o, u, m, sx, eb, f. rewrite read_write_ne by exact Hne. auto.
Qed.

Section self_reference.
Variables (types : Py.dict Py.key addr) (a : addr) (fuel : nat).

(** What the induction on the fuel gives for the calls one level down. *)
Hypothesis never : forall h,
  self_referent h a -> ~ returns (resolve_object types fuel h a).
Hypothesis keeps_it : forall h b h' b',
  resolve_object types fuel h b = Ok (h', b') ->
  self_referent h a -> self_referent h' a.

Lemma field_keeps : forall t h h' t',
  resolve_type_of_field (resolve_object types fuel) types h t = Ok (h', t') ->
  self_referent h a -> self_referent h' a.
Proof.
  induction t as [r|b|c b IH l|c b IH l p|c b IH|c b IH]; intros h h' t' H Hs;
    simpl in H.
  - bind_step H as x Ex. injection H as <- <-. exact Hs.
  - bind_step H as [h1 b'] Eb. injection H as <- <-. eapply keeps_it; eauto.
  - bind_step H as [h1 b'] Eb. injection H as <- <-. eapply IH; eauto.
  - bind_step H as [h1 b'] Eb. injection H as <- <-. eapply IH; eauto.
  - injection H as <- <-. exact Hs.
  - bind_step H as [h1 b'] Eb. injection H as <- <-. eapply IH; eauto.
Qed.

Lemma fields_keep : forall fs h h' fs',
  resolve_fields (resolve_object types fuel) types h fs = Ok (h', fs') ->
  self_referent h a -> self_referent h' a.
Proof.
  induction fs as [|f fs IH]; intros h h' fs' H Hs; simpl in H.
  - injection H as <- <-. exact Hs.
  - bind_step H as [h1 t] Et. bind_step H as [h2 rest] Er.
    injection H as <- <-. eapply IH; [exact Er|].
    eapply field_keeps; eauto.
Qed.

Lemma field_never : forall t h,
  leaf_obj t = Some a -> self_referent h a ->
  ~ returns (resolve_type_of_field (resolve_object types fuel) types h t).
Proof.
  induction t as [r|b|c b IH l|c b IH l p|c b IH|c b IH]; intros h Hl Hs Hr;
    simpl in Hl; try discriminate Hl; simpl in Hr;
    apply bind_returns in Hr as (x & Hx & _).
  - injection Hl as ->. apply (never h Hs). exists x. exact Hx.
  - apply (IH h Hl Hs). exists x. exact Hx.
  - apply (IH h Hl Hs). exists x. exact Hx.
  - apply (IH h Hl Hs). exists x. exact Hx.
Qed.

Lemma fields_never : forall fs h,
  (exists f, In f fs /\ leaf_obj (Field.f_type f) = Some a) ->
  self_referent h a ->
  ~ returns (resolve_fields (resolve_object types fuel) types h fs).
Proof.
  induction fs as [|f0 fs IH]; intros h (f & Hin & Hl) Hs Hr; [destruct Hin|].
  simpl in Hr. apply bind_returns in Hr as ([h1 t] & Et & Hr).
  apply bind_returns in Hr as ([h2 rest] & Er & _).
  destruct Hin as [->|Hin].
  - apply (field_never _ h Hl Hs). eexists. exact Et.
  - apply (IH h1); [eauto|eapply field_keeps; eauto|].
    eexists. exact Er.
Qed.

Lemma object_never h :
  self_referent h a -> ~ returns (resolve_object types (S fuel) h a).
Proof.
  intros Hs Hr. pose proof Hs as (o & u & m & sx & eb & f & Ho & Hk & Hin & Hl).
  simpl in Hr. rewrite (read_Some _ _ _ Ho) in Hr. simpl in Hr.
  rewrite Hk in Hr. apply bind_returns in Hr as (x & Hx & _).
  apply (fields_never m h); [eauto|exact Hs|]. exists x. exact Hx.
Qed.

Lemma object_keeps h b h' b' :
  resolve_object types (S fuel) h b = Ok (h', b') ->
  self_referent h a -> self_referent h' a.
Proof.
  intros H Hs. destruct (decide (b = a)) as [->|Hne].
  { exfalso. apply (object_never h Hs). eexists. exact H. }
  simpl in H. bind_step H as o Eo.
  destruct (kind o) as [r|[s|b0]| | |d [p|]| | | |u m sx eb|].
  - bind_step H as x Ex. injection H as <- <-. exact Hs.
  - injection H as <- <-. exact Hs.
  - bind_step H as [h1 b1] E1. bind_step H as o1 Eo1. injection H as <- <-.
    apply self_referent_write; [|exact Hne]. eapply keeps_it; eauto.
  - injection H as <- <-. exact Hs.
  - injection H as <- <-. exact Hs.
  - bind_step H as po Ep. destruct (kind po) as [r| | | | | | | | |];
      try (injection H as <- <-; exact Hs).
    destruct (Field.opt_eqb r "").
    + injection H as <- <-. apply self_referent_write; assumption.
    + bind_step H as [h1 p1] E1. injection H as <- <-.
      apply self_referent_write; [|exact Hne]. eapply keeps_it; eauto.
  - injection H as <- <-. exact Hs.
  - injection H as <- <-. exact Hs.
  - injection H as <- <-. exact Hs.
  - injection H as <- <-. exact Hs.
  - bind_step H as [h1 ms] E1. bind_step H as o1 Eo1.
    destruct (kind o1); try discriminate H. injection H as <- <-.
    apply self_referent_write; [|exact Hne]. eapply fields_keep; eauto.
  - injection H as <- <-. exact Hs.
Qed.

End self_reference.

Lemma self_reference types a : forall fuel,
  (forall h, self_referent h a -> ~ returns (resolve_object types fuel h a))
  /\ (forall h b h' b',
        resolve_object types fuel h b = Ok (h', b') ->
        self_referent h a -> self_referent h' a).
Proof.
  induction fuel as [|fuel [Hn Hk]].
  - split; [intros h _ [x Hx]; discriminate Hx|intros h b h' b' H; discriminate H].
  - split.
    + intros h. apply object_never; assumption.
    + intros h b h' b'. apply object_keeps; assumption.
Qed.

(** X23: the resolution of a struct one of whose members already holds, at
    the bottom of its type, the struct itself never returns: whatever the
    fuel it is cut short, unless the resolution of an earlier member has
    raised.  [__resolve_typeref] goes down the members of the objects it
    meets, and here it meets the struct again. *)
Theorem resolve_self_reference types fuel h a :
  self_referent h a ->
  resolve_object types fuel h a = OutOfFuel
  \/ exists e, resolve_object types fuel h a = Raise e.
Proof.
  intros Hs. destruct (self_reference types a fuel) as [Hn _].
  specialize (Hn h Hs).
  destruct (resolve_object types fuel h a) as [x|e|]; eauto.
  exfalso. apply Hn. exists x. reflexivity.
Qed.

(** [struct VkBaseOutStructure { VkStructureType sType;
    struct VkBaseOutStructure* pNext; }], the members resolved. *)
Definition ex_base_out : store :=
  [ mkObj (Some "VkBaseOutStructure") [] None
      (Struct false
         [ Field.mkField (Some "sType") (Field.Obj 1%nat) false false None []
                         (Field.member [] None []);
           Field.mkField (Some "pNext") (Field.Pointer false (Field.Obj 0%nat))
                         false true None [] (Field.member [] None []) ]
         (ByObject []) []);
    mkObj (Some "VkStructureType") [] None (Enum [] false 32) ].

Lemma resolve_self_reference_witness :
  resolve_object [(Some "VkBaseOutStructure", 0%nat)] 7 ex_base_out 0%nat = OutOfFuel
  \/ exists e,
       resolve_object [(Some "VkBaseOutStructure", 0%nat)] 7 ex_base_out 0%nat
       = Raise e.
Proof.
  apply (resolve_self_reference [(Some "VkBaseOutStructure", 0%nat)] 7
           ex_base_out 0%nat).
  eexists _, _, _, _, _, _. split; [reflexivity|]. split; [reflexivity|].
  split; [right; left; reflexivity|reflexivity].
Defined.

End ResolveFacts.

(** ** The order of the command elements *)

Module CommandOrder.

Import XML Catalog DictFacts Commands.

Lemma bind_commands_app h types pre : forall hc commands aliases rest,
  bind_commands h types hc commands aliases (pre ++ rest)
  = (let! (hc1, commands1, aliases1) :=
       bind_commands h types hc commands aliases pre in
     bind_commands h types hc1 commands1 aliases1 rest).
Proof.
  induction pre as [|ce pre IH]; intros hc commands aliases rest; simpl;
    [reflexivity|].
  destruct (get ce "alias") as [al|].
  - destruct (Py.getitem commands (Some al)); simpl; [apply IH|reflexivity..].
  - destruct (Command_init h types aliases ce); simpl; [apply IH|reflexivity..].
Qed.

(** X24: a command element with an [alias] must come after the element
    that binds the aliased name: where the elements before it parse and
    none of them binds that name, [__parse_commands] raises [KeyError]. *)
Theorem alias_before_target types fuel h aliases root pre ce rest al r :
  findall_path root ["commands"; "command"] = (pre ++ ce :: rest)%list ->
  bind_commands h types [] [] aliases pre = Ok r ->
  List.NoDup (map entry_key pre) ->
  get ce "alias" = Some al ->
  ~ In (Some al) (map entry_key pre) ->
  __parse_commands types fuel h aliases root = Raise KeyError.
Proof.
  intros Hces Hpre Hnd Hal Hnot. unfold __parse_commands.
  rewrite Hces, bind_commands_app, Hpre. destruct r as [[hc1 commands1] aliases1].
  cbn [bind]. simpl. rewrite Hal.
  apply CommandFacts.bind_commands_spec in Hpre as (_ & Hsame & _);
    [|exact Hnd|intros k v Hg; discriminate Hg].
  unfold Py.getitem. rewrite (Hsame _ Hnot). reflexivity.
Qed.

Definition ex_alias_first : Element :=
  registry [CommandFacts.ex_vkResetQueryPoolEXT; CommandFacts.ex_vkResetQueryPool].

Lemma alias_before_target_witness :
  __parse_commands CommandFacts.ex_catalog_types 2 CommandFacts.ex_catalog []
                   ex_alias_first
  = Raise KeyError.
Proof.
  apply (alias_before_target CommandFacts.ex_catalog_types 2
           CommandFacts.ex_catalog [] ex_alias_first []
           CommandFacts.ex_vkResetQueryPoolEXT [CommandFacts.ex_vkResetQueryPool]
           "vkResetQueryPool" ([], [], [])).
  - reflexivity.
  - reflexivity.
  - constructor.
  - reflexivity.
  - intros [].
Defined.

End CommandOrder.

(** ** The types of the document: aliases and handles *)

Module TypeFacts.

Import XML Catalog DictFacts StoreFacts Types.

(** Every entry of the map of aliases is a [TypeAlias] that bears the name
    under which it stands. *)
Definition own_names (aliases : Py.dict Py.key Field.alias_entry) : Prop :=
  forall k e, Py.get aliases k = Some e -> e = Field.AliasType k.

Lemma bind_type_aliases types aliases r h' types' aliases' :
  bind_type types aliases r = Ok (h', types', aliases') -> aliases' = aliases.
Proof.
  unfold bind_type. intros H. bind_step H as [h a] E. bind_step H as o Eo.
  injection H as _ _ <-. reflexivity.
Qed.

Lemma parse_type_own c te c' :
  parse_type c te = Ok c' -> own_names c.2 -> own_names c'.2.
Proof.
  destruct c as [[h types] aliases], c' as [[h' types'] aliases'].
  unfold parse_type. simpl. intros H Hown.
  destruct (get te "alias") as [alias|].
  - bind_step H as target Et. unfold alloc in H. injection H as _ _ <-.
    intros k e. rewrite get_set. case_decide as E; [|apply Hown].
    intros [= <-]. congruence.
  - repeat match type of H with
           | (if ?b then _ else _) = _ => destruct b
           end;
      try (apply bind_type_aliases in H; subst aliases'; exact Hown).
    injection H as _ _ <-. exact Hown.
Qed.

Lemma parse_types_own tes : forall c c',
  parse_types c tes = Ok c' -> own_names c.2 -> own_names c'.2.
Proof.
  induction tes as [|te tes IH]; intros c c' H Hown; simpl in H.
  - injection H as <-. exact Hown.
  - bind_step H as c1 E1. eapply IH; [exact H|].
    eapply parse_type_own; eauto.
Qed.

Lemma own_names_lookup aliases base_type_name :
  own_names aliases ->
  match Py.get aliases base_type_name with
  | Some a => Field.alias_name a
  | None => Ok base_type_name
  end = Ok base_type_name.
Proof.
  intros Hown. destruct (Py.get aliases base_type_name) as [e|] eqn:E;
    [|reflexivity].
  rewrite (Hown _ _ E). reflexivity.
Qed.

(** X25: the map of aliases that the loop of [__parse_types] builds binds
    each name to a [TypeAlias] of that very name, so that the lookup of the
    type name in [parse_parameter_or_member] changes nothing: a member or a
    parameter is parsed as it would be with no alias at all. *)
Theorem type_aliases_change_no_name h types tes h' types' aliases'
    obj_name me parent :
  parse_types (h, types, []) tes = Ok (h', types', aliases') ->
  own_names aliases'
  /\ Field.parse_parameter_or_member obj_name aliases' me parent
     = Field.parse_parameter_or_member obj_name [] me parent.
Proof.
  intros H. apply parse_types_own in H; [|intros k e Hk; discriminate Hk].
  simpl in H. split; [exact H|].
  unfold Field.parse_parameter_or_member.
  destruct (find_text me ["name"]) as [fname| |]; try reflexivity.
  destruct (find_text me ["type"]) as [tname| |]; try reflexivity.
  cbn [bind]. rewrite (own_names_lookup _ _ H). reflexivity.
Qed.

(** [<type category="struct" name="VkMemoryRequirements2">...</type>] and
    [<type category="struct" name="VkMemoryRequirements2KHR"
    alias="VkMemoryRequirements2"/>] *)
Definition ex_type_elems : list Element :=
  [ mkElement "type" [("category", "struct"); ("name", "VkMemoryRequirements2")]
              None [Field.ex_pNext] None;
    mkElement "type" [("category", "struct"); ("name", "VkMemoryRequirements2KHR");
                      ("alias", "VkMemoryRequirements2")] None [] None ].

Definition ex_types_parsed : catalog :=
  Eval cbv in
    match parse_types ([], [], []) ex_type_elems with
    | Ok c => c
    | _ => ([], [], [])
    end.

Definition ex_pType : Element :=
  Field.param [] None
    [ Field.leaf "type" "VkMemoryRequirements2KHR" (Some "* ");
      Field.leaf "name" "pMemoryRequirements" None ].

Lemma type_aliases_change_no_name_witness :
  own_names ex_types_parsed.2
  /\ Field.parse_parameter_or_member FieldFacts.no_objects ex_types_parsed.2 ex_pType
       (Field.OwnerCommand (Some "vkGetImageMemoryRequirements2KHR"))
     = Field.parse_parameter_or_member FieldFacts.no_objects [] ex_pType
         (Field.OwnerCommand (Some "vkGetImageMemoryRequirements2KHR")).
Proof.
  apply (type_aliases_change_no_name [] [] ex_type_elems ex_types_parsed.1.1
           ex_types_parsed.1.2 ex_types_parsed.2).
  reflexivity.
Defined.

Example ex_types_parsed_aliases :
  ex_types_parsed.2
  = [(Some "VkMemoryRequirements2KHR", Field.AliasType (Some "VkMemoryRequirements2KHR"))]
  /\ Py.keys ex_types_parsed.1.2
     = [Some "VkMemoryRequirements2"; Some "VkMemoryRequirements2KHR"].
Proof. split; reflexivity. Qed.

(** *** The parent of a handle *)

Lemma Handle_init_eq h te h1 a :
  Handle_init h te = Ok (h1, a) ->
  exists n t,
    find_text te ["name"] = Ok n /\ find_text te ["type"] = Ok t
    /\ a = S (List.length h)
    /\ h1 = (h ++ [mkObj (Some (get_default te "parent" "")) [] None
                         (TypeRef (Some (get_default te "parent" "")));
                   mkObj n [] (Some te)
                         (Handle (Field.opt_eqb t "VK_DEFINE_HANDLE")
                                 (Some (List.length h)))])%list.
Proof.
  unfold Handle_init, alloc. intros H.
  bind_step H as n En. bind_step H as t Et. injection H as <- <-.
  exists n, t. repeat split; auto.
  - rewrite length_app. simpl. lia.
  - rewrite <- app_assoc. reflexivity.
Qed.

Lemma resolve_handle types fuel h a o d p po ref :
  h !! a = Some o -> kind o = Handle d (Some p) ->
  h !! p = Some po -> kind po = TypeRef ref ->
  Commands.resolve_object types (S (S fuel)) h a
  = if Field.opt_eqb ref ""
    then Ok (write h a (with_kind o (Handle d None)), a)
    else let! b := Py.getitem types ref in
         Ok (write h a (with_kind o (Handle d (Some b))), a).
Proof.
  intros Ho Hk Hp Hkp. cbn [Commands.resolve_object].
  rewrite (CatalogFacts.read_Some _ _ _ Ho). cbn [bind]. rewrite Hk.
  rewrite (CatalogFacts.read_Some _ _ _ Hp). cbn [bind]. rewrite Hkp.
  destruct (Field.opt_eqb ref ""); [reflexivity|].
  destruct (Py.getitem types ref); reflexivity.
Qed.

(** X26: the parent of a handle.  A handle made from an element has for
    parent a reference by name; its resolution makes the parent None when
    the element has no [parent] attribute, or an empty one, and otherwise
    the type that bears the name given there, with [KeyError] when there is
    none. *)
Theorem handle_parent h te h1 a types fuel :
  Handle_init h te = Ok (h1, a) ->
  exists o d p,
    h1 !! a = Some o /\ kind o = Handle d (Some p)
    /\ Commands.resolve_object types (S (S fuel)) h1 a
       = if String.eqb (get_default te "parent" "") ""
         then Ok (write h1 a (with_kind o (Handle d None)), a)
         else let! b := Py.getitem types (Some (get_default te "parent" "")) in
              Ok (write h1 a (with_kind o (Handle d (Some b))), a).
Proof.
  intros H. apply Handle_init_eq in H as (n & t & _ & _ & -> & ->).
  exists (mkObj n [] (Some te)
                (Handle (Field.opt_eqb t "VK_DEFINE_HANDLE") (Some (List.length h)))),
         (Field.opt_eqb t "VK_DEFINE_HANDLE"), (List.length h).
  assert (Ho : forall x y : obj, (h ++ [x; y])%list !! S (List.length h) = Some y).
  { intros x y.
    replace (h ++ [x; y])%list with ((h ++ [x]) ++ [y])%list
      by (rewrite <- app_assoc; reflexivity).
    apply list_lookup_middle. rewrite length_app. simpl. lia. }
  split; [apply Ho|]. split; [reflexivity|].
  erewrite resolve_handle;
    [|apply Ho|reflexivity|apply list_lookup_middle; reflexivity|reflexivity].
  reflexivity.
Qed.

(** [<type category="handle" parent="VkSurfaceKHR"><type>VK_DEFINE_NON_DISPATCHABLE_HANDLE</type>(<name>VkSwapchainKHR</name>)</type>] *)
Definition ex_handle_elem : Element :=
  mkElement "type" [("category", "handle"); ("parent", "VkSurfaceKHR")] None
    [ Field.leaf "type" "VK_DEFINE_NON_DISPATCHABLE_HANDLE" (Some "(");
      Field.leaf "name" "VkSwapchainKHR" (Some ")") ] None.

Definition ex_handle_made : store * addr :=
  Eval cbv in
    match Handle_init [handle "VkSurfaceKHR" None] ex_handle_elem with
    | Ok r => r
    | _ => ([], 0%nat)
    end.

Lemma handle_parent_witness :
  exists o d p,
    ex_handle_made.1 !! 2%nat = Some o /\ kind o = Handle d (Some p)
    /\ Commands.resolve_object [(Some "VkSurfaceKHR", 0%nat)] 2 ex_handle_made.1 2%nat
       = if String.eqb (get_default ex_handle_elem "parent" "") ""
         then Ok (write ex_handle_made.1 2%nat (with_kind o (Handle d None)), 2%nat)
         else let! b := Py.getitem [(Some "VkSurfaceKHR", 0%nat)]
                                   (Some (get_default ex_handle_elem "parent" "")) in
              Ok (write ex_handle_made.1 2%nat (with_kind o (Handle d (Some b))), 2%nat).
Proof.
  apply (handle_parent [handle "VkSurfaceKHR" None] ex_handle_elem
           ex_handle_made.1 2%nat [(Some "VkSurfaceKHR", 0%nat)] 0%nat).
  reflexivity.
Defined.

End TypeFacts.

(** ** The length of a dynamic array *)

Module LengthFacts.

Import XML Catalog Length.

Definition field (n : string) (t : Field.Ty) : Field.Field :=
  Field.mkField (Some n) t false false None [] (Field.param [] None []).

(** uint32_t, VkDescriptorSetAllocateInfo with its count, and
    VkPipelineMultisampleStateCreateInfo with its samples. *)
Definition ex_length_store : store :=
  [ base_type "uint32_t";
    mkObj (Some "VkDescriptorSetAllocateInfo") [] None
          (Struct false [field "descriptorSetCount" (Field.Obj 0%nat)]
                  (ByObject []) []) ].

(** The parameters of vkAllocateDescriptorSets and of
    vkEnumeratePhysicalDevices, and the members of
    VkPipelineMultisampleStateCreateInfo. *)
Definition ex_allocate : list Field.Field :=
  [ field "device" (Field.Obj 0%nat);
    field "pAllocateInfo" (Field.Pointer true (Field.Obj 1%nat));
    field "pDescriptorSets"
          (Field.DynamicArray false (Field.Obj 0%nat)
             "pAllocateInfo->descriptorSetCount"
             (Field.OwnerCommand (Some "vkAllocateDescriptorSets"))) ].

Definition ex_enumerate : list Field.Field :=
  [ field "instance" (Field.Obj 0%nat);
    field "pPhysicalDeviceCount" (Field.Pointer false (Field.Obj 0%nat)) ].

Definition ex_multisample : list Field.Field :=
  [ field "rasterizationSamples" (Field.Obj 0%nat) ].

Example length_through_struct :
  length_expr ex_length_store ex_allocate "pAllocateInfo->descriptorSetCount" None
    = Ok "pAllocateInfo->descriptorSetCount"
  /\ length_expr ex_length_store ex_allocate "pAllocateInfo->descriptorSetCount"
                 (Some "my_args")
     = Ok "my_args.pAllocateInfo->descriptorSetCount".
Proof. split; reflexivity. Qed.

Example length_of_pointer :
  length_expr ex_length_store ex_enumerate "pPhysicalDeviceCount" None
    = Ok "*pPhysicalDeviceCount"
  /\ length_expr ex_length_store ex_enumerate "pPhysicalDeviceCount" (Some "my_args")
     = Ok "*my_args.pPhysicalDeviceCount".
Proof. split; reflexivity. Qed.

Example length_in_expression :
  length_expr ex_length_store ex_multisample "(rasterizationSamples + 31) / 32"
              (Some "my_obj")
    = Ok "(my_obj.rasterizationSamples + 31) / 32"
  /\ length_expr ex_length_store ex_multisample "2*VK_UUID_SIZE" (Some "my_obj")
     = Ok "2*VK_UUID_SIZE".
Proof. split; reflexivity. Qed.

(** *** Strings *)

Fixpoint all_word (s : string) : bool :=
  match s with
  | EmptyString => true
  | String c r => (Py.is_word c && all_word r)%bool
  end.

Lemma run_all_word s : all_word s = true -> run s = s.
Proof.
  induction s as [|c r IH]; simpl; [reflexivity|].
  intros H. apply andb_true_iff in H as [Hc Hr]. rewrite Hc, IH by exact Hr.
  reflexivity.
Qed.

Lemma word_not_dash c : Py.is_word c = true -> Ascii.eqb c "-" = false.
Proof.
  intros H. destruct (Ascii.eqb c "-") eqn:E; [|reflexivity].
  apply Ascii.eqb_eq in E. subst c. discriminate H.
Qed.

Lemma split_arrow_word s : all_word s = true -> split_arrow s = [s].
Proof.
  induction s as [|c r IH]; simpl; [reflexivity|].
  intros H. apply andb_true_iff in H as [Hc Hr].
  rewrite (word_not_dash _ Hc), IH by exact Hr. reflexivity.
Qed.

Lemma alpha_word c : is_alpha c = true -> Py.is_word c = true.
Proof.
  unfold is_alpha, Py.is_word.
  destruct (Py.ascii_in 48 57 c), (Py.ascii_in 65 90 c), (Py.ascii_in 97 122 c);
    simpl; intros H; try reflexivity; discriminate H.
Qed.

Lemma append_cons c s t : String c s ++ t = String c (s ++ t).
Proof. reflexivity. Qed.

Lemma append_empty s : s ++ "" = s.
Proof.
  induction s as [|c s IH]; [reflexivity|].
  rewrite append_cons, IH. reflexivity.
Qed.

Lemma startswith_refl s : Py.startswith s s = true.
Proof.
  induction s as [|c s IH]; simpl; [reflexivity|].
  rewrite Ascii.eqb_refl, IH. reflexivity.
Qed.

Lemma startswith_drop p : forall s,
  Py.startswith p s = true -> p ++ Py.drop (String.length p) s = s.
Proof.
  induction p as [|a p IH]; intros [|b s]; simpl; try reflexivity;
    try discriminate.
  intros H. apply andb_true_iff in H as [Hab Hp].
  apply Ascii.eqb_eq in Hab. subst b.
  rewrite append_cons, IH by exact Hp. reflexivity.
Qed.

Lemma replace_from_skip old new s : forall k,
  (String.length s <= k)%nat -> replace_from old new k s = "".
Proof.
  induction s as [|c s IH]; intros k Hk; simpl; [reflexivity|].
  destruct k as [|k]; simpl in Hk; [lia|]. apply IH. lia.
Qed.

(** A string replaced as a whole. *)
Lemma str_replace_whole c r new :
  str_replace (String c r) new (String c r) = new.
Proof.
  unfold str_replace. cbn [replace_from].
  rewrite startswith_refl. cbn [String.length]. rewrite Nat.sub_1_r. simpl.
  rewrite replace_from_skip by lia. apply append_empty.
Qed.

Lemma replace_from_same a old s : forall k,
  replace_from (String a old) (String a old) k s = Py.drop k s.
Proof.
  induction s as [|c s IH]; intros k; [destruct k; reflexivity|].
  destruct k as [|k]; [|simpl; apply IH].
  cbn [replace_from Py.drop].
  destruct (Py.startswith (String a old) (String c s)) eqn:E.
  - rewrite IH. simpl in E. apply andb_true_iff in E as [Ha Hs].
    apply Ascii.eqb_eq in Ha. subst a.
    cbn [String.length]. rewrite Nat.sub_1_r. simpl.
    rewrite append_cons, (startswith_drop _ _ Hs). reflexivity.
  - rewrite IH. reflexivity.
Qed.

Lemma interleave_empty s : interleave "" s = s.
Proof.
  induction s as [|c s IH]; [reflexivity|].
  change (String c (interleave "" s) = String c s). f_equal. exact IH.
Qed.

(** A string replaced by itself: nothing changes. *)
Lemma str_replace_same old s : str_replace old old s = s.
Proof.
  unfold str_replace. destruct old as [|a old]; [apply interleave_empty|].
  apply replace_from_same.
Qed.

(** X27: where the length is an identifier of two characters or more that
    names a field of the parent, [length_expr] returns that name behind the
    object expression and a dot, where there is an object expression, and
    behind a star, where the field is a pointer. *)
Theorem length_expr_of_field h fs c r obj_expr f :
  is_alpha c = true -> all_word r = true -> r <> "" ->
  find_field fs (String c r) = Some f ->
  length_expr h fs (String c r) obj_expr
  = Ok (let e := match obj_expr with
                 | Some o => o ++ "." ++ String c r
                 | None => String c r
                 end in
        if is_pointer (Field.f_type f) then "*" ++ e else e).
Proof.
  intros Hc Hr Hne Hf.
  assert (Hs : re_search (String c r) = Some (String c r)).
  { unfold re_search. cbn [search]. rewrite (run_all_word _ Hr), Hc.
    destruct r; [contradiction|reflexivity]. }
  assert (Hw : all_word (String c r) = true)
    by (simpl; rewrite (alpha_word _ Hc), Hr; reflexivity).
  unfold length_expr, length_field.
  rewrite Hs, (split_arrow_word _ Hw). cbn [List.removelast List.last inner_fields bind].
  rewrite Hf. cbn [bind]. rewrite str_replace_whole. reflexivity.
Qed.

Lemma length_expr_of_field_witness :
  length_expr ex_length_store ex_enumerate "pPhysicalDeviceCount" (Some "my_args")
  = Ok (let e := "my_args" ++ "." ++ "pPhysicalDeviceCount" in
        if is_pointer (Field.Pointer false (Field.Obj 0%nat)) then "*" ++ e else e).
Proof.
  apply (length_expr_of_field ex_length_store ex_enumerate "p" "PhysicalDeviceCount"
           (Some "my_args")
           (field "pPhysicalDeviceCount" (Field.Pointer false (Field.Obj 0%nat))));
    try reflexivity.
  discriminate.
Defined.

(** X28: without an object expression [length_expr] returns the length as
    it is, whatever the length, unless the field that it names is a
    pointer. *)
Theorem length_expr_without_object h fs length s :
  length_expr h fs length None = Ok s ->
  (forall n f, length_field h fs length = Ok (Some (n, f)) ->
     is_pointer (Field.f_type f) = false) ->
  s = length.
Proof.
  unfold length_expr. intros H Hp.
  destruct (length_field h fs length) as [[[n f]|]| |]; simpl in H;
    try discriminate H.
  - rewrite (Hp n f eq_refl), str_replace_same in H. congruence.
  - congruence.
Qed.

Definition ex_samples_expr : result string :=
  Eval cbv in
    length_expr ex_length_store ex_multisample "(rasterizationSamples + 31) / 32" None.

Lemma length_expr_without_object_witness :
  length_expr ex_length_store ex_multisample "(rasterizationSamples + 31) / 32" None
    = ex_samples_expr
  /\ match ex_samples_expr with
     | Ok s => s = "(rasterizationSamples + 31) / 32"
     | _ => False
     end.
Proof.
  split; [reflexivity|]. simpl.
  apply (length_expr_without_object ex_length_store ex_multisample
           "(rasterizationSamples + 31) / 32" "(rasterizationSamples + 31) / 32").
  - reflexivity.
  - intros n f H. vm_compute in H. injection H as _ <-. reflexivity.
Defined.

End LengthFacts.

(** ** The members of the structs after [__parse_types] *)

Module MemberFacts.

Import XML Catalog CatalogFacts StoreFacts Commands Registry Types ResolveFacts.

(** The members of a struct hold no reference any more. *)
Definition struct_resolved (o : obj) : Prop :=
  match kind o with
  | Struct _ members _ _ => all_resolved members
  | _ => True
  end.

(** From [h] to [h'] every object is what it was, a struct or not, and a
    struct whose members were resolved has them resolved still. *)
Definition step (h h' : store) : Prop :=
  List.length h' = List.length h
  /\ forall b o, h !! b = Some o ->
       exists o', h' !! b = Some o' /\ is_Struct o' = is_Struct o
                  /\ (struct_resolved o -> struct_resolved o').

Lemma step_refl h : step h h.
Proof. split; [reflexivity|]. intros b o Ho. exists o. auto. Qed.

Lemma step_trans h1 h2 h3 : step h1 h2 -> step h2 h3 -> step h1 h3.
Proof.
  intros [Hl12 H12] [Hl23 H23]. split; [congruence|].
  intros b o Ho. destruct (H12 b o Ho) as (o2 & Ho2 & Hs2 & Hr2).
  destruct (H23 b o2 Ho2) as (o3 & Ho3 & Hs3 & Hr3).
  exists o3. split; [exact Ho3|]. split; [congruence|auto].
Qed.

Lemma step_write h a o o' :
  h !! a = Some o -> is_Struct o' = is_Struct o ->
  (struct_resolved o -> struct_resolved o') ->
  step h (write h a o').
Proof.
  intros Ho Hs Hr. split; [apply length_write|].
  intros b ob Hb. rewrite read_write by (eapply lookup_lt; eauto).
  case_decide as E; [|exists ob; auto].
  subst b. assert (ob = o) by congruence. subst ob. exists o'. auto.
Qed.

Section resolve.
Variables (types : Py.dict Py.key addr) (fuel : nat).

Hypothesis below : forall h x h' x',
  resolve_object types fuel h x = Ok (h', x') -> step h h'.

Lemma field_step : forall t h h' t',
  resolve_type_of_field (resolve_object types fuel) types h t = Ok (h', t') ->
  step h h'.
Proof.
  induction t as [r|b|c b IH l|c b IH l p|c b IH|c b IH]; intros h h' t' H;
    simpl in H.
  - bind_step H as x Ex. injection H as <- <-. apply step_refl.
  - bind_step H as [h1 b'] Eb. injection H as <- <-. eapply below; eauto.
  - bind_step H as [h1 b'] Eb. injection H as <- <-. eapply IH; eauto.
  - bind_step H as [h1 b'] Eb. injection H as <- <-. eapply IH; eauto.
  - injection H as <- <-. apply step_refl.
  - bind_step H as [h1 b'] Eb. injection H as <- <-. eapply IH; eauto.
Qed.

Lemma fields_step : forall fs h h' fs',
  resolve_fields (resolve_object types fuel) types h fs = Ok (h', fs') ->
  step h h'.
Proof.
  induction fs as [|f fs IH]; intros h h' fs' H; simpl in H.
  - injection H as <- <-. apply step_refl.
  - bind_step H as [h1 t] Et. bind_step H as [h2 rest] Er.
    injection H as <- <-.
    eapply step_trans; [eapply field_step; eauto|eapply IH; eauto].
Qed.

Lemma object_step h x h' x' :
  resolve_object types (S fuel) h x = Ok (h', x') -> step h h'.
Proof.
  intros H. simpl in H. bind_step H as o Eo. apply read_Ok in Eo.
  destruct (kind o) as [r|[s|b0]| | |d [p|]| | | |u m sx eb|] eqn:Hk.
  - bind_step H as y Ey. injection H as <- <-. apply step_refl.
  - injection H as <- <-. apply step_refl.
  - bind_step H as [h1 b1] E1. bind_step H as o1 Eo1. injection H as <- <-.
    apply read_Ok in Eo1.
    pose proof (below _ _ _ _ E1) as Hs1.
    eapply step_trans; [exact Hs1|].
    destruct Hs1 as [_ Hs1]. destruct (Hs1 x o Eo) as (o1' & Ho1' & Hc & _).
    assert (o1' = o1) by congruence. subst o1'.
    apply (step_write _ _ o1); [exact Eo1| |].
    + unfold is_Struct in *. rewrite Hk in Hc. simpl. exact (eq_sym Hc).
    + intros _. exact I.
  - injection H as <- <-. apply step_refl.
  - injection H as <- <-. apply step_refl.
  - bind_step H as po Ep. destruct (kind po) as [r| | | | | | | | |];
      try (injection H as <- <-; apply step_refl).
    destruct (Field.opt_eqb r "").
    + injection H as <- <-.
      apply (step_write _ _ o); [exact Eo| |intros _; exact I].
      unfold is_Struct. rewrite Hk. reflexivity.
    + bind_step H as [h1 p1] E1. injection H as <- <-.
      pose proof (below _ _ _ _ E1) as Hs1.
      eapply step_trans; [exact Hs1|].
      destruct Hs1 as [_ Hs1]. destruct (Hs1 x o Eo) as (o1 & Ho1 & Hc & _).
      apply (step_write _ _ o1); [exact Ho1| |intros _; exact I].
      unfold is_Struct in *. rewrite Hk in Hc. simpl. exact (eq_sym Hc).
  - injection H as <- <-. apply step_refl.
  - injection H as <- <-. apply step_refl.
  - injection H as <- <-. apply step_refl.
  - injection H as <- <-. apply step_refl.
  - bind_step H as [h1 ms] E1. bind_step H as o1 Eo1. apply read_Ok in Eo1.
    destruct (kind o1) as [| | | | | | | |u1 m1 sx1 eb1|] eqn:Hk1;
      try discriminate H.
    injection H as <- <-.
    eapply step_trans; [eapply fields_step; exact E1|].
    apply (step_write _ _ o1); [exact Eo1| |].
    + unfold is_Struct. rewrite Hk1. reflexivity.
    + intros _. unfold struct_resolved. simpl.
      eapply resolve_fields_resolved. exact E1.
  - injection H as <- <-. apply step_refl.
Qed.

End resolve.

Lemma resolve_object_step types fuel : forall h x h' x',
  resolve_object types fuel h x = Ok (h', x') -> step h h'.
Proof.
  induction fuel as [|fuel IH]; intros h x h' x' H; [discriminate H|].
  eapply object_step; eauto.
Qed.

(** A struct that has been resolved has its members resolved. *)
Lemma resolve_object_struct types fuel h x h' x' o :
  resolve_object types fuel h x = Ok (h', x') ->
  h !! x = Some o -> is_Struct o = true ->
  exists o', h' !! x = Some o' /\ struct_resolved o'.
Proof.
  destruct fuel as [|fuel]; intros H Ho Hs; [discriminate H|].
  simpl in H. rewrite (read_Some _ _ _ Ho) in H. cbn [bind] in H.
  unfold is_Struct in Hs.
  destruct (kind o) as [| | | | | | | |u m sx eb|]; try discriminate Hs.
  bind_step H as [h1 ms] E1. bind_step H as o1 Eo1. apply read_Ok in Eo1.
  destruct (kind o1) as [| | | | | | | |u1 m1 sx1 eb1|]; try discriminate H.
  injection H as <- <-. eexists.
  split; [apply read_write_eq; eapply lookup_lt; exact Eo1|].
  unfold struct_resolved. simpl. eapply resolve_fields_resolved. exact E1.
Qed.

Lemma resolve_all_spec types fuel ts : forall h h',
  resolve_all types fuel h ts = Ok h' ->
  step h h'
  /\ forall t o, In t ts -> h !! t = Some o -> is_Struct o = true ->
       exists o', h' !! t = Some o' /\ struct_resolved o'.
Proof.
  induction ts as [|t0 ts IH]; intros h h' H; simpl in H.
  - injection H as <-. split; [apply step_refl|intros t o []].
  - bind_step H as [h1 t1] E1.
    pose proof (resolve_object_step _ _ _ _ _ _ E1) as Hs1.
    apply IH in H as [Hs Hall].
    split; [eapply step_trans; eauto|].
    intros t o [->|Hin] Ho Hstruct.
    + destruct (resolve_object_struct _ _ _ _ _ _ _ E1 Ho Hstruct)
        as (o1 & Ho1 & Hr1).
      destruct Hs as [_ Hs]. destruct (Hs t o1 Ho1) as (o' & Ho' & _ & Hr).
      exists o'. auto.
    + destruct Hs1 as [_ Hs1]. destruct (Hs1 t o Ho) as (o1 & Ho1 & Hc & _).
      apply (Hall t o1 Hin Ho1). congruence.
Qed.

(** The conversion of the struct extends leaves the members alone. *)
Lemma link_extends_step types t names : forall h h',
  link_extends h types t names = Ok h' -> step h h'.
Proof.
  induction names as [|se names IH]; intros h h' H; simpl in H.
  - injection H as <-. apply step_refl.
  - bind_step H as et Eet. bind_step H as eo Eeo. apply read_Ok in Eeo.
    destruct (kind eo) as [| | | | | | | |u m sx eb|] eqn:Hk; try discriminate H.
    eapply step_trans; [|eapply IH; exact H].
    destruct (existsb (Nat.eqb t) eb); [apply step_refl|].
    apply (step_write _ _ eo); [exact Eeo| |].
    + unfold is_Struct. rewrite Hk. reflexivity.
    + unfold struct_resolved. rewrite Hk. simpl. auto.
Qed.

Lemma convert_extends_step h types t h' :
  convert_extends h types t = Ok h' -> step h h'.
Proof.
  unfold convert_extends. intros H. bind_step H as o Eo.
  destruct (kind o) as [| | | | | | | |u m sx eb|];
    try (injection H as <-; apply step_refl).
  destruct sx as [names|[|? ?]];
    [|injection H as <-; apply step_refl|discriminate H].
  bind_step H as h1 El. bind_step H as objs Eobjs. bind_step H as o1 Eo1.
  apply read_Ok in Eo1.
  destruct (kind o1) as [| | | | | | | |u1 m1 sx1 eb1|] eqn:Hk1;
    try discriminate H.
  injection H as <-.
  eapply step_trans; [eapply link_extends_step; exact El|].
  apply (step_write _ _ o1); [exact Eo1| |].
  - unfold is_Struct. rewrite Hk1. reflexivity.
  - unfold struct_resolved. rewrite Hk1. simpl. auto.
Qed.

Lemma struct_extends_step types ts : forall h h',
  struct_extends h types ts = Ok h' -> step h h'.
Proof.
  induction ts as [|t ts IH]; intros h h' H; simpl in H.
  - injection H as <-. apply step_refl.
  - bind_step H as h1 E1.
    eapply step_trans; [eapply convert_extends_step; exact E1|eauto].
Qed.

(** X29: after [__parse_types] no member of a struct that the registry
    binds holds a reference still: every [TypeRef] in the type of a member
    has given way to the object of the catalog, unless it lies below a
    [NextPtr]. *)
Theorem members_resolved fuel c root h' types' aliases' k a o :
  __parse_types fuel c root = Ok (h', types', aliases') ->
  Py.get types' k = Some a ->
  h' !! a = Some o ->
  struct_resolved o.
Proof.
  unfold __parse_types. intros H Hk Ho.
  bind_step H as [[h1 types1] aliases1] Ep.
  bind_step H as h2 Er. bind_step H as h3 Ex.
  injection H as <- <- <-.
  apply resolve_all_spec in Er as [[Hl12 Hs12] Hall].
  apply struct_extends_step in Ex as [Hl23 Hs23].
  assert (Hlt : (a < List.length h1)%nat).
  { rewrite <- Hl12, <- Hl23. eapply lookup_lt. exact Ho. }
  destruct (read_lt _ _ Hlt) as [o1 Ho1].
  destruct (Hs12 a o1 Ho1) as (o2 & Ho2 & Hc12 & _).
  destruct (Hs23 a o2 Ho2) as (o3 & Ho3 & Hc23 & Hr23).
  assert (o3 = o) by congruence. subst o3.
  destruct (is_Struct o) eqn:Hstruct.
  - destruct (Hall a o1) as (o2' & Ho2' & Hr2); [|exact Ho1|congruence|].
    { unfold Py.values. apply in_map_iff. exists (k, a).
      split; [reflexivity|]. apply DictFacts.get_In. exact Hk. }
    apply Hr23. congruence.
  - unfold struct_resolved. unfold is_Struct in Hstruct.
    destruct (kind o); try exact I. discriminate Hstruct.
Qed.

(** [VkBaseInStructure] refers to itself and to VkStructureType, which the
    document defines after it. *)
Definition ex_types_root : Element :=
  mkElement "registry" [] None
    [ mkElement "types" [] None
        [ mkElement "type" [("category", "struct"); ("name", "VkBaseInStructure")] None
            [ Field.member [] None
                [Field.leaf "type" "VkStructureType" (Some " ");
                 Field.leaf "name" "sType" None];
              Field.member [] (Some "const struct ")
                [Field.leaf "type" "VkBaseInStructure" (Some "* ");
                 Field.leaf "name" "pNext" None] ] None ] None ] None.

Definition ex_members_parsed : catalog :=
  Eval cbv in
    match __parse_types 3 ([mkObj (Some "VkStructureType") [] None (Enum [] false 32)],
                           [(Some "VkStructureType", 0%nat)], [])
                        ex_types_root with
    | Ok c => c
    | _ => ([], [], [])
    end.

Lemma members_resolved_witness :
  Py.get ex_members_parsed.1.2 (Some "VkBaseInStructure") = Some 1%nat
  /\ struct_resolved
       (mkObj (Some "VkBaseInStructure") [] (nth_error (findall_path ex_types_root ["types"; "type"]) 0)
          (Struct false
             [ Field.mkField (Some "sType") (Field.Obj 0%nat) false false None []
                 (Field.member [] None
                    [Field.leaf "type" "VkStructureType" (Some " ");
                     Field.leaf "name" "sType" None]);
               Field.mkField (Some "pNext") (Field.Pointer true (Field.Obj 1%nat))
                 false false None []
                 (Field.member [] (Some "const struct ")
                    [Field.leaf "type" "VkBaseInStructure" (Some "* ");
                     Field.leaf "name" "pNext" None]) ]
             (ByObject []) [])).
Proof.
  split; [reflexivity|].
  apply (members_resolved 3
           ([mkObj (Some "VkStructureType") [] None (Enum [] false 32)],
            [(Some "VkStructureType", 0%nat)], [])
           ex_types_root ex_members_parsed.1.1 ex_members_parsed.1.2
           ex_members_parsed.2 (Some "VkBaseInStructure") 1%nat);
    reflexivity.
Defined.

End MemberFacts.

(** ** The aliases among the values of an enum *)

Module ValueAliasFacts.

Import XML Catalog CatalogFacts StoreFacts Enums Registry.

(** The object is no alias, or an alias that points to one of [values]. *)
Definition points_into (values : Py.dict Py.key addr) (o : obj) : Prop :=
  forall t, kind o = TypeAlias t ->
    exists b kb, t = AliasObj b /\ In (kb, b) values.

Lemma points_into_later values items h h2 a o :
  resolve_value_aliases h values items = Ok h2 ->
  h !! a = Some o -> points_into values o ->
  exists o2, h2 !! a = Some o2 /\ points_into values o2.
Proof.
  intros H Ho Hp.
  destruct (IntegerValues.resolve_value_aliases_inv _ _ _ _ H a o Ho)
    as (o2 & Ho2 & _ & [->|(s & b & kb & Hk & _)]).
  - exists o. auto.
  - destruct (Hp _ Hk) as (b' & kb' & Hb & _). discriminate Hb.
Qed.

Lemma resolve_value_aliases_all values items : forall h h2,
  resolve_value_aliases h values items = Ok h2 ->
  forall k a, In (k, a) items ->
    exists o2, h2 !! a = Some o2 /\ points_into values o2.
Proof.
  induction items as [|[k0 ev] items IH]; intros h h2 H k a Hin; simpl in H;
    [destruct Hin|].
  bind_step H as o Eo. apply read_Ok in Eo.
  destruct Hin as [[= <- <-]|Hin].
  - destruct (kind o) as [|[s|b]| | | | | | | |] eqn:Hk;
      try (eapply points_into_later; [exact H|exact Eo|];
           intros t Ht; rewrite Hk in Ht; discriminate Ht).
    + bind_step H as target Et. apply or_raise_Ok_inv in Et.
      eapply points_into_later; [exact H| |].
      * apply read_write_eq. eapply lookup_lt. exact Eo.
      * intros t Ht. simpl in Ht. injection Ht as <-.
        exists target, s. split; [reflexivity|].
        apply DictFacts.get_In. exact Et.
    + discriminate H.
  - destruct (kind o) as [|[s|b]| | | | | | | |];
      try (eapply IH; [exact H|exact Hin]).
    + bind_step H as target Et. eapply IH; [exact H|exact Hin].
    + discriminate H.
Qed.

(** X30: when the aliases among the values of an enum have been resolved,
    at the end of [__parse_features], none of them holds a bare name any
    more: each points to an object that is a value of the same enum. *)
Theorem value_aliases_resolved h e h2 k a :
  resolve_enum_aliases h e = Ok h2 ->
  In (k, a) (values_of h e) ->
  exists o2, h2 !! a = Some o2 /\ points_into (values_of h e) o2.
Proof.
  unfold resolve_enum_aliases, values_of. intros H Hin.
  bind_step H as o Eo. apply read_Ok in Eo. rewrite Eo in *.
  destruct (kind o) as [| | | | | |values bm bw| | |]; try destruct Hin.
  eapply resolve_value_aliases_all; eauto.
Qed.

Lemma value_aliases_resolved_witness :
  exists o2, ex_resolved !! 3%nat = Some o2
             /\ points_into (values_of ex_parsed 0%nat) o2.
Proof.
  apply (value_aliases_resolved ex_parsed 0%nat ex_resolved (Some "VK_SAMPLE_C") 3%nat).
  - reflexivity.
  - simpl. auto.
Defined.

End ValueAliasFacts.
